(** * genprotimg: the protected-virtualization image builder of s390-tools

    A shallow embedding of the parts of [genprotimg] that lay out, measure
    and emit a protected image (pv_args.c, pv_comp.c, pv_comps.c, pv_hdr.c,
    pv_image.c,
    utils/align.h, utils/buffer.c, utils/crypto.c, utils/file_utils.c),
    followed by the properties of that code.

    Conventions of the embedding:
    - a C unsigned integer of width w is a [Z] in [0, 2^w); every
      operation that can wrap has its reduction written out;
    - a byte is a [Z] in [0, 256), a memory area is a [list byte];
    - a function that returns -1/NULL, aborts on a [g_assert], or loops
      is a function into [outcome];
    - OpenSSL is a collaborator: digests, ciphers and key agreement are
      the methods of a class, the code around them is embedded as it is;
      constants of headers that are not among the sources are methods of
      classes too. *)

From Stdlib Require Import String ZArith List Lia Bool.
Import ListNotations.
Open Scope Z_scope.

Set Implicit Arguments.

(* ================================================================== *)
(** ** Machine integers and bytes *)

Definition byte := Z.

Definition UINT32_MAX : Z := 2 ^ 32 - 1.
Definition UINT64_MAX : Z := 2 ^ 64 - 1.
Definition INT64_MAX : Z := 2 ^ 63 - 1.
Definition LONG_MAX : Z := 2 ^ 63 - 1.

Definition wrap32 (x : Z) : Z := x mod 2 ^ 32.
Definition wrap64 (x : Z) : Z := x mod 2 ^ 64.

Definition is_uint64 (x : Z) : Prop := 0 <= x <= UINT64_MAX.

(** The [n] low bytes of [v], most significant first: the memory image of
    GUINT16/32/64_TO_BE on every host. *)
Fixpoint be_bytes (n : nat) (v : Z) : list byte :=
  match n with
  | O => []
  | S k => (v / 2 ^ (8 * Z.of_nat k)) mod 256 :: be_bytes k v
  end.

(** The unsigned value of a big-endian byte string (BN_bin2bn). *)
Definition be_value (bs : list byte) : Z :=
  fold_left (fun acc b => acc * 256 + b) bs 0.

Definition Buffer := list byte.
Definition buf_size (b : Buffer) : Z := Z.of_nat (length b).

Definition zeros (n : nat) : list byte := repeat 0 n.

(* ================================================================== *)
(** ** Results of fallible code *)

(** pv_error.h: error domains and the codes of their enums. *)
Inductive GQuark : Type :=
| PV_ERROR | PV_COMPONENT_ERROR | PV_IMAGE_ERROR | PV_CRYPTO_ERROR | G_FILE_ERROR.

Definition PV_ERROR_IPIB_SIZE : Z := 0.
Definition PV_ERROR_INTERNAL : Z := 1.
Definition PV_COMPONENT_ERROR_UNALIGNED : Z := 0.
Definition PV_COMPONENT_ERROR_FINALIZED : Z := 1.
Definition PV_IMAGE_ERROR_OFFSET : Z := 0.
Definition PV_CRYPTO_ERROR_READ_CERTIFICATE : Z := 2.
Definition PV_CRYPTO_ERROR_INTERNAL : Z := 3.
(** g_file_error_from_errno(ENOENT) *)
Definition G_FILE_ERROR_NOENT : Z := 4.

(** What g_set_error stores: domain, code and the message format. *)
Record GError : Type := { domain : GQuark; code : Z; message : string }.

(** [Ok a]: normal return.  [Fail (Some e)]: -1 or NULL with [*err] set to
    [e].  [Fail None]: -1 or NULL with [*err] left untouched (the
    g_return_val_if_fail guard).  [Abort]: g_assert, g_abort.
    [Timeout]: the fuel of a loop ran out. *)
Inductive outcome (A : Type) : Type :=
| Ok (a : A)
| Fail (e : option GError)
| Abort
| Timeout.

Arguments Ok {A} a.
Arguments Fail {A} e.
Arguments Abort {A}.
Arguments Timeout {A}.

Definition bind {A B : Type} (m : outcome A) (k : A -> outcome B) : outcome B :=
  match m with
  | Ok a => k a
  | Fail e => Fail e
  | Abort => Abort
  | Timeout => Timeout
  end.

Notation "x <- m ;; k" := (bind m (fun x => k))
  (at level 61, m at next level, right associativity).
Notation "'do' m ;; k" := (bind m (fun _ => k))
  (at level 61, m at next level, right associativity).

(** Whether a call returned normally. *)
Definition is_ok {A : Type} (m : outcome A) : bool :=
  match m with Ok _ => true | _ => false end.

(** g_assert(c) *)
Definition g_assert (c : bool) : outcome unit :=
  if c then Ok tt else Abort.

(** g_uint_checked_add / g_uint_checked_mul (32 bit) and
    g_uint64_checked_add, each under g_assert_true. *)
Definition g_uint_checked_add (a b : Z) : outcome Z :=
  if a + b <=? UINT32_MAX then Ok (a + b) else Abort.
Definition g_uint_checked_mul (a b : Z) : outcome Z :=
  if a * b <=? UINT32_MAX then Ok (a * b) else Abort.
Definition g_uint64_checked_add (a b : Z) : outcome Z :=
  if a + b <=? UINT64_MAX then Ok (a + b) else Abort.

(* ================================================================== *)
(** ** utils/align.h *)

(** Modelled from the spec: PAGE_SIZE of boot/s390.h, which is not among
    the sources; the spec fixes a page at 4096 bytes. *)
Definition PAGE_SIZE : Z := 4096.

(** #define ALIGN(addr, size) ((addr + size - 1) & (~(size - 1))).  The
    sum is taken in 64 bits; the mask is complemented in the [w] bits of
    the type of [size] and zero-extended. *)
Definition ALIGN (w : Z) (addr size : Z) : Z :=
  Z.land (wrap64 (addr + size - 1)) (Z.lnot (size - 1) mod 2 ^ w).

(** #define IS_ALIGNED(addr, size) (!(addr & (size - 1))) *)
Definition IS_ALIGNED (addr size : Z) : bool :=
  Z.land addr (size - 1) =? 0.

Definition PAGE_ALIGN (addr : Z) : Z := ALIGN 64 (wrap64 addr) PAGE_SIZE.
Definition IS_PAGE_ALIGNED (addr : Z) : bool := IS_ALIGNED (wrap64 addr) PAGE_SIZE.

(* ================================================================== *)
(** ** common.h *)

Definition PSW_SHORT_ADDR_MASK : Z := 0x000000007FFFFFFF.
Definition PSW_MASK_BA : Z := 0x0000000080000000.
Definition PSW_MASK_EA : Z := 0x0000000100000000.
Definition PSW_MASK_BIT_12 : Z := 0x0008000000000000.
Definition DEFAULT_INITIAL_PSW_MASK : Z := Z.lor PSW_MASK_EA PSW_MASK_BA.

(** struct psw_t of boot/s390.h, as pv_image.c and pv_hdr.c use it. *)
Record psw_t : Type := { mask : Z; addr : Z }.

(* ================================================================== *)
(** ** Files *)

(** The file system seen by the tool: path to content, newest binding
    first. *)
Definition filesystem := list (string * list byte).

Fixpoint fs_lookup (fs : filesystem) (p : string) : option (list byte) :=
  match fs with
  | [] => None
  | (q, c) :: rest => if String.eqb p q then Some c else fs_lookup rest p
  end.

Definition fs_store (fs : filesystem) (p : string) (c : list byte) : filesystem :=
  (p, c) :: fs.

(** file_open(path, "rb"): the unread rest of the file. *)
Definition file_open_rb (fs : filesystem) (p : string) : outcome (list byte) :=
  match fs_lookup fs p with
  | Some c => Ok c
  | None => Fail (Some {| domain := G_FILE_ERROR; code := G_FILE_ERROR_NOENT;
                          message := "Failed to open file '%s': %s" |})
  end.

(** A source that is opened first and then truncated by opening the same
    path for writing reads as empty. *)
Definition open_in_out (fs : filesystem) (path_in path_out : string)
  : outcome (list byte) :=
  c <- file_open_rb fs path_in ;;
  Ok (if String.eqb path_in path_out then [] else c).

(** file_size: g_stat on a regular file. *)
Definition file_size (fs : filesystem) (p : string) : outcome Z :=
  match fs_lookup fs p with
  | Some c => Ok (Z.of_nat (length c))
  | None => Fail (Some {| domain := G_FILE_ERROR; code := G_FILE_ERROR_NOENT;
                          message := "Failed to stat file '%s': %s" |})
  end.

(** file_read(in, buf, 1, count, &count_read): the bytes read and the
    rest of the stream. *)
Definition file_read (s : list byte) (count : Z) : list byte * list byte :=
  (firstn (Z.to_nat count) s, skipn (Z.to_nat count) s).

(** [n] bytes holding [bs] followed by zeros: memset(buf, 0, n) and a
    read of [bs] into it. *)
Definition pad_to (n : nat) (bs : list byte) : list byte :=
  bs ++ zeros (n - length bs).

(** An output stream: position and content. *)
Record FILE : Type := { pos : Z; content : list byte }.

(** file_open(path, "wb") *)
Definition file_open_wb : FILE := {| pos := 0; content := [] |}.

(** The content after writing [bs] at offset [p]; a gap left by a seek
    past the end reads as zeros. *)
Definition write_at (c : list byte) (p : Z) (bs : list byte) : list byte :=
  let n := Z.to_nat p in
  firstn n c ++ zeros (n - length c) ++ bs ++ skipn (n + length bs) c.

(** file_write(out, ptr, size, count, ...) with size * count = |bs|. *)
Definition file_write (f : FILE) (bs : list byte) : FILE :=
  {| pos := pos f + Z.of_nat (length bs); content := write_at (content f) (pos f) bs |}.

(** file_seek *)
Definition file_seek (f : FILE) (offset : Z) : outcome FILE :=
  if offset >? LONG_MAX
  then Fail (Some {| domain := PV_ERROR; code := 0; message := "Offset is too large" |})
  else Ok {| pos := offset; content := content f |}.

(** The [len] bytes of [c] from offset [p]. *)
Definition bytes_at (c : list byte) (p : Z) (len : nat) : list byte :=
  firstn len (skipn (Z.to_nat p) c).

(* ================================================================== *)
(** ** utils/buffer.c *)

(** buffer_dup: a copy, 0-right-padded to a page multiple on request. *)
Definition buffer_dup (buf : Buffer) (page_aligned : bool) : Buffer :=
  let size := if page_aligned then PAGE_ALIGN (buf_size buf) else buf_size buf in
  pad_to (Z.to_nat size) buf.

(** g_file_error_from_errno(0) *)
Definition G_FILE_ERROR_FAILED : Z := 24.

(** buffer_write: file_write of one item of [buf->size] bytes.  fwrite
    returns the number of items it wrote, and that is 0, not the 1 that
    file_write expects, for an item of no bytes: an empty buffer cannot
    be written.  fwrite leaves errno alone then; the code of the error
    is the one of an errno of 0. *)
Definition buffer_write (buf : Buffer) (file : FILE) : FILE * outcome unit :=
  if buf_size buf =? 0
  then (file, Fail (Some {| domain := G_FILE_ERROR; code := G_FILE_ERROR_FAILED;
                            message := "Failed to write: '%s'" |}))
  else (file_write file buf, Ok tt).

(** seek_and_write_buffer *)
Definition seek_and_write_buffer (o : FILE) (buf : Buffer) (offset : Z)
  : FILE * outcome unit :=
  match file_seek o offset with
  | Ok o1 => buffer_write buf o1
  | Fail e => (o, Fail e)
  | Abort => (o, Abort)
  | Timeout => (o, Timeout)
  end.

(* ================================================================== *)
(** ** OpenSSL, the collaborator of utils/crypto.c *)

Definition AES_BLOCK_SIZE : Z := 16.
Definition SHA256_DIGEST_LENGTH : Z := 32.
Definition SHA512_DIGEST_LENGTH : Z := 64.
Definition AES_256_GCM_IV_SIZE : Z := 12.
Definition AES_256_GCM_KEY_SIZE : Z := 32.
Definition AES_256_GCM_TAG_SIZE : Z := 16.
Definition AES_256_XTS_TWEAK_SIZE : Z := 16.
Definition AES_256_XTS_KEY_SIZE : Z := 64.

(** sizeof(union ecdh_pub_key) of include/pv_crypto_defs.h, which is not
    among the sources: the size of a public key in the format of the
    header. *)
Class PvCryptoDefs : Type := {
  sizeof_ecdh_pub_key : Z;
  sizeof_ecdh_pub_key_nonneg : 0 <= sizeof_ecdh_pub_key
}.

(** The primitives the tool calls.  [aes_256_xts key tweak page] is one
    EVP_CipherUpdate under a freshly set tweak; XTS emits as many bytes as
    it is given and EVP_CipherFinal_ex emits none.  [aes_256_gcm key iv aad
    pt] is the ciphertext and the tag of the requested size.
    [EVP_CipherInit_ex key iv] tells whether EVP_CipherInit_ex(ctx, NULL,
    NULL, key, iv, 1) on the AES-256-XTS context returns 1, [None] being
    a NULL key: OpenSSL refuses an XTS key whose two halves are equal. *)
Class OpenSSL `{PvCryptoDefs} : Type := {
  EVP_PKEY : Type;
  sha256 : list byte -> list byte;
  sha512 : list byte -> list byte;
  derive_key : EVP_PKEY -> EVP_PKEY -> outcome Buffer;
  evp_pkey_to_ecdh_pub_key : EVP_PKEY -> outcome (list byte);
  read_ec_pubkey_cert : string -> outcome EVP_PKEY;
  aes_256_gcm : list byte -> list byte -> list byte -> list byte -> list byte * list byte;
  aes_256_xts : list byte -> list byte -> list byte -> list byte;
  EVP_CipherInit_ex : option (list byte) -> list byte -> bool;
  sha256_length : forall d, buf_size (sha256 d) = SHA256_DIGEST_LENGTH;
  sha512_length : forall d, buf_size (sha512 d) = SHA512_DIGEST_LENGTH;
  ecdh_pub_key_length : forall k d,
      evp_pkey_to_ecdh_pub_key k = Ok d -> buf_size d = sizeof_ecdh_pub_key;
  aes_256_gcm_length : forall key iv aad pt,
      length (fst (aes_256_gcm key iv aad pt)) = length pt;
  aes_256_gcm_tag_length : forall key iv aad pt,
      buf_size (snd (aes_256_gcm key iv aad pt)) = AES_256_GCM_TAG_SIZE;
  aes_256_xts_length : forall key tweak page,
      length (aes_256_xts key tweak page) = length page
}.

(** BN_num_bytes of a non-negative number. *)
Definition BN_num_bytes (n : Z) : Z :=
  if n <=? 0 then 0 else Z.log2 n / 8 + 1.

(** BN_bn2binpad(n, tmp, len) into a zeroed [tmp]: on failure (the number
    does not fit) [tmp] keeps its zeros. *)
Definition BN_bn2binpad (n : Z) (len : nat) : list byte :=
  if BN_num_bytes n <=? Z.of_nat len then be_bytes len n else zeros len.

(* ================================================================== *)
(** ** pv_comp.c: components *)

Inductive PvComponentType : Type :=
| PV_COMP_TYPE_KERNEL
| PV_COMP_TYPE_INITRD
| PV_COMP_TYPE_CMDLINE
| PV_COMP_TYPE_STAGE3B.

(** struct comp_file *)
Record CompFile : Type := { path : string; size : Z }.

(** The union of buf and file, tagged by d_type. *)
Inductive CompData : Type :=
| DATA_BUFFER (buf : Buffer)
| DATA_FILE (file : CompFile).

(** PvComponent.  The tweak is its 16 bytes, stored big endian. *)
Record PvComponent : Type := {
  type : PvComponentType;
  data : CompData;
  src_addr : Z;
  orig_size : Z;
  tweak : list byte
}.

Definition set_data (c : PvComponent) (d : CompData) : PvComponent :=
  {| type := type c; data := d; src_addr := src_addr c;
     orig_size := orig_size c; tweak := tweak c |}.

Definition set_src_addr (c : PvComponent) (a : Z) : PvComponent :=
  {| type := type c; data := data c; src_addr := a;
     orig_size := orig_size c; tweak := tweak c |}.

Definition pv_component_type (c : PvComponent) : PvComponentType := type c.

Definition pv_component_name (c : PvComponent) : string :=
  match pv_component_type c with
  | PV_COMP_TYPE_KERNEL => "kernel"
  | PV_COMP_TYPE_INITRD => "ramdisk"
  | PV_COMP_TYPE_CMDLINE => "parmline"
  | PV_COMP_TYPE_STAGE3B => "stage3b"
  end.

Definition pv_component_size (c : PvComponent) : Z :=
  match data c with
  | DATA_BUFFER buf => buf_size buf
  | DATA_FILE file => size file
  end.

Definition pv_component_get_src_addr (c : PvComponent) : Z := src_addr c.
Definition pv_component_get_orig_size (c : PvComponent) : Z := orig_size c.

Definition pv_component_is_stage3b (c : PvComponent) : bool :=
  match pv_component_type c with
  | PV_COMP_TYPE_STAGE3B => true
  | _ => false
  end.

(** g_build_filename(tmp_path, comp_name, NULL) *)
Definition g_build_filename (dir name : string) : string :=
  (dir ++ "/" ++ name)%string.

(* ------------------------------------------------------------------ *)
(** *** utils/file_utils.c: pad_file_right *)

(** The loop of pad_file_right: every round reads up to [padding] bytes
    into a zeroed block and writes the whole block.  Returns the output,
    [*size_out] and the last num_bytes_read. *)
Fixpoint pad_file_right_loop (fuel : nat) (f_in : list byte) (padding : Z)
    (f_out : list byte) (size_out : Z) : outcome (list byte * Z * Z) :=
  match fuel with
  | O => Timeout
  | S fuel' =>
      let '(rd, rest) := file_read f_in padding in
      let num_bytes_read := Z.of_nat (length rd) in
      let blk := pad_to (Z.to_nat padding) rd in
      let f_out' := f_out ++ blk in
      let size_out' := size_out + Z.of_nat (length blk) in
      if num_bytes_read =? padding
      then pad_file_right_loop fuel' rest padding f_out' size_out'
      else Ok (f_out', size_out', num_bytes_read)
  end.

(** pad_file_right(f_out, f_in, &size_out, padding, err); the final
    g_assert compares the last write with ALIGN of the last read. *)
Definition pad_file_right (f_in : list byte) (padding : Z) : outcome (list byte * Z) :=
  r <- pad_file_right_loop (length f_in + 1) f_in padding [] 0 ;;
  let '(f_out, size_out, num_bytes_read) := r in
  do g_assert (padding =? ALIGN 32 num_bytes_read padding) ;;
  Ok (f_out, size_out).

(* ------------------------------------------------------------------ *)
(** *** utils/crypto.c: page-wise XTS *)

(** struct cipher_parms *)
Record cipher_parms : Type := {
  parms_key : list byte;
  parms_tweak : list byte;
  parms_padding : Z
}.

Definition cipher_init_error : GError :=
  {| domain := PV_CRYPTO_ERROR; code := PV_CRYPTO_ERROR_INTERNAL;
     message := "EVP_CipherInit_ex failed" |}.

(** The loop of __encrypt_decrypt_bio.  State: the input BIO, the output
    BIO, tmp_size_in, tmp_size_out, the tweak array and tweak_num. *)
Fixpoint encrypt_bio_loop `{OpenSSL} (fuel : nat) (key : list byte) (b_in b_out : list byte)
    (tmp_size_in tmp_size_out : Z) (tweak : list byte) (tweak_num : Z)
  : outcome (list byte * Z * Z) :=
  match fuel with
  | O => Timeout
  | S fuel' =>
      let '(rd, rest) := file_read b_in PAGE_SIZE in
      let num_bytes_read := Z.of_nat (length rd) in
      let in_buf := pad_to (Z.to_nat PAGE_SIZE) rd in
      let tmp_size_in' := tmp_size_in + num_bytes_read in
      if (num_bytes_read =? 0) && negb (tmp_size_in' =? 0)
      then Ok (b_out, tmp_size_in', tmp_size_out)
      else
        let out_buf := aes_256_xts key tweak in_buf in
        let b_out' := b_out ++ out_buf in
        let tmp_size_out' := tmp_size_out + Z.of_nat (length out_buf) in
        let tweak_num' := tweak_num + PAGE_SIZE in
        do g_assert (0 <? BN_num_bytes tweak_num') ;;
        do g_assert (BN_num_bytes tweak_num' <=? AES_256_XTS_TWEAK_SIZE) ;;
        let tweak' := be_bytes 16 tweak_num' in
        (* set new tweak *)
        if negb (EVP_CipherInit_ex None tweak') then Fail (Some cipher_init_error)
        else if num_bytes_read =? PAGE_SIZE
        then encrypt_bio_loop fuel' key rest b_out' tmp_size_in' tmp_size_out'
                              tweak' tweak_num'
        else Ok (b_out', tmp_size_in', tmp_size_out')
  end.

(** __encrypt_decrypt_bio with encrypt = true: the output, [*size_in] and
    [*size_out]. *)
Definition encrypt_bio `{OpenSSL} (parms : cipher_parms) (b_in : list byte)
  : outcome (list byte * Z * Z) :=
  (* Now we can set the key and tweak *)
  if negb (EVP_CipherInit_ex (Some (parms_key parms)) (parms_tweak parms))
  then Fail (Some cipher_init_error)
  else
    encrypt_bio_loop (length b_in + 1) (parms_key parms) b_in [] 0 0
                     (parms_tweak parms) (be_value (parms_tweak parms)).

(** encrypt_buf.  The data of an empty Buffer is NULL (g_malloc0(0)),
    BIO_new_mem_buf refuses it, and the function calls g_abort. *)
Definition encrypt_buf `{OpenSSL} (parms : cipher_parms) (buf : Buffer) : outcome Buffer :=
  do g_assert (buf_size buf <=? 2 ^ 31 - 1) ;;
  do (if buf_size buf =? 0 then Abort else Ok tt) ;;
  r <- encrypt_bio parms buf ;;
  let '(out, _, _) := r in
  Ok out.

(** encrypt_file: the new file system, [*in_size] and [*out_size]. *)
Definition encrypt_file `{OpenSSL} (parms : cipher_parms) (fs : filesystem)
    (path_in path_out : string) : outcome (filesystem * Z * Z) :=
  match fs_lookup fs path_in with
  | None => Fail (Some {| domain := PV_CRYPTO_ERROR;
                          code := PV_CRYPTO_ERROR_READ_CERTIFICATE;
                          message := "Failed to read file: '%s'" |})
  | Some c =>
      let b_in := if String.eqb path_in path_out then [] else c in
      r <- encrypt_bio parms b_in ;;
      let '(out, size_in, size_out) := r in
      Ok (fs_store fs path_out out, size_in, size_out)
  end.

(* ------------------------------------------------------------------ *)
(** *** pv_comp.c: preparing a component *)

Definition file_changed_error (fmt : string) : GError :=
  {| domain := G_FILE_ERROR; code := PV_ERROR_INTERNAL; message := fmt |}.

(** pv_component_align_and_encrypt *)
Definition pv_component_align_and_encrypt `{OpenSSL} (component : PvComponent)
    (tmp_path : string) (parms : cipher_parms) (fs : filesystem)
  : outcome (PvComponent * filesystem) :=
  match data component with
  | DATA_BUFFER buf =>
      let buf1 := if negb (IS_PAGE_ALIGNED (pv_component_size component))
                  then buffer_dup buf true else buf in
      enc_buf <- encrypt_buf parms buf1 ;;
      Ok (set_data component (DATA_BUFFER enc_buf), fs)
  | DATA_FILE file =>
      let path_in := path file in
      let path_out := g_build_filename tmp_path (pv_component_name component) in
      r <- encrypt_file parms fs path_in path_out ;;
      let '(fs', orig_size', prep_size) := r in
      if negb (orig_size component =? orig_size')
      then Fail (Some (file_changed_error "File has changed during the preparation '%s'"))
      else Ok (set_data component (DATA_FILE {| path := path_out; size := prep_size |}), fs')
  end.

(** pv_component_align: page align the size of the component *)
Definition pv_component_align (component : PvComponent) (tmp_path : string)
    (fs : filesystem) : outcome (PvComponent * filesystem) :=
  if IS_PAGE_ALIGNED (pv_component_size component) then Ok (component, fs)
  else
    match data component with
    | DATA_BUFFER buf =>
        Ok (set_data component (DATA_BUFFER (buffer_dup buf true)), fs)
    | DATA_FILE file =>
        let path_in := path file in
        let path_out := g_build_filename tmp_path (pv_component_name component) in
        f_in <- open_in_out fs path_in path_out ;;
        r <- pad_file_right f_in PAGE_SIZE ;;
        let '(f_out, size_out) := r in
        Ok (set_data component (DATA_FILE {| path := path_out; size := size_out |}),
            fs_store fs path_out f_out)
    end.

(* ------------------------------------------------------------------ *)
(** *** pv_comp.c: measuring a component *)

(** A digest context is the bytes absorbed so far; EVP_DigestUpdate
    appends. *)
Definition EVP_MD_CTX := list byte.
Definition EVP_DigestUpdate (ctx : EVP_MD_CTX) (d : list byte) : EVP_MD_CTX := ctx ++ d.

(** The do-while of pv_component_update_ald; [bound] is addr + size as
    the 64-bit sum the condition evaluates. *)
Fixpoint update_ald_loop (fuel : nat) (ctx : EVP_MD_CTX) (cur bound nep : Z)
  : outcome (Z * EVP_MD_CTX) :=
  match fuel with
  | O => Timeout
  | S fuel' =>
      let ctx' := EVP_DigestUpdate ctx (be_bytes 8 cur) in
      let cur' := wrap64 (cur + PAGE_SIZE) in
      let nep' := nep + 1 in
      if cur' <? bound then update_ald_loop fuel' ctx' cur' bound nep'
      else Ok (nep', ctx')
  end.

(** pv_component_update_ald *)
Definition pv_component_update_ald (fuel : nat) (comp : PvComponent) (ctx : EVP_MD_CTX)
  : outcome (Z * EVP_MD_CTX) :=
  let addr := pv_component_get_src_addr comp in
  let size := pv_component_size comp in
  update_ald_loop fuel ctx addr (wrap64 (addr + size)) 0.

(** The do-while of the DATA_FILE case of pv_component_update_pld. *)
Fixpoint update_pld_file_loop (fuel : nat) (ctx : EVP_MD_CTX) (f_in : list byte)
    (size num_bytes_read_total nep : Z) : outcome (Z * Z * EVP_MD_CTX) :=
  match fuel with
  | O => Timeout
  | S fuel' =>
      let '(rd, rest) := file_read f_in PAGE_SIZE in
      let num_bytes_read := Z.of_nat (length rd) in
      let total := num_bytes_read_total + num_bytes_read in
      let ctx' := EVP_DigestUpdate ctx (pad_to (Z.to_nat PAGE_SIZE) rd) in
      let nep' := nep + 1 in
      if (total <? size) && negb (num_bytes_read =? 0)
      then update_pld_file_loop fuel' ctx' rest size total nep'
      else Ok (nep', total, ctx')
  end.

(** pv_component_update_pld: the context as the call leaves it, and the
    returned page count. *)
Definition pv_component_update_pld (fs : filesystem) (comp : PvComponent)
    (ctx : EVP_MD_CTX) : EVP_MD_CTX * outcome Z :=
  match data comp with
  | DATA_BUFFER buf =>
      let quot := buf_size buf / PAGE_SIZE in
      let remaind := buf_size buf mod PAGE_SIZE in
      if negb (quot <=? INT64_MAX) then (ctx, Abort)
      else
        (* case `buf->size == 0` *)
        let nep := if quot =? 0 then 1 else quot in
        let ctx1 := EVP_DigestUpdate ctx (firstn (Z.to_nat (quot * PAGE_SIZE)) buf) in
        if negb (remaind =? 0)
        then
          let in_buf := pad_to (Z.to_nat PAGE_SIZE)
                               (firstn (Z.to_nat remaind)
                                       (skipn (Z.to_nat (quot * PAGE_SIZE)) buf)) in
          (EVP_DigestUpdate ctx1 in_buf, Ok (nep + 1))
        else (ctx1, Ok nep)
  | DATA_FILE file =>
      match file_open_rb fs (path file) with
      | Ok f_in =>
          match update_pld_file_loop (length f_in + 1) ctx f_in
                                     (pv_component_size comp) 0 0 with
          | Ok (nep, total, ctx') =>
              if negb (total =? pv_component_size comp)
              then (ctx', Fail (Some (file_changed_error
                                        "File '%s' has changed during the preparation")))
              else (ctx', Ok nep)
          | Fail e => (ctx, Fail e)
          | Abort => (ctx, Abort)
          | Timeout => (ctx, Timeout)
          end
      | Fail e => (ctx, Fail e)
      | Abort => (ctx, Abort)
      | Timeout => (ctx, Timeout)
      end
  end.

(** The for loop of pv_component_update_tld; the g_assert on
    sizeof(tmp) - BN_num_bytes is an unsigned comparison. *)
Fixpoint update_tld_loop (fuel : nat) (ctx : EVP_MD_CTX) (size cur tweak_num nep : Z)
  : outcome (Z * EVP_MD_CTX) :=
  match fuel with
  | O => Timeout
  | S fuel' =>
      if (cur <? size) || (cur =? 0)
      then
        do g_assert (0 <=? BN_num_bytes tweak_num) ;;
        do g_assert (0 <? wrap64 (16 - wrap32 (BN_num_bytes tweak_num))) ;;
        let tmp := BN_bn2binpad tweak_num 16 in
        let ctx' := EVP_DigestUpdate ctx tmp in
        update_tld_loop fuel' ctx' size (wrap64 (cur + PAGE_SIZE))
                        (tweak_num + PAGE_SIZE) (nep + 1)
      else Ok (nep, ctx)
  end.

(** pv_component_update_tld *)
Definition pv_component_update_tld (fuel : nat) (comp : PvComponent) (ctx : EVP_MD_CTX)
  : outcome (Z * EVP_MD_CTX) :=
  update_tld_loop fuel ctx (pv_component_size comp) 0 (be_value (tweak comp)) 0.

(* ================================================================== *)
(** ** pv_comps.c: the component collection *)

(** struct _pv_img_comps; the list holds the components in insertion
    order. *)
Record PvImgComps : Type := {
  finalized : bool;
  next_src : Z;
  nep : Z;
  ald : EVP_MD_CTX;
  pld : EVP_MD_CTX;
  tld : EVP_MD_CTX;
  comps : list PvComponent
}.

(** pv_img_comps_new: g_new0 and three fresh digest contexts. *)
Definition pv_img_comps_new : PvImgComps :=
  {| finalized := false; next_src := 0; nep := 0;
     ald := []; pld := []; tld := []; comps := [] |}.

Definition pv_img_comps_length (c : PvImgComps) : Z := Z.of_nat (length (comps c)).

Definition pv_img_comps_get_comps (c : PvImgComps) : list PvComponent := comps c.

(** g_slist_nth_data *)
Definition pv_img_comps_get_nth_comp (c : PvImgComps) (n : Z) : option PvComponent :=
  nth_error (comps c) (Z.to_nat n).

(** Continue with [k] on a normal return; otherwise leave with the state
    [s] reached so far. *)
Definition and_then {S A B : Type} (s : S) (m : outcome A) (k : A -> S * outcome B)
  : S * outcome B :=
  match m with
  | Ok a => k a
  | Fail e => (s, Fail e)
  | Abort => (s, Abort)
  | Timeout => (s, Timeout)
  end.

(** pv_img_comps_hash_comp: update hashes and nep. *)
Definition pv_img_comps_hash_comp (fuel : nat) (fs : filesystem) (c : PvImgComps)
    (comp : PvComponent) : PvImgComps * outcome unit :=
  (* update pld *)
  let '(pld', r1) := pv_component_update_pld fs comp (pld c) in
  let c1 := {| finalized := finalized c; next_src := next_src c; nep := nep c;
               ald := ald c; pld := pld'; tld := tld c; comps := comps c |} in
  and_then c1 r1 (fun nep_1 =>
  (* update ald *)
  and_then c1 (pv_component_update_ald fuel comp (ald c1)) (fun '(nep_2, ald') =>
  let c2 := {| finalized := finalized c1; next_src := next_src c1; nep := nep c1;
               ald := ald'; pld := pld c1; tld := tld c1; comps := comps c1 |} in
  (* update tld *)
  and_then c2 (pv_component_update_tld fuel comp (tld c2)) (fun '(nep_3, tld') =>
  let c3 := {| finalized := finalized c2; next_src := next_src c2; nep := nep c2;
               ald := ald c2; pld := pld c2; tld := tld'; comps := comps c2 |} in
  and_then c3 (g_assert (nep_1 =? nep_2)) (fun _ =>
  and_then c3 (g_assert (nep_2 =? nep_3)) (fun _ =>
  (* update comps->nep *)
  and_then c3 (g_uint64_checked_add (nep c3) nep_1) (fun nep' =>
  ({| finalized := finalized c3; next_src := next_src c3; nep := nep';
      ald := ald c3; pld := pld c3; tld := tld c3; comps := comps c3 |}, Ok tt))))))).

Definition finalized_error : GError :=
  {| domain := PV_COMPONENT_ERROR; code := PV_COMPONENT_ERROR_FINALIZED;
     message := "Failed to add a component as the PV header is already created" |}.

(** pv_img_comps_add_component: the collection and the component as the
    call leaves them, and the return value. *)
Definition pv_img_comps_add_component (c : PvImgComps) (comp : PvComponent)
  : PvImgComps * PvComponent * outcome unit :=
  if negb (IS_PAGE_ALIGNED (next_src c)) then (c, comp, Abort)
  else
    let src_addr := next_src c in
    let src_size := if pv_component_size comp =? 0 then PAGE_SIZE
                    else PAGE_ALIGN (pv_component_size comp) in
    if finalized c then (c, comp, Fail (Some finalized_error))
    else
      (* set the address of the component in the memory layout *)
      let comp' := set_src_addr comp src_addr in
      let c' := {| finalized := finalized c;
                   next_src := wrap64 (next_src c + src_size);
                   nep := nep c; ald := ald c; pld := pld c; tld := tld c;
                   comps := comps c ++ [comp'] |} in
      (c', comp', g_assert (IS_PAGE_ALIGNED (next_src c'))).

Definition offset_error : GError :=
  {| domain := PV_IMAGE_ERROR; code := PV_IMAGE_ERROR_OFFSET;
     message := "Offset cannot be changed after a component was added" |}.

(** pv_img_comps_set_offset *)
Definition pv_img_comps_set_offset (c : PvImgComps) (offset : Z)
  : PvImgComps * outcome unit :=
  if negb (IS_PAGE_ALIGNED (next_src c)) then (c, Abort)
  else if negb (IS_PAGE_ALIGNED offset) then (c, Abort)
  else if pv_img_comps_length c >? 0 then (c, Fail (Some offset_error))
  else
    let c' := {| finalized := finalized c;
                 next_src := wrap64 (next_src c + offset);
                 nep := nep c; ald := ald c; pld := pld c; tld := tld c;
                 comps := comps c |} in
    (c', g_assert (IS_PAGE_ALIGNED (next_src c'))).

(** The loop of pv_img_comps_finalize over the list. *)
Fixpoint finalize_loop (fuel : nat) (fs : filesystem) (c : PvImgComps)
    (iterator : list PvComponent) : PvImgComps * outcome unit :=
  match iterator with
  | [] => (c, Ok tt)
  | comp :: next =>
      let '(c', rc) := pv_img_comps_hash_comp fuel fs c comp in
      and_then c' rc (fun _ => finalize_loop fuel fs c' next)
  end.

(** digest_ctx_finalize for a SHA-512 context. *)
Definition digest_ctx_finalize `{OpenSSL} (ctx : EVP_MD_CTX) : outcome Buffer :=
  let md_size := SHA512_DIGEST_LENGTH in
  do g_assert (0 <? md_size) ;;
  let digest := sha512 ctx in
  do g_assert (buf_size digest =? md_size) ;;
  Ok digest.

(** pv_img_comps_finalize: pld, ald, tld digests and nep. *)
Definition pv_img_comps_finalize `{OpenSSL} (fuel : nat) (fs : filesystem) (c : PvImgComps)
  : PvImgComps * outcome (Buffer * Buffer * Buffer * Z) :=
  let c0 := {| finalized := true; next_src := next_src c; nep := nep c;
               ald := ald c; pld := pld c; tld := tld c; comps := comps c |} in
  let '(c1, rc) := finalize_loop fuel fs c0 (comps c0) in
  and_then c1 rc (fun _ =>
  and_then c1 (digest_ctx_finalize (pld c1)) (fun tmp_pld_digest =>
  and_then c1 (digest_ctx_finalize (ald c1)) (fun tmp_ald_digest =>
  and_then c1 (digest_ctx_finalize (tld c1)) (fun tmp_tld_digest =>
  (c1, Ok (tmp_pld_digest, tmp_ald_digest, tmp_tld_digest, nep c1)))))).

(* ================================================================== *)
(** ** include/pv_hdr_def.h: the secure header *)

Definition PV_MAGIC_VALUE : Z := 0x49424d5365634578.
Definition PV_VERSION_1 : Z := 0x00000100.
Definition PV_CONTROL_FLAG_NO_DECRYPTION : Z := 0x10000000.

(** PvHdrKeySlot (packed) *)
Record PvHdrKeySlot : Type := {
  digest_key : list byte;   (* uint8_t [SHA256_DIGEST_LENGTH] *)
  wrapped_key : list byte;  (* uint8_t [32] *)
  tag : list byte           (* uint8_t [AES_256_GCM_TAG_SIZE] *)
}.

(** struct pv_hdr_opt_item *)
Record pv_hdr_opt_item : Type := {
  otype : Z;
  ibk : list byte;
  item_data : list byte
}.

(** pv_opt_item_size of pv_opt_item.c, which is not among the sources; it
    returns a uint32_t. *)
Class PvOptItem : Type := {
  pv_opt_item_size : pv_hdr_opt_item -> Z;
  pv_opt_item_size_nonneg : forall item, 0 <= pv_opt_item_size item
}.

(** struct pv_hdr_head (packed): every field as its bytes in memory;
    integers are stored big endian. *)
Record pv_hdr_head : Type := {
  head_magic : list byte;        (* uint64_t *)
  head_version : list byte;      (* uint32_t *)
  head_phs : list byte;          (* uint32_t *)
  head_iv : list byte;           (* uint8_t [AES_256_GCM_IV_SIZE] *)
  head_res1 : list byte;         (* uint32_t *)
  head_nks : list byte;          (* uint64_t *)
  head_sea : list byte;          (* uint64_t *)
  head_nep : list byte;          (* uint64_t *)
  head_pcf : list byte;          (* uint64_t *)
  head_cust_pub_key : list byte; (* union ecdh_pub_key *)
  head_pld : list byte;          (* uint8_t [SHA512_DIGEST_LENGTH] *)
  head_ald : list byte;
  head_tld : list byte
}.

Definition sizeof_pv_hdr_head `{PvCryptoDefs} : Z :=
  8 + 4 + 4 + AES_256_GCM_IV_SIZE + 4 + 8 + 8 + 8 + 8 + sizeof_ecdh_pub_key
  + 3 * SHA512_DIGEST_LENGTH.
Definition sizeof_pv_hdr_key_slot : Z :=
  SHA256_DIGEST_LENGTH + 32 + AES_256_GCM_TAG_SIZE.
Definition sizeof_psw_t : Z := 8 + 8.
Definition sizeof_pv_hdr_encrypted : Z := 32 + 32 + 32 + sizeof_psw_t + 8 + 4 + 4.
Definition sizeof_tag : Z := AES_256_GCM_TAG_SIZE.

(** struct pv_hdr_encrypted: must not have any padding. *)
Record pv_hdr_encrypted : Type := {
  enc_cust_comm_key : list byte;  (* uint8_t [32] *)
  img_enc_key_1 : list byte;      (* uint8_t [AES_256_XTS_KEY_SIZE / 2] *)
  img_enc_key_2 : list byte;
  enc_psw_mask : list byte;       (* struct psw_t psw *)
  enc_psw_addr : list byte;
  enc_scf : list byte;            (* uint64_t *)
  enc_noi : list byte;            (* uint32_t *)
  enc_res2 : list byte            (* uint32_t *)
}.

(** PvHdr: the slots array, the encrypted part and the zeroed area that
    stands for the optional items are allocated by pv_hdr_alloc. *)
Record PvHdr : Type := {
  head : pv_hdr_head;
  slots : list PvHdrKeySlot;
  encrypted : pv_hdr_encrypted;
  hdr_optional_items : list byte;
  hdr_tag : list byte
}.

Definition head_bytes (h : pv_hdr_head) : list byte :=
  head_magic h ++ head_version h ++ head_phs h ++ head_iv h ++ head_res1 h
  ++ head_nks h ++ head_sea h ++ head_nep h ++ head_pcf h
  ++ head_cust_pub_key h ++ head_pld h ++ head_ald h ++ head_tld h.

Definition slot_bytes (s : PvHdrKeySlot) : list byte :=
  digest_key s ++ wrapped_key s ++ tag s.

Definition encrypted_bytes (e : pv_hdr_encrypted) : list byte :=
  enc_cust_comm_key e ++ img_enc_key_1 e ++ img_enc_key_2 e
  ++ enc_psw_mask e ++ enc_psw_addr e ++ enc_scf e ++ enc_noi e ++ enc_res2 e.

(** memcpy(dest + off, src, |src|) *)
Definition memcpy_at (dest : list byte) (off : Z) (src : list byte) : list byte :=
  firstn (Z.to_nat off) dest ++ src ++ skipn (Z.to_nat off + length src) dest.

(** memcpy(field, src, n) into a field of [n] bytes. *)
Definition memcpy (n : Z) (src : list byte) : list byte := firstn (Z.to_nat n) src.

(* ================================================================== *)
(** ** pv_image.h: the image under construction *)

Record PvImage `{OpenSSL} : Type := {
  tmp_dir : string;
  stage3a : Buffer;
  stage3a_psw : psw_t;
  initial_psw : psw_t;
  cust_pub_priv_key : EVP_PKEY;
  host_pub_keys : list EVP_PKEY;
  cust_root_key : Buffer;
  gcm_iv : Buffer;
  pcf : Z;
  scf : Z;
  cust_comm_key : Buffer;
  xts_key : Buffer;
  key_slots : list PvHdrKeySlot;
  optional_items : list pv_hdr_opt_item;
  img_comps : PvImgComps
}.

Definition set_key_slots `{OpenSSL} (img : PvImage) (ks : list PvHdrKeySlot) : PvImage :=
  {| tmp_dir := tmp_dir img; stage3a := stage3a img; stage3a_psw := stage3a_psw img;
     initial_psw := initial_psw img; cust_pub_priv_key := cust_pub_priv_key img;
     host_pub_keys := host_pub_keys img; cust_root_key := cust_root_key img;
     gcm_iv := gcm_iv img; pcf := pcf img; scf := scf img;
     cust_comm_key := cust_comm_key img; xts_key := xts_key img;
     key_slots := ks; optional_items := optional_items img;
     img_comps := img_comps img |}.

Definition set_img_comps `{OpenSSL} (img : PvImage) (c : PvImgComps) : PvImage :=
  {| tmp_dir := tmp_dir img; stage3a := stage3a img; stage3a_psw := stage3a_psw img;
     initial_psw := initial_psw img; cust_pub_priv_key := cust_pub_priv_key img;
     host_pub_keys := host_pub_keys img; cust_root_key := cust_root_key img;
     gcm_iv := gcm_iv img; pcf := pcf img; scf := scf img;
     cust_comm_key := cust_comm_key img; xts_key := xts_key img;
     key_slots := key_slots img; optional_items := optional_items img;
     img_comps := c |}.

(* ================================================================== *)
(** ** utils/crypto.c: key agreement and AES-GCM *)

(** sha256_buffer *)
Definition sha256_buffer `{OpenSSL} (buf : Buffer) : outcome Buffer :=
  let ret := sha256 buf in
  do g_assert (buf_size ret =? SHA256_DIGEST_LENGTH) ;;
  Ok ret.

(** data[i] = v *)
Definition store_byte (d : list byte) (i : nat) (v : byte) : list byte :=
  firstn i d ++ v :: skipn (S i) d.

(** compute_exchange_key *)
Definition compute_exchange_key `{OpenSSL} (cust host : EVP_PKEY) : outcome Buffer :=
  let raw := zeros 70 in
  key <- derive_key cust host ;;
  do g_assert (buf_size key =? 66) ;;
  do g_assert (buf_size key <? buf_size raw) ;;
  let raw := memcpy_at raw 0 key in
  let data := store_byte raw 66 0x00 in
  let data := store_byte data 67 0x00 in
  let data := store_byte data 68 0x00 in
  let data := store_byte data 69 0x01 in
  sha256_buffer data.

(** struct gcm_cipher_parms *)
Record gcm_cipher_parms : Type := {
  gcm_key : list byte;  (* uint8_t [AES_256_GCM_KEY_SIZE] *)
  gcm_parms_iv : list byte    (* uint8_t [AES_256_GCM_IV_SIZE] *)
}.

(** struct gcm_cipher_parms parms = { 0 } *)
Definition gcm_cipher_parms_zero : gcm_cipher_parms :=
  {| gcm_key := zeros 32; gcm_parms_iv := zeros 12 |}.

(** gcm_encrypt_decrypt with encrypt = true, for output areas of
    [out_size] and [tag_size] bytes: the return value, the output and the
    tag. *)
Definition gcm_encrypt_decrypt `{OpenSSL} (in_ aad : Buffer) (parms : gcm_cipher_parms)
    (out_size tag_size : Z) : outcome (Z * list byte * list byte) :=
  do g_assert (tag_size <=? 2 ^ 31 - 1) ;;
  do g_assert (buf_size in_ <=? 2 ^ 31 - 1) ;;
  do g_assert (buf_size aad <=? 2 ^ 31 - 1) ;;
  (* Make sure that there will be no padding *)
  do g_assert (buf_size in_ mod AES_BLOCK_SIZE =? 0) ;;
  do g_assert (buf_size aad mod AES_BLOCK_SIZE =? 0) ;;
  do g_assert (out_size =? buf_size in_) ;;
  let '(ct, t) := aes_256_gcm (gcm_key parms) (gcm_parms_iv parms) aad in_ in
  Ok (buf_size ct, ct, memcpy tag_size t).

(* ================================================================== *)
(** ** pv_image.c *)

Definition internal_error (fmt : string) : GError :=
  {| domain := PV_ERROR; code := PV_ERROR_INTERNAL; message := fmt |}.

(** pv_img_get_stage3b_comp; g_return_val_if_fail returns NULL and leaves
    [*err] alone. *)
Definition pv_img_get_stage3b_comp `{OpenSSL} (img : PvImage) : outcome PvComponent :=
  if negb (pv_img_comps_length (img_comps img) >=? 1) then Fail None
  else
    match pv_img_comps_get_nth_comp (img_comps img)
                                    (pv_img_comps_length (img_comps img) - 1) with
    | Some comp =>
        if negb (pv_component_is_stage3b comp)
        then Fail (Some (internal_error "Failed to get 'stage3b' component"))
        else Ok comp
    | None => Abort
    end.

(** pv_img_prepare_component *)
Definition pv_img_prepare_component `{OpenSSL} (img : PvImage) (comp : PvComponent)
    (fs : filesystem) : outcome (PvComponent * filesystem) :=
  if negb (Z.land (pcf img) PV_CONTROL_FLAG_NO_DECRYPTION =? 0)
  then
    (* we only need to align the components *)
    pv_component_align comp (tmp_dir img) fs
  else
    do g_assert (buf_size (xts_key img) =? AES_256_XTS_KEY_SIZE) ;;
    let parms := {| parms_key := memcpy AES_256_XTS_KEY_SIZE (xts_key img);
                    parms_tweak := memcpy AES_256_XTS_TWEAK_SIZE (tweak comp);
                    parms_padding := PAGE_SIZE |} in
    pv_component_align_and_encrypt comp (tmp_dir img) parms fs.

(** pv_img_get_host_keys: one key per certificate path, in order. *)
Fixpoint pv_img_get_host_keys `{OpenSSL} (host_cert_paths : list string)
  : outcome (list EVP_PKEY) :=
  match host_cert_paths with
  | [] => Ok []
  | p :: rest =>
      host_key <- read_ec_pubkey_cert p ;;
      ret <- pv_img_get_host_keys rest ;;
      Ok (host_key :: ret)
  end.

(** pv_hdr_key_slot_new *)
Definition pv_hdr_key_slot_new `{OpenSSL} (cust_root_key : Buffer)
    (cust_key host_key : EVP_PKEY) : outcome PvHdrKeySlot :=
  let parms := gcm_cipher_parms_zero in
  pub <- evp_pkey_to_ecdh_pub_key host_key ;;
  digest_key <- sha256_buffer (memcpy sizeof_ecdh_pub_key pub) ;;
  do g_assert (buf_size digest_key =? SHA256_DIGEST_LENGTH) ;;
  exchange_key <- compute_exchange_key cust_key host_key ;;
  (* initialize cipher parameters *)
  do g_assert (buf_size exchange_key <=? 2 ^ 31 - 1) ;;
  do g_assert (buf_size exchange_key =? AES_256_GCM_KEY_SIZE) ;;
  let parms := {| gcm_key := memcpy AES_256_GCM_KEY_SIZE exchange_key;
                  gcm_parms_iv := gcm_parms_iv parms |} in
  (* encrypt the customer root key *)
  r <- gcm_encrypt_decrypt cust_root_key [] parms 32 AES_256_GCM_TAG_SIZE ;;
  let '(c_len, enc, t) := r in
  do g_assert (c_len =? buf_size cust_root_key) ;;
  Ok {| digest_key := memcpy SHA256_DIGEST_LENGTH digest_key;
        wrapped_key := enc; tag := t |}.

(** The loop of pv_img_set_host_slots; pv_img_add_host_slot appends. *)
Fixpoint set_host_slots_loop `{OpenSSL} (img : PvImage) (iterator : list EVP_PKEY)
  : outcome PvImage :=
  match iterator with
  | [] => Ok img
  | host_key :: next =>
      slot <- pv_hdr_key_slot_new (cust_root_key img) (cust_pub_priv_key img) host_key ;;
      set_host_slots_loop (set_key_slots img (key_slots img ++ [slot])) next
  end.

Definition pv_img_set_host_slots `{OpenSSL} (img : PvImage) : outcome PvImage :=
  set_host_slots_loop img (host_pub_keys img).

(** pv_img_prepare_and_add_component: the image, the file system and the
    return value. *)
Definition pv_img_prepare_and_add_component `{OpenSSL} (img : PvImage)
    (comp : PvComponent) (fs : filesystem) : PvImage * filesystem * outcome unit :=
  match pv_img_prepare_component img comp fs with
  | Ok (comp', fs') =>
      let '(c', _, rc) := pv_img_comps_add_component (img_comps img) comp' in
      (set_img_comps img c', fs', rc)
  | Fail e => (img, fs, Fail e)
  | Abort => (img, fs, Abort)
  | Timeout => (img, fs, Timeout)
  end.

(** pv_img_calc_pld_ald_tld_nep *)
Definition pv_img_calc_pld_ald_tld_nep `{OpenSSL} (fuel : nat) (fs : filesystem)
    (img : PvImage) : PvImage * outcome (Buffer * Buffer * Buffer * Z) :=
  let '(c', rc) := pv_img_comps_finalize fuel fs (img_comps img) in
  (set_img_comps img c', rc).

(** pv_img_get_aad_size *)
Definition pv_img_get_aad_size `{OpenSSL} (img : PvImage) : outcome Z :=
  size <- g_uint_checked_add 0 sizeof_pv_hdr_head ;;
  key_size <- g_uint_checked_mul sizeof_pv_hdr_key_slot
                                 (Z.of_nat (length (key_slots img))) ;;
  g_uint_checked_add size key_size.

(** pv_img_get_opt_items_size *)
Fixpoint opt_items_size_loop `{PvOptItem} (iterator : list pv_hdr_opt_item) (ret : Z)
  : outcome Z :=
  match iterator with
  | [] => Ok ret
  | item :: next =>
      ret' <- g_uint_checked_add ret (pv_opt_item_size item) ;;
      opt_items_size_loop next ret'
  end.

Definition pv_img_get_opt_items_size `{OpenSSL} `{PvOptItem} (img : PvImage) : outcome Z :=
  opt_items_size_loop (optional_items img) 0.

(** pv_img_get_enc_size *)
Definition pv_img_get_enc_size `{OpenSSL} `{PvOptItem} (img : PvImage) : outcome Z :=
  ret <- g_uint_checked_add 0 sizeof_pv_hdr_encrypted ;;
  opt <- pv_img_get_opt_items_size img ;;
  g_uint_checked_add ret opt.

Definition pv_img_get_tag_size : Z := sizeof_tag.

(** pv_img_get_pv_hdr_size *)
Definition pv_img_get_pv_hdr_size `{OpenSSL} `{PvOptItem} (img : PvImage) : outcome Z :=
  aad <- pv_img_get_aad_size img ;;
  size <- g_uint_checked_add 0 aad ;;
  enc <- pv_img_get_enc_size img ;;
  size <- g_uint_checked_add size enc ;;
  g_uint_checked_add size pv_img_get_tag_size.

(* ================================================================== *)
(** ** pv_hdr.c *)

Definition pv_hdr_key_slot_zero : PvHdrKeySlot :=
  {| digest_key := zeros 32; wrapped_key := zeros 32; tag := zeros 16 |}.

Definition pv_hdr_head_zero `{PvCryptoDefs} : pv_hdr_head :=
  {| head_magic := zeros 8; head_version := zeros 4; head_phs := zeros 4;
     head_iv := zeros 12; head_res1 := zeros 4; head_nks := zeros 8;
     head_sea := zeros 8; head_nep := zeros 8; head_pcf := zeros 8;
     head_cust_pub_key := zeros (Z.to_nat sizeof_ecdh_pub_key);
     head_pld := zeros 64;
     head_ald := zeros 64; head_tld := zeros 64 |}.

Definition pv_hdr_encrypted_zero : pv_hdr_encrypted :=
  {| enc_cust_comm_key := zeros 32; img_enc_key_1 := zeros 32;
     img_enc_key_2 := zeros 32; enc_psw_mask := zeros 8; enc_psw_addr := zeros 8;
     enc_scf := zeros 8; enc_noi := zeros 4; enc_res2 := zeros 4 |}.

(** pv_hdr_alloc *)
Definition pv_hdr_alloc `{OpenSSL} `{PvOptItem} (img : PvImage) : outcome PvHdr :=
  hdr_size <- pv_img_get_pv_hdr_size img ;;
  let nks := Z.of_nat (length (key_slots img)) in
  sea <- pv_img_get_enc_size img ;;
  let noi := wrap32 (Z.of_nat (length (optional_items img))) in
  do g_assert (nks >? 0) ;;
  (* must be a multiple of AES block size *)
  do g_assert (sea mod AES_BLOCK_SIZE =? 0) ;;
  do g_assert (sea >=? sizeof_pv_hdr_encrypted) ;;
  let h := pv_hdr_head_zero in
  Ok {| head := {| head_magic := head_magic h; head_version := head_version h;
                   head_phs := be_bytes 4 hdr_size;
                   head_iv := head_iv h; head_res1 := head_res1 h;
                   head_nks := be_bytes 8 nks;
                   head_sea := be_bytes 8 sea;
                   head_nep := head_nep h; head_pcf := head_pcf h;
                   head_cust_pub_key := head_cust_pub_key h;
                   head_pld := head_pld h; head_ald := head_ald h;
                   head_tld := head_tld h |};
        slots := repeat pv_hdr_key_slot_zero (Z.to_nat nks);
        encrypted :=
          let e := pv_hdr_encrypted_zero in
          {| enc_cust_comm_key := enc_cust_comm_key e;
             img_enc_key_1 := img_enc_key_1 e; img_enc_key_2 := img_enc_key_2 e;
             enc_psw_mask := enc_psw_mask e; enc_psw_addr := enc_psw_addr e;
             enc_scf := enc_scf e; enc_noi := be_bytes 4 noi;
             enc_res2 := enc_res2 e |};
        hdr_optional_items := zeros (Z.to_nat (sea - sizeof_pv_hdr_encrypted));
        hdr_tag := zeros 16 |}.

(** pv_hdr_size, pv_hdr_enc_size, pv_hdr_get_nks: GUINT*_FROM_BE *)
Definition pv_hdr_size (hdr : PvHdr) : Z := be_value (head_phs (head hdr)).
Definition pv_hdr_enc_size (hdr : PvHdr) : Z := be_value (head_sea (head hdr)).
Definition pv_hdr_get_nks (hdr : PvHdr) : Z := be_value (head_nks (head hdr)).

Definition pv_hdr_enc_size_casted (hdr : PvHdr) : outcome Z :=
  let size := pv_hdr_enc_size hdr in
  if size >? UINT32_MAX then Abort else Ok size.

Definition pv_hdr_tag_size (hdr : PvHdr) : Z := sizeof_tag.

Definition pv_hdr_aad_size (hdr : PvHdr) : outcome Z :=
  enc <- pv_hdr_enc_size_casted hdr ;;
  Ok (wrap32 (pv_hdr_size hdr - enc - pv_hdr_tag_size hdr)).

(** pv_hdr_aad_init: the unencrypted, but integrity protected part.  The
    measurements finalize the collection of the image. *)
Definition pv_hdr_aad_init `{OpenSSL} (fuel : nat) (fs : filesystem) (hdr : PvHdr)
    (img : PvImage) : outcome (PvHdr * PvImage) :=
  cust_pub_key <- evp_pkey_to_ecdh_pub_key (cust_pub_priv_key img) ;;
  do g_assert (AES_256_GCM_IV_SIZE =? buf_size (gcm_iv img)) ;;
  let '(img', rc) := pv_img_calc_pld_ald_tld_nep fuel fs img in
  r <- rc ;;
  let '(pld, ald, tld, nep) := r in
  do g_assert (SHA512_DIGEST_LENGTH =? buf_size pld) ;;
  do g_assert (SHA512_DIGEST_LENGTH =? buf_size ald) ;;
  do g_assert (SHA512_DIGEST_LENGTH =? buf_size tld) ;;
  let h := head hdr in
  Ok ({| head := {| head_magic := be_bytes 8 PV_MAGIC_VALUE;
                    head_version := be_bytes 4 PV_VERSION_1;
                    (* ``phs`` is already set so we can skip it here *)
                    head_phs := head_phs h;
                    head_iv := memcpy AES_256_GCM_IV_SIZE (gcm_iv img);
                    head_res1 := head_res1 h;
                    (* ``nks`` and ``sea`` are already set *)
                    head_nks := head_nks h;
                    head_sea := head_sea h;
                    head_nep := be_bytes 8 nep;
                    head_pcf := be_bytes 8 (pcf img);
                    head_cust_pub_key := memcpy sizeof_ecdh_pub_key cust_pub_key;
                    head_pld := memcpy SHA512_DIGEST_LENGTH pld;
                    head_ald := memcpy SHA512_DIGEST_LENGTH ald;
                    head_tld := memcpy SHA512_DIGEST_LENGTH tld |};
         (* set the key slots: one memcpy per slot into the allocated array *)
         slots := key_slots img ++ skipn (length (key_slots img)) (slots hdr);
         encrypted := encrypted hdr;
         hdr_optional_items := hdr_optional_items hdr;
         hdr_tag := hdr_tag hdr |}, img').

(** pv_hdr_enc_init: the encrypted and also integrity protected part. *)
Definition pv_hdr_enc_init `{OpenSSL} (hdr : PvHdr) (img : PvImage) : outcome PvHdr :=
  do g_assert (32 =? buf_size (cust_comm_key img)) ;;
  do g_assert (buf_size (xts_key img) =? AES_256_XTS_KEY_SIZE) ;;
  stage3b <- pv_img_get_stage3b_comp img ;;
  let enc := encrypted hdr in
  match optional_items img with
  | [] =>
      Ok {| head := head hdr; slots := slots hdr;
            encrypted :=
              {| enc_cust_comm_key := memcpy 32 (cust_comm_key img);
                 img_enc_key_1 := memcpy 32 (xts_key img);
                 img_enc_key_2 := memcpy 32 (skipn 32 (xts_key img));
                 (* Setup program check handler *)
                 enc_psw_mask := be_bytes 8 DEFAULT_INITIAL_PSW_MASK;
                 enc_psw_addr := be_bytes 8 (pv_component_get_src_addr stage3b);
                 enc_scf := be_bytes 8 (scf img);
                 enc_noi := be_bytes 4 (wrap32 (Z.of_nat (length (optional_items img))));
                 enc_res2 := enc_res2 enc |};
            hdr_optional_items := hdr_optional_items hdr; hdr_tag := hdr_tag hdr |}
  | _ :: _ =>
      (* not supported in the first version: g_assert_not_reached *)
      Abort
  end.

(** pv_hdr_init *)
Definition pv_hdr_init `{OpenSSL} (fuel : nat) (fs : filesystem) (hdr : PvHdr)
    (img : PvImage) : outcome (PvHdr * PvImage) :=
  r <- pv_hdr_aad_init fuel fs hdr img ;;
  let '(hdr1, img1) := r in
  hdr2 <- pv_hdr_enc_init hdr1 img1 ;;
  Ok (hdr2, img1).

(** pv_hdr_new *)
Definition pv_hdr_new `{OpenSSL} `{PvOptItem} (fuel : nat) (fs : filesystem) (img : PvImage)
  : outcome (PvHdr * PvImage) :=
  ret <- pv_hdr_alloc img ;;
  pv_hdr_init fuel fs ret img.

(** pv_hdr_write into the zeroed buffer [dest]. *)
Definition pv_hdr_write `{PvCryptoDefs} (hdr : PvHdr) (dest : Buffer) : outcome Buffer :=
  let nks := pv_hdr_get_nks hdr in
  do g_assert (buf_size dest =? pv_hdr_size hdr) ;;
  enc_size <- pv_hdr_enc_size_casted hdr ;;
  do g_assert (enc_size >=? sizeof_pv_hdr_encrypted) ;;
  let data := 0 in
  let dest := memcpy_at dest data (memcpy sizeof_pv_hdr_head (head_bytes (head hdr))) in
  let data := data + sizeof_pv_hdr_head in
  let dest := memcpy_at dest data
                (memcpy (sizeof_pv_hdr_key_slot * nks) (concat (map slot_bytes (slots hdr)))) in
  let data := data + sizeof_pv_hdr_key_slot * nks in
  let dest := memcpy_at dest data
                (memcpy sizeof_pv_hdr_encrypted (encrypted_bytes (encrypted hdr))) in
  let data := data + sizeof_pv_hdr_encrypted in
  if enc_size - sizeof_pv_hdr_encrypted >? 0
  then Ok (memcpy_at dest data
             (memcpy (enc_size - sizeof_pv_hdr_encrypted) (hdr_optional_items hdr)))
  else Ok dest.

(** pv_hdr_encrypt_decrypt with encrypt = true: in-place sealing of
    [buf]. *)
Definition pv_hdr_encrypt `{OpenSSL} (hdr : PvHdr) (img : PvImage) (buf : Buffer)
  : outcome Buffer :=
  let hdr_len := pv_hdr_size hdr in
  aad_len <- pv_hdr_aad_size hdr ;;
  let tag_len := pv_hdr_tag_size hdr in
  enc_len <- pv_hdr_enc_size_casted hdr ;;
  let aad_part := bytes_at buf 0 (Z.to_nat aad_len) in
  let enc_part := bytes_at buf aad_len (Z.to_nat enc_len) in
  do g_assert (aad_len + enc_len + tag_len =? buf_size buf) ;;
  let parms := {| gcm_key := memcpy AES_256_GCM_KEY_SIZE (cust_root_key img);
                  gcm_parms_iv := memcpy AES_256_GCM_IV_SIZE (gcm_iv img) |} in
  r <- gcm_encrypt_decrypt enc_part aad_part parms enc_len tag_len ;;
  let '(c_len, ct, t) := r in
  do g_assert (c_len =? enc_len) ;;
  Ok (memcpy_at (memcpy_at buf aad_len ct) (hdr_len - tag_len) t).

(** pv_hdr_serialize *)
Definition pv_hdr_serialize `{OpenSSL} (hdr : PvHdr) (img : PvImage) (encrypt : bool)
  : outcome Buffer :=
  let hdr_size := pv_hdr_size hdr in
  let ret := zeros (Z.to_nat hdr_size) in
  ret <- pv_hdr_write hdr ret ;;
  if encrypt
  then pv_hdr_encrypt hdr img ret
  else
    (* Simply copy the tag *)
    Ok (memcpy_at ret (hdr_size - pv_hdr_tag_size hdr)
                  (memcpy (pv_hdr_tag_size hdr) (hdr_tag hdr))).

(** pv_img_create_pv_hdr: the serialized and AES-GCM sealed header. *)
Definition pv_img_create_pv_hdr `{OpenSSL} `{PvOptItem} (fuel : nat) (fs : filesystem)
    (img : PvImage) : outcome (Buffer * PvImage) :=
  r <- pv_hdr_new fuel fs img ;;
  let '(hdr, img') := r in
  hdr_buf <- pv_hdr_serialize hdr img' true ;;
  Ok (hdr_buf, img').

(* ================================================================== *)
(** ** Writing the image: pv_image.c, pv_comp.c, utils/file_utils.c *)

(** Constants of boot/stage3a.h, which is not among the sources. *)
Class BootLayout : Type := {
  STAGE3A_LOAD_ADDRESS : Z;
  STAGE3A_INIT_ENTRY : Z
}.

(** convert_psw_to_short_psw: returns 0 with [*err] set when the PSW
    cannot be converted. *)
Definition convert_psw_to_short_psw (psw : psw_t) : outcome Z :=
  let psw_addr := addr psw in
  let psw_mask := mask psw in
  (* test if PSW mask can be converted *)
  if negb (Z.land psw_mask PSW_SHORT_ADDR_MASK =? 0)
  then Fail (Some (internal_error "Failed to convert PSW to short PSW"))
  (* test for bit 12 *)
  else if negb (Z.land psw_mask PSW_MASK_BIT_12 =? 0)
  then Fail (Some (internal_error "Failed to convert PSW to short PSW"))
  (* test if PSW addr can be converted *)
  else if negb (Z.land psw_addr (wrap64 (Z.lnot PSW_SHORT_ADDR_MASK)) =? 0)
  then Fail (Some (internal_error "Failed to convert PSW to short PSW"))
  else
    let ret := psw_mask in
    (* set bit 12 to 1 *)
    let ret := Z.lor ret PSW_MASK_BIT_12 in
    let ret := Z.lor ret psw_addr in
    Ok ret.

(** write_short_psw *)
Definition write_short_psw (f : FILE) (psw : psw_t) : FILE * outcome unit :=
  and_then f (convert_psw_to_short_psw psw) (fun short_psw =>
  (file_write f (be_bytes 8 short_psw), Ok tt)).

(** The do-while of seek_and_write_file: the output and
    total_bytes_read.  fwrite of one item of bytes_read bytes reports 1,
    so only an empty read ends the loop. *)
Fixpoint seek_and_write_file_loop (fuel : nat) (o : FILE) (i : list byte)
    (total_bytes_read : Z) : outcome (FILE * Z) :=
  match fuel with
  | O => Timeout
  | S fuel' =>
      let '(buf, rest) := file_read i 4096 in
      let bytes_read := Z.of_nat (length buf) in
      if bytes_read =? 0 then Ok (o, total_bytes_read)
      else seek_and_write_file_loop fuel' (file_write o buf) rest
                                    (total_bytes_read + bytes_read)
  end.

(** seek_and_write_file *)
Definition seek_and_write_file (fs : filesystem) (o : FILE) (ifile : CompFile)
    (offset : Z) : FILE * outcome unit :=
  and_then o (file_seek o offset) (fun o1 =>
  and_then o1 (file_open_rb fs (path ifile)) (fun i =>
  and_then o1 (seek_and_write_file_loop (length i + 1) o1 i 0) (fun '(o2, total_bytes_read) =>
  if negb (size ifile =? total_bytes_read)
  then (o2, Fail (Some (internal_error "File '%s' has changed during the preparation")))
  else (o2, Ok tt)))).

(** pv_component_write *)
Definition pv_component_write (fs : filesystem) (component : PvComponent) (f : FILE)
  : FILE * outcome unit :=
  match data component with
  | DATA_BUFFER buf =>
      seek_and_write_buffer f buf (pv_component_get_src_addr component)
  | DATA_FILE file =>
      seek_and_write_file fs f file (pv_component_get_src_addr component)
  end.

(** The loop of pv_img_write over the components. *)
Fixpoint write_comps_loop (fs : filesystem) (f : FILE) (iterator : list PvComponent)
  : FILE * outcome unit :=
  match iterator with
  | [] => (f, Ok tt)
  | comp :: next =>
      let '(f', rc) := pv_component_write fs comp f in
      and_then f' rc (fun _ => write_comps_loop fs f' next)
  end.

(** pv_img_write: the output file as the call leaves it, and the return
    value. *)
Definition pv_img_write `{OpenSSL} `{BootLayout} (fs : filesystem) (img : PvImage)
  : FILE * outcome unit :=
  let f := file_open_wb in
  let '(f1, rc) := write_short_psw f (stage3a_psw img) in
  and_then f1 rc (fun _ =>
  let '(f2, rc) := seek_and_write_buffer f1 (stage3a img) STAGE3A_LOAD_ADDRESS in
  and_then f2 rc (fun _ =>
  (* list is sorted by component type => by address *)
  write_comps_loop fs f2 (pv_img_comps_get_comps (img_comps img)))).

(** pv_img_load_and_set_stage3a, as far as it sets the load PSW. *)
Definition stage3a_load_psw `{BootLayout} : psw_t :=
  {| mask := DEFAULT_INITIAL_PSW_MASK; addr := STAGE3A_INIT_ENTRY |}.

(* ================================================================== *)
(** ** Specification-side definitions *)

(** Rounding up to a page multiple, as the specification words it. *)
Definition spec_page_align (s : Z) : Z := PAGE_SIZE * ((s + PAGE_SIZE - 1) / PAGE_SIZE).

(** The pages a component of [s] bytes is measured as: max(ceil(s/4096), 1). *)
Definition spec_page_count (s : Z) : Z := Z.max ((s + PAGE_SIZE - 1) / PAGE_SIZE) 1.

(** The guest address range a component of [s] bytes takes:
    max(page_align(s), PAGE_SIZE). *)
Definition spec_advance (s : Z) : Z := Z.max (spec_page_align s) PAGE_SIZE.

(** The key slot of a host key as the specification describes it: the
    digest of the serialised host key, and the customer root key sealed
    with a zero IV and no AAD under the SHA-256 of the 66-byte shared secret
    followed by 00 00 00 01. *)
Definition spec_wrap_key `{OpenSSL} (secret : list byte) : list byte :=
  sha256 (secret ++ [0x00; 0x00; 0x00; 0x01]).

Definition spec_key_slot `{OpenSSL} (root_key host_pub secret : list byte) : PvHdrKeySlot :=
  let sealed := aes_256_gcm (spec_wrap_key secret) (zeros 12) [] root_key in
  {| digest_key := sha256 host_pub; wrapped_key := fst sealed; tag := snd sealed |}.

(** Calls on a collection, and runs of them.  A call that aborts ends
    the process: no state follows it. *)
Inductive comps_call : Type :=
| CallAdd (comp : PvComponent)
| CallSetOffset (offset : Z)
| CallFinalize (fuel : nat) (fs : filesystem).

Definition comps_step `{OpenSSL} (c : PvImgComps) (call : comps_call)
  : PvImgComps * outcome unit :=
  match call with
  | CallAdd comp =>
      let '(c', _, rc) := pv_img_comps_add_component c comp in (c', rc)
  | CallSetOffset offset => pv_img_comps_set_offset c offset
  | CallFinalize fuel fs =>
      let '(c', rc) := pv_img_comps_finalize fuel fs c in
      (c', match rc with
           | Ok _ => Ok tt | Fail e => Fail e | Abort => Abort | Timeout => Timeout
           end)
  end.

Fixpoint comps_run `{OpenSSL} (c : PvImgComps) (calls : list comps_call)
  : option PvImgComps :=
  match calls with
  | [] => Some c
  | call :: rest =>
      match comps_step c call with
      | (c', Ok _) | (c', Fail _) => comps_run c' rest
      | (_, Abort) | (_, Timeout) => None
      end
  end.

(** The guest addresses a run asks for, as a sum of integers: offsets
    and the ranges of added components. *)
Fixpoint calls_extent (calls : list comps_call) : Z :=
  match calls with
  | [] => 0
  | CallAdd comp :: rest => spec_advance (pv_component_size comp) + calls_extent rest
  | CallSetOffset offset :: rest => offset + calls_extent rest
  | CallFinalize _ _ :: rest => calls_extent rest
  end.

(** Sizes and offsets are unsigned. *)
Fixpoint calls_unsigned (calls : list comps_call) : Prop :=
  match calls with
  | [] => True
  | CallAdd comp :: rest => 0 <= pv_component_size comp /\ calls_unsigned rest
  | CallSetOffset offset :: rest => 0 <= offset /\ calls_unsigned rest
  | CallFinalize _ _ :: rest => calls_unsigned rest
  end.

(** The layout the collection promises: page-aligned addresses, each at
    least the range of its predecessor above it. *)
Fixpoint layout_ok (l : list PvComponent) : Prop :=
  match l with
  | [] => True
  | a :: rest =>
      src_addr a mod PAGE_SIZE = 0 /\
      match rest with
      | [] => True
      | b :: _ =>
          src_addr a < src_addr b /\
          src_addr b - src_addr a >= spec_advance (pv_component_size a)
      end /\
      layout_ok rest
  end.

(* ================================================================== *)
(** ** A small instance of the collaborators, to run the code on *)

Definition toy_digest (n : nat) (d : list byte) : list byte :=
  repeat (fold_left Z.add d 7 mod 256) n.

Definition toy_stream (k : list byte) (d : list byte) : list byte :=
  map (fun b => Z.lxor b (fold_left Z.add k 1 mod 256)) d.

#[local] Instance toy_crypto_defs : PvCryptoDefs.
Proof. refine {| sizeof_ecdh_pub_key := 160 |}. abstract discriminate. Defined.

#[local] Instance toy_openssl : OpenSSL.
Proof.
  refine {| EVP_PKEY := Z;
            sha256 := toy_digest 32;
            sha512 := toy_digest 64;
            derive_key := fun a b => Ok (repeat ((a * b) mod 256) 66);
            evp_pkey_to_ecdh_pub_key := fun k => Ok (repeat (k mod 256) 160);
            read_ec_pubkey_cert := fun p => Ok (Z.of_nat (String.length p));
            aes_256_gcm := fun key iv aad pt =>
                             (toy_stream (key ++ iv) pt, toy_digest 16 (key ++ iv ++ aad ++ pt));
            aes_256_xts := fun key tw page => toy_stream (key ++ tw) page;
            EVP_CipherInit_ex := fun key iv =>
              match key with
              | None => true
              | Some k => if list_eq_dec Z.eq_dec (firstn 32 k) (skipn 32 k)
                          then false else true
              end |}.
  - abstract (intros d; unfold buf_size, toy_digest; now rewrite repeat_length).
  - abstract (intros d; unfold buf_size, toy_digest; now rewrite repeat_length).
  - abstract (intros k d E; injection E as <-; reflexivity).
  - abstract (intros key iv aad pt; cbn; unfold toy_stream; now rewrite length_map).
  - abstract (intros key iv aad pt; reflexivity).
  - abstract (intros key tw page; unfold toy_stream; now rewrite length_map).
Defined.

#[local] Instance toy_opt_item : PvOptItem.
Proof.
  refine {| pv_opt_item_size := fun item => 36 + Z.of_nat (length (item_data item)) |}.
  abstract (intros item; apply Z.add_nonneg_nonneg;
            [discriminate | apply Nat2Z.is_nonneg]).
Defined.

#[local] Instance toy_layout : BootLayout :=
  {| STAGE3A_LOAD_ADDRESS := 0x2000; STAGE3A_INIT_ENTRY := 0x2000 |}.

Definition toy_tweak (idx : Z) : list byte :=
  be_bytes 2 idx ++ [0x11; 0x22; 0x33; 0x44; 0x55; 0x66] ++ zeros 8.

(** A buffer-backed component of five bytes. *)
Definition small_buf_comp : PvComponent :=
  {| type := PV_COMP_TYPE_STAGE3B; data := DATA_BUFFER [1; 2; 3; 4; 5];
     src_addr := 0x3000; orig_size := 5; tweak := toy_tweak 3 |}.

(** An empty buffer-backed component. *)
Definition empty_buf_comp : PvComponent :=
  {| type := PV_COMP_TYPE_CMDLINE; data := DATA_BUFFER [];
     src_addr := 0; orig_size := 0; tweak := toy_tweak 2 |}.

(** A one-page stage3b, as prepared and placed. *)
Definition stage3b_comp : PvComponent :=
  {| type := PV_COMP_TYPE_STAGE3B; data := DATA_BUFFER (repeat 0xAA 4096);
     src_addr := 0x3000; orig_size := 4096; tweak := toy_tweak 3 |}.

Definition toy_parms : cipher_parms :=
  {| parms_key := zeros 64; parms_tweak := toy_tweak 2; parms_padding := PAGE_SIZE |}.

(** A key for XTS: its halves differ. *)
Definition toy_xts_key : list byte := map Z.of_nat (seq 0 64).

Definition xts_parms : cipher_parms :=
  {| parms_key := toy_xts_key; parms_tweak := toy_tweak 2; parms_padding := PAGE_SIZE |}.

Definition toy_comps (l : list PvComponent) (next : Z) : PvImgComps :=
  {| finalized := false; next_src := next; nep := 0;
     ald := []; pld := []; tld := []; comps := l |}.

Definition toy_img (slots : list PvHdrKeySlot) (c : PvImgComps) : PvImage :=
  {| tmp_dir := "/tmp/genprotimg"; stage3a := repeat 0x07 4096;
     stage3a_psw := stage3a_load_psw;
     initial_psw := {| mask := DEFAULT_INITIAL_PSW_MASK; addr := 0x10000 |};
     cust_pub_priv_key := 5; host_pub_keys := [11];
     cust_root_key := zeros 32; gcm_iv := zeros 12; pcf := 0; scf := 0;
     cust_comm_key := zeros 32; xts_key := zeros 64;
     key_slots := slots; optional_items := []; img_comps := c |}.

(** An image whose XTS key OpenSSL takes. *)
Definition xts_img (c : PvImgComps) : PvImage :=
  {| tmp_dir := "/tmp/genprotimg"; stage3a := repeat 0x07 4096;
     stage3a_psw := stage3a_load_psw;
     initial_psw := {| mask := DEFAULT_INITIAL_PSW_MASK; addr := 0x10000 |};
     cust_pub_priv_key := 5; host_pub_keys := [11];
     cust_root_key := zeros 32; gcm_iv := zeros 12; pcf := 0; scf := 0;
     cust_comm_key := zeros 32; xts_key := toy_xts_key;
     key_slots := []; optional_items := []; img_comps := c |}.

Definition short_psw_error : GError :=
  internal_error "Failed to convert PSW to short PSW".

(** When the specification has the short-PSW conversion refuse mask [m]
    and address [a]. *)
Definition short_psw_refused (m a : Z) : Prop :=
  Z.land m 0x000000007FFFFFFF <> 0 \/
  Z.land m 0x0008000000000000 <> 0 \/
  2 ^ 31 <= a.

(** The layout with the cursor in view: every component ends at or below
    the address of its successor, the last one at or below [bound]. *)
Fixpoint layout_chain (l : list PvComponent) (bound : Z) : Prop :=
  match l with
  | [] => True
  | a :: rest =>
      src_addr a mod PAGE_SIZE = 0 /\
      src_addr a + spec_advance (pv_component_size a)
      <= match rest with [] => bound | b :: _ => src_addr b end /\
      layout_chain rest bound
  end.

(** What the collection keeps true of its addresses whatever the sizes:
    alignment of the cursor and of every assigned address. *)
Definition comps_aligned (c : PvImgComps) : Prop :=
  next_src c mod PAGE_SIZE = 0 /\
  Forall (fun a => src_addr a mod PAGE_SIZE = 0) (comps c).

(** With room left in the 64-bit address space. *)
Definition comps_layout (c : PvImgComps) : Prop :=
  0 <= next_src c /\ next_src c mod PAGE_SIZE = 0 /\
  layout_chain (comps c) (next_src c).

(** Three components, placed behind a stage3a of three pages. *)
Definition kernel_file_comp : PvComponent :=
  {| type := PV_COMP_TYPE_KERNEL;
     data := DATA_FILE {| path := "/tmp/genprotimg/kernel"; size := 8192 |};
     src_addr := 0; orig_size := 8000; tweak := toy_tweak 0 |}.

Definition toy_fs : filesystem :=
  [("/tmp/genprotimg/kernel"%string, repeat 0x5A (Z.to_nat 8192))].

Definition toy_calls : list comps_call :=
  [CallSetOffset 0x3000; CallAdd kernel_file_comp; CallAdd empty_buf_comp;
   CallAdd stage3b_comp].

(** Two components behind an offset that leaves one page of the address
    space. *)
Definition wrap_calls : list comps_call :=
  [CallSetOffset (2 ^ 64 - 4096); CallAdd stage3b_comp; CallAdd stage3b_comp].

(** A component the three measurements agree on: its pages lie in the
    64-bit address space, its tweak leaves room for the page index, a
    file holds the recorded number of bytes, and a buffer is empty or at
    least a page long. *)
Definition measurable (fs : filesystem) (comp : PvComponent) : Prop :=
  let p := spec_page_count (pv_component_size comp) in
  0 <= src_addr comp /\
  src_addr comp + PAGE_SIZE * p <= UINT64_MAX /\
  0 <= be_value (tweak comp) /\
  be_value (tweak comp) + PAGE_SIZE * p < 2 ^ 120 /\
  match data comp with
  | DATA_BUFFER buf => buf_size buf = 0 \/ PAGE_SIZE <= buf_size buf
  | DATA_FILE file =>
      exists c, fs_lookup fs (path file) = Some c /\ Z.of_nat (length c) = size file
  end.

(** The pages of a list of components. *)
Definition total_pages (l : list PvComponent) : Z :=
  fold_right (fun comp acc => spec_page_count (pv_component_size comp) + acc) 0 l.

(** The claim of the specification that the size after
    align-and-encrypt is the aligned size. *)
Definition encrypted_size_is_aligned_size `{OpenSSL} (comp : PvComponent) (tmp_path : string)
    (parms : cipher_parms) (fs : filesystem) : Prop :=
  forall comp' fs',
    pv_component_align_and_encrypt comp tmp_path parms fs = Ok (comp', fs') ->
    pv_component_size comp' = spec_page_align (pv_component_size comp).

(** An empty file given as the kernel command line. *)
Definition empty_file_fs : filesystem := [("/boot/parmfile"%string, [])].

Definition empty_file_comp : PvComponent :=
  {| type := PV_COMP_TYPE_CMDLINE;
     data := DATA_FILE {| path := "/boot/parmfile"; size := 0 |};
     src_addr := 0; orig_size := 0; tweak := toy_tweak 2 |}.

Definition changed_error : GError :=
  internal_error "File '%s' has changed during the preparation".

(** pv_img_write up to and including the components [l]. *)
Definition pv_img_write_comps `{OpenSSL} `{BootLayout} (fs : filesystem) (img : PvImage)
    (l : list PvComponent) : FILE * outcome unit :=
  let f := file_open_wb in
  let '(f1, rc) := write_short_psw f (stage3a_psw img) in
  and_then f1 rc (fun _ =>
  let '(f2, rc) := seek_and_write_buffer f1 (stage3a img) STAGE3A_LOAD_ADDRESS in
  and_then f2 rc (fun _ => write_comps_loop fs f2 l)).

(** The prepared kernel of [kernel_file_comp], and a shorter file in its
    place. *)
Definition changed_fs : filesystem :=
  [("/tmp/genprotimg/kernel"%string, repeat 0x5A (Z.to_nat 5000))].

Definition placed_kernel_comp : PvComponent := set_src_addr kernel_file_comp 0x3000.

Definition kernel_img : PvImage :=
  toy_img [] (toy_comps [placed_kernel_comp] 0x5000).

(** What the specification says of the slot emitted for a host key. *)
Definition slot_as_specified `{OpenSSL} (root_key : Buffer) (cust : EVP_PKEY)
    (host : EVP_PKEY) (slot : PvHdrKeySlot) : Prop :=
  exists pub secret,
    evp_pkey_to_ecdh_pub_key host = Ok pub /\
    derive_key cust host = Ok secret /\ buf_size secret = 66 /\
    buf_size (secret ++ [0x00; 0x00; 0x00; 0x01]) = 70 /\
    slot = spec_key_slot root_key pub secret /\
    buf_size (digest_key slot) = 32 /\
    buf_size (wrapped_key slot) = 32 /\
    buf_size (tag slot) = 16.

(** An image before its slots are made, for three host keys. *)
Definition three_hosts_img : PvImage :=
  {| tmp_dir := "/tmp/genprotimg"; stage3a := []; stage3a_psw := stage3a_load_psw;
     initial_psw := {| mask := DEFAULT_INITIAL_PSW_MASK; addr := 0x10000 |};
     cust_pub_priv_key := 5; host_pub_keys := [2; 1; 3];
     cust_root_key := zeros 32; gcm_iv := zeros 12; pcf := 0; scf := 0;
     cust_comm_key := zeros 32; xts_key := zeros 64;
     key_slots := []; optional_items := [];
     img_comps := toy_comps [stage3b_comp] 0x4000 |}.

(** The bytes of the optional items of the image. *)
Definition opt_items_total `{PvOptItem} (l : list pv_hdr_opt_item) : Z :=
  fold_right (fun item acc => pv_opt_item_size item + acc) 0 l.

(** The image of [three_hosts_img] with its slots made. *)
Definition three_slots_img : PvImage :=
  match pv_img_set_host_slots three_hosts_img with
  | Ok img => img
  | _ => three_hosts_img
  end.

(** The claim that building the encrypted part ends with an error of the
    given kind. *)
Definition enc_init_fails_with (c : Z) `{OpenSSL} (hdr : PvHdr) (img : PvImage) : Prop :=
  exists msg, pv_hdr_enc_init hdr img =
              Fail (Some {| domain := PV_ERROR; code := c; message := msg |}).

(** An image whose collection holds no component. *)
Definition no_comps_img : PvImage := toy_img [] (toy_comps [] 0x3000).

(** An image whose last component is not the stage3b component. *)
Definition no_stage3b_img : PvImage := toy_img [] (toy_comps [stage3b_comp; empty_buf_comp] 0x4000).

(** An image whose last component is the stage3b component. *)
Definition stage3b_last_img : PvImage := toy_img [] (toy_comps [empty_buf_comp; stage3b_comp] 0x4000).

(** The header before its parts are filled in. *)
Definition blank_hdr : PvHdr :=
  {| head := pv_hdr_head_zero; slots := []; encrypted := pv_hdr_encrypted_zero;
     hdr_optional_items := []; hdr_tag := zeros 16 |}.

(** The header begins with the magic value and the version, both
    big-endian. *)
Definition header_begins_with (magic version : Z) (buf : Buffer) : Prop :=
  firstn 12 buf = be_bytes 8 magic ++ be_bytes 4 version.

(** The magic value as section 6 of the specification prints it. *)
Definition section6_magic : Z := 0x49426D5365634578.

(** The big-endian addresses of [p] pages from [addr] on. *)
Fixpoint page_addrs (p : nat) (addr : Z) : list byte :=
  match p with
  | O => []
  | S k => be_bytes 8 addr ++ page_addrs k (addr + PAGE_SIZE)
  end.

(** The 16-byte big-endian tweaks of [p] pages from [tw] on. *)
Fixpoint page_tweaks (p : nat) (tw : Z) : list byte :=
  match p with
  | O => []
  | S k => be_bytes 16 tw ++ page_tweaks k (tw + PAGE_SIZE)
  end.

(** The bytes of a component as update_pld absorbs them: the content,
    zero-padded to full pages; an empty file counts as a page of zeros,
    an empty buffer as nothing. *)
Definition measured_pages (fs : filesystem) (comp : PvComponent) : list byte :=
  match data comp with
  | DATA_BUFFER buf => pad_to (Z.to_nat (spec_page_align (buf_size buf))) buf
  | DATA_FILE file =>
      match fs_lookup fs (path file) with
      | Some c => pad_to (Z.to_nat (spec_advance (size file))) c
      | None => []
      end
  end.

(** The number of pages of a component. *)
Definition comp_pages (comp : PvComponent) : nat :=
  Z.to_nat (spec_page_count (pv_component_size comp)).



(** A kernel file that has grown by 100 bytes since it was prepared. *)
Definition grown_fs : filesystem :=
  [("/tmp/genprotimg/kernel"%string, repeat 0x5A (Z.to_nat 8192) ++ repeat 0x77 100)].

(** A kernel of 5000 bytes in a file of the user. *)
Definition user_fs : filesystem :=
  [("/boot/vmlinuz"%string, repeat 0x5A (Z.to_nat 5000))].

Definition user_kernel_comp : PvComponent :=
  {| type := PV_COMP_TYPE_KERNEL;
     data := DATA_FILE {| path := "/boot/vmlinuz"; size := 5000 |};
     src_addr := 0; orig_size := 5000; tweak := toy_tweak 0 |}.

(** The cipher takes the key with the first tweak, and every tweak that
    is set later. *)
Definition xts_accepts `{OpenSSL} (key tw : list byte) : Prop :=
  EVP_CipherInit_ex (Some key) tw = true /\
  forall iv, EVP_CipherInit_ex None iv = true.

(** [n] pages of [data], each read into a zeroed block and enciphered by
    one call of the cipher: the first under the tweak [tw], whose value
    is [twn], every further one under the 16 big-endian bytes of the
    value of its predecessor plus 4096. *)
Fixpoint xts_pages `{OpenSSL} (key tw : list byte) (twn : Z) (n : nat) (data : list byte)
  : list byte :=
  match n with
  | O => []
  | S k =>
      aes_256_xts key tw (pad_to (Z.to_nat PAGE_SIZE) (firstn (Z.to_nat PAGE_SIZE) data))
      ++ xts_pages key (be_bytes 16 (twn + PAGE_SIZE)) (twn + PAGE_SIZE) k
                   (skipn (Z.to_nat PAGE_SIZE) data)
  end.

(** The bytes of a component at write time: a buffer, or the content of
    a file that holds the recorded number of bytes. *)
Definition comp_bytes (fs : filesystem) (comp : PvComponent) : option (list byte) :=
  match data comp with
  | DATA_BUFFER buf => Some buf
  | DATA_FILE file =>
      match fs_lookup fs (path file) with
      | Some c => if size file =? Z.of_nat (length c) then Some c else None
      | None => None
      end
  end.

(** Components whose bytes are there (a buffer holds at least one byte:
    fwrite reports no item written for an item of no bytes), at
    addresses that file_seek takes, each at or above the end [lo] of
    what lies before it. *)
Fixpoint placed (fs : filesystem) (lo : Z) (l : list PvComponent) : Prop :=
  match l with
  | [] => True
  | comp :: rest =>
      exists bs,
        comp_bytes fs comp = Some bs /\
        (forall buf, data comp = DATA_BUFFER buf -> buf <> []) /\
        lo <= src_addr comp <= LONG_MAX /\
        placed fs (src_addr comp + Z.of_nat (length bs)) rest
  end.

(** The bytes of a component are found at its address. *)
Definition written_at (fs : filesystem) (c : list byte) (comp : PvComponent) : Prop :=
  forall bs, comp_bytes fs comp = Some bs ->
             bytes_at c (src_addr comp) (length bs) = bs.

(** A kernel of two pages in a file and a stage3b of one page behind a
    stage3a of one page. *)
Definition written_img : PvImage :=
  toy_img [] (toy_comps [placed_kernel_comp; set_src_addr stage3b_comp 0x5000] 0x6000).

Definition offset_too_large : GError :=
  {| domain := PV_ERROR; code := 0; message := "Offset is too large" |}.

(** A stage3b placed in the upper half of the address space. *)
Definition far_img : PvImage :=
  toy_img [] (toy_comps [placed_kernel_comp; set_src_addr stage3b_comp (2 ^ 63)]
                        (2 ^ 63 + 4096)).

(** A key slot whose fields have the sizes of struct pv_hdr_key_slot. *)
Definition slot_sized (s : PvHdrKeySlot) : Prop :=
  buf_size (digest_key s) = 32 /\ buf_size (wrapped_key s) = 32 /\ buf_size (tag s) = 16.

(** pv_hdr_uses_encryption *)
Definition pv_hdr_uses_encryption (hdr : PvHdr) : bool :=
  negb (negb (Z.land (be_value (head_pcf (head hdr))) PV_CONTROL_FLAG_NO_DECRYPTION =? 0)).

(** The numbers of enum PvComponentType of pv/pv_comp.h, which is not
    among the sources. *)
Class PvCompDefs : Type := { PvComponentType_value : PvComponentType -> Z }.

Definition UINT16_MAX : Z := 2 ^ 16 - 1.
Definition INT_MAX : Z := 2 ^ 31 - 1.
Definition PV_CRYPTO_ERROR_RANDOMIZATION : Z := 6.
Definition PV_CRYPTO_ERROR_INVALID_KEY_SIZE : Z := 8.

(** RAND_bytes of OpenSSL.  The generator is a pool of bytes still to be
    handed out: a call takes [num] of them and fails when fewer are
    left. *)
Definition RAND_bytes (pool : list byte) (num : Z) : option (list byte) * list byte :=
  if Z.of_nat (length pool) <? num then (None, pool)
  else (Some (firstn (Z.to_nat num) pool), skipn (Z.to_nat num) pool).

Definition randomization_error (msg : string) : GError :=
  {| domain := PV_CRYPTO_ERROR; code := PV_CRYPTO_ERROR_RANDOMIZATION; message := msg |}.

(** generate_tweak on the 16 bytes of a union tweak: the index goes to
    bytes 0..1, big endian, the random bytes to bytes 2..7; the page
    index in bytes 8..15 is left as it is. *)
Definition generate_tweak (tweak : list byte) (i : Z) (pool : list byte)
  : outcome (list byte) * list byte :=
  let tweak := memcpy_at tweak 0 (be_bytes 2 i) in
  match RAND_bytes pool 6 with
  | (Some r, pool') => (Ok (memcpy_at tweak 2 r), pool')
  | (None, pool') =>
      (Fail (Some (randomization_error
                     "Tweak/IV could not be auto-generated as the PRNG has not been seeded with enough randomness")),
       pool')
  end.

(** pv_component_new: g_new0 zeroes the address and the tweak. *)
Definition pv_component_new `{PvCompDefs} (type : PvComponentType) (size : Z)
    (data : CompData) (pool : list byte) : outcome PvComponent * list byte :=
  let v := PvComponentType_value type in
  if negb ((v >=? 0) && (v <? UINT16_MAX)) then (Abort, pool)
  else
    match generate_tweak (zeros 16) (v mod 2 ^ 16) pool with
    | (Ok tw, pool') =>
        (Ok {| type := type; data := data; src_addr := 0; orig_size := size;
               tweak := tw |}, pool')
    | (Fail e, pool') => (Fail e, pool')
    | (Abort, pool') => (Abort, pool')
    | (Timeout, pool') => (Timeout, pool')
    end.

(** pv_component_new_file *)
Definition pv_component_new_file `{PvCompDefs} (type : PvComponentType) (path : string)
    (fs : filesystem) (pool : list byte) : outcome PvComponent * list byte :=
  match file_size fs path with
  | Ok size => pv_component_new type size (DATA_FILE {| path := path; size := size |}) pool
  | Fail e => (Fail e, pool)
  | Abort => (Abort, pool)
  | Timeout => (Timeout, pool)
  end.

(** pv_component_new_buf *)
Definition pv_component_new_buf `{PvCompDefs} (type : PvComponentType) (buf : Buffer)
    (pool : list byte) : outcome PvComponent * list byte :=
  let dup_buf := buffer_dup buf false in
  pv_component_new type (buf_size buf) (DATA_BUFFER dup_buf) pool.

(** struct pv_arg of pv_args.h *)
Record PvArg : Type := { arg_type : PvComponentType; arg_path : string }.

(** pv_img_add_component: the image, the file system, the PRNG and the
    return value.  The component pointer has been taken over by the
    collection when the last assertion is reached. *)
Definition pv_img_add_component `{OpenSSL} `{PvCompDefs} (img : PvImage) (arg : PvArg)
    (fs : filesystem) (pool : list byte)
  : PvImage * filesystem * list byte * outcome unit :=
  match pv_component_new_file (arg_type arg) (arg_path arg) fs pool with
  | (Ok comp, pool') =>
      let '(img', fs', rc) := pv_img_prepare_and_add_component img comp fs in
      (img', fs', pool', rc)
  | (Fail e, pool') => (img, fs, pool', Fail e)
  | (Abort, pool') => (img, fs, pool', Abort)
  | (Timeout, pool') => (img, fs, pool', Timeout)
  end.

Definition invalid_key_size_error : GError :=
  {| domain := PV_ERROR; code := PV_CRYPTO_ERROR_INVALID_KEY_SIZE;
     message := "Invalid key size in file '%s': read %zd, expected %u" |}.

(** pv_img_read_key; [size - key_size] is computed in size_t. *)
Definition pv_img_read_key (fs : filesystem) (path : string) (key_size : Z)
  : outcome Buffer :=
  size <- file_size fs path ;;
  if negb (wrap64 (size - key_size) =? 0) then Fail (Some invalid_key_size_error)
  else
    f <- file_open_rb fs path ;;
    let '(rd, _) := file_read f size in
    let tmp_ret := pad_to (Z.to_nat size) rd in
    let bytes_read := Z.of_nat (length rd) in
    if negb (wrap64 (bytes_read - key_size) =? 0) then Fail (Some invalid_key_size_error)
    else Ok tmp_ret.

(** generate_aes_key *)
Definition generate_aes_key (size : Z) (pool : list byte) : outcome Buffer * list byte :=
  if negb (size <=? INT_MAX) then (Abort, pool)
  else
    match RAND_bytes pool size with
    | (Some r, pool') => (Ok r, pool')
    | (None, pool') =>
        (Fail (Some (randomization_error
                       "Key could not be auto-generated as the PRNG has not been seeded with enough randomness")),
         pool')
    end.

(** pv_img_get_key: [key_len] is the length that EVP_CIPHER_key_length
    gives for the cipher (pv_img_get_iv is the same function on the
    length that EVP_CIPHER_iv_length gives); [path] is the file named on the command line, if any. *)
Definition pv_img_get_key (key_len : Z) (path : option string) (fs : filesystem)
    (pool : list byte) : outcome Buffer * list byte :=
  if negb (key_len >? 0) then (Abort, pool)
  else
    match path with
    | Some p => (pv_img_read_key fs p (wrap32 key_len), pool)
    | None => generate_aes_key (wrap32 key_len) pool
    end.

(** A byte string whose elements are bytes. *)
Definition bytes_ok (bs : list byte) : Prop := Forall (fun b => 0 <= b < 256) bs.

(** The tweak of a new component: index, six random bytes, page index
    zero. *)
Definition new_tweak (v : Z) (pool : list byte) : list byte :=
  be_bytes 2 v ++ firstn 6 pool ++ zeros 8.

#[local] Instance toy_comp_defs : PvCompDefs :=
  {| PvComponentType_value := fun t =>
       match t with
       | PV_COMP_TYPE_KERNEL => 0
       | PV_COMP_TYPE_INITRD => 1
       | PV_COMP_TYPE_CMDLINE => 2
       | PV_COMP_TYPE_STAGE3B => 3
       end |}.

Definition toy_pool : list byte := [0x11; 0x22; 0x33; 0x44; 0x55; 0x66; 0x77; 0x88].

Definition PV_ERROR_PARSE_SYNTAX : Z := 2.
Definition PR_ERROR_PARSE_MISSING_ARGUMENT : Z := 3.

(** PvArgs of pv_args.h; a char pointer is [None] when it is NULL.  The
    fields pcf, scf, comps and tmp_dir carry the prefix [args_], their
    names being those of fields of the image and of the collection. *)
Record PvArgs : Type := {
  log_level : Z;
  no_cert_check : Z;
  args_pcf : option string;
  args_scf : option string;
  psw_addr : option string;
  cust_root_key_path : option string;
  cust_comm_key_path : option string;
  gcm_iv_path : option string;
  host_certs : option (list string);
  xts_key_path : option string;
  args_comps : list PvArg;
  output_path : option string;
  args_tmp_dir : option string
}.

(** pv_args_new: g_new0 *)
Definition pv_args_new : PvArgs :=
  {| log_level := 0; no_cert_check := 0; args_pcf := None; args_scf := None;
     psw_addr := None; cust_root_key_path := None; cust_comm_key_path := None;
     gcm_iv_path := None; host_certs := None; xts_key_path := None;
     args_comps := []; output_path := None; args_tmp_dir := None |}.

Definition set_args_comps (args : PvArgs) (l : list PvArg) : PvArgs :=
  {| log_level := log_level args; no_cert_check := no_cert_check args;
     args_pcf := args_pcf args; args_scf := args_scf args; psw_addr := psw_addr args;
     cust_root_key_path := cust_root_key_path args;
     cust_comm_key_path := cust_comm_key_path args; gcm_iv_path := gcm_iv_path args;
     host_certs := host_certs args; xts_key_path := xts_key_path args;
     args_comps := l; output_path := output_path args;
     args_tmp_dir := args_tmp_dir args |}.

(** g_slist_find_custom of GLib: the first element on which [func]
    gives 0. *)
Fixpoint g_slist_find_custom {A B : Type} (l : list A) (data : B) (func : A -> B -> Z)
  : option A :=
  match l with
  | [] => None
  | x :: next => if func x data =? 0 then Some x else g_slist_find_custom next data func
  end.

(** g_slist_insert_sorted of GLib: the new element goes before the first
    element that [func] does not place before it. *)
Fixpoint g_slist_insert_sorted {A : Type} (l : list A) (data : A) (func : A -> A -> Z)
  : list A :=
  match l with
  | [] => [data]
  | x :: next =>
      if func data x >? 0 then x :: g_slist_insert_sorted next data func
      else data :: l
  end.

(** pv_arg_compare *)
Definition pv_arg_compare `{PvCompDefs} (arg_1 arg_2 : PvArg) : Z :=
  let a := PvComponentType_value (arg_type arg_1) in
  let b := PvComponentType_value (arg_type arg_2) in
  if a <? b then -1
  else if a =? b then 0
  else 1.

(** pv_arg_has_type *)
Definition pv_arg_has_type `{PvCompDefs} (c : PvArg) (t : Z) : Z :=
  if PvComponentType_value (arg_type c) =? t then 0
  else if PvComponentType_value (arg_type c) <? t then -1
  else 1.

(** pv_arg_new *)
Definition pv_arg_new (type : PvComponentType) (path : string) : PvArg :=
  {| arg_type := type; arg_path := path |}.

Definition parse_syntax_error (fmt : string) : GError :=
  {| domain := PV_ERROR; code := PV_ERROR_PARSE_SYNTAX; message := fmt |}.

(** The type that add_component takes from the name of the option;
    [None] is the -1 it starts with. *)
Definition option_type (opt : string) : option PvComponentType :=
  let type := None in
  let type := if String.eqb opt "-i" || String.eqb opt "--image"
              then Some PV_COMP_TYPE_KERNEL else type in
  let type := if String.eqb opt "-r" || String.eqb opt "--ramdisk"
              then Some PV_COMP_TYPE_INITRD else type in
  let type := if String.eqb opt "-p" || String.eqb opt "--parmfile"
              then Some PV_COMP_TYPE_CMDLINE else type in
  type.

(** add_component: the arguments as the call leaves them; [Ok tt] is
    TRUE, a failure is FALSE with the error set. *)
Definition add_component `{PvCompDefs} (opt value : string) (args : PvArgs)
  : PvArgs * outcome unit :=
  match option_type opt with
  | None => (args, Fail (Some (parse_syntax_error "Invalid option '%s': ")))
  | Some type =>
      if PvComponentType_value type <? 0
      then (args, Fail (Some (parse_syntax_error "Invalid option '%s': ")))
      else
        match g_slist_find_custom (args_comps args) (PvComponentType_value type)
                                  pv_arg_has_type with
        | Some _ => (args, Fail (Some (parse_syntax_error "Multiple values for option '%s'")))
        | None =>
            let comp := pv_arg_new type value in
            (set_args_comps args (g_slist_insert_sorted (args_comps args) comp pv_arg_compare),
             Ok tt)
        end
  end.

(** The string fields that set_string_option can point to. *)
Inductive args_option : Type :=
| opt_output_path | opt_cust_root_key_path | opt_xts_key_path | opt_cust_comm_key_path
| opt_pcf | opt_psw_addr | opt_scf.

Definition args_option_get (o : args_option) (args : PvArgs) : option string :=
  match o with
  | opt_output_path => output_path args
  | opt_cust_root_key_path => cust_root_key_path args
  | opt_xts_key_path => xts_key_path args
  | opt_cust_comm_key_path => cust_comm_key_path args
  | opt_pcf => args_pcf args
  | opt_psw_addr => psw_addr args
  | opt_scf => args_scf args
  end.

Definition args_option_set (o : args_option) (args : PvArgs) (v : option string) : PvArgs :=
  let pick (p : args_option -> bool) (old : option string) := if p o then v else old in
  {| log_level := log_level args; no_cert_check := no_cert_check args;
     args_pcf := pick (fun o => match o with opt_pcf => true | _ => false end) (args_pcf args);
     args_scf := pick (fun o => match o with opt_scf => true | _ => false end) (args_scf args);
     psw_addr := pick (fun o => match o with opt_psw_addr => true | _ => false end)
                      (psw_addr args);
     cust_root_key_path :=
       pick (fun o => match o with opt_cust_root_key_path => true | _ => false end)
            (cust_root_key_path args);
     cust_comm_key_path :=
       pick (fun o => match o with opt_cust_comm_key_path => true | _ => false end)
            (cust_comm_key_path args);
     gcm_iv_path := gcm_iv_path args;
     host_certs := host_certs args;
     xts_key_path := pick (fun o => match o with opt_xts_key_path => true | _ => false end)
                          (xts_key_path args);
     args_comps := args_comps args;
     output_path := pick (fun o => match o with opt_output_path => true | _ => false end)
                         (output_path args);
     args_tmp_dir := args_tmp_dir args |}.

(** The field that set_string_option takes from the name of the option;
    [None] is the NULL it starts with. *)
Definition string_option_field (opt : string) : option args_option :=
  let args_option := None in
  let args_option := if String.eqb opt "-o" || String.eqb opt "--output"
                     then Some opt_output_path else args_option in
  let args_option := if String.eqb opt "--header-key"
                     then Some opt_cust_root_key_path else args_option in
  let args_option := if String.eqb opt "--comp-key"
                     then Some opt_xts_key_path else args_option in
  let args_option := if String.eqb opt "--x-comm-key"
                     then Some opt_cust_comm_key_path else args_option in
  let args_option := if String.eqb opt "--x-pcf"
                     then Some opt_pcf else args_option in
  let args_option := if String.eqb opt "--x-psw"
                     then Some opt_psw_addr else args_option in
  let args_option := if String.eqb opt "--x-scf"
                     then Some opt_scf else args_option in
  args_option.

(** set_string_option *)
Definition set_string_option (opt value : string) (args : PvArgs)
  : PvArgs * outcome unit :=
  match string_option_field opt with
  | None => (args, Fail (Some (parse_syntax_error "Invalid option '%s': ")))
  | Some o =>
      match args_option_get o args with
      | Some _ => (args, Fail (Some (parse_syntax_error "Multiple values for option '%s'")))
      | None => (args_option_set o args (Some value), Ok tt)
      end
  end.

Definition missing_argument_error (msg : string) : GError :=
  {| domain := PV_ERROR; code := PR_ERROR_PARSE_MISSING_ARGUMENT; message := msg |}.

(** g_strv_length of GLib *)
Definition g_strv_length (str_array : list string) : Z := Z.of_nat (length str_array).

(** pv_args_validate_options *)
Definition pv_args_validate_options `{PvCompDefs} (args : PvArgs) : outcome unit :=
  let KERNEL := PvComponentType_value PV_COMP_TYPE_KERNEL in
  match output_path args with
  | None => Fail (Some (missing_argument_error "'--output' option is missing"))
  | Some _ =>
      match g_slist_find_custom (args_comps args) KERNEL pv_arg_has_type with
      | None => Fail (Some (missing_argument_error "'--image' option is missing"))
      | Some _ =>
          if match host_certs args with
             | None => true
             | Some certs => g_strv_length certs =? 0
             end
          then Fail (Some (missing_argument_error "'--host-cert' option is missing"))
          else if no_cert_check args =? 0
          then Fail (Some (missing_argument_error
                             "Please use the option '--no-cert-check' as the verification support is not available yet."))
          else Ok tt
      end
  end.

(** The arguments in ascending order of the numbers of their types, no
    number twice. *)
Fixpoint args_sorted `{PvCompDefs} (l : list PvArg) : bool :=
  match l with
  | [] => true
  | a :: next =>
      match next with
      | [] => true
      | b :: _ =>
          (PvComponentType_value (arg_type a) <? PvComponentType_value (arg_type b))
          && args_sorted next
      end
  end.

(** The arguments after "-p parm -i vmlinuz". *)
Definition parm_image_args `{PvCompDefs} : PvArgs :=
  fst (add_component "-i" "vmlinuz" (fst (add_component "-p" "parm" pv_args_new))).

(* ================================================================== *)
(** * Properties *)

Unset Implicit Arguments.

(** ** Machine integers, alignment, byte strings *)

Lemma wrap64_small (x : Z) : 0 <= x <= UINT64_MAX -> wrap64 x = x.
Proof. unfold wrap64, UINT64_MAX. intros. apply Z.mod_small. lia. Qed.

Lemma wrap64_mod_page (x : Z) : wrap64 x mod PAGE_SIZE = x mod PAGE_SIZE.
Proof.
  unfold wrap64, PAGE_SIZE. apply Z.mod_mod_divide.
  exists (2 ^ 52). reflexivity.
Qed.

(** Clearing the [n] low bits with a 64-bit mask. *)
Lemma land_high_mask (a n : Z) :
  0 <= a <= UINT64_MAX -> 0 <= n ->
  Z.land a (Z.lnot (Z.ones n) mod 2 ^ 64) = a - a mod 2 ^ n.
Proof.
  intros Ha Hn.
  rewrite <- (Z.land_ones _ 64) by lia.
  rewrite (Z.land_comm (Z.lnot _)), Z.land_assoc.
  rewrite (Z.land_ones a 64) by lia.
  rewrite Z.mod_small by (unfold UINT64_MAX in Ha; lia).
  rewrite <- Z.ldiff_land, Z.ldiff_ones_r by lia.
  rewrite Z.shiftr_div_pow2, Z.shiftl_mul_pow2 by lia.
  pose proof (Z.div_mod a (2 ^ n)) as D.
  assert (0 < 2 ^ n) by (apply Z.pow_pos_nonneg; lia).
  lia.
Qed.

Lemma IS_PAGE_ALIGNED_spec (x : Z) : IS_PAGE_ALIGNED x = (x mod PAGE_SIZE =? 0).
Proof.
  unfold IS_PAGE_ALIGNED, IS_ALIGNED.
  change (PAGE_SIZE - 1) with (Z.ones 12).
  rewrite Z.land_ones by lia.
  change (2 ^ 12) with PAGE_SIZE.
  now rewrite wrap64_mod_page.
Qed.

Lemma PAGE_ALIGN_spec (x : Z) :
  0 <= x -> x + PAGE_SIZE - 1 <= UINT64_MAX -> PAGE_ALIGN x = spec_page_align x.
Proof.
  intros H0 H1. unfold PAGE_ALIGN, ALIGN, spec_page_align.
  assert (Hx : wrap64 x = x) by (apply wrap64_small; unfold PAGE_SIZE in *; lia).
  rewrite Hx.
  rewrite (wrap64_small (x + PAGE_SIZE - 1)) by (unfold PAGE_SIZE in *; lia).
  change (PAGE_SIZE - 1) with (Z.ones 12).
  rewrite land_high_mask by (unfold PAGE_SIZE in *; lia).
  change (2 ^ 12) with PAGE_SIZE.
  pose proof (Z.div_mod (x + PAGE_SIZE - 1) PAGE_SIZE) as D.
  unfold PAGE_SIZE in *. lia.
Qed.

Lemma spec_page_align_mod (s : Z) : spec_page_align s mod PAGE_SIZE = 0.
Proof. unfold spec_page_align. rewrite Z.mul_comm. apply Z.mod_mul. discriminate. Qed.

Lemma spec_page_align_ge (s : Z) : s <= spec_page_align s.
Proof.
  unfold spec_page_align.
  pose proof (Z.div_mod (s + PAGE_SIZE - 1) PAGE_SIZE) as D.
  pose proof (Z.mod_pos_bound (s + PAGE_SIZE - 1) PAGE_SIZE) as B.
  unfold PAGE_SIZE in *. lia.
Qed.

Lemma spec_page_align_aligned (s : Z) : s mod PAGE_SIZE = 0 -> spec_page_align s = s.
Proof.
  intros H. unfold spec_page_align.
  pose proof (Z.div_mod s PAGE_SIZE) as D.
  unfold PAGE_SIZE in *.
  replace (s + 4096 - 1) with (4095 + (s / 4096) * 4096) by lia.
  rewrite Z.div_add by lia. change (4095 / 4096) with 0. lia.
Qed.

Lemma spec_advance_pos (s : Z) : PAGE_SIZE <= spec_advance s.
Proof. unfold spec_advance. lia. Qed.

Lemma spec_advance_mod (s : Z) : spec_advance s mod PAGE_SIZE = 0.
Proof.
  unfold spec_advance.
  destruct (Z.max_spec (spec_page_align s) PAGE_SIZE) as [[_ ->] | [_ ->]].
  - reflexivity.
  - apply spec_page_align_mod.
Qed.

Lemma be_bytes_length (n : nat) (v : Z) : length (be_bytes n v) = n.
Proof. induction n; simpl; congruence. Qed.

Lemma be_value_acc (b : list byte) (acc : Z) :
  fold_left (fun acc x => acc * 256 + x) b acc
  = acc * 256 ^ Z.of_nat (length b) + be_value b.
Proof.
  unfold be_value. revert acc. induction b as [|x b IH]; intros acc.
  - simpl. lia.
  - cbn [fold_left length]. rewrite IH, (IH (0 * 256 + x)).
    rewrite Nat2Z.inj_succ, Z.pow_succ_r by lia. ring.
Qed.

Lemma be_value_app (a b : list byte) :
  be_value (a ++ b) = be_value a * 256 ^ Z.of_nat (length b) + be_value b.
Proof. unfold be_value at 1. rewrite fold_left_app. apply be_value_acc. Qed.

Lemma be_value_be_bytes (n : nat) (v : Z) :
  be_value (be_bytes n v) = v mod 256 ^ Z.of_nat n.
Proof.
  induction n as [|n IH].
  - simpl. now rewrite Z.mod_1_r.
  - cbn [be_bytes].
    change (?x :: be_bytes n v) with ([x] ++ be_bytes n v).
    rewrite be_value_app, be_bytes_length, IH.
    unfold be_value. cbn [fold_left].
    rewrite Nat2Z.inj_succ, Z.pow_succ_r by lia.
    replace (2 ^ (8 * Z.of_nat n)) with (256 ^ Z.of_nat n)
      by (change 256 with (2 ^ 8); rewrite <- Z.pow_mul_r by lia; reflexivity).
    assert (P : 0 < 256 ^ Z.of_nat n) by (apply Z.pow_pos_nonneg; lia).
    rewrite (Z.mul_comm 256), Z.rem_mul_r by lia.
    ring.
Qed.

Lemma be_value_be_bytes_small (n : nat) (v : Z) :
  0 <= v < 256 ^ Z.of_nat n -> be_value (be_bytes n v) = v.
Proof. intros. rewrite be_value_be_bytes. now apply Z.mod_small. Qed.

(* ------------------------------------------------------------------ *)
(** ** The short PSW at offset 0 *)

Lemma short_addr_test (a : Z) :
  0 <= a <= UINT64_MAX ->
  (Z.land a (wrap64 (Z.lnot PSW_SHORT_ADDR_MASK)) =? 0) = (a <? 2 ^ 31).
Proof.
  intros Ha. unfold wrap64. change PSW_SHORT_ADDR_MASK with (Z.ones 31).
  rewrite land_high_mask by lia.
  pose proof (Z.mod_pos_bound a (2 ^ 31) ltac:(lia)) as B.
  destruct (Z.ltb_spec a (2 ^ 31)) as [L | L].
  - rewrite Z.mod_small by lia. apply Z.eqb_eq. lia.
  - apply Z.eqb_neq. lia.
Qed.


Lemma convert_psw_refused (m a : Z) :
  0 <= a <= UINT64_MAX -> short_psw_refused m a ->
  convert_psw_to_short_psw {| mask := m; addr := a |} = Fail (Some short_psw_error).
Proof.
  intros Ha R. unfold convert_psw_to_short_psw. cbn [mask addr].
  change PSW_SHORT_ADDR_MASK with 0x000000007FFFFFFF at 1.
  change PSW_MASK_BIT_12 with 0x0008000000000000 at 1.
  destruct (Z.eqb_spec (Z.land m 0x000000007FFFFFFF) 0) as [E1 | E1]; [|reflexivity].
  destruct (Z.eqb_spec (Z.land m 0x0008000000000000) 0) as [E2 | E2]; [|reflexivity].
  rewrite short_addr_test by exact Ha.
  destruct R as [R | [R | R]]; try contradiction.
  destruct (Z.ltb_spec a (2 ^ 31)); [lia | reflexivity].
Qed.

Lemma convert_psw_accepted (m a : Z) :
  0 <= a <= UINT64_MAX -> ~ short_psw_refused m a ->
  convert_psw_to_short_psw {| mask := m; addr := a |}
  = Ok (Z.lor (Z.lor m 0x0008000000000000) a).
Proof.
  intros Ha R. unfold convert_psw_to_short_psw. cbn [mask addr].
  change PSW_SHORT_ADDR_MASK with 0x000000007FFFFFFF at 1.
  change PSW_MASK_BIT_12 with 0x0008000000000000.
  unfold short_psw_refused in R.
  destruct (Z.eqb_spec (Z.land m 0x000000007FFFFFFF) 0) as [E1 | E1]; [|tauto].
  destruct (Z.eqb_spec (Z.land m 0x0008000000000000) 0) as [E2 | E2]; [|tauto].
  rewrite short_addr_test by exact Ha.
  destruct (Z.ltb_spec a (2 ^ 31)); [reflexivity | tauto].
Qed.

(** C7.  The short PSW of a load PSW with mask [m] and address [a] is
    refused exactly when [m] has a bit of 0x000000007FFFFFFF set, or has
    bit 12 (0x0008000000000000) set, or [a] is at least 2^31; otherwise it
    is m | 0x0008000000000000 | a, and write_short_psw puts its eight
    big-endian bytes at offset 0 of the freshly opened output file. *)
Theorem C7_short_psw (m a : Z) :
  0 <= a <= UINT64_MAX ->
  let psw := {| mask := m; addr := a |} in
  let short := Z.lor (Z.lor m 0x0008000000000000) a in
  ((exists e, convert_psw_to_short_psw psw = Fail e) <-> short_psw_refused m a) /\
  (short_psw_refused m a ->
   convert_psw_to_short_psw psw = Fail (Some short_psw_error) /\
   write_short_psw file_open_wb psw = (file_open_wb, Fail (Some short_psw_error))) /\
  (~ short_psw_refused m a ->
   convert_psw_to_short_psw psw = Ok short /\
   write_short_psw file_open_wb psw
   = ({| pos := 8; content := be_bytes 8 short |}, Ok tt)).
Proof.
  intros Ha psw short. split; [|split].
  - split.
    + intros [e E].
      destruct (Z.eq_dec (Z.land m 0x000000007FFFFFFF) 0) as [E1|E1];
        [|left; exact E1].
      destruct (Z.eq_dec (Z.land m 0x0008000000000000) 0) as [E2|E2];
        [|right; left; exact E2].
      destruct (Z_lt_le_dec a (2 ^ 31)) as [L|L]; [|right; right; exact L].
      exfalso. subst psw.
      rewrite convert_psw_accepted in E; [discriminate | exact Ha |].
      unfold short_psw_refused. lia.
    + intros R. eexists. apply convert_psw_refused; assumption.
  - intros R. unfold write_short_psw. subst psw.
    rewrite convert_psw_refused by assumption. split; reflexivity.
  - intros R. unfold write_short_psw. subst psw.
    rewrite convert_psw_accepted by assumption. split; reflexivity.
Qed.

Lemma C7_short_psw_witness :
  convert_psw_to_short_psw {| mask := 0x0000000180000000; addr := 0x2000 |}
  = Ok 0x0008000180002000 /\
  convert_psw_to_short_psw {| mask := 0x0000000180000000; addr := 2 ^ 31 |}
  = Fail (Some short_psw_error).
Proof.
  pose proof (@C7_short_psw 0x0000000180000000 0x2000 ltac:(unfold UINT64_MAX; lia))
    as [_ [_ A]].
  pose proof (@C7_short_psw 0x0000000180000000 (2 ^ 31) ltac:(unfold UINT64_MAX; lia))
    as [_ [R _]].
  split.
  - apply A. unfold short_psw_refused. cbn. lia.
  - apply R. unfold short_psw_refused. right. right. lia.
Defined.

(* ------------------------------------------------------------------ *)
(** ** The component collection: layout and finalization *)


Lemma src_size_spec (s : Z) :
  0 <= s -> s + PAGE_SIZE - 1 <= UINT64_MAX ->
  (if s =? 0 then PAGE_SIZE else PAGE_ALIGN s) = spec_advance s.
Proof.
  intros H0 H1. unfold spec_advance.
  destruct (Z.eqb_spec s 0) as [-> | N].
  - reflexivity.
  - rewrite PAGE_ALIGN_spec by assumption.
    pose proof (spec_page_align_ge s) as G.
    pose proof (spec_page_align_mod s) as M.
    assert (PAGE_SIZE <= spec_page_align s); [|lia].
    unfold spec_page_align in *.
    assert (0 < (s + PAGE_SIZE - 1) / PAGE_SIZE); [|unfold PAGE_SIZE in *; lia].
    apply Z.div_str_pos. unfold PAGE_SIZE. lia.
Qed.

Lemma layout_chain_snoc (l : list PvComponent) (x : PvComponent) (b b' : Z) :
  layout_chain l b -> src_addr x = b -> b mod PAGE_SIZE = 0 ->
  b + spec_advance (pv_component_size x) <= b' ->
  layout_chain (l ++ [x]) b'.
Proof.
  intros L E M G. induction l as [|a rest IH].
  - cbn. rewrite E. auto.
  - cbn [app layout_chain] in *. destruct L as (Ma & Ga & L). split; [exact Ma|]. split.
    + destruct rest as [|r rest']; cbn [app]; [rewrite E|]; exact Ga.
    + apply IH. exact L.
Qed.

Lemma layout_chain_ok (l : list PvComponent) (b : Z) : layout_chain l b -> layout_ok l.
Proof.
  induction l as [|a rest IH]; [easy|].
  cbn [layout_chain layout_ok]. intros (M & G & L). split; [exact M|]. split.
  - destruct rest as [|r rest']; [exact I|].
    pose proof (spec_advance_pos (pv_component_size a)). unfold PAGE_SIZE in *. lia.
  - apply IH. exact L.
Qed.

(** pv_img_comps_hash_comp and the loop over it touch the digests and
    nep only. *)
Lemma hash_comp_frame (fuel : nat) (fs : filesystem) (c : PvImgComps) (comp : PvComponent) :
  let c' := fst (pv_img_comps_hash_comp fuel fs c comp) in
  finalized c' = finalized c /\ next_src c' = next_src c /\ comps c' = comps c.
Proof.
  unfold pv_img_comps_hash_comp.
  destruct (pv_component_update_pld fs comp (pld c)) as [pld' [nep_1 | e | |]];
    cbn; auto.
  destruct (pv_component_update_ald fuel comp (ald c)) as [[nep_2 ald'] | e | |];
    cbn; auto.
  destruct (pv_component_update_tld fuel comp (tld c)) as [[nep_3 tld'] | e | |];
    cbn; auto.
  destruct (nep_1 =? nep_2); cbn; auto.
  destruct (nep_2 =? nep_3); cbn; auto.
  unfold g_uint64_checked_add.
  destruct (nep c + nep_1 <=? UINT64_MAX); cbn; auto.
Qed.

Lemma finalize_loop_frame (fuel : nat) (fs : filesystem) (l : list PvComponent)
    (c : PvImgComps) :
  let c' := fst (finalize_loop fuel fs c l) in
  finalized c' = finalized c /\ next_src c' = next_src c /\ comps c' = comps c.
Proof.
  revert c. induction l as [|comp l IH]; intros c; cbn; auto.
  pose proof (hash_comp_frame fuel fs c comp) as F.
  destruct (pv_img_comps_hash_comp fuel fs c comp) as [c1 [[] | e | |]];
    cbn in *; auto.
  specialize (IH c1). cbn in IH. destruct IH as (A & B & C), F as (A' & B' & C').
  repeat split; congruence.
Qed.

Lemma and_then_state {S A B : Type} (P : S -> Prop) (s : S) (m : outcome A)
    (k : A -> S * outcome B) :
  P s -> (forall a, P (fst (k a))) -> P (fst (and_then s m k)).
Proof. intros Ps Pk. destruct m; cbn; auto. Qed.

Lemma finalize_frame `{OpenSSL} (fuel : nat) (fs : filesystem) (c : PvImgComps) :
  let c' := fst (pv_img_comps_finalize fuel fs c) in
  finalized c' = true /\ next_src c' = next_src c /\ comps c' = comps c.
Proof.
  unfold pv_img_comps_finalize.
  match goal with
  | |- context [finalize_loop fuel fs ?c0 ?l] =>
      pose proof (finalize_loop_frame fuel fs l c0) as F;
      destruct (finalize_loop fuel fs c0 l) as [c1 rc]
  end.
  cbn in F. cbv zeta.
  set (P := fun c' => finalized c' = true /\ next_src c' = next_src c /\ comps c' = comps c).
  change (P (fst (and_then c1 rc
     (fun _ => and_then c1 (digest_ctx_finalize (pld c1))
     (fun tmp_pld_digest => and_then c1 (digest_ctx_finalize (ald c1))
     (fun tmp_ald_digest => and_then c1 (digest_ctx_finalize (tld c1))
     (fun tmp_tld_digest =>
        (c1, Ok (tmp_pld_digest, tmp_ald_digest, tmp_tld_digest, nep c1))))))))).
  assert (R : P c1) by exact F.
  repeat (apply and_then_state; [exact R | intros ?]).
  exact R.
Qed.

(** One call keeps the alignment, whatever it is given. *)
Lemma comps_step_aligned `{OpenSSL} (c c' : PvImgComps) (call : comps_call) (rc : outcome unit) :
  comps_step c call = (c', rc) -> rc <> Abort -> rc <> Timeout ->
  comps_aligned c -> comps_aligned c'.
Proof.
  intros E NA NT [A F]. destruct call as [comp | offset | fuel fs]; cbn in E.
  - unfold pv_img_comps_add_component in E.
    destruct (IS_PAGE_ALIGNED (next_src c)) eqn:Al; cbn in E;
      [|injection E as <- <-; congruence].
    destruct (finalized c); [injection E as <- <-; split; assumption|].
    cbn in E. injection E as <- <-. cbn [next_src] in NA.
    match type of NA with
    | g_assert (IS_PAGE_ALIGNED ?n) <> _ => destruct (IS_PAGE_ALIGNED n) eqn:Al'
    end; [|now cbn in NA].
    rewrite IS_PAGE_ALIGNED_spec in Al'. apply Z.eqb_eq in Al'.
    split; [exact Al'|]. cbn [comps]. apply Forall_app. split; [exact F|].
    constructor; [exact A | constructor].
  - unfold pv_img_comps_set_offset in E.
    destruct (IS_PAGE_ALIGNED (next_src c)); cbn in E; [|injection E as <- <-; congruence].
    destruct (IS_PAGE_ALIGNED offset); cbn in E; [|injection E as <- <-; congruence].
    destruct (pv_img_comps_length c >? 0); [injection E as <- <-; split; assumption|].
    injection E as <- <-. cbn [next_src] in NA.
    match type of NA with
    | g_assert (IS_PAGE_ALIGNED ?n) <> _ => destruct (IS_PAGE_ALIGNED n) eqn:Al'
    end; [|now cbn in NA].
    rewrite IS_PAGE_ALIGNED_spec in Al'. apply Z.eqb_eq in Al'.
    split; [exact Al' | exact F].
  - pose proof (finalize_frame fuel fs c) as Fr.
    destruct (pv_img_comps_finalize fuel fs c) as [c1 r]. cbn in Fr.
    injection E as <- _. destruct Fr as (_ & B & C).
    unfold comps_aligned. rewrite B, C. split; assumption.
Qed.

Lemma comps_run_aligned `{OpenSSL} (calls : list comps_call) (c c' : PvImgComps) :
  comps_run c calls = Some c' -> comps_aligned c -> comps_aligned c'.
Proof.
  revert c. induction calls as [|call rest IH]; intros c R A.
  - injection R as <-. exact A.
  - cbn [comps_run] in R.
    destruct (comps_step c call) as [c1 rc] eqn:S.
    destruct rc as [[] | e | |]; try discriminate;
      (apply (IH c1 R); eapply comps_step_aligned; [exact S | discriminate.. | exact A]).
Qed.

Lemma page_multiple_room (k s : Z) :
  0 <= s -> k mod PAGE_SIZE = 0 -> s <= k -> k <= UINT64_MAX ->
  s + PAGE_SIZE - 1 <= UINT64_MAX.
Proof.
  intros S M L B. pose proof (Z.div_mod k PAGE_SIZE) as D.
  unfold PAGE_SIZE, UINT64_MAX in *. lia.
Qed.

Lemma spec_advance_room (n s : Z) :
  0 <= n -> 0 <= s -> n + spec_advance s <= UINT64_MAX ->
  s + PAGE_SIZE - 1 <= UINT64_MAX.
Proof.
  intros N S B. apply (page_multiple_room (spec_page_align s)); try assumption.
  - apply spec_page_align_mod.
  - apply spec_page_align_ge.
  - unfold spec_advance in B. lia.
Qed.

(** What a successful add does. *)
Lemma add_component_ok (c c1 : PvImgComps) (comp comp1 : PvComponent) :
  pv_img_comps_add_component c comp = (c1, comp1, Ok tt) ->
  finalized c = false /\
  comp1 = set_src_addr comp (next_src c) /\
  comps c1 = comps c ++ [comp1] /\
  next_src c1 = wrap64 (next_src c + (if pv_component_size comp =? 0 then PAGE_SIZE
                                      else PAGE_ALIGN (pv_component_size comp))) /\
  next_src c mod PAGE_SIZE = 0.
Proof.
  unfold pv_img_comps_add_component. intros E.
  destruct (IS_PAGE_ALIGNED (next_src c)) eqn:Al; cbn in E; [|discriminate].
  rewrite IS_PAGE_ALIGNED_spec in Al. apply Z.eqb_eq in Al.
  destruct (finalized c); [discriminate|].
  injection E as <- <- _. cbn. auto.
Qed.

Lemma comps_step_layout `{OpenSSL} (c c' : PvImgComps) (call : comps_call) (rc : outcome unit) :
  comps_step c call = (c', rc) -> rc <> Abort -> rc <> Timeout ->
  comps_layout c -> calls_unsigned [call] ->
  next_src c + calls_extent [call] <= UINT64_MAX ->
  comps_layout c' /\ next_src c' <= next_src c + calls_extent [call].
Proof.
  intros E NA NT (P & M & L) U B. destruct call as [comp | offset | fuel fs];
    cbn [calls_unsigned calls_extent] in U, B |- *; cbn in E.
  - destruct U as [U _].
    pose proof (spec_advance_pos (pv_component_size comp)) as Pos.
    unfold pv_img_comps_add_component in E.
    destruct (IS_PAGE_ALIGNED (next_src c)) eqn:Al; cbn in E;
      [|injection E as <- <-; congruence].
    destruct (finalized c).
    { injection E as <- <-. split; [repeat split; assumption|].
      unfold PAGE_SIZE in *. lia. }
    cbn in E. injection E as <- <-.
    rewrite src_size_spec
      by (try assumption; apply (spec_advance_room (next_src c)); assumption || lia).
    rewrite wrap64_small by (unfold PAGE_SIZE in *; lia).
    pose proof (spec_advance_mod (pv_component_size comp)) as Md.
    split; [|cbn; lia]. unfold comps_layout. cbn [next_src comps]. repeat split.
    + unfold PAGE_SIZE in *. lia.
    + rewrite Z.add_mod, M, Md by discriminate. reflexivity.
    + eapply layout_chain_snoc; [exact L | reflexivity | exact M |].
      change (pv_component_size (set_src_addr comp (next_src c)))
        with (pv_component_size comp). lia.
  - destruct U as [U _].
    unfold pv_img_comps_set_offset in E.
    destruct (IS_PAGE_ALIGNED (next_src c)); cbn in E; [|injection E as <- <-; congruence].
    destruct (IS_PAGE_ALIGNED offset) eqn:Ao; cbn in E;
      [|injection E as <- <-; congruence].
    rewrite IS_PAGE_ALIGNED_spec in Ao. apply Z.eqb_eq in Ao.
    destruct (pv_img_comps_length c >? 0) eqn:Len.
    { injection E as <- <-. split; [repeat split; assumption | lia]. }
    injection E as <- <-. cbn [next_src comps].
    rewrite wrap64_small by lia.
    assert (comps c = []) as Emp.
    { unfold pv_img_comps_length in Len. destruct (comps c); [reflexivity|].
      rewrite Z.gtb_ltb in Len. apply Z.ltb_ge in Len.
      cbn [length] in Len. lia. }
    split; [|lia]. unfold comps_layout. cbn [next_src comps]. rewrite Emp. repeat split.
    + lia.
    + rewrite Z.add_mod, M, Ao by discriminate. reflexivity.
  - pose proof (finalize_frame fuel fs c) as Fr.
    destruct (pv_img_comps_finalize fuel fs c) as [c1 r]. cbn in Fr.
    injection E as <- _. destruct Fr as (_ & Bn & Cn).
    unfold comps_layout. rewrite Bn, Cn. split; [repeat split; assumption | lia].
Qed.

Lemma calls_extent_nonneg (calls : list comps_call) :
  calls_unsigned calls -> 0 <= calls_extent calls.
Proof.
  induction calls as [|[comp | offset | fuel fs] rest IH]; cbn; intros U.
  - lia.
  - pose proof (spec_advance_pos (pv_component_size comp)).
    unfold PAGE_SIZE in *. destruct U as [_ U]. specialize (IH U). lia.
  - destruct U as [U0 U]. specialize (IH U). lia.
  - auto.
Qed.

Lemma comps_run_layout `{OpenSSL} (calls : list comps_call) (c c' : PvImgComps) :
  comps_run c calls = Some c' -> comps_layout c -> calls_unsigned calls ->
  next_src c + calls_extent calls <= UINT64_MAX ->
  comps_layout c'.
Proof.
  revert c. induction calls as [|call rest IH]; intros c R L U B.
  - injection R as <-. exact L.
  - cbn [comps_run] in R.
    destruct (comps_step c call) as [c1 rc] eqn:S.
    assert (U1 : calls_unsigned [call] /\ calls_unsigned rest).
    { destruct call; cbn in *; tauto. }
    assert (E1 : calls_extent (call :: rest) = calls_extent [call] + calls_extent rest).
    { destruct call; cbn; lia. }
    destruct U1 as [U1 U2]. pose proof (calls_extent_nonneg rest U2) as N2.
    assert (Step : rc <> Abort -> rc <> Timeout ->
                   comps_layout c1 /\ next_src c1 <= next_src c + calls_extent [call]).
    { intros. eapply comps_step_layout; eauto. lia. }
    destruct rc as [[] | e | |]; try discriminate;
      (destruct Step as [L1 B1]; [discriminate.. |];
       apply (IH c1 R L1 U2); lia).
Qed.

Lemma comps_step_finalized `{OpenSSL} (c c' : PvImgComps) (call : comps_call) (rc : outcome unit) :
  comps_step c call = (c', rc) -> finalized c = true -> finalized c' = true.
Proof.
  intros E F. destruct call as [comp | offset | fuel fs]; cbn in E.
  - unfold pv_img_comps_add_component in E. rewrite F in E.
    destruct (IS_PAGE_ALIGNED (next_src c)); cbn in E; injection E as <- _; exact F.
  - unfold pv_img_comps_set_offset in E.
    destruct (IS_PAGE_ALIGNED (next_src c)); cbn in E; [|injection E as <- _; exact F].
    destruct (IS_PAGE_ALIGNED offset); cbn in E; [|injection E as <- _; exact F].
    destruct (pv_img_comps_length c >? 0); injection E as <- _; exact F.
  - pose proof (finalize_frame fuel fs c) as Fr.
    destruct (pv_img_comps_finalize fuel fs c) as [c1 r]. cbn in Fr.
    injection E as <- _. tauto.
Qed.

Lemma comps_run_finalized `{OpenSSL} (calls : list comps_call) (c c' : PvImgComps) :
  comps_run c calls = Some c' -> finalized c = true -> finalized c' = true.
Proof.
  revert c. induction calls as [|call rest IH]; intros c R F.
  - injection R as <-. exact F.
  - cbn [comps_run] in R. destruct (comps_step c call) as [c1 rc] eqn:S.
    pose proof (comps_step_finalized _ _ _ _ S F) as F1.
    destruct rc as [[] | e | |]; try discriminate; exact (IH c1 R F1).
Qed.

Lemma comps_run_app `{OpenSSL} (a b : list comps_call) (c : PvImgComps) :
  comps_run c (a ++ b)
  = match comps_run c a with Some c1 => comps_run c1 b | None => None end.
Proof.
  revert c. induction a as [|call a IH]; intros c; [reflexivity|].
  cbn [app comps_run]. destruct (comps_step c call) as [c1 [[] | e | |]]; auto.
Qed.

Lemma comps_new_aligned : comps_aligned pv_img_comps_new.
Proof. split; [reflexivity | constructor]. Qed.

Lemma comps_new_layout : comps_layout pv_img_comps_new.
Proof. repeat split; cbn; lia. Qed.

(** The cursor is a uint64_t. *)
Lemma comps_step_range `{OpenSSL} (c c' : PvImgComps) (call : comps_call) (rc : outcome unit) :
  comps_step c call = (c', rc) ->
  0 <= next_src c <= UINT64_MAX -> 0 <= next_src c' <= UINT64_MAX.
Proof.
  assert (W : forall x, 0 <= wrap64 x <= UINT64_MAX).
  { intros x. unfold wrap64, UINT64_MAX.
    pose proof (Z.mod_pos_bound x (2 ^ 64) ltac:(reflexivity)). lia. }
  intros E B. destruct call as [comp | offset | fuel fs]; cbn in E.
  - unfold pv_img_comps_add_component in E.
    destruct (IS_PAGE_ALIGNED (next_src c)); cbn in E; [|injection E as <- _; exact B].
    destruct (finalized c); [injection E as <- _; exact B|].
    cbn in E. injection E as <- _. cbn [next_src]. apply W.
  - unfold pv_img_comps_set_offset in E.
    destruct (IS_PAGE_ALIGNED (next_src c)); cbn in E; [|injection E as <- _; exact B].
    destruct (IS_PAGE_ALIGNED offset); cbn in E; [|injection E as <- _; exact B].
    destruct (pv_img_comps_length c >? 0); [injection E as <- _; exact B|].
    injection E as <- _. cbn [next_src]. apply W.
  - pose proof (finalize_frame fuel fs c) as Fr.
    destruct (pv_img_comps_finalize fuel fs c) as [c1 r]. cbn in Fr.
    injection E as <- _. destruct Fr as (_ & Bn & _). rewrite Bn. exact B.
Qed.

Lemma comps_run_range `{OpenSSL} (calls : list comps_call) (c c' : PvImgComps) :
  comps_run c calls = Some c' ->
  0 <= next_src c <= UINT64_MAX -> 0 <= next_src c' <= UINT64_MAX.
Proof.
  revert c. induction calls as [|call rest IH]; intros c R B.
  - injection R as <-. exact B.
  - cbn [comps_run] in R.
    destruct (comps_step c call) as [c1 rc] eqn:S.
    pose proof (comps_step_range _ _ _ _ S B) as B1.
    destruct rc as [[] | e | |]; try discriminate; exact (IH c1 R B1).
Qed.

(** What an add does on a collection that takes components. *)
Lemma add_component_succeeds (c : PvImgComps) (comp : PvComponent) :
  next_src c mod PAGE_SIZE = 0 -> finalized c = false ->
  0 <= pv_component_size comp -> pv_component_size comp + PAGE_SIZE - 1 <= UINT64_MAX ->
  pv_img_comps_add_component c comp
  = ({| finalized := false;
        next_src := wrap64 (next_src c + spec_advance (pv_component_size comp));
        nep := nep c; ald := ald c; pld := pld c; tld := tld c;
        comps := comps c ++ [set_src_addr comp (next_src c)] |},
     set_src_addr comp (next_src c), Ok tt).
Proof.
  intros M F S0 S1. unfold pv_img_comps_add_component.
  rewrite IS_PAGE_ALIGNED_spec, M, F. cbn [Z.eqb negb].
  rewrite src_size_spec by assumption. cbn [next_src].
  rewrite IS_PAGE_ALIGNED_spec, wrap64_mod_page.
  rewrite Z.add_mod, M, spec_advance_mod by discriminate.
  reflexivity.
Qed.

(** C5, as the code has it.  In every state the collection reaches from
    pv_img_comps_new, the cursor and every assigned address are
    page-aligned, and an add, unless the collection is finalized,
    succeeds: it assigns the cursor to the component, appends it and
    moves the cursor on by max(page_align(size), PAGE_SIZE), computed in
    64 bits, which is exactly that amount when the sum stays below 2^64.
    As long as the requested ranges fit the 64-bit address space, the
    addresses increase strictly in insertion order and each lies at
    least max(page_align(size), PAGE_SIZE) of its predecessor above
    it. *)
Theorem C5_collection_layout `{OpenSSL} (calls : list comps_call) (c : PvImgComps) :
  comps_run pv_img_comps_new calls = Some c ->
  (next_src c mod PAGE_SIZE = 0 /\
   Forall (fun a => src_addr a mod PAGE_SIZE = 0) (comps c)) /\
  (forall comp,
      finalized c = false ->
      0 <= pv_component_size comp -> pv_component_size comp + PAGE_SIZE - 1 <= UINT64_MAX ->
      exists c1 comp1,
        pv_img_comps_add_component c comp = (c1, comp1, Ok tt) /\
        src_addr comp1 = next_src c /\
        comps c1 = comps c ++ [comp1] /\
        pv_component_size comp1 = pv_component_size comp /\
        next_src c1 = (next_src c + spec_advance (pv_component_size comp)) mod 2 ^ 64 /\
        (next_src c + spec_advance (pv_component_size comp) <= UINT64_MAX ->
         next_src c1 = next_src c + spec_advance (pv_component_size comp))) /\
  (calls_unsigned calls -> calls_extent calls <= UINT64_MAX -> layout_ok (comps c)).
Proof.
  intros R.
  pose proof (comps_run_aligned calls _ _ R comps_new_aligned) as [A Fa].
  assert (B : 0 <= next_src c <= UINT64_MAX).
  { apply (comps_run_range calls _ _ R). cbn. unfold UINT64_MAX. lia. }
  split; [split; assumption|]. split.
  - intros comp F S0 S1.
    rewrite (add_component_succeeds c comp A F S0 S1).
    do 2 eexists. split; [reflexivity|]. cbn [next_src comps src_addr set_src_addr].
    repeat split.
    intros Room. apply wrap64_small.
    pose proof (spec_advance_pos (pv_component_size comp)).
    unfold PAGE_SIZE in *. lia.
  - intros U Bd.
    destruct (comps_run_layout calls _ _ R comps_new_layout U) as (_ & _ & L).
    + change (next_src pv_img_comps_new) with 0. lia.
    + exact (layout_chain_ok _ _ L).
Qed.

Lemma C5_collection_layout_witness :
  match comps_run pv_img_comps_new toy_calls with
  | Some c => Forall (fun a => src_addr a mod PAGE_SIZE = 0) (comps c) /\
              layout_ok (comps c) /\
              map src_addr (comps c) = [0x3000; 0x5000; 0x6000] /\
              next_src c = 0x7000 /\
              exists c1 comp1,
                pv_img_comps_add_component c small_buf_comp = (c1, comp1, Ok tt) /\
                src_addr comp1 = 0x7000 /\ next_src c1 = 0x8000
  | None => False
  end.
Proof.
  destruct (comps_run pv_img_comps_new toy_calls) as [c|] eqn:R.
  - destruct (C5_collection_layout toy_calls c R) as ((_ & A) & Add & L).
    assert (E : c = {| finalized := false; next_src := 0x7000; nep := 0;
                       ald := []; pld := []; tld := [];
                       comps := [set_src_addr kernel_file_comp 0x3000;
                                 set_src_addr empty_buf_comp 0x5000;
                                 set_src_addr stage3b_comp 0x6000] |}).
    { vm_compute in R. injection R as <-. reflexivity. }
    split; [exact A|]. split; [|split; [|split]].
    + apply L; [cbn; lia | vm_compute; discriminate].
    + rewrite E. reflexivity.
    + rewrite E. reflexivity.
    + destruct (Add small_buf_comp) as (c1 & comp1 & Ea & Sa & _ & _ & _ & Nx).
      * rewrite E. reflexivity.
      * vm_compute. discriminate.
      * vm_compute. discriminate.
      * exists c1, comp1. split; [exact Ea|]. split.
        -- rewrite Sa, E. reflexivity.
        -- rewrite Nx; rewrite E; [reflexivity | vm_compute; discriminate].
  - vm_compute in R. discriminate.
Defined.

(** C5 as stated fails when the cursor passes 2^64: behind an offset of
    2^64 - 4096 the first component gets the last page of the address
    space, the cursor wraps to 0, and the second component gets the
    address 0, below the first. *)
Lemma C5_wraparound_counterexample :
  exists c, comps_run pv_img_comps_new wrap_calls = Some c /\
            map src_addr (comps c) = [2 ^ 64 - 4096; 0] /\
            ~ layout_ok (comps c).
Proof.
  eexists. split; [vm_compute; reflexivity|]. split; [reflexivity|].
  cbn [layout_ok comps]. intros (_ & G & _). vm_compute in G.
  destruct G as [G _]. discriminate G.
Qed.

(** C9.  Once finalize has been called, whatever was called since, an add
    returns the PV_COMPONENT_ERROR_FINALIZED error and leaves the
    collection and the component as they were: nothing is appended, the
    cursor stays, the component gets no address. *)
Theorem C9_add_after_finalize `{OpenSSL} (before after : list comps_call) (fuel : nat)
    (fs : filesystem) (c : PvImgComps) (comp : PvComponent) :
  comps_run pv_img_comps_new (before ++ CallFinalize fuel fs :: after) = Some c ->
  pv_img_comps_add_component c comp = (c, comp, Fail (Some finalized_error)) /\
  domain finalized_error = PV_COMPONENT_ERROR /\
  code finalized_error = PV_COMPONENT_ERROR_FINALIZED.
Proof.
  intros R. split; [|split; reflexivity].
  pose proof (comps_run_aligned _ _ _ R comps_new_aligned) as [A _].
  assert (F : finalized c = true).
  { rewrite comps_run_app in R.
    destruct (comps_run pv_img_comps_new before) as [c0|]; [|discriminate].
    cbn [comps_run] in R.
    destruct (comps_step c0 (CallFinalize fuel fs)) as [c1 rc] eqn:S.
    assert (F1 : finalized c1 = true).
    { cbn in S. pose proof (finalize_frame fuel fs c0) as Fr.
      destruct (pv_img_comps_finalize fuel fs c0) as [c2 r]. cbn in Fr.
      injection S as <- _. tauto. }
    destruct rc as [[] | e | |]; try discriminate;
      exact (comps_run_finalized after _ _ R F1). }
  unfold pv_img_comps_add_component.
  rewrite IS_PAGE_ALIGNED_spec, A, F. reflexivity.
Qed.

Lemma C9_add_after_finalize_witness :
  match comps_run pv_img_comps_new (toy_calls ++ CallFinalize 8 toy_fs :: []) with
  | Some c => pv_img_comps_add_component c small_buf_comp
              = (c, small_buf_comp, Fail (Some finalized_error))
  | None => False
  end.
Proof.
  destruct (comps_run pv_img_comps_new (toy_calls ++ CallFinalize 8 toy_fs :: []))
    as [c|] eqn:R.
  - exact (proj1 (C9_add_after_finalize toy_calls [] 8 toy_fs c small_buf_comp R)).
  - vm_compute in R. discriminate.
Defined.

(* ------------------------------------------------------------------ *)
(** ** Page counts of the three measurements *)

Lemma spec_page_count_aligned (s : Z) :
  0 <= s -> s mod PAGE_SIZE = 0 -> spec_page_count s = Z.max (s / PAGE_SIZE) 1.
Proof.
  intros S M. unfold spec_page_count. f_equal.
  pose proof (Z.div_mod s PAGE_SIZE) as D. unfold PAGE_SIZE in *.
  replace (s + 4096 - 1) with (4095 + (s / 4096) * 4096) by lia.
  rewrite Z.div_add by lia. reflexivity.
Qed.

(** The buffer branch of update_pld counts one page too many for sizes
    between 1 and 4095: nep starts at 1 because quot is 0, and the
    remainder adds another. *)
Lemma update_pld_buffer_count (fs : filesystem) (comp : PvComponent) (buf : Buffer)
    (ctx : EVP_MD_CTX) :
  data comp = DATA_BUFFER buf -> buf_size buf <= UINT64_MAX ->
  snd (pv_component_update_pld fs comp ctx)
  = Ok (if (0 <? buf_size buf) && (buf_size buf <? PAGE_SIZE) then 2
        else spec_page_count (buf_size buf)).
Proof.
  intros D B. unfold pv_component_update_pld. rewrite D.
  set (s := buf_size buf) in *.
  assert (S0 : 0 <= s) by (subst s; unfold buf_size; lia).
  pose proof (Z.div_mod s PAGE_SIZE ltac:(discriminate)) as DM.
  pose proof (Z.mod_pos_bound s PAGE_SIZE ltac:(reflexivity)) as MB.
  assert (Q0 : 0 <= s / PAGE_SIZE) by (apply Z.div_pos; [exact S0 | reflexivity]).
  destruct (Z.leb_spec (s / PAGE_SIZE) INT64_MAX) as [Q | Q];
    [|unfold PAGE_SIZE, INT64_MAX, UINT64_MAX in *; lia].
  cbn [negb].
  assert (C : spec_page_count s
              = Z.max (s / PAGE_SIZE + (if s mod PAGE_SIZE =? 0 then 0 else 1)) 1).
  { unfold spec_page_count. f_equal.
    destruct (Z.eqb_spec (s mod PAGE_SIZE) 0) as [E | E].
    - unfold PAGE_SIZE in *.
      replace (s + 4096 - 1) with (4095 + (s / 4096) * 4096) by lia.
      rewrite Z.div_add by lia. change (4095 / 4096) with 0. lia.
    - unfold PAGE_SIZE in *.
      replace (s + 4096 - 1) with ((s mod 4096 - 1) + (s / 4096 + 1) * 4096) by lia.
      rewrite Z.div_add by lia. rewrite Z.div_small by lia. lia. }
  rewrite C.
  destruct (Z.eqb_spec (s / PAGE_SIZE) 0) as [Z0 | Z0];
    destruct (Z.eqb_spec (s mod PAGE_SIZE) 0) as [R0 | R0]; cbn [negb snd];
    destruct (Z.ltb_spec 0 s); destruct (Z.ltb_spec s PAGE_SIZE); cbn [andb];
    f_equal; unfold PAGE_SIZE in *; lia.
Qed.


Lemma spec_page_count_bounds (s : Z) :
  0 <= s ->
  1 <= spec_page_count s /\
  s <= PAGE_SIZE * spec_page_count s /\
  (spec_page_count s = 1 \/ PAGE_SIZE * (spec_page_count s - 1) < s).
Proof.
  intros S. unfold spec_page_count.
  pose proof (Z.div_mod (s + PAGE_SIZE - 1) PAGE_SIZE ltac:(discriminate)) as D.
  pose proof (Z.mod_pos_bound (s + PAGE_SIZE - 1) PAGE_SIZE ltac:(reflexivity)) as B.
  unfold PAGE_SIZE in *. lia.
Qed.


Lemma BN_num_bytes_small (x : Z) : 0 <= x < 2 ^ 120 -> 0 <= BN_num_bytes x <= 15.
Proof.
  intros [L U]. unfold BN_num_bytes.
  destruct (Z.leb_spec x 0); [lia|].
  assert (Z.log2 x < 120) by (apply Z.log2_lt_pow2; lia).
  pose proof (Z.log2_nonneg x).
  assert (0 <= Z.log2 x / 8) by (apply Z.div_pos; lia).
  assert (Z.log2 x / 8 < 15) by (apply Z.div_lt_upper_bound; lia).
  lia.
Qed.

Lemma tld_assert_small (x : Z) :
  0 <= x < 2 ^ 120 ->
  g_assert (0 <=? BN_num_bytes x) = Ok tt /\
  g_assert (0 <? wrap64 (16 - wrap32 (BN_num_bytes x))) = Ok tt.
Proof.
  intros B. pose proof (BN_num_bytes_small x B) as N. unfold g_assert. split.
  - destruct (Z.leb_spec 0 (BN_num_bytes x)); [reflexivity | lia].
  - unfold wrap32, wrap64. rewrite (Z.mod_small (BN_num_bytes x)) by lia.
    rewrite Z.mod_small by lia.
    destruct (Z.ltb_spec 0 (16 - BN_num_bytes x)); [reflexivity | lia].
Qed.



(** The page loop over a file that holds as many bytes as recorded. *)
Lemma update_pld_file_loop_count (n : nat) :
  forall (fuel : nat) (ctx : EVP_MD_CTX) (f_in : list byte) (size total nep : Z),
    (n < fuel)%nat ->
    total + Z.of_nat (length f_in) = size ->
    PAGE_SIZE * Z.of_nat n < Z.of_nat (length f_in) \/ n = 0%nat ->
    Z.of_nat (length f_in) <= PAGE_SIZE * (Z.of_nat n + 1) ->
    exists ctx', update_pld_file_loop fuel ctx f_in size total nep
                 = Ok (nep + Z.of_nat n + 1, size, ctx').
Proof.
  induction n as [|n IH]; intros fuel ctx f_in size total nep F T L U;
    (destruct fuel as [|fuel]; [lia|]); cbn [update_pld_file_loop file_read].
  - rewrite firstn_all2 by (unfold PAGE_SIZE in *; lia).
    replace (total + Z.of_nat (length f_in) <? size) with false
      by (symmetry; apply Z.ltb_ge; lia).
    cbn [andb]. eexists. f_equal. f_equal. f_equal; lia.
  - destruct L as [L | L]; [|discriminate].
    rewrite length_firstn, Nat.min_l by (unfold PAGE_SIZE in *; lia).
    rewrite Z2Nat.id by (unfold PAGE_SIZE; lia).
    replace (total + PAGE_SIZE <? size) with true
      by (symmetry; apply Z.ltb_lt; unfold PAGE_SIZE in *; lia).
    change (PAGE_SIZE =? 0) with false. cbn [andb negb].
    match goal with
    | |- context [update_pld_file_loop fuel ?c ?r size ?t ?k] =>
        destruct (IH fuel c r size t k) as [ctx' E]
    end.
    + lia.
    + rewrite length_skipn. unfold PAGE_SIZE in *. lia.
    + rewrite length_skipn. destruct n; [right; reflexivity | left].
      unfold PAGE_SIZE in *. lia.
    + rewrite length_skipn. unfold PAGE_SIZE in *. lia.
    + exists ctx'. rewrite E. f_equal. f_equal. f_equal. lia.
Qed.

Lemma update_pld_file_count (fs : filesystem) (comp : PvComponent) (file : CompFile)
    (c : list byte) (ctx : EVP_MD_CTX) :
  data comp = DATA_FILE file -> fs_lookup fs (path file) = Some c ->
  Z.of_nat (length c) = size file ->
  snd (pv_component_update_pld fs comp ctx) = Ok (spec_page_count (size file)).
Proof.
  intros D L Sz. unfold pv_component_update_pld, file_open_rb, pv_component_size.
  rewrite D, L.
  assert (S0 : 0 <= size file) by lia.
  destruct (spec_page_count_bounds _ S0) as (P1 & P2 & P3).
  set (p := spec_page_count (size file)) in *.
  destruct (update_pld_file_loop_count (Z.to_nat (p - 1)) (length c + 1)%nat ctx c
              (size file) 0 0) as [ctx' E].
  - assert (p - 1 <= Z.of_nat (length c)); [|lia].
    destruct P3 as [P3 | P3]; unfold PAGE_SIZE in *; lia.
  - lia.
  - destruct P3 as [P3 | P3]; [right; rewrite P3; reflexivity | left].
    rewrite Z2Nat.id by lia. lia.
  - rewrite Z2Nat.id by lia. replace (p - 1 + 1) with p by lia. lia.
  - rewrite E, Z.eqb_refl. cbn [negb snd]. f_equal. rewrite Z2Nat.id by lia. lia.
Qed.


Lemma measurable_size (fs : filesystem) (comp : PvComponent) :
  measurable fs comp -> 0 <= pv_component_size comp.
Proof.
  intros (_ & _ & _ & _ & D). unfold pv_component_size.
  destruct (data comp) as [buf | file].
  - unfold buf_size. lia.
  - destruct D as (c & _ & <-). lia.
Qed.

Lemma update_pld_measurable (fs : filesystem) (comp : PvComponent) (ctx : EVP_MD_CTX) :
  measurable fs comp ->
  snd (pv_component_update_pld fs comp ctx)
  = Ok (spec_page_count (pv_component_size comp)).
Proof.
  intros M. pose proof (measurable_size fs comp M) as S0.
  destruct M as (A & B & _ & _ & D).
  unfold pv_component_size in *. destruct (data comp) as [buf | file] eqn:Dc.
  - rewrite (update_pld_buffer_count fs comp buf ctx Dc).
    + destruct D as [-> | D]; [reflexivity|].
      destruct (Z.ltb_spec (buf_size buf) PAGE_SIZE); [lia|].
      now rewrite andb_false_r.
    + destruct (spec_page_count_bounds _ S0) as (_ & P2 & _). unfold PAGE_SIZE in *. lia.
  - destruct D as (c & L & Sz). exact (update_pld_file_count fs comp file c ctx Dc L Sz).
Qed.




(** A buffer whose size is a page multiple, as pv_component_align and
    pv_component_align_and_encrypt leave it, is empty or at least a page
    long. *)
Lemma page_multiple_buffer (buf : Buffer) :
  buf_size buf mod PAGE_SIZE = 0 -> buf_size buf = 0 \/ PAGE_SIZE <= buf_size buf.
Proof.
  intros M. assert (0 <= buf_size buf) by (unfold buf_size; lia).
  pose proof (Z.div_mod (buf_size buf) PAGE_SIZE ltac:(discriminate)) as D.
  assert (0 <= buf_size buf / PAGE_SIZE) by (apply Z.div_pos; [lia | reflexivity]).
  unfold PAGE_SIZE in *. lia.
Qed.



(* ------------------------------------------------------------------ *)
(** ** Preparing a component: alignment and encryption *)

Lemma pad_to_length (n : nat) (bs : list byte) :
  (length bs <= n)%nat -> length (pad_to n bs) = n.
Proof.
  intros L. unfold pad_to, zeros. rewrite length_app, repeat_length. lia.
Qed.

Lemma page_block_length (s : list byte) :
  length (pad_to (Z.to_nat PAGE_SIZE) (firstn (Z.to_nat PAGE_SIZE) s)) = Z.to_nat PAGE_SIZE.
Proof. apply pad_to_length. rewrite length_firstn. lia. Qed.

Lemma Ok_inj {A : Type} (a b : A) : Ok a = Ok b -> a = b.
Proof. intros E. now injection E. Qed.

Lemma page_block_size (s : list byte) :
  Z.of_nat (length (pad_to (Z.to_nat PAGE_SIZE) (firstn (Z.to_nat PAGE_SIZE) s)))
  = PAGE_SIZE.
Proof. rewrite page_block_length. reflexivity. Qed.

Lemma pad_file_right_loop_step (fuel : nat) (f_in : list byte) (padding : Z)
    (f_out : list byte) (size_out : Z) :
  pad_file_right_loop (S fuel) f_in padding f_out size_out
  = let rd := firstn (Z.to_nat padding) f_in in
    let blk := pad_to (Z.to_nat padding) rd in
    if Z.of_nat (length rd) =? padding
    then pad_file_right_loop fuel (skipn (Z.to_nat padding) f_in) padding
                             (f_out ++ blk) (size_out + Z.of_nat (length blk))
    else Ok (f_out ++ blk, size_out + Z.of_nat (length blk), Z.of_nat (length rd)).
Proof. reflexivity. Qed.

(** pad_file_right writes whole blocks. *)
Lemma pad_file_right_loop_size (fuel : nat) :
  forall (f_in f_out f_out' : list byte) (size_out size_out' r : Z),
    pad_file_right_loop fuel f_in PAGE_SIZE f_out size_out = Ok (f_out', size_out', r) ->
    size_out mod PAGE_SIZE = 0 -> size_out' mod PAGE_SIZE = 0.
Proof.
  induction fuel as [|fuel IH]; intros f_in f_out f_out' size_out size_out' r E M;
    [discriminate|].
  rewrite pad_file_right_loop_step in E. cbv zeta in E.
  rewrite page_block_size in E.
  assert (M' : (size_out + PAGE_SIZE) mod PAGE_SIZE = 0).
  { rewrite Z.add_mod, M by discriminate. reflexivity. }
  destruct (Z.of_nat (length (firstn (Z.to_nat PAGE_SIZE) f_in)) =? PAGE_SIZE).
  - exact (IH _ _ _ _ _ _ E M').
  - apply Ok_inj in E. assert (size_out + PAGE_SIZE = size_out') by congruence.
    subst size_out'. exact M'.
Qed.

Lemma buffer_dup_aligned_size (buf : Buffer) :
  buf_size buf + PAGE_SIZE - 1 <= UINT64_MAX ->
  buf_size (buffer_dup buf true) = spec_page_align (buf_size buf).
Proof.
  intros B. unfold buffer_dup.
  assert (0 <= buf_size buf) by (unfold buf_size; lia).
  rewrite PAGE_ALIGN_spec by assumption.
  pose proof (spec_page_align_ge (buf_size buf)) as G.
  unfold buf_size in *. rewrite pad_to_length by lia. lia.
Qed.

Lemma encrypt_bio_loop_step `{OpenSSL} (fuel : nat) (key b_in b_out : list byte)
    (si so : Z) (tw : list byte) (twn : Z) :
  encrypt_bio_loop (S fuel) key b_in b_out si so tw twn
  = let rd := firstn (Z.to_nat PAGE_SIZE) b_in in
    let num_bytes_read := Z.of_nat (length rd) in
    let out_buf := aes_256_xts key tw (pad_to (Z.to_nat PAGE_SIZE) rd) in
    if (num_bytes_read =? 0) && negb (si + num_bytes_read =? 0)
    then Ok (b_out, si + num_bytes_read, so)
    else
      do g_assert (0 <? BN_num_bytes (twn + PAGE_SIZE)) ;;
      do g_assert (BN_num_bytes (twn + PAGE_SIZE) <=? AES_256_XTS_TWEAK_SIZE) ;;
      if negb (EVP_CipherInit_ex None (be_bytes 16 (twn + PAGE_SIZE)))
      then Fail (Some cipher_init_error)
      else if num_bytes_read =? PAGE_SIZE
      then encrypt_bio_loop fuel key (skipn (Z.to_nat PAGE_SIZE) b_in) (b_out ++ out_buf)
                            (si + num_bytes_read) (so + Z.of_nat (length out_buf))
                            (be_bytes 16 (twn + PAGE_SIZE)) (twn + PAGE_SIZE)
      else Ok (b_out ++ out_buf, si + num_bytes_read, so + Z.of_nat (length out_buf)).
Proof. reflexivity. Qed.

Lemma spec_page_align_next (len : Z) :
  spec_page_align len = PAGE_SIZE + spec_page_align (len - PAGE_SIZE).
Proof.
  unfold spec_page_align.
  replace (len + PAGE_SIZE - 1) with (len - PAGE_SIZE + PAGE_SIZE - 1 + 1 * PAGE_SIZE) by lia.
  rewrite Z.div_add by discriminate. lia.
Qed.

Lemma spec_page_align_part (len : Z) :
  0 < len <= PAGE_SIZE -> spec_page_align len = PAGE_SIZE.
Proof.
  intros B. unfold spec_page_align.
  replace (len + PAGE_SIZE - 1) with (len - 1 + 1 * PAGE_SIZE) by lia.
  rewrite Z.div_add by discriminate.
  rewrite Z.div_small by (unfold PAGE_SIZE in *; lia). lia.
Qed.

(** The XTS loop: the bytes read, and one page out per page or part of a
    page in; an empty input that is the whole input still gives a page. *)
Lemma encrypt_bio_loop_sizes `{OpenSSL} (fuel : nat) :
  forall (key b_in b_out out tw : list byte) (si so twn si' so' : Z),
    encrypt_bio_loop fuel key b_in b_out si so tw twn = Ok (out, si', so') ->
    0 <= si ->
    let len := buf_size b_in in
    let grown := if (si =? 0) && (len =? 0) then PAGE_SIZE else spec_page_align len in
    si' = si + len /\ so' = so + grown /\ buf_size out = buf_size b_out + grown.
Proof.
  induction fuel as [|fuel IH]; intros key b_in b_out out tw si so twn si' so' E S0;
    [discriminate|].
  rewrite encrypt_bio_loop_step in E. cbv zeta in E |- *.
  set (rd := firstn (Z.to_nat PAGE_SIZE) b_in) in *.
  set (n := Z.of_nat (length rd)) in *.
  assert (Lrd : n = Z.min PAGE_SIZE (buf_size b_in)).
  { subst n rd. unfold buf_size. rewrite length_firstn.
    rewrite Nat2Z.inj_min, Z2Nat.id by discriminate. reflexivity. }
  assert (P4 : 0 < PAGE_SIZE) by reflexivity.
  assert (Lb : 0 <= buf_size b_in) by (unfold buf_size; lia).
  assert (Lout : Z.of_nat (length (aes_256_xts key tw (pad_to (Z.to_nat PAGE_SIZE) rd)))
                 = PAGE_SIZE).
  { rewrite aes_256_xts_length. subst rd. apply page_block_size. }
  assert (Lapp : buf_size (b_out ++ aes_256_xts key tw (pad_to (Z.to_nat PAGE_SIZE) rd))
                 = buf_size b_out + PAGE_SIZE).
  { unfold buf_size. rewrite length_app, Nat2Z.inj_add, Lout. reflexivity. }
  rewrite Lout in E.
  set (out_buf := aes_256_xts key tw (pad_to (Z.to_nat PAGE_SIZE) rd)) in *.
  destruct (Z.eqb_spec n 0) as [R0 | R0].
  - (* nothing left *)
    assert (L0 : buf_size b_in = 0) by lia.
    rewrite L0. change (spec_page_align 0) with 0. rewrite R0, Z.add_0_r in E.
    destruct (Z.eqb_spec si 0) as [Z0 | Z0]; cbn [negb andb] in E |- *.
    + destruct (g_assert (0 <? BN_num_bytes (twn + PAGE_SIZE))); try discriminate.
      destruct (g_assert (BN_num_bytes (twn + PAGE_SIZE) <=? AES_256_XTS_TWEAK_SIZE));
        try discriminate.
      cbn [bind] in E.
      destruct (EVP_CipherInit_ex None (be_bytes 16 (twn + PAGE_SIZE)));
        cbn [negb] in E; try discriminate.
      change (0 =? PAGE_SIZE) with false in E. apply Ok_inj in E.
      assert (b_out ++ out_buf = out /\ si = si' /\ so + PAGE_SIZE = so')
        as (<- & <- & <-) by (repeat split; congruence).
      rewrite Lapp. repeat split; lia.
    + apply Ok_inj in E.
      assert (b_out = out /\ si = si' /\ so = so')
        as (<- & <- & <-) by (repeat split; congruence).
      repeat split; lia.
  - cbn [andb] in E.
    destruct (g_assert (0 <? BN_num_bytes (twn + PAGE_SIZE))); try discriminate.
    destruct (g_assert (BN_num_bytes (twn + PAGE_SIZE) <=? AES_256_XTS_TWEAK_SIZE));
      try discriminate.
    cbn [bind] in E.
    destruct (EVP_CipherInit_ex None (be_bytes 16 (twn + PAGE_SIZE)));
      cbn [negb] in E; try discriminate.
    assert (Lpos : 0 < buf_size b_in) by lia.
    replace ((si =? 0) && (buf_size b_in =? 0)) with false
      by (symmetry; apply andb_false_iff; right; apply Z.eqb_neq; lia).
    destruct (Z.eqb_spec n PAGE_SIZE) as [Full | Part].
    + apply IH in E; [|lia]. cbv zeta in E.
      assert (Ls : buf_size (skipn (Z.to_nat PAGE_SIZE) b_in) = buf_size b_in - PAGE_SIZE).
      { unfold buf_size in *. rewrite length_skipn.
        rewrite Nat2Z.inj_sub, Z2Nat.id by lia. reflexivity. }
      rewrite Ls, Lapp in E.
      replace ((si + n =? 0) && (buf_size b_in - PAGE_SIZE =? 0)) with false in E
        by (symmetry; apply andb_false_iff; left; apply Z.eqb_neq; lia).
      destruct E as (-> & -> & ->). rewrite (spec_page_align_next (buf_size b_in)).
      repeat split; lia.
    + apply Ok_inj in E.
      assert (b_out ++ out_buf = out /\ si + n = si' /\ so + PAGE_SIZE = so')
        as (<- & <- & <-) by (repeat split; congruence).
      rewrite Lapp, spec_page_align_part by lia. repeat split; lia.
Qed.

Lemma spec_advance_cases (s : Z) :
  0 <= s -> spec_advance s = if s =? 0 then PAGE_SIZE else spec_page_align s.
Proof.
  intros S. unfold spec_advance.
  destruct (Z.eqb_spec s 0) as [-> | N]; [reflexivity|].
  pose proof (spec_page_align_ge s).
  pose proof (spec_page_align_mod s) as M.
  pose proof (Z.div_mod (spec_page_align s) PAGE_SIZE) as D.
  unfold PAGE_SIZE in *. lia.
Qed.

Lemma encrypt_bio_sizes `{OpenSSL} (parms : cipher_parms) (b_in out : list byte)
    (size_in size_out : Z) :
  encrypt_bio parms b_in = Ok (out, size_in, size_out) ->
  size_in = buf_size b_in /\ size_out = spec_advance (buf_size b_in) /\
  buf_size out = spec_advance (buf_size b_in).
Proof.
  unfold encrypt_bio. intros E.
  destruct (EVP_CipherInit_ex (Some (parms_key parms)) (parms_tweak parms));
    cbn [negb] in E; try discriminate.
  apply encrypt_bio_loop_sizes in E; [|lia].
  cbv zeta in E. change (0 =? 0) with true in E. cbn [andb] in E.
  rewrite <- spec_advance_cases in E by (unfold buf_size; lia).
  change (buf_size []) with 0 in E.
  destruct E as (-> & -> & ->). repeat split; lia.
Qed.

Lemma spec_advance_page_align (s : Z) :
  0 <= s -> spec_advance (spec_page_align s) = spec_advance s.
Proof.
  intros S. unfold spec_advance.
  rewrite (spec_page_align_aligned (spec_page_align s)) by apply spec_page_align_mod.
  reflexivity.
Qed.


Lemma size_set_data_buffer (c : PvComponent) (b : Buffer) :
  pv_component_size (set_data c (DATA_BUFFER b)) = buf_size b.
Proof. reflexivity. Qed.

Lemma size_set_data_file (c : PvComponent) (p : string) (s : Z) :
  pv_component_size (set_data c (DATA_FILE {| path := p; size := s |})) = s.
Proof. reflexivity. Qed.

Lemma align_size (comp comp' : PvComponent) (tmp_path : string) (fs fs' : filesystem) :
  pv_component_size comp + PAGE_SIZE - 1 <= UINT64_MAX ->
  pv_component_align comp tmp_path fs = Ok (comp', fs') ->
  pv_component_size comp' mod PAGE_SIZE = 0 /\
  (pv_component_size comp mod PAGE_SIZE = 0 -> comp' = comp /\ fs' = fs).
Proof.
  intros B E. unfold pv_component_align in E.
  rewrite IS_PAGE_ALIGNED_spec in E.
  destruct (Z.eqb_spec (pv_component_size comp mod PAGE_SIZE) 0) as [A | A].
  - apply Ok_inj in E. assert (comp = comp' /\ fs = fs') as [<- <-] by (split; congruence).
    auto.
  - split; [|contradiction].
    unfold pv_component_size in B. destruct (data comp) as [buf | file].
    + apply Ok_inj in E.
      assert (set_data comp (DATA_BUFFER (buffer_dup buf true)) = comp') as <-
        by congruence.
      rewrite size_set_data_buffer, buffer_dup_aligned_size by exact B.
      apply spec_page_align_mod.
    + destruct (open_in_out fs (path file)
                  (g_build_filename tmp_path (pv_component_name comp))) as [f_in | | |];
        try discriminate.
      cbn [bind] in E. unfold pad_file_right in E.
      destruct (pad_file_right_loop (length f_in + 1)%nat f_in PAGE_SIZE [] 0)
        as [[[f_out size_out] r] | | |] eqn:L; try discriminate.
      cbn [bind] in E.
      destruct (g_assert (PAGE_SIZE =? ALIGN 32 r PAGE_SIZE)); try discriminate.
      cbn [bind] in E. apply Ok_inj in E.
      match type of E with
      | (?c1, _) = _ => assert (c1 = comp') as <- by congruence
      end.
      rewrite size_set_data_file.
      exact (pad_file_right_loop_size _ _ _ _ _ _ _ L eq_refl).
Qed.

Lemma align_and_encrypt_size `{OpenSSL} (comp comp' : PvComponent) (tmp_path : string)
    (parms : cipher_parms) (fs fs' : filesystem) :
  pv_component_size comp + PAGE_SIZE - 1 <= UINT64_MAX ->
  pv_component_size comp = orig_size comp ->
  pv_component_align_and_encrypt comp tmp_path parms fs = Ok (comp', fs') ->
  pv_component_size comp' = spec_advance (pv_component_size comp).
Proof.
  intros B O E. unfold pv_component_align_and_encrypt in E.
  unfold pv_component_size in B, O, E |- *. destruct (data comp) as [buf | file].
  - unfold encrypt_buf in E.
    match type of E with
    | context [encrypt_bio parms ?b] => set (buf1 := b) in *
    end.
    destruct (g_assert (buf_size buf1 <=? 2 ^ 31 - 1)); try discriminate.
    cbn [bind] in E.
    destruct (buf_size buf1 =? 0); try discriminate.
    cbn [bind] in E.
    destruct (encrypt_bio parms buf1) as [[[out si] so] | | |] eqn:Eb;
      try discriminate.
    cbn [bind] in E. apply Ok_inj in E.
    assert (set_data comp (DATA_BUFFER out) = comp') as <- by congruence.
    change (buf_size out = spec_advance (buf_size buf)).
    apply encrypt_bio_sizes in Eb. destruct Eb as (_ & _ & ->).
    subst buf1. rewrite IS_PAGE_ALIGNED_spec.
    assert (0 <= buf_size buf) by (unfold buf_size; lia).
    destruct (Z.eqb_spec (buf_size buf mod PAGE_SIZE) 0) as [A | A]; cbn [negb].
    + reflexivity.
    + rewrite buffer_dup_aligned_size by exact B.
      now apply spec_advance_page_align.
  - unfold encrypt_file in E.
    destruct (fs_lookup fs (path file)) as [c|]; try discriminate.
    match type of E with
    | context [encrypt_bio parms ?b] => set (b_in := b) in *
    end.
    destruct (encrypt_bio parms b_in) as [[[out si] so] | | |] eqn:Eb;
      try discriminate.
    cbn [bind] in E.
    destruct (Z.eqb_spec (orig_size comp) si) as [Eq | Ne]; cbn [negb] in E;
      try discriminate.
    apply Ok_inj in E.
    match type of E with
    | (?c1, _) = _ => assert (c1 = comp') as <- by congruence
    end.
    change (so = spec_advance (size file)).
    apply encrypt_bio_sizes in Eb. destruct Eb as (-> & -> & _).
    rewrite O, Eq. reflexivity.
Qed.

(** What pv_img_prepare_component hands to the collection: a size that
    is a page multiple, so a buffer that is empty or at least a page
    long. *)
Lemma prepared_component_pages `{OpenSSL} (img : PvImage) (comp comp' : PvComponent)
    (fs fs' : filesystem) :
  pv_component_size comp + PAGE_SIZE - 1 <= UINT64_MAX ->
  pv_component_size comp = orig_size comp ->
  pv_img_prepare_component img comp fs = Ok (comp', fs') ->
  pv_component_size comp' mod PAGE_SIZE = 0 /\
  (forall buf, data comp' = DATA_BUFFER buf ->
               buf_size buf = 0 \/ PAGE_SIZE <= buf_size buf).
Proof.
  intros B O E.
  assert (M : pv_component_size comp' mod PAGE_SIZE = 0).
  { unfold pv_img_prepare_component in E.
    destruct (negb (Z.land (pcf img) PV_CONTROL_FLAG_NO_DECRYPTION =? 0)).
    - exact (proj1 (align_size comp comp' (tmp_dir img) fs fs' B E)).
    - destruct (g_assert (buf_size (xts_key img) =? AES_256_XTS_KEY_SIZE));
        try discriminate.
      cbn [bind] in E.
      rewrite (align_and_encrypt_size comp comp' (tmp_dir img) _ fs fs' B O E).
      apply spec_advance_mod. }
  split; [exact M|]. intros buf D. apply page_multiple_buffer.
  unfold pv_component_size in M. rewrite D in M. exact M.
Qed.

(** An empty buffer cannot be encrypted. *)
Lemma align_and_encrypt_empty_buffer `{OpenSSL} (comp : PvComponent) (tmp_path : string)
    (parms : cipher_parms) (fs : filesystem) :
  data comp = DATA_BUFFER [] ->
  pv_component_align_and_encrypt comp tmp_path parms fs = Abort.
Proof.
  intros D. unfold pv_component_align_and_encrypt, pv_component_size. rewrite D.
  reflexivity.
Qed.

(** C6, as the code has it.  After align the stored size is a page
    multiple, and a component whose size already is one is left as it is.
    After align-and-encrypt the stored size is
    max(page_align(size), PAGE_SIZE): the aligned size of a non-empty
    component, and one page for an empty file.  An empty buffer is not
    encrypted at all: the call aborts. *)
Theorem C6_prepared_sizes `{OpenSSL} (comp : PvComponent) (tmp_path : string)
    (parms : cipher_parms) (fs : filesystem) :
  pv_component_size comp + PAGE_SIZE - 1 <= UINT64_MAX ->
  pv_component_size comp = orig_size comp ->
  (forall comp' fs',
      pv_component_align comp tmp_path fs = Ok (comp', fs') ->
      pv_component_size comp' mod PAGE_SIZE = 0 /\
      (pv_component_size comp mod PAGE_SIZE = 0 -> comp' = comp /\ fs' = fs)) /\
  (forall comp' fs',
      pv_component_align_and_encrypt comp tmp_path parms fs = Ok (comp', fs') ->
      pv_component_size comp' = spec_advance (pv_component_size comp) /\
      (0 < pv_component_size comp ->
       pv_component_size comp' = spec_page_align (pv_component_size comp)) /\
      (pv_component_size comp = 0 ->
       pv_component_size comp' = PAGE_SIZE /\ exists file, data comp = DATA_FILE file)) /\
  (data comp = DATA_BUFFER [] ->
   pv_component_align_and_encrypt comp tmp_path parms fs = Abort).
Proof.
  intros B O. split; [|split].
  - intros comp' fs' E. exact (align_size comp comp' tmp_path fs fs' B E).
  - intros comp' fs' E.
    pose proof (align_and_encrypt_size comp comp' tmp_path parms fs fs' B O E) as Sz.
    split; [exact Sz|]. rewrite Sz. split.
    + intros P. rewrite spec_advance_cases by lia.
      destruct (Z.eqb_spec (pv_component_size comp) 0); [lia | reflexivity].
    + intros Z0. rewrite Z0. split; [reflexivity|].
      unfold pv_component_size in Z0.
      destruct (data comp) as [buf | file] eqn:D; [|exists file; reflexivity].
      destruct buf as [|x buf]; [|discriminate].
      rewrite (align_and_encrypt_empty_buffer comp tmp_path parms fs D) in E.
      discriminate.
  - apply align_and_encrypt_empty_buffer.
Qed.

Lemma C6_prepared_sizes_witness :
  (exists comp', pv_component_align small_buf_comp "/tmp" [] = Ok (comp', []) /\
                 pv_component_size comp' = 4096) /\
  (exists comp', pv_component_align_and_encrypt small_buf_comp "/tmp" xts_parms []
                 = Ok (comp', []) /\
                 pv_component_size comp' = 4096) /\
  pv_component_align_and_encrypt empty_buf_comp "/tmp" xts_parms [] = Abort.
Proof.
  assert (B : pv_component_size small_buf_comp + PAGE_SIZE - 1 <= UINT64_MAX)
    by (vm_compute; discriminate).
  destruct (C6_prepared_sizes small_buf_comp "/tmp" xts_parms [] B eq_refl) as (A & E & _).
  split; [|split].
  - eexists. split; [vm_compute; reflexivity|]. reflexivity.
  - destruct (pv_component_align_and_encrypt small_buf_comp "/tmp" xts_parms [])
      as [[comp' fs'] | | |] eqn:R; try (vm_compute in R; discriminate).
    destruct (E comp' fs' eq_refl) as (S & _ & _).
    exists comp'. split; [|exact S].
    assert (F : fs' = []) by (vm_compute in R; now injection R as _ <-).
    now rewrite F.
  - assert (B0 : pv_component_size empty_buf_comp + PAGE_SIZE - 1 <= UINT64_MAX)
      by (vm_compute; discriminate).
    destruct (C6_prepared_sizes empty_buf_comp "/tmp" xts_parms [] B0 eq_refl)
      as (_ & _ & Ab).
    exact (Ab eq_refl).
Defined.

(** C6 as stated fails on an empty file: align leaves its size at 0,
    which is its aligned size, and align-and-encrypt makes it one page. *)
Lemma C6_empty_file_counterexample :
  pv_component_align empty_file_comp "/tmp" empty_file_fs
  = Ok (empty_file_comp, empty_file_fs) /\
  pv_component_size empty_file_comp = 0 /\
  spec_page_align (pv_component_size empty_file_comp) = 0 /\
  (exists comp' fs',
     pv_component_align_and_encrypt empty_file_comp "/tmp" xts_parms empty_file_fs
     = Ok (comp', fs') /\ pv_component_size comp' = 4096) /\
  ~ encrypted_size_is_aligned_size empty_file_comp "/tmp" xts_parms empty_file_fs.
Proof.
  split; [reflexivity|]. split; [reflexivity|]. split; [reflexivity|].
  destruct (pv_component_align_and_encrypt empty_file_comp "/tmp" xts_parms empty_file_fs)
    as [[comp' fs'] | | |] eqn:R; try (vm_compute in R; discriminate).
  assert (Sz : pv_component_size comp' = 4096).
  { vm_compute in R. injection R as <- _. reflexivity. }
  split.
  - exists comp', fs'. split; [reflexivity | exact Sz].
  - intros C. specialize (C comp' fs' R). rewrite Sz in C. discriminate.
Qed.

(* ------------------------------------------------------------------ *)
(** ** Writing a file-backed component *)


Lemma write_at_length_prefix (c : list byte) (n : nat) :
  length (firstn n c ++ zeros (n - length c)) = n.
Proof. unfold zeros. rewrite length_app, length_firstn, repeat_length. lia. Qed.

Lemma write_at_app (c a b : list byte) (p : Z) :
  0 <= p ->
  write_at (write_at c p a) (p + Z.of_nat (length a)) b = write_at c p (a ++ b).
Proof.
  intros P. unfold write_at.
  set (n := Z.to_nat p).
  replace (Z.to_nat (p + Z.of_nat (length a))) with (n + length a)%nat by lia.
  set (pre := firstn n c ++ zeros (n - length c)).
  assert (Lp : length pre = n) by apply write_at_length_prefix.
  replace (firstn n c ++ zeros (n - length c) ++ a ++ skipn (n + length a) c)
    with ((pre ++ a) ++ skipn (n + length a) c)
    by (subst pre; now rewrite <- !app_assoc).
  assert (La : length (pre ++ a) = (n + length a)%nat) by (rewrite length_app; lia).
  rewrite firstn_app, firstn_all2 by lia.
  replace (n + length a - length (pre ++ a))%nat with 0%nat by lia.
  rewrite firstn_O, app_nil_r.
  replace (n + length a - length ((pre ++ a) ++ skipn (n + length a) c))%nat with 0%nat
    by (rewrite length_app; lia).
  cbn [zeros repeat app].
  rewrite skipn_app, (skipn_all2 (pre ++ a)) by lia.
  rewrite skipn_skipn. cbn [app].
  replace (n + length a + length b - length (pre ++ a) + (n + length a))%nat
    with (n + length (a ++ b))%nat by (rewrite length_app; lia).
  subst pre. now rewrite <- !app_assoc.
Qed.

Lemma write_at_nil (c : list byte) (p : Z) :
  (Z.to_nat p <= length c)%nat -> write_at c p [] = c.
Proof.
  intros L. unfold write_at. replace (Z.to_nat p - length c)%nat with 0%nat by lia.
  cbn [zeros repeat app]. rewrite Nat.add_0_r. apply firstn_skipn.
Qed.

Lemma bytes_at_write_at (c bs : list byte) (p : Z) :
  bytes_at (write_at c p bs) p (length bs) = bs.
Proof.
  unfold bytes_at, write_at. set (n := Z.to_nat p).
  rewrite app_assoc, skipn_app, write_at_length_prefix, Nat.sub_diag.
  rewrite skipn_all2 by (rewrite write_at_length_prefix; lia).
  cbn [skipn app]. rewrite firstn_app, Nat.sub_diag, firstn_O, app_nil_r.
  apply firstn_all.
Qed.

(** The copy loop writes the whole input behind the position it starts
    at, and counts it. *)
Lemma seek_and_write_file_loop_spec (fuel : nat) :
  forall (o : FILE) (i : list byte) (total : Z),
    (length i < fuel)%nat -> 0 <= pos o ->
    exists o',
      seek_and_write_file_loop fuel o i total = Ok (o', total + Z.of_nat (length i)) /\
      pos o' = pos o + Z.of_nat (length i) /\
      (i <> [] -> content o' = write_at (content o) (pos o) i) /\
      (i = [] -> o' = o).
Proof.
  induction fuel as [|fuel IH]; intros o i total F P; [lia|].
  cbn [seek_and_write_file_loop file_read].
  destruct i as [|x i'] eqn:Ei.
  - cbn. exists o. rewrite !Z.add_0_r. repeat split; congruence.
  - rewrite <- Ei in *. set (buf := firstn (Z.to_nat 4096) i).
    assert (Lb : (0 < length buf)%nat).
    { subst buf. rewrite length_firstn, Ei. cbn [length]. lia. }
    destruct (Z.eqb_spec (Z.of_nat (length buf)) 0); [lia|].
    destruct (IH (file_write o buf) (skipn (Z.to_nat 4096) i)
                 (total + Z.of_nat (length buf))) as (o' & E & Po & C & N).
    + rewrite length_skipn. subst buf. rewrite length_firstn in Lb. lia.
    + cbn [file_write pos]. lia.
    + assert (Split : i = buf ++ skipn (Z.to_nat 4096) i)
        by (subst buf; symmetry; apply firstn_skipn).
      assert (Len : length i = (length buf + length (skipn (Z.to_nat 4096) i))%nat)
        by (rewrite Split at 1; apply length_app).
      exists o'. rewrite E. cbn [file_write pos content] in *. repeat split.
      * f_equal. f_equal. lia.
      * lia.
      * intros _. destruct (skipn (Z.to_nat 4096) i) as [|y r] eqn:Er.
        -- rewrite (N eq_refl). cbn [content file_write].
           rewrite Split at 1. now rewrite app_nil_r.
        -- rewrite C by discriminate. rewrite write_at_app by exact P.
           now rewrite <- Split.
      * intros Emp. rewrite Ei in Emp. discriminate.
Qed.

Lemma seek_and_write_file_spec (fs : filesystem) (o : FILE) (ifile : CompFile)
    (offset : Z) (c : list byte) :
  0 <= offset <= LONG_MAX -> fs_lookup fs (path ifile) = Some c ->
  exists o',
    seek_and_write_file fs o ifile offset
    = (o', if size ifile =? Z.of_nat (length c) then Ok tt
           else Fail (Some changed_error)) /\
    (c <> [] -> content o' = write_at (content o) offset c) /\
    (c = [] -> content o' = content o).
Proof.
  intros [O0 O1] L. unfold seek_and_write_file, file_seek.
  destruct (Z.gtb_spec offset LONG_MAX); [lia|]. cbn [and_then].
  unfold file_open_rb. rewrite L. cbn [and_then].
  destruct (seek_and_write_file_loop_spec (length c + 1)%nat
              {| pos := offset; content := content o |} c 0) as (o' & E & _ & C & N);
    [lia | cbn; lia |].
  rewrite E. cbn [and_then Z.add]. exists o'. split.
  - destruct (size ifile =? Z.of_nat (length c)); reflexivity.
  - split; [exact C|]. intros Emp. now rewrite (N Emp).
Qed.

Lemma write_comps_loop_app_fail (fs : filesystem) (before after : list PvComponent)
    (comp : PvComponent) (f f1 f2 : FILE) (e : option GError) :
  write_comps_loop fs f before = (f1, Ok tt) ->
  pv_component_write fs comp f1 = (f2, Fail e) ->
  write_comps_loop fs f (before ++ comp :: after) = (f2, Fail e).
Proof.
  revert f. induction before as [|b before IH]; intros f B W.
  - injection B as <-. cbn. now rewrite W.
  - cbn [app write_comps_loop] in *.
    destruct (pv_component_write fs b f) as [f' [[] | | |]]; cbn [and_then] in *;
      try discriminate.
    now apply IH.
Qed.

Lemma pv_img_write_fail `{OpenSSL} `{BootLayout} (fs : filesystem) (img : PvImage)
    (before after : list PvComponent) (comp : PvComponent) (f1 f2 : FILE)
    (e : option GError) :
  comps (img_comps img) = before ++ comp :: after ->
  pv_img_write_comps fs img before = (f1, Ok tt) ->
  pv_component_write fs comp f1 = (f2, Fail e) ->
  pv_img_write fs img = (f2, Fail e).
Proof.
  unfold pv_img_write, pv_img_write_comps, pv_img_comps_get_comps. intros -> B W.
  destruct (write_short_psw file_open_wb (stage3a_psw img)) as [g1 [[] | | |]];
    cbn [and_then] in *; try discriminate.
  destruct (seek_and_write_buffer g1 (stage3a img) STAGE3A_LOAD_ADDRESS)
    as [g2 [[] | | |]]; cbn [and_then] in *; try discriminate.
  now apply (write_comps_loop_app_fail fs before after comp g2 f1 f2 e).
Qed.

(** C10.  When pv_img_write reaches a file-backed component whose
    prepared file can be read (and whose address can be sought), it
    copies every byte of the file to the component's address, and the
    write succeeds exactly when their number is the size recorded at
    preparation; if not, the whole pv_img_write returns the internal
    error "file has changed during the preparation", the bytes being
    already in the output. *)
Theorem C10_write_file_component `{OpenSSL} `{BootLayout} (fs : filesystem) (img : PvImage)
    (before after : list PvComponent) (comp : PvComponent) (file : CompFile)
    (c : list byte) (f1 : FILE) :
  comps (img_comps img) = before ++ comp :: after ->
  data comp = DATA_FILE file ->
  fs_lookup fs (path file) = Some c ->
  0 <= src_addr comp <= LONG_MAX ->
  pv_img_write_comps fs img before = (f1, Ok tt) ->
  exists f2 rc,
    pv_component_write fs comp f1 = (f2, rc) /\
    (rc = Ok tt <-> size file = Z.of_nat (length c)) /\
    bytes_at (content f2) (src_addr comp) (length c) = c /\
    (size file <> Z.of_nat (length c) ->
     rc = Fail (Some changed_error) /\
     pv_img_write fs img = (f2, Fail (Some changed_error))).
Proof.
  intros Cs D L A B.
  unfold pv_component_write, pv_component_get_src_addr. rewrite D.
  destruct (seek_and_write_file_spec fs f1 file (src_addr comp) c A L)
    as (f2 & E & C & N).
  exists f2. eexists. split; [exact E|].
  assert (Bytes : bytes_at (content f2) (src_addr comp) (length c) = c).
  { destruct c as [|x c'].
    - unfold bytes_at. reflexivity.
    - rewrite C by discriminate. apply bytes_at_write_at. }
  destruct (Z.eqb_spec (size file) (Z.of_nat (length c))) as [Eq | Ne].
  - split; [split; auto|]. split; [exact Bytes|]. intros Ne. contradiction.
  - split; [split; [discriminate | contradiction]|].
    split; [exact Bytes|]. intros _. split; [reflexivity|].
    apply (pv_img_write_fail fs img before after comp f1 f2 _ Cs B).
    unfold pv_component_write, pv_component_get_src_addr. rewrite D, E.
    reflexivity.
Qed.

Lemma C10_write_file_component_witness :
  snd (pv_img_write toy_fs kernel_img) = Ok tt /\
  snd (pv_img_write changed_fs kernel_img) = Fail (Some changed_error) /\
  bytes_at (content (fst (pv_img_write changed_fs kernel_img))) 0x3000 5000
  = repeat 0x5A 5000.
Proof.
  split; [vm_compute; reflexivity|].
  destruct (C10_write_file_component changed_fs kernel_img [] [] placed_kernel_comp
              {| path := "/tmp/genprotimg/kernel"; size := 8192 |}
              (repeat 0x5A (Z.to_nat 5000))
              (fst (pv_img_write_comps changed_fs kernel_img [])))
    as (f2 & rc & W & _ & Bytes & Changed).
  - reflexivity.
  - reflexivity.
  - reflexivity.
  - vm_compute. split; discriminate.
  - vm_compute. reflexivity.
  - destruct Changed as [_ Wr]; [vm_compute; discriminate|].
    rewrite Wr. split; [reflexivity|]. cbn [fst].
    rewrite repeat_length in Bytes. exact Bytes.
Defined.

(* ------------------------------------------------------------------ *)
(** ** Key slots *)

Lemma memcpy_all (n : Z) (src : list byte) : buf_size src = n -> memcpy n src = src.
Proof.
  intros <-. unfold memcpy, buf_size. rewrite Nat2Z.id. apply firstn_all.
Qed.

Lemma store_byte_app_r (a t : list byte) (i : nat) (v : byte) :
  store_byte (a ++ t) (length a + i) v = a ++ store_byte t i v.
Proof.
  unfold store_byte.
  rewrite firstn_app, firstn_all2 by lia.
  replace (length a + i - length a)%nat with i by lia.
  change (S (length a + i)) with (S (length a + i)).
  replace (S (length a + i)) with (length a + S i)%nat by lia.
  rewrite skipn_app, skipn_all2 by lia.
  replace (length a + S i - length a)%nat with (S i) by lia.
  cbn [app]. now rewrite <- app_assoc.
Qed.

(** The scratch buffer of compute_exchange_key: the secret and the
    counter 00 00 00 01. *)
Lemma exchange_scratch (key : list byte) :
  length key = 66%nat ->
  store_byte (store_byte (store_byte (store_byte (memcpy_at (zeros 70) 0 key)
                                                 66 0x00) 67 0x00) 68 0x00) 69 0x01
  = key ++ [0x00; 0x00; 0x00; 0x01].
Proof.
  intros L.
  assert (M : memcpy_at (zeros 70) 0 key = key ++ [0; 0; 0; 0]).
  { unfold memcpy_at. change (Z.to_nat 0) with 0%nat. rewrite L. reflexivity. }
  rewrite M.
  replace 69%nat with (length key + 3)%nat by lia.
  replace 68%nat with (length key + 2)%nat by lia.
  replace 67%nat with (length key + 1)%nat by lia.
  replace 66%nat with (length key + 0)%nat by lia.
  rewrite !store_byte_app_r. reflexivity.
Qed.

Lemma sha256_buffer_ok `{OpenSSL} (buf : Buffer) : sha256_buffer buf = Ok (sha256 buf).
Proof. unfold sha256_buffer. now rewrite sha256_length, Z.eqb_refl. Qed.

Lemma compute_exchange_key_spec `{OpenSSL} (cust host : EVP_PKEY) (key : Buffer) :
  compute_exchange_key cust host = Ok key ->
  exists secret, derive_key cust host = Ok secret /\ buf_size secret = 66 /\
                 key = spec_wrap_key secret.
Proof.
  unfold compute_exchange_key. intros E.
  destruct (derive_key cust host) as [secret | | |]; try discriminate.
  cbn [bind] in E.
  destruct (Z.eqb_spec (buf_size secret) 66) as [L | L]; [|discriminate].
  cbn [g_assert bind] in E.
  destruct (buf_size secret <? buf_size (zeros 70)); [|discriminate].
  cbn [g_assert bind] in E.
  rewrite exchange_scratch in E by (unfold buf_size in L; lia).
  rewrite sha256_buffer_ok in E. apply Ok_inj in E.
  exists secret. repeat split; [exact L | now symmetry].
Qed.

(** One slot, field by field. *)
Lemma pv_hdr_key_slot_new_spec `{OpenSSL} (root_key : Buffer) (cust host : EVP_PKEY)
    (slot : PvHdrKeySlot) :
  pv_hdr_key_slot_new root_key cust host = Ok slot ->
  exists pub secret,
    evp_pkey_to_ecdh_pub_key host = Ok pub /\
    derive_key cust host = Ok secret /\ buf_size secret = 66 /\
    buf_size (secret ++ [0x00; 0x00; 0x00; 0x01]) = 70 /\
    buf_size root_key = 32 /\
    slot = spec_key_slot root_key pub secret /\
    buf_size (digest_key slot) = 32 /\
    buf_size (wrapped_key slot) = 32 /\
    buf_size (tag slot) = 16.
Proof.
  unfold pv_hdr_key_slot_new. intros E.
  destruct (evp_pkey_to_ecdh_pub_key host) as [pub | | |] eqn:Ep; try discriminate.
  cbn [bind] in E.
  rewrite (memcpy_all _ pub (@ecdh_pub_key_length _ _ host pub Ep)) in E.
  rewrite sha256_buffer_ok in E. cbn [bind] in E.
  rewrite sha256_length, Z.eqb_refl in E. cbn [g_assert bind] in E.
  destruct (compute_exchange_key cust host) as [key | | |] eqn:Ek; try discriminate.
  cbn [bind] in E.
  destruct (compute_exchange_key_spec _ _ _ Ek) as (secret & Ed & Ls & ->).
  unfold spec_wrap_key in E.
  rewrite !sha256_length in E.
  change (SHA256_DIGEST_LENGTH <=? 2 ^ 31 - 1) with true in E.
  change (SHA256_DIGEST_LENGTH =? AES_256_GCM_KEY_SIZE) with true in E.
  cbn [g_assert bind] in E.
  rewrite (memcpy_all AES_256_GCM_KEY_SIZE) in E by apply sha256_length.
  rewrite (memcpy_all SHA256_DIGEST_LENGTH) in E by apply sha256_length.
  unfold gcm_encrypt_decrypt in E.
  change (AES_256_GCM_TAG_SIZE <=? 2 ^ 31 - 1) with true in E.
  change (buf_size [] <=? 2 ^ 31 - 1) with true in E.
  change (buf_size [] mod AES_BLOCK_SIZE =? 0) with true in E.
  cbn [g_assert bind gcm_key gcm_parms_iv gcm_cipher_parms_zero] in E.
  destruct (buf_size root_key <=? 2 ^ 31 - 1); [|discriminate].
  cbn [g_assert bind] in E.
  destruct (buf_size root_key mod AES_BLOCK_SIZE =? 0); [|discriminate].
  cbn [g_assert bind] in E.
  destruct (Z.eqb_spec 32 (buf_size root_key)) as [Lr | Lr]; [|discriminate].
  cbn [g_assert bind] in E.
  pose proof (aes_256_gcm_length (sha256 (secret ++ [0; 0; 0; 1])) (zeros 12) [] root_key)
    as Lc.
  pose proof (aes_256_gcm_tag_length (sha256 (secret ++ [0; 0; 0; 1])) (zeros 12) []
                                     root_key) as Lt.
  destruct (aes_256_gcm (sha256 (secret ++ [0; 0; 0; 1])) (zeros 12) [] root_key)
    as [ct t] eqn:Eg.
  cbn [fst snd] in Lc, Lt. cbn [bind] in E.
  rewrite (memcpy_all _ t Lt) in E.
  unfold buf_size in E at 1. rewrite Lc in E. fold (buf_size root_key) in E.
  rewrite Z.eqb_refl in E. cbn [g_assert bind] in E. apply Ok_inj in E. subst slot.
  exists pub, secret. unfold spec_key_slot, spec_wrap_key. rewrite Eg.
  cbn [fst snd digest_key wrapped_key tag].
  repeat split; try assumption; try reflexivity.
  - unfold buf_size in *. rewrite length_app. cbn [length]. lia.
  - lia.
  - apply sha256_length.
  - unfold buf_size in *. lia.
Qed.


Lemma pv_img_get_host_keys_spec `{OpenSSL} (paths : list string) (keys : list EVP_PKEY) :
  pv_img_get_host_keys paths = Ok keys ->
  Forall2 (fun p k => read_ec_pubkey_cert p = Ok k) paths keys.
Proof.
  revert keys. induction paths as [|p paths IH]; intros keys E; cbn in E.
  - apply Ok_inj in E. subst keys. constructor.
  - destruct (read_ec_pubkey_cert p) as [k | | |] eqn:Ep; try discriminate.
    cbn [bind] in E.
    destruct (pv_img_get_host_keys paths) as [ks | | |]; try discriminate.
    cbn [bind] in E. apply Ok_inj in E. subst keys.
    constructor; [exact Ep | now apply IH].
Qed.

Lemma set_host_slots_loop_spec `{OpenSSL} (keys : list EVP_PKEY) :
  forall img img' : PvImage,
    set_host_slots_loop img keys = Ok img' ->
    exists new_slots,
      key_slots img' = key_slots img ++ new_slots /\
      Forall2 (slot_as_specified (cust_root_key img) (cust_pub_priv_key img))
              keys new_slots /\
      cust_root_key img' = cust_root_key img /\
      cust_pub_priv_key img' = cust_pub_priv_key img /\
      host_pub_keys img' = host_pub_keys img /\
      (keys <> [] -> buf_size (cust_root_key img) = 32).
Proof.
  induction keys as [|host keys IH]; intros img img' E; cbn [set_host_slots_loop] in E.
  - apply Ok_inj in E. subst img'. exists []. rewrite app_nil_r.
    repeat split; try constructor. congruence.
  - destruct (pv_hdr_key_slot_new (cust_root_key img) (cust_pub_priv_key img) host)
      as [slot | | |] eqn:Es; try discriminate.
    cbn [bind] in E.
    destruct (IH _ _ E) as (rest & Ks & F & R & C & Hk & _).
    cbn [set_key_slots key_slots cust_root_key cust_pub_priv_key host_pub_keys] in *.
    destruct (pv_hdr_key_slot_new_spec _ _ _ _ Es)
      as (pub & secret & A1 & A2 & A3 & A4 & A5 & A6 & A7 & A8 & A9).
    exists (slot :: rest). rewrite Ks, <- app_assoc.
    split; [reflexivity|]. split.
    { constructor; [|exact F]. exists pub, secret. repeat split; assumption. }
    repeat split; try assumption. intros _. exact A5.
Qed.

(** C3.  pv_img_set_host_slots makes one slot per host key, in the order
    of the keys, which is the order of the host certificates; each slot
    is the 32-byte SHA-256 of the serialised host key, the 32-byte
    AES-256-GCM ciphertext of cust_root_key under the wrap key with a
    zero IV and no AAD, and the 16-byte tag; the wrap key is the SHA-256
    of the 70 bytes made of the 66-byte ECDH secret and 00 00 00 01. *)
Theorem C3_key_slots `{OpenSSL} (paths : list string) (img img' : PvImage) :
  key_slots img = [] ->
  pv_img_get_host_keys paths = Ok (host_pub_keys img) ->
  pv_img_set_host_slots img = Ok img' ->
  Forall2 (fun p host => read_ec_pubkey_cert p = Ok host) paths (host_pub_keys img) /\
  Forall2 (slot_as_specified (cust_root_key img) (cust_pub_priv_key img))
          (host_pub_keys img) (key_slots img').
Proof.
  intros K G S. split; [now apply pv_img_get_host_keys_spec|].
  destruct (set_host_slots_loop_spec _ _ _ S) as (new_slots & Ks & F & _).
  rewrite Ks, K. exact F.
Qed.

Lemma C3_key_slots_witness :
  match pv_img_set_host_slots three_hosts_img with
  | Ok img' =>
      Forall2 (slot_as_specified (cust_root_key three_hosts_img)
                                 (cust_pub_priv_key three_hosts_img))
              [2; 1; 3] (key_slots img')
  | _ => False
  end.
Proof.
  assert (K : is_ok (pv_img_set_host_slots three_hosts_img) = true)
    by (vm_compute; reflexivity).
  destruct (pv_img_set_host_slots three_hosts_img) as [img' | | |] eqn:S;
    try discriminate K.
  exact (proj2 (C3_key_slots ["ab"; "c"; "def"]%string three_hosts_img img'
                             eq_refl eq_refl S)).
Defined.

(* ------------------------------------------------------------------ *)
(** ** The sizes in the secure header *)


Lemma g_uint_checked_add_ok (a b r : Z) :
  g_uint_checked_add a b = Ok r -> r = a + b /\ a + b <= UINT32_MAX.
Proof.
  unfold g_uint_checked_add. destruct (Z.leb_spec (a + b) UINT32_MAX); [|discriminate].
  intros E. apply Ok_inj in E. auto.
Qed.

Lemma g_uint_checked_mul_ok (a b r : Z) :
  g_uint_checked_mul a b = Ok r -> r = a * b /\ a * b <= UINT32_MAX.
Proof.
  unfold g_uint_checked_mul. destruct (Z.leb_spec (a * b) UINT32_MAX); [|discriminate].
  intros E. apply Ok_inj in E. auto.
Qed.

Lemma sizeof_pv_hdr_head_ge `{PvCryptoDefs} : 256 <= sizeof_pv_hdr_head.
Proof.
  unfold sizeof_pv_hdr_head, AES_256_GCM_IV_SIZE, SHA512_DIGEST_LENGTH.
  pose proof sizeof_ecdh_pub_key_nonneg. lia.
Qed.

Lemma pv_img_get_aad_size_ok `{OpenSSL} (img : PvImage) (a : Z) :
  pv_img_get_aad_size img = Ok a ->
  a = sizeof_pv_hdr_head + sizeof_pv_hdr_key_slot * Z.of_nat (length (key_slots img)).
Proof.
  unfold pv_img_get_aad_size. intros E.
  destruct (g_uint_checked_add 0 sizeof_pv_hdr_head) as [s | | |] eqn:E1; try discriminate.
  cbn [bind] in E.
  destruct (g_uint_checked_mul sizeof_pv_hdr_key_slot (Z.of_nat (length (key_slots img))))
    as [k | | |] eqn:E2; try discriminate.
  cbn [bind] in E.
  apply g_uint_checked_add_ok in E1, E. apply g_uint_checked_mul_ok in E2. lia.
Qed.

Lemma opt_items_size_loop_ok `{PvOptItem} (l : list pv_hdr_opt_item) :
  forall ret r : Z,
    opt_items_size_loop l ret = Ok r -> r = ret + opt_items_total l /\ 0 <= opt_items_total l.
Proof.
  induction l as [|item l IH]; intros ret r E; cbn in E |- *.
  - apply Ok_inj in E. lia.
  - destruct (g_uint_checked_add ret (pv_opt_item_size item)) as [s | | |] eqn:E1;
      try discriminate.
    cbn [bind] in E. apply g_uint_checked_add_ok in E1. destruct (IH _ _ E) as [-> P].
    fold (opt_items_total l). pose proof (pv_opt_item_size_nonneg item). lia.
Qed.

Lemma pv_img_get_enc_size_ok `{OpenSSL} `{PvOptItem} (img : PvImage) (e : Z) :
  pv_img_get_enc_size img = Ok e ->
  e = sizeof_pv_hdr_encrypted + opt_items_total (optional_items img) /\
  sizeof_pv_hdr_encrypted <= e <= UINT32_MAX.
Proof.
  unfold pv_img_get_enc_size, pv_img_get_opt_items_size. intros E.
  destruct (g_uint_checked_add 0 sizeof_pv_hdr_encrypted) as [s | | |] eqn:E1;
    try discriminate.
  cbn [bind] in E.
  destruct (opt_items_size_loop (optional_items img) 0) as [o | | |] eqn:E2;
    try discriminate.
  cbn [bind] in E.
  apply g_uint_checked_add_ok in E1, E. apply opt_items_size_loop_ok in E2. lia.
Qed.

Lemma pv_img_get_pv_hdr_size_ok `{OpenSSL} `{PvOptItem} (img : PvImage) (h : Z) :
  pv_img_get_pv_hdr_size img = Ok h ->
  exists a e, pv_img_get_aad_size img = Ok a /\ pv_img_get_enc_size img = Ok e /\
              h = a + e + sizeof_tag /\ h <= UINT32_MAX.
Proof.
  unfold pv_img_get_pv_hdr_size, pv_img_get_tag_size. intros E.
  destruct (pv_img_get_aad_size img) as [a | | |]; try discriminate. cbn [bind] in E.
  destruct (g_uint_checked_add 0 a) as [s1 | | |] eqn:E1; try discriminate.
  cbn [bind] in E.
  destruct (pv_img_get_enc_size img) as [e | | |]; try discriminate. cbn [bind] in E.
  destruct (g_uint_checked_add s1 e) as [s2 | | |] eqn:E2; try discriminate.
  cbn [bind] in E.
  apply g_uint_checked_add_ok in E1, E2, E.
  exists a, e. repeat split; lia.
Qed.

(** What pv_hdr_alloc puts into the head. *)
Lemma pv_hdr_alloc_ok `{OpenSSL} `{PvOptItem} (img : PvImage) (hdr : PvHdr) :
  pv_hdr_alloc img = Ok hdr ->
  let nks := Z.of_nat (length (key_slots img)) in
  let sea := sizeof_pv_hdr_encrypted + opt_items_total (optional_items img) in
  let phs := sizeof_pv_hdr_head + sizeof_pv_hdr_key_slot * nks + sea + sizeof_tag in
  head_phs (head hdr) = be_bytes 4 phs /\
  head_nks (head hdr) = be_bytes 8 nks /\
  head_sea (head hdr) = be_bytes 8 sea /\
  1 <= nks /\ sea mod AES_BLOCK_SIZE = 0 /\ sizeof_pv_hdr_encrypted <= sea /\
  phs <= UINT32_MAX /\
  length (slots hdr) = length (key_slots img).
Proof.
  unfold pv_hdr_alloc. intros E.
  destruct (pv_img_get_pv_hdr_size img) as [h | | |] eqn:Eh; try discriminate.
  cbn [bind] in E.
  destruct (pv_img_get_pv_hdr_size_ok _ _ Eh) as (a & e & Ea & Ee & -> & Bh).
  rewrite Ee in E. cbn [bind] in E.
  apply pv_img_get_aad_size_ok in Ea. destruct (pv_img_get_enc_size_ok _ _ Ee) as [Es Be].
  destruct (Z.gtb_spec (Z.of_nat (length (key_slots img))) 0) as [N | N]; [|discriminate].
  cbn [g_assert bind] in E.
  destruct (Z.eqb_spec (e mod AES_BLOCK_SIZE) 0) as [M | M]; [|discriminate].
  cbn [g_assert bind] in E.
  destruct (Z.geb_spec e sizeof_pv_hdr_encrypted) as [G | G]; [|discriminate].
  cbn [g_assert bind] in E. apply Ok_inj in E. subst hdr.
  cbn [head head_phs head_nks head_sea slots]. cbv zeta. subst a.
  rewrite <- Es. rewrite repeat_length, Nat2Z.id.
  repeat split; try assumption; lia.
Qed.

(** pv_hdr_init keeps what pv_hdr_alloc stored, and sets magic and
    version. *)
Lemma pv_hdr_init_head `{OpenSSL} (fuel : nat) (fs : filesystem) (hdr hdr' : PvHdr)
    (img img' : PvImage) :
  pv_hdr_init fuel fs hdr img = Ok (hdr', img') ->
  head_phs (head hdr') = head_phs (head hdr) /\
  head_nks (head hdr') = head_nks (head hdr) /\
  head_sea (head hdr') = head_sea (head hdr) /\
  head_magic (head hdr') = be_bytes 8 PV_MAGIC_VALUE /\
  head_version (head hdr') = be_bytes 4 PV_VERSION_1 /\
  slots hdr' = key_slots img ++ skipn (length (key_slots img)) (slots hdr).
Proof.
  unfold pv_hdr_init, pv_hdr_aad_init, pv_hdr_enc_init. intros E.
  destruct (evp_pkey_to_ecdh_pub_key (cust_pub_priv_key img)) as [pk | e | |];
    try discriminate.
  cbn [bind] in E.
  destruct (g_assert (AES_256_GCM_IV_SIZE =? buf_size (gcm_iv img))); try discriminate.
  cbn [bind] in E.
  destruct (pv_img_calc_pld_ald_tld_nep fuel fs img) as [img1 [[[[dp da] dt] dn] | e1 | |]];
    try discriminate.
  cbn [bind] in E.
  destruct (g_assert (SHA512_DIGEST_LENGTH =? buf_size dp)); try discriminate.
  destruct (g_assert (SHA512_DIGEST_LENGTH =? buf_size da)); try discriminate.
  destruct (g_assert (SHA512_DIGEST_LENGTH =? buf_size dt)); try discriminate.
  cbn [bind] in E.
  destruct (g_assert (32 =? buf_size (cust_comm_key img1))); try discriminate.
  destruct (g_assert (buf_size (xts_key img1) =? AES_256_XTS_KEY_SIZE)); try discriminate.
  cbn [bind] in E.
  destruct (pv_img_get_stage3b_comp img1) as [s3b | | |]; try discriminate.
  cbn [bind] in E.
  destruct (optional_items img1); try discriminate.
  cbn [bind] in E. apply Ok_inj in E.
  match type of E with (?h, _) = _ => assert (h = hdr') as <- by congruence end.
  cbn. repeat split; reflexivity.
Qed.

(** C2.  In a header that pv_hdr_new builds, phs is the size of the head
    plus nks key slots plus sea plus the 16-byte tag; sea is a multiple
    of 16 and at least the size of the fixed encrypted part; nks is at
    least 1 and is the number of key slots of the image, which for slots
    made by pv_img_set_host_slots from the keys of the host certificates
    is the number of certificates. *)
Theorem C2_header_sizes `{OpenSSL} `{PvOptItem} (fuel : nat) (fs : filesystem)
    (img img' : PvImage) (hdr : PvHdr) :
  pv_hdr_new fuel fs img = Ok (hdr, img') ->
  let phs := pv_hdr_size hdr in
  let nks := pv_hdr_get_nks hdr in
  let sea := pv_hdr_enc_size hdr in
  phs = (sizeof_pv_hdr_head + nks * sizeof_pv_hdr_key_slot) + sea + 16 /\
  pv_hdr_aad_size hdr = Ok (sizeof_pv_hdr_head + nks * sizeof_pv_hdr_key_slot) /\
  sea mod 16 = 0 /\
  sizeof_pv_hdr_encrypted <= sea /\
  1 <= nks /\
  nks = Z.of_nat (length (key_slots img)) /\
  (forall paths img0,
      key_slots img0 = [] ->
      pv_img_get_host_keys paths = Ok (host_pub_keys img0) ->
      pv_img_set_host_slots img0 = Ok img ->
      nks = Z.of_nat (length paths)).
Proof.
  unfold pv_hdr_new. intros E.
  destruct (pv_hdr_alloc img) as [hdr0 | | |] eqn:Ea; try discriminate.
  cbn [bind] in E.
  destruct (pv_hdr_alloc_ok _ _ Ea) as (P & N & S & N1 & M & G & B & _).
  destruct (pv_hdr_init_head _ _ _ _ _ _ E) as (P' & N' & S' & _).
  pose proof sizeof_pv_hdr_head_ge as Hh.
  set (n := Z.of_nat (length (key_slots img))) in *.
  set (s := sizeof_pv_hdr_encrypted + opt_items_total (optional_items img)) in *.
  assert (Ks : sizeof_pv_hdr_key_slot = 80) by reflexivity.
  assert (Ts : sizeof_tag = 16) by reflexivity.
  assert (Es : sizeof_pv_hdr_encrypted = 128) by reflexivity.
  assert (U : UINT32_MAX = 4294967295) by reflexivity.
  cbv zeta. unfold pv_hdr_size, pv_hdr_get_nks, pv_hdr_enc_size, pv_hdr_aad_size,
    pv_hdr_enc_size_casted, pv_hdr_enc_size, pv_hdr_size, pv_hdr_tag_size.
  rewrite P', N', S', P, N, S.
  rewrite !be_value_be_bytes_small
    by (change (256 ^ Z.of_nat 4) with 4294967296;
        change (256 ^ Z.of_nat 8) with 18446744073709551616; lia).
  destruct (Z.gtb_spec s UINT32_MAX); [lia|]. cbn [bind].
  repeat split; try lia.
  - f_equal. unfold wrap32. rewrite Z.mod_small by lia. lia.
  - exact M.
  - intros paths img0 K Gk Sl.
    apply pv_img_get_host_keys_spec in Gk. apply Forall2_length in Gk.
    destruct (set_host_slots_loop_spec _ _ _ Sl) as (new & Kn & F & _).
    apply Forall2_length in F. subst n. rewrite Kn, K. cbn [app]. congruence.
Qed.

Lemma C2_header_sizes_witness :
  match pv_hdr_new 4 [] three_slots_img with
  | Ok (hdr, _) => pv_hdr_size hdr = 416 + 3 * 80 + 128 + 16 /\
                   pv_hdr_get_nks hdr = 3 /\ pv_hdr_enc_size hdr = 128
  | _ => False
  end.
Proof.
  assert (K : match pv_hdr_new 4 [] three_slots_img with
              | Ok (hdr, _) => pv_hdr_enc_size hdr
              | _ => -1
              end = 128) by (vm_compute; reflexivity).
  assert (I : is_ok (pv_img_set_host_slots three_hosts_img) = true)
    by (vm_compute; reflexivity).
  assert (T : pv_img_set_host_slots three_hosts_img = Ok three_slots_img).
  { unfold three_slots_img.
    destruct (pv_img_set_host_slots three_hosts_img); try discriminate I. reflexivity. }
  destruct (pv_hdr_new 4 [] three_slots_img) as [[hdr img'] | | |] eqn:E;
    try discriminate K.
  destruct (C2_header_sizes 4 [] three_slots_img img' hdr E)
    as (P & _ & _ & _ & _ & N & C).
  assert (N3 : pv_hdr_get_nks hdr = 3)
    by exact (C ["ab"; "c"; "def"]%string three_hosts_img eq_refl eq_refl T).
  rewrite P, N3, K. repeat split; reflexivity.
Defined.

(* ------------------------------------------------------------------ *)
(** ** The program status word in the encrypted part *)


Lemma get_nth_last (c : PvImgComps) (l : list PvComponent) (x : PvComponent) :
  comps c = l ++ [x] ->
  (pv_img_comps_length c >=? 1) = true /\
  pv_img_comps_get_nth_comp c (pv_img_comps_length c - 1) = Some x.
Proof.
  unfold pv_img_comps_length, pv_img_comps_get_nth_comp. intros ->.
  rewrite length_app. cbn [length]. split.
  - rewrite Z.geb_leb. apply Z.leb_le. lia.
  - replace (Z.to_nat (Z.of_nat (length l + 1) - 1)) with (length l + 0)%nat by lia.
    rewrite nth_error_app2 by lia.
    replace (length l + 0 - length l)%nat with 0%nat by lia. reflexivity.
Qed.

Lemma pv_img_get_stage3b_comp_last `{OpenSSL} (img : PvImage) (l : list PvComponent)
    (x : PvComponent) :
  comps (img_comps img) = l ++ [x] ->
  pv_img_get_stage3b_comp img =
  if pv_component_is_stage3b x then Ok x
  else Fail (Some (internal_error "Failed to get 'stage3b' component")).
Proof.
  intros E. unfold pv_img_get_stage3b_comp.
  destruct (get_nth_last _ _ _ E) as [-> ->]. cbn [negb].
  destruct (pv_component_is_stage3b x); reflexivity.
Qed.

Lemma pv_img_get_stage3b_comp_empty `{OpenSSL} (img : PvImage) :
  comps (img_comps img) = [] -> pv_img_get_stage3b_comp img = Fail None.
Proof.
  intros E. unfold pv_img_get_stage3b_comp, pv_img_comps_length. rewrite E. reflexivity.
Qed.

(** C4.  With keys of the sizes the ciphers ask for and no optional item,
    pv_hdr_enc_init succeeds when the last component of the collection is
    the stage3b component, and then stores the source address of that
    component and the mask PSW_MASK_EA | PSW_MASK_BA big-endian in the
    psw of the encrypted part; it ends with the error PV_ERROR_INTERNAL
    when the last component is another one; on a collection without
    components it returns the failure without an error. *)
Theorem C4_encrypted_psw `{OpenSSL} (hdr : PvHdr) (img : PvImage) :
  buf_size (cust_comm_key img) = 32 ->
  buf_size (xts_key img) = AES_256_XTS_KEY_SIZE ->
  optional_items img = [] ->
  (forall l c, comps (img_comps img) = l ++ [c] ->
     pv_component_is_stage3b c = true ->
     exists hdr', pv_hdr_enc_init hdr img = Ok hdr' /\
       enc_psw_addr (encrypted hdr') = be_bytes 8 (pv_component_get_src_addr c) /\
       enc_psw_mask (encrypted hdr') = be_bytes 8 (Z.lor PSW_MASK_EA PSW_MASK_BA)) /\
  (forall l c, comps (img_comps img) = l ++ [c] ->
     pv_component_is_stage3b c = false ->
     pv_hdr_enc_init hdr img =
     Fail (Some (internal_error "Failed to get 'stage3b' component")) /\
     enc_init_fails_with PV_ERROR_INTERNAL hdr img) /\
  (comps (img_comps img) = [] -> pv_hdr_enc_init hdr img = Fail None).
Proof.
  intros Kc Kx O.
  assert (A1 : g_assert (32 =? buf_size (cust_comm_key img)) = Ok tt)
    by (rewrite Kc; reflexivity).
  assert (A2 : g_assert (buf_size (xts_key img) =? AES_256_XTS_KEY_SIZE) = Ok tt)
    by (rewrite Kx; reflexivity).
  unfold enc_init_fails_with, pv_hdr_enc_init. rewrite A1, A2. cbn [bind].
  split; [|split].
  - intros l c E S3. rewrite (pv_img_get_stage3b_comp_last _ _ _ E), S3, O. cbn [bind].
    eexists. split; [reflexivity|]. split; reflexivity.
  - intros l c E S3. rewrite (pv_img_get_stage3b_comp_last _ _ _ E), S3. cbn [bind].
    split; [reflexivity|]. eexists. reflexivity.
  - intros E. rewrite (pv_img_get_stage3b_comp_empty _ E). reflexivity.
Qed.

Lemma C4_encrypted_psw_witness :
  (exists hdr', pv_hdr_enc_init blank_hdr stage3b_last_img = Ok hdr' /\
     enc_psw_addr (encrypted hdr') = [0; 0; 0; 0; 0; 0; 0x30; 0] /\
     enc_psw_mask (encrypted hdr') = [0; 0; 0; 1; 0x80; 0; 0; 0]) /\
  enc_init_fails_with PV_ERROR_INTERNAL blank_hdr no_stage3b_img /\
  pv_hdr_enc_init blank_hdr no_comps_img = Fail None.
Proof.
  split; [|split].
  - destruct (C4_encrypted_psw blank_hdr stage3b_last_img eq_refl eq_refl eq_refl)
      as [P _].
    exact (P [empty_buf_comp] stage3b_comp eq_refl eq_refl).
  - destruct (C4_encrypted_psw blank_hdr no_stage3b_img eq_refl eq_refl eq_refl)
      as (_ & P & _).
    exact (proj2 (P [stage3b_comp] empty_buf_comp eq_refl eq_refl)).
  - destruct (C4_encrypted_psw blank_hdr no_comps_img eq_refl eq_refl eq_refl)
      as (_ & _ & P).
    exact (P eq_refl).
Defined.

(** On a collection without components the last component is not the
    stage3b component, and pv_hdr_enc_init fails, but with no error
    set, so not with PV_ERROR_INTERNAL. *)
Lemma C4_no_component_counterexample :
  comps (img_comps no_comps_img) = [] /\
  pv_hdr_enc_init blank_hdr no_comps_img = Fail None /\
  ~ enc_init_fails_with PV_ERROR_INTERNAL blank_hdr no_comps_img.
Proof.
  split; [reflexivity|]. split; [reflexivity|].
  intros [msg E]. discriminate E.
Qed.

(* ------------------------------------------------------------------ *)
(** ** The first bytes of the serialized header *)


Lemma firstn_memcpy_at_low (n : nat) (dest : list byte) (off : Z) (src : list byte) :
  (n <= Z.to_nat off)%nat -> (n <= length dest)%nat ->
  firstn n (memcpy_at dest off src) = firstn n dest /\
  (n <= length (memcpy_at dest off src))%nat.
Proof.
  unfold memcpy_at. intros O L. split.
  - rewrite firstn_app, firstn_firstn, length_firstn.
    replace (Nat.min n (Z.to_nat off)) with n by lia.
    replace (n - Nat.min (Z.to_nat off) (length dest))%nat with 0%nat by lia.
    cbn [firstn]. apply app_nil_r.
  - rewrite !length_app, length_firstn. lia.
Qed.

Lemma firstn_memcpy_at_0 (n : nat) (dest src : list byte) :
  (n <= length src)%nat ->
  firstn n (memcpy_at dest 0 src) = firstn n src /\
  (n <= length (memcpy_at dest 0 src))%nat.
Proof.
  unfold memcpy_at. intros L. change (Z.to_nat 0) with 0%nat. cbn [firstn app]. split.
  - rewrite firstn_app. replace (n - length src)%nat with 0%nat by lia.
    cbn [firstn]. apply app_nil_r.
  - rewrite length_app. lia.
Qed.

Lemma firstn_head_bytes (h : pv_hdr_head) :
  length (head_magic h) = 8%nat -> length (head_version h) = 4%nat ->
  firstn 12 (head_bytes h) = head_magic h ++ head_version h /\
  (12 <= length (head_bytes h))%nat.
Proof.
  intros M V. unfold head_bytes. rewrite app_assoc. split.
  - assert (L : length (head_magic h ++ head_version h) = 12%nat)
      by (rewrite length_app; lia).
    rewrite firstn_app, L, firstn_all2 by lia.
    change (12 - 12)%nat with 0%nat. rewrite firstn_O. apply app_nil_r.
  - rewrite !length_app. lia.
Qed.

(** pv_hdr_write puts the head at the start of the buffer, and nothing
    behind it reaches back into its first bytes. *)
Lemma pv_hdr_write_begin `{PvCryptoDefs} (hdr : PvHdr) (dest ret : Buffer) :
  pv_hdr_write hdr dest = Ok ret ->
  0 <= pv_hdr_get_nks hdr ->
  length (head_magic (head hdr)) = 8%nat -> length (head_version (head hdr)) = 4%nat ->
  firstn 12 ret = head_magic (head hdr) ++ head_version (head hdr) /\
  (12 <= length ret)%nat.
Proof.
  unfold pv_hdr_write. intros E N M V.
  destruct (g_assert (buf_size dest =? pv_hdr_size hdr)); try discriminate.
  cbn [bind] in E.
  destruct (pv_hdr_enc_size_casted hdr) as [enc_size | | |]; try discriminate.
  cbn [bind] in E.
  destruct (g_assert (enc_size >=? sizeof_pv_hdr_encrypted)); try discriminate.
  cbn [bind] in E. cbv zeta in E.
  pose proof sizeof_pv_hdr_head_ge as Hh.
  assert (Ks : sizeof_pv_hdr_key_slot = 80) by reflexivity.
  assert (Es : sizeof_pv_hdr_encrypted = 128) by reflexivity.
  destruct (firstn_head_bytes _ M V) as [F L].
  set (src := memcpy sizeof_pv_hdr_head (head_bytes (head hdr))) in E.
  assert (Fs : firstn 12 src = head_magic (head hdr) ++ head_version (head hdr)).
  { unfold src, memcpy. rewrite firstn_firstn.
    replace (Nat.min 12 (Z.to_nat sizeof_pv_hdr_head)) with 12%nat by lia. exact F. }
  assert (Ls : (12 <= length src)%nat).
  { unfold src, memcpy. rewrite length_firstn. lia. }
  destruct (firstn_memcpy_at_0 12 dest src Ls) as [F1 L1].
  set (d1 := memcpy_at dest 0 src) in *.
  set (s2 := memcpy (sizeof_pv_hdr_key_slot * pv_hdr_get_nks hdr)
               (concat (map slot_bytes (slots hdr)))) in E.
  destruct (firstn_memcpy_at_low 12 d1 (0 + sizeof_pv_hdr_head) s2) as [F2 L2];
    [lia | exact L1 |].
  set (d2 := memcpy_at d1 (0 + sizeof_pv_hdr_head) s2) in *.
  set (o3 := 0 + sizeof_pv_hdr_head + sizeof_pv_hdr_key_slot * pv_hdr_get_nks hdr) in *.
  set (s3 := memcpy sizeof_pv_hdr_encrypted (encrypted_bytes (encrypted hdr))) in E.
  destruct (firstn_memcpy_at_low 12 d2 o3 s3) as [F3 L3]; [subst o3; lia | exact L2 |].
  set (d3 := memcpy_at d2 o3 s3) in *.
  destruct (enc_size - sizeof_pv_hdr_encrypted >? 0); apply Ok_inj in E; subst ret.
  - match goal with |- context [memcpy_at d3 ?o ?s] =>
      destruct (firstn_memcpy_at_low 12 d3 o s) as [F4 L4];
        [subst o3; lia | exact L3 |] end.
    rewrite F4, F3, F2, F1. split; [exact Fs | exact L4].
  - rewrite F3, F2, F1. split; [exact Fs | exact L3].
Qed.

(** Sealing the buffer writes behind the authenticated part only. *)
Lemma pv_hdr_encrypt_begin `{OpenSSL} (hdr : PvHdr) (img : PvImage) (buf ret : Buffer) :
  pv_hdr_encrypt hdr img buf = Ok ret ->
  (12 <= length buf)%nat ->
  12 <= pv_hdr_size hdr - pv_hdr_enc_size hdr - sizeof_tag <= UINT32_MAX ->
  0 <= pv_hdr_enc_size hdr ->
  firstn 12 ret = firstn 12 buf.
Proof.
  unfold pv_hdr_encrypt, pv_hdr_aad_size, pv_hdr_enc_size_casted, pv_hdr_tag_size.
  intros E L A S.
  destruct (pv_hdr_enc_size hdr >? UINT32_MAX); try discriminate.
  cbn [bind] in E.
  unfold wrap32 in E. rewrite Z.mod_small in E by (unfold UINT32_MAX in A; lia).
  match type of E with context [g_assert ?b] => destruct (g_assert b) end;
    try discriminate.
  cbn [bind] in E.
  match type of E with context [gcm_encrypt_decrypt ?a ?b ?c ?d ?e] =>
    destruct (gcm_encrypt_decrypt a b c d e) as [[[c_len ct] t] | | |] end;
    try discriminate.
  cbn [bind] in E.
  match type of E with context [g_assert ?b] => destruct (g_assert b) end;
    try discriminate.
  cbn [bind] in E. apply Ok_inj in E. subst ret.
  destruct (firstn_memcpy_at_low 12 buf
              (pv_hdr_size hdr - pv_hdr_enc_size hdr - sizeof_tag) ct) as [F1 L1];
    [lia | exact L |].
  match goal with |- context [memcpy_at (memcpy_at buf ?o1 ct) ?o t] =>
    destruct (firstn_memcpy_at_low 12 (memcpy_at buf o1 ct) o t) as [F2 L2];
      [lia | exact L1 |] end.
  rewrite F2. exact F1.
Qed.

(** C8.  The serialized form of every header that pv_hdr_new builds,
    sealed or not, begins with the eight bytes of PV_MAGIC_VALUE =
    0x49424d5365634578, big-endian, followed by the four bytes of
    PV_VERSION_1 = 0x00000100, big-endian; so does the header that
    pv_img_create_pv_hdr returns. *)
Theorem C8_header_magic_and_version `{OpenSSL} `{PvOptItem} (fuel : nat) (fs : filesystem)
    (img img' : PvImage) (hdr : PvHdr) (encrypt : bool) (buf : Buffer) :
  pv_hdr_new fuel fs img = Ok (hdr, img') ->
  pv_hdr_serialize hdr img' encrypt = Ok buf ->
  header_begins_with PV_MAGIC_VALUE PV_VERSION_1 buf /\
  firstn 12 buf = [0x49; 0x42; 0x4d; 0x53; 0x65; 0x63; 0x45; 0x78; 0; 0; 1; 0] /\
  (encrypt = true -> pv_img_create_pv_hdr fuel fs img = Ok (buf, img')).
Proof.
  intros En Es.
  assert (B : header_begins_with PV_MAGIC_VALUE PV_VERSION_1 buf).
  { unfold pv_hdr_new in En.
    destruct (pv_hdr_alloc img) as [hdr0 | | |] eqn:Ea; try discriminate.
    cbn [bind] in En.
    destruct (pv_hdr_alloc_ok _ _ Ea) as (P & N & S & N1 & M & G & Bd & _).
    destruct (pv_hdr_init_head _ _ _ _ _ _ En) as (P' & N' & S' & Mg & Vs & _).
    pose proof sizeof_pv_hdr_head_ge as Hh.
    assert (Ks : sizeof_pv_hdr_key_slot = 80) by reflexivity.
    assert (Ts : sizeof_tag = 16) by reflexivity.
    assert (Ec : sizeof_pv_hdr_encrypted = 128) by reflexivity.
    assert (U : UINT32_MAX = 4294967295) by reflexivity.
    set (n := Z.of_nat (length (key_slots img))) in *.
    set (s := sizeof_pv_hdr_encrypted + opt_items_total (optional_items img)) in *.
    assert (Vn : pv_hdr_get_nks hdr = n).
    { unfold pv_hdr_get_nks. rewrite N', N. apply be_value_be_bytes_small.
      change (256 ^ Z.of_nat 8) with 18446744073709551616. lia. }
    assert (Vs' : pv_hdr_enc_size hdr = s).
    { unfold pv_hdr_enc_size. rewrite S', S. apply be_value_be_bytes_small.
      change (256 ^ Z.of_nat 8) with 18446744073709551616. lia. }
    assert (Vp : pv_hdr_size hdr = sizeof_pv_hdr_head + sizeof_pv_hdr_key_slot * n + s
                                   + sizeof_tag).
    { unfold pv_hdr_size. rewrite P', P. apply be_value_be_bytes_small.
      change (256 ^ Z.of_nat 4) with 4294967296. lia. }
    unfold pv_hdr_serialize in Es.
    destruct (pv_hdr_write hdr (zeros (Z.to_nat (pv_hdr_size hdr)))) as [ret | | |] eqn:Ew;
      try discriminate.
    cbn [bind] in Es.
    destruct (pv_hdr_write_begin _ _ _ Ew) as [F L].
    { lia. }
    { rewrite Mg. apply be_bytes_length. }
    { rewrite Vs. apply be_bytes_length. }
    unfold header_begins_with. rewrite <- Mg, <- Vs, <- F.
    destruct encrypt.
    - apply (pv_hdr_encrypt_begin _ _ _ _ Es L); lia.
    - apply Ok_inj in Es. subst buf. unfold pv_hdr_tag_size.
      apply firstn_memcpy_at_low; [lia | exact L]. }
  split; [exact B|]. split; [exact B|].
  intros ->. unfold pv_img_create_pv_hdr. rewrite En. cbn [bind]. rewrite Es. reflexivity.
Qed.

Lemma C8_header_magic_and_version_witness :
  match pv_hdr_new 4 [] three_slots_img with
  | Ok (hdr, img') =>
      match pv_hdr_serialize hdr img' true with
      | Ok buf => firstn 12 buf = [0x49; 0x42; 0x4d; 0x53; 0x65; 0x63; 0x45; 0x78; 0; 0; 1; 0]
      | _ => False
      end
  | _ => False
  end.
Proof.
  assert (K : (match pv_hdr_new 4 [] three_slots_img with
               | Ok (hdr, img') => is_ok (pv_hdr_serialize hdr img' true)
               | _ => false
               end) = true) by (vm_compute; reflexivity).
  destruct (pv_hdr_new 4 [] three_slots_img) as [[hdr img'] | | |] eqn:E;
    try discriminate K.
  destruct (pv_hdr_serialize hdr img' true) as [buf | | |] eqn:Es; try discriminate K.
  exact (proj1 (proj2 (C8_header_magic_and_version 4 [] three_slots_img img' hdr true buf
                         E Es))).
Defined.

(** The sealed header of an image with three key slots begins with
    PV_MAGIC_VALUE, whose third byte is 0x4d, and not with the value
    0x49426D5365634578, whose third byte is 0x6D. *)
Lemma C8_section6_magic_counterexample :
  match pv_img_create_pv_hdr 4 [] three_slots_img with
  | Ok (buf, _) =>
      firstn 8 buf = [0x49; 0x42; 0x4d; 0x53; 0x65; 0x63; 0x45; 0x78] /\
      be_bytes 8 section6_magic = [0x49; 0x42; 0x6D; 0x53; 0x65; 0x63; 0x45; 0x78] /\
      ~ header_begins_with section6_magic PV_VERSION_1 buf
  | _ => False
  end.
Proof.
  assert (K : (match pv_img_create_pv_hdr 4 [] three_slots_img with
               | Ok (buf, _) => firstn 12 buf
               | _ => []
               end) = [0x49; 0x42; 0x4d; 0x53; 0x65; 0x63; 0x45; 0x78; 0; 0; 1; 0])
    by (vm_compute; reflexivity).
  destruct (pv_img_create_pv_hdr 4 [] three_slots_img) as [[buf img'] | | |];
    try discriminate K.
  split; [|split].
  - replace (firstn 8 buf) with (firstn 8 (firstn 12 buf))
      by (rewrite firstn_firstn; reflexivity).
    rewrite K. reflexivity.
  - reflexivity.
  - unfold header_begins_with. rewrite K. discriminate.
Qed.

(* ------------------------------------------------------------------ *)
(** ** What the three measurements absorb *)


Lemma update_ald_loop_spec (n : nat) :
  forall (fuel : nat) (ctx : EVP_MD_CTX) (cur bound nep : Z),
    (n < fuel)%nat -> 0 <= cur ->
    cur + PAGE_SIZE * (Z.of_nat n + 1) <= UINT64_MAX ->
    (n = 0%nat \/ cur + PAGE_SIZE * Z.of_nat n < bound) ->
    bound <= cur + PAGE_SIZE * (Z.of_nat n + 1) ->
    update_ald_loop fuel ctx cur bound nep
    = Ok (nep + Z.of_nat n + 1, ctx ++ page_addrs (S n) cur).
Proof.
  induction n as [|n IH]; intros fuel ctx cur bound nep F C B L U;
    (destruct fuel as [|fuel]; [lia|]); cbn [update_ald_loop].
  - rewrite wrap64_small by (unfold PAGE_SIZE in *; lia).
    destruct (Z.ltb_spec (cur + PAGE_SIZE) bound); [unfold PAGE_SIZE in *; lia|].
    cbn [page_addrs]. rewrite app_nil_r. unfold EVP_DigestUpdate.
    f_equal. f_equal. lia.
  - rewrite wrap64_small by (unfold PAGE_SIZE in *; lia).
    destruct L as [L | L]; [discriminate|].
    destruct (Z.ltb_spec (cur + PAGE_SIZE) bound); [|unfold PAGE_SIZE in *; lia].
    rewrite IH.
    + unfold EVP_DigestUpdate. rewrite <- app_assoc. f_equal. f_equal. lia.
    + lia.
    + unfold PAGE_SIZE in *. lia.
    + unfold PAGE_SIZE in *. lia.
    + destruct n; [left; reflexivity | right; unfold PAGE_SIZE in *; lia].
    + unfold PAGE_SIZE in *. lia.
Qed.

Lemma update_ald_spec (fuel : nat) (comp : PvComponent) (ctx : EVP_MD_CTX) :
  0 <= src_addr comp -> 0 <= pv_component_size comp ->
  src_addr comp + PAGE_SIZE * spec_page_count (pv_component_size comp) <= UINT64_MAX ->
  (comp_pages comp <= fuel)%nat ->
  pv_component_update_ald fuel comp ctx
  = Ok (spec_page_count (pv_component_size comp),
        ctx ++ page_addrs (comp_pages comp) (src_addr comp)).
Proof.
  intros A Sz B F. unfold pv_component_update_ald, pv_component_get_src_addr, comp_pages in *.
  destruct (spec_page_count_bounds _ Sz) as (P1 & P2 & P3).
  set (p := spec_page_count (pv_component_size comp)) in *.
  rewrite wrap64_small by (unfold PAGE_SIZE in *; lia).
  rewrite (update_ald_loop_spec (Z.to_nat (p - 1))).
  - replace (S (Z.to_nat (p - 1))) with (Z.to_nat p) by lia.
    f_equal. f_equal. rewrite Z2Nat.id by lia. lia.
  - lia.
  - exact A.
  - rewrite Z2Nat.id by lia. replace (p - 1 + 1) with p by lia. exact B.
  - destruct P3 as [P3 | P3]; [left; rewrite P3; reflexivity|].
    right. rewrite Z2Nat.id by lia. lia.
  - rewrite Z2Nat.id by lia. replace (p - 1 + 1) with p by lia. lia.
Qed.

Lemma BN_bn2binpad_small (x : Z) : 0 <= x < 2 ^ 120 -> BN_bn2binpad x 16 = be_bytes 16 x.
Proof.
  intros B. pose proof (BN_num_bytes_small x B) as N. unfold BN_bn2binpad.
  destruct (Z.leb_spec (BN_num_bytes x) (Z.of_nat 16)); [reflexivity | lia].
Qed.

Lemma update_tld_loop_spec (n : nat) :
  forall (fuel : nat) (ctx : EVP_MD_CTX) (size cur tw nep : Z),
    (n < fuel)%nat -> 0 < cur ->
    cur + PAGE_SIZE * Z.of_nat n <= UINT64_MAX ->
    0 <= tw -> tw + PAGE_SIZE * Z.of_nat n < 2 ^ 120 ->
    (n = 0%nat \/ cur + PAGE_SIZE * (Z.of_nat n - 1) < size) ->
    size <= cur + PAGE_SIZE * Z.of_nat n ->
    update_tld_loop fuel ctx size cur tw nep
    = Ok (nep + Z.of_nat n, ctx ++ page_tweaks n tw).
Proof.
  induction n as [|n IH]; intros fuel ctx size cur tw nep F C B T0 T L U;
    (destruct fuel as [|fuel]; [lia|]); cbn [update_tld_loop].
  - destruct (Z.ltb_spec cur size); [unfold PAGE_SIZE in *; lia|].
    destruct (Z.eqb_spec cur 0); [lia|]. cbn [orb page_tweaks].
    rewrite app_nil_r. f_equal. f_equal. lia.
  - destruct L as [L | L]; [discriminate|].
    destruct (Z.ltb_spec cur size); [|unfold PAGE_SIZE in *; lia]. cbn [orb].
    destruct (tld_assert_small tw) as [-> ->]; [unfold PAGE_SIZE in *; lia|].
    cbn [bind].
    rewrite wrap64_small by (unfold PAGE_SIZE in *; lia).
    rewrite BN_bn2binpad_small by (unfold PAGE_SIZE in *; lia).
    rewrite IH.
    + unfold EVP_DigestUpdate. cbn [page_tweaks]. rewrite <- app_assoc.
      f_equal. f_equal. lia.
    + lia.
    + unfold PAGE_SIZE in *. lia.
    + unfold PAGE_SIZE in *. lia.
    + unfold PAGE_SIZE in *. lia.
    + unfold PAGE_SIZE in *. lia.
    + destruct n; [left; reflexivity | right; unfold PAGE_SIZE in *; lia].
    + unfold PAGE_SIZE in *. lia.
Qed.

Lemma update_tld_spec (fuel : nat) (comp : PvComponent) (ctx : EVP_MD_CTX) :
  0 <= pv_component_size comp ->
  PAGE_SIZE * spec_page_count (pv_component_size comp) <= UINT64_MAX ->
  0 <= be_value (tweak comp) ->
  be_value (tweak comp) + PAGE_SIZE * spec_page_count (pv_component_size comp) < 2 ^ 120 ->
  (comp_pages comp < fuel)%nat ->
  pv_component_update_tld fuel comp ctx
  = Ok (spec_page_count (pv_component_size comp),
        ctx ++ page_tweaks (comp_pages comp) (be_value (tweak comp))).
Proof.
  intros Sz B T0 T F. unfold pv_component_update_tld, comp_pages in *.
  destruct (spec_page_count_bounds _ Sz) as (P1 & P2 & P3).
  set (p := spec_page_count (pv_component_size comp)) in *.
  set (size := pv_component_size comp) in *.
  destruct fuel as [|fuel]; [lia|]. cbn [update_tld_loop].
  change (0 =? 0) with true. rewrite orb_true_r.
  destruct (tld_assert_small (be_value (tweak comp))) as [-> ->];
    [unfold PAGE_SIZE in *; lia|].
  cbn [bind]. change (wrap64 (0 + PAGE_SIZE)) with PAGE_SIZE.
  rewrite BN_bn2binpad_small by (unfold PAGE_SIZE in *; lia).
  rewrite (update_tld_loop_spec (Z.to_nat (p - 1))).
  - replace (Z.to_nat p) with (S (Z.to_nat (p - 1))) by lia.
    cbn [page_tweaks]. unfold EVP_DigestUpdate. rewrite <- app_assoc.
    f_equal. f_equal. rewrite Z2Nat.id by lia. lia.
  - lia.
  - reflexivity.
  - rewrite Z2Nat.id by lia. unfold PAGE_SIZE in *. lia.
  - unfold PAGE_SIZE. lia.
  - rewrite Z2Nat.id by lia. unfold PAGE_SIZE in *. lia.
  - destruct P3 as [P3 | P3]; [left; rewrite P3; reflexivity|].
    right. rewrite Z2Nat.id by lia. unfold PAGE_SIZE in *. lia.
  - rewrite Z2Nat.id by lia. unfold PAGE_SIZE in *. lia.
Qed.

Lemma pad_to_block (k k' : nat) (f_in : list byte) :
  (Z.to_nat PAGE_SIZE <= length f_in)%nat -> (k' = k + Z.to_nat PAGE_SIZE)%nat ->
  firstn (Z.to_nat PAGE_SIZE) f_in ++ pad_to k (skipn (Z.to_nat PAGE_SIZE) f_in)
  = pad_to k' f_in.
Proof.
  intros L ->. unfold pad_to. rewrite app_assoc, firstn_skipn, length_skipn.
  apply f_equal. apply f_equal. lia.
Qed.

Lemma pad_to_full (n : nat) (bs : list byte) : length bs = n -> pad_to n bs = bs.
Proof.
  intros <-. unfold pad_to. rewrite Nat.sub_diag. apply app_nil_r.
Qed.

(** The page loop over a file that holds as many bytes as recorded
    absorbs the file, zero-padded to full pages. *)
Lemma update_pld_file_loop_spec (n : nat) :
  forall (fuel : nat) (ctx : EVP_MD_CTX) (f_in : list byte) (size total nep : Z),
    (n < fuel)%nat ->
    total + Z.of_nat (length f_in) = size ->
    PAGE_SIZE * Z.of_nat n < Z.of_nat (length f_in) \/ n = 0%nat ->
    Z.of_nat (length f_in) <= PAGE_SIZE * (Z.of_nat n + 1) ->
    update_pld_file_loop fuel ctx f_in size total nep
    = Ok (nep + Z.of_nat n + 1, size,
          ctx ++ pad_to (Z.to_nat (PAGE_SIZE * (Z.of_nat n + 1))) f_in).
Proof.
  induction n as [|n IH]; intros fuel ctx f_in size total nep F T L U;
    (destruct fuel as [|fuel]; [lia|]); cbn [update_pld_file_loop file_read].
  - rewrite firstn_all2 by (unfold PAGE_SIZE in *; lia).
    replace (total + Z.of_nat (length f_in) <? size) with false
      by (symmetry; apply Z.ltb_ge; lia).
    cbn [andb]. unfold EVP_DigestUpdate.
    change (PAGE_SIZE * (Z.of_nat 0 + 1)) with PAGE_SIZE.
    replace (nep + Z.of_nat 0 + 1) with (nep + 1) by lia.
    replace (total + Z.of_nat (length f_in)) with size by lia. reflexivity.
  - destruct L as [L | L]; [|discriminate].
    rewrite length_firstn, Nat.min_l by (unfold PAGE_SIZE in *; lia).
    rewrite Z2Nat.id by (unfold PAGE_SIZE; lia).
    replace (total + PAGE_SIZE <? size) with true
      by (symmetry; apply Z.ltb_lt; unfold PAGE_SIZE in *; lia).
    change (PAGE_SIZE =? 0) with false. cbn [andb negb].
    rewrite IH.
    + unfold EVP_DigestUpdate. rewrite <- app_assoc.
      rewrite (pad_to_full (Z.to_nat PAGE_SIZE))
        by (rewrite length_firstn; unfold PAGE_SIZE in *; lia).
      rewrite (pad_to_block _ (Z.to_nat (PAGE_SIZE * (Z.of_nat (S n) + 1))))
        by (unfold PAGE_SIZE in *; lia).
      replace (nep + 1 + Z.of_nat n + 1) with (nep + Z.of_nat (S n) + 1) by lia.
      reflexivity.
    + lia.
    + rewrite length_skipn. unfold PAGE_SIZE in *. lia.
    + rewrite length_skipn. destruct n; [right; reflexivity | left].
      unfold PAGE_SIZE in *. lia.
    + rewrite length_skipn. unfold PAGE_SIZE in *. lia.
Qed.

Lemma spec_page_count_advance (s : Z) :
  0 <= s -> spec_advance s = PAGE_SIZE * spec_page_count s.
Proof.
  intros S0. unfold spec_advance, spec_page_count, spec_page_align.
  assert (0 <= (s + PAGE_SIZE - 1) / PAGE_SIZE)
    by (apply Z.div_pos; unfold PAGE_SIZE; lia).
  unfold PAGE_SIZE in *. lia.
Qed.

Lemma update_pld_file_spec (fs : filesystem) (comp : PvComponent) (file : CompFile)
    (c : list byte) (ctx : EVP_MD_CTX) :
  data comp = DATA_FILE file -> fs_lookup fs (path file) = Some c ->
  Z.of_nat (length c) = size file ->
  pv_component_update_pld fs comp ctx
  = (ctx ++ measured_pages fs comp, Ok (spec_page_count (size file))).
Proof.
  intros D L Sz.
  unfold pv_component_update_pld, file_open_rb, pv_component_size, measured_pages.
  rewrite D, L.
  assert (S0 : 0 <= size file) by lia.
  destruct (spec_page_count_bounds _ S0) as (P1 & P2 & P3).
  pose proof (spec_page_count_advance _ S0) as Ad.
  set (p := spec_page_count (size file)) in *.
  rewrite (update_pld_file_loop_spec (Z.to_nat (p - 1))).
  - rewrite Z.eqb_refl. cbn [negb].
    rewrite Z2Nat.id by lia. replace (p - 1 + 1) with p by lia.
    rewrite Ad. replace (0 + (p - 1) + 1) with p by lia. reflexivity.
  - assert (p - 1 <= Z.of_nat (length c)); [|lia].
    destruct P3 as [P3 | P3]; unfold PAGE_SIZE in *; lia.
  - lia.
  - destruct P3 as [P3 | P3]; [right; rewrite P3; reflexivity | left].
    rewrite Z2Nat.id by lia. lia.
  - rewrite Z2Nat.id by lia. replace (p - 1 + 1) with p by lia. lia.
Qed.

(** The buffer branch absorbs the buffer, zero-padded to full pages,
    whatever it returns. *)
Lemma update_pld_buffer_ctx (fs : filesystem) (comp : PvComponent) (buf : Buffer)
    (ctx : EVP_MD_CTX) :
  data comp = DATA_BUFFER buf -> buf_size buf <= UINT64_MAX ->
  fst (pv_component_update_pld fs comp ctx) = ctx ++ measured_pages fs comp.
Proof.
  intros D B. unfold pv_component_update_pld, measured_pages. rewrite D.
  set (s := buf_size buf) in *.
  assert (S0 : 0 <= s) by (subst s; unfold buf_size; lia).
  pose proof (Z.div_mod s PAGE_SIZE ltac:(discriminate)) as DM.
  pose proof (Z.mod_pos_bound s PAGE_SIZE ltac:(reflexivity)) as MB.
  assert (Q0 : 0 <= s / PAGE_SIZE) by (apply Z.div_pos; [exact S0 | reflexivity]).
  destruct (Z.leb_spec (s / PAGE_SIZE) INT64_MAX) as [Q | Q];
    [|unfold PAGE_SIZE, INT64_MAX, UINT64_MAX in *; lia].
  cbn [negb]. unfold EVP_DigestUpdate.
  assert (Ln : Z.of_nat (length buf) = s) by reflexivity.
  destruct (Z.eqb_spec (s mod PAGE_SIZE) 0) as [R0 | R0]; cbn [negb fst].
  - rewrite firstn_all2 by lia. f_equal. unfold pad_to.
    rewrite spec_page_align_aligned by exact R0.
    replace (Z.to_nat s - length buf)%nat with 0%nat by lia.
    symmetry. apply app_nil_r.
  - rewrite <- app_assoc. f_equal. unfold pad_to.
    rewrite firstn_all2 with (n := Z.to_nat (s mod PAGE_SIZE))
      by (rewrite length_skipn; lia).
    rewrite app_assoc, firstn_skipn. f_equal. f_equal.
    rewrite length_skipn.
    assert (spec_page_align s = PAGE_SIZE * (s / PAGE_SIZE + 1)).
    { unfold spec_page_align. f_equal. unfold PAGE_SIZE in *.
      replace (s + 4096 - 1) with ((s mod 4096 - 1) + (s / 4096 + 1) * 4096) by lia.
      rewrite Z.div_add by lia. rewrite Z.div_small by lia. lia. }
    unfold PAGE_SIZE in *. lia.
Qed.

Lemma update_pld_spec (fs : filesystem) (comp : PvComponent) (ctx : EVP_MD_CTX) :
  measurable fs comp ->
  pv_component_update_pld fs comp ctx
  = (ctx ++ measured_pages fs comp, Ok (spec_page_count (pv_component_size comp))).
Proof.
  intros M. pose proof (update_pld_measurable fs comp ctx M) as P.
  pose proof (measurable_size fs comp M) as S0.
  destruct M as (A & B & _ & _ & D).
  unfold pv_component_size in *. destruct (data comp) as [buf | file] eqn:Dc.
  - pose proof (update_pld_buffer_ctx fs comp buf ctx Dc) as C.
    destruct (pv_component_update_pld fs comp ctx) as [ctx' rc].
    cbn [fst snd] in *. rewrite P, C; [reflexivity|].
    destruct (spec_page_count_bounds _ S0) as (_ & P2 & _). unfold PAGE_SIZE in *. lia.
  - destruct D as (c & L & Sz). exact (update_pld_file_spec fs comp file c ctx Dc L Sz).
Qed.

Lemma hash_comp_spec (fuel : nat) (fs : filesystem) (c : PvImgComps) (comp : PvComponent) :
  measurable fs comp -> (comp_pages comp < fuel)%nat ->
  nep c + spec_page_count (pv_component_size comp) <= UINT64_MAX ->
  pv_img_comps_hash_comp fuel fs c comp
  = ({| finalized := finalized c; next_src := next_src c;
        nep := nep c + spec_page_count (pv_component_size comp);
        ald := ald c ++ page_addrs (comp_pages comp) (src_addr comp);
        pld := pld c ++ measured_pages fs comp;
        tld := tld c ++ page_tweaks (comp_pages comp) (be_value (tweak comp));
        comps := comps c |}, Ok tt).
Proof.
  intros M F N. pose proof (measurable_size fs comp M) as S0.
  pose proof (update_pld_spec fs comp (pld c) M) as P.
  destruct M as (A & B & T0 & T & _).
  unfold pv_img_comps_hash_comp. rewrite P. cbn [and_then ald tld nep].
  rewrite (update_ald_spec fuel comp (ald c) A S0 B ltac:(lia)).
  cbn [and_then ald tld nep pld finalized next_src comps].
  rewrite (update_tld_spec fuel comp (tld c) S0); try assumption.
  2:{ pose proof (Z.le_trans _ _ _ (Z.le_refl 0) A). lia. }
  cbn [and_then]. rewrite Z.eqb_refl.
  cbn [g_assert and_then ald tld nep pld finalized next_src comps].
  unfold g_uint64_checked_add.
  destruct (Z.leb_spec (nep c + spec_page_count (pv_component_size comp)) UINT64_MAX);
    [|lia].
  cbn [and_then]. reflexivity.
Qed.

Lemma total_pages_nonneg (fs : filesystem) (l : list PvComponent) :
  Forall (measurable fs) l -> 0 <= total_pages l.
Proof.
  induction l as [|a l IHl]; intros M; cbn; [lia|].
  inversion M as [|? ? Ma Ml]; subst. specialize (IHl Ml).
  fold (total_pages l). pose proof (measurable_size fs a Ma) as Sa.
  destruct (spec_page_count_bounds _ Sa). lia.
Qed.

Lemma finalize_loop_spec (fuel : nat) (fs : filesystem) (l : list PvComponent) :
  forall c : PvImgComps,
    Forall (measurable fs) l ->
    Forall (fun comp => (comp_pages comp < fuel)%nat) l ->
    nep c + total_pages l <= UINT64_MAX ->
    finalize_loop fuel fs c l
    = ({| finalized := finalized c; next_src := next_src c;
          nep := nep c + total_pages l;
          ald := ald c ++ flat_map (fun comp => page_addrs (comp_pages comp) (src_addr comp)) l;
          pld := pld c ++ flat_map (measured_pages fs) l;
          tld := tld c ++ flat_map (fun comp => page_tweaks (comp_pages comp)
                                                            (be_value (tweak comp))) l;
          comps := comps c |}, Ok tt).
Proof.
  induction l as [|comp l IH]; intros c M F N.
  - cbn. rewrite !app_nil_r, Z.add_0_r. destruct c; reflexivity.
  - inversion M as [|? ? M1 M2]; inversion F as [|? ? F1 F2]; subst.
    cbn [total_pages fold_right] in N. fold (total_pages l) in N.
    pose proof (total_pages_nonneg fs l M2) as TP.
    cbn [finalize_loop]. rewrite (hash_comp_spec fuel fs c comp M1 F1) by lia.
    cbn [and_then]. rewrite IH; try assumption; cbn [nep]; [|lia].
    cbn [finalized next_src ald pld tld comps flat_map total_pages fold_right].
    fold (total_pages l). rewrite <- !app_assoc. f_equal. f_equal. lia.
Qed.

(** pv_img_comps_finalize on components that can be measured. *)
Lemma pv_img_comps_finalize_spec `{OpenSSL} (fuel : nat) (fs : filesystem) (c : PvImgComps) :
  Forall (measurable fs) (comps c) ->
  Forall (fun comp => (comp_pages comp < fuel)%nat) (comps c) ->
  nep c + total_pages (comps c) <= UINT64_MAX ->
  let pages := pld c ++ flat_map (measured_pages fs) (comps c) in
  let addrs := ald c ++ flat_map (fun comp => page_addrs (comp_pages comp) (src_addr comp))
                                 (comps c) in
  let tweaks := tld c ++ flat_map (fun comp => page_tweaks (comp_pages comp)
                                                           (be_value (tweak comp)))
                                  (comps c) in
  pv_img_comps_finalize fuel fs c
  = ({| finalized := true; next_src := next_src c;
        nep := nep c + total_pages (comps c);
        ald := addrs; pld := pages; tld := tweaks; comps := comps c |},
     Ok (sha512 pages, sha512 addrs, sha512 tweaks, nep c + total_pages (comps c))).
Proof.
  intros M F N. cbv zeta. unfold pv_img_comps_finalize. cbn [comps].
  rewrite finalize_loop_spec by assumption.
  cbn [and_then nep ald pld tld finalized next_src comps].
  unfold digest_ctx_finalize. change (0 <? SHA512_DIGEST_LENGTH) with true.
  rewrite !sha512_length, Z.eqb_refl. cbn [g_assert bind and_then]. reflexivity.
Qed.



(* ------------------------------------------------------------------ *)
(** ** The page digest of a file that is no longer as recorded *)


(** A file shorter than recorded is read to its end. *)
Lemma update_pld_file_loop_short (fuel : nat) :
  forall (ctx : EVP_MD_CTX) (f_in : list byte) (size total nep : Z),
    (length f_in < fuel)%nat ->
    total + Z.of_nat (length f_in) < size ->
    exists nep' ctx',
      update_pld_file_loop fuel ctx f_in size total nep
      = Ok (nep', total + Z.of_nat (length f_in), ctx').
Proof.
  induction fuel as [|fuel IH]; intros ctx f_in size total nep F T; [lia|].
  cbn [update_pld_file_loop file_read]. rewrite length_firstn.
  replace (total + Z.of_nat (Nat.min (Z.to_nat PAGE_SIZE) (length f_in)) <? size) with true
    by (symmetry; apply Z.ltb_lt; lia).
  cbn [andb].
  destruct (Z.eqb_spec (Z.of_nat (Nat.min (Z.to_nat PAGE_SIZE) (length f_in))) 0) as [E | E];
    cbn [negb].
  - assert (f_in = []) as ->.
    { destruct f_in; [reflexivity|]. cbn [length] in E. unfold PAGE_SIZE in E. lia. }
    do 2 eexists. reflexivity.
  - match goal with
    | |- context [update_pld_file_loop fuel ?c ?r size ?t ?k] =>
        destruct (IH c r size t k) as (nep' & ctx' & R)
    end.
    + rewrite length_skipn. lia.
    + rewrite length_skipn. lia.
    + rewrite R. do 2 eexists. f_equal. f_equal. f_equal.
      rewrite length_skipn. lia.
Qed.

Lemma firstn_plus {A : Type} (a b : nat) (l : list A) :
  firstn (a + b) l = firstn a l ++ firstn b (skipn a l).
Proof.
  rewrite firstn_skipn_comm.
  replace (firstn a l) with (firstn a (firstn (a + b) l))
    by (rewrite firstn_firstn; f_equal; lia).
  symmetry. apply firstn_skipn.
Qed.

(** A file of at least [n + 1] pages, of which [n + 1] are recorded. *)
Lemma update_pld_file_loop_long (n : nat) :
  forall (fuel : nat) (ctx : EVP_MD_CTX) (f_in : list byte) (size total nep : Z),
    (n < fuel)%nat ->
    PAGE_SIZE * (Z.of_nat n + 1) <= Z.of_nat (length f_in) ->
    size = total + PAGE_SIZE * (Z.of_nat n + 1) ->
    update_pld_file_loop fuel ctx f_in size total nep
    = Ok (nep + Z.of_nat n + 1, size,
          ctx ++ firstn (Z.to_nat (PAGE_SIZE * (Z.of_nat n + 1))) f_in).
Proof.
  induction n as [|n IH]; intros fuel ctx f_in size total nep F L Sz;
    (destruct fuel as [|fuel]; [lia|]); cbn [update_pld_file_loop file_read];
    rewrite length_firstn, Nat.min_l by (unfold PAGE_SIZE in *; lia);
    rewrite Z2Nat.id by (unfold PAGE_SIZE; lia);
    rewrite (pad_to_full (Z.to_nat PAGE_SIZE))
      by (rewrite length_firstn; unfold PAGE_SIZE in *; lia).
  - replace (total + PAGE_SIZE <? size) with false
      by (symmetry; apply Z.ltb_ge; unfold PAGE_SIZE in *; lia).
    cbn [andb]. unfold EVP_DigestUpdate.
    change (PAGE_SIZE * (Z.of_nat 0 + 1)) with PAGE_SIZE.
    replace (nep + Z.of_nat 0 + 1) with (nep + 1) by lia.
    replace (total + PAGE_SIZE) with size by (unfold PAGE_SIZE in *; lia). reflexivity.
  - replace (total + PAGE_SIZE <? size) with true
      by (symmetry; apply Z.ltb_lt; unfold PAGE_SIZE in *; lia).
    change (PAGE_SIZE =? 0) with false. cbn [andb negb].
    rewrite IH.
    + unfold EVP_DigestUpdate. rewrite <- app_assoc.
      replace (nep + 1 + Z.of_nat n + 1) with (nep + Z.of_nat (S n) + 1) by lia.
      replace (Z.to_nat (PAGE_SIZE * (Z.of_nat (S n) + 1)))
        with (Z.to_nat PAGE_SIZE + Z.to_nat (PAGE_SIZE * (Z.of_nat n + 1)))%nat
        by (unfold PAGE_SIZE; lia).
      rewrite (firstn_plus (Z.to_nat PAGE_SIZE)). reflexivity.
    + lia.
    + rewrite length_skipn. unfold PAGE_SIZE in *. lia.
    + unfold PAGE_SIZE in *. lia.
Qed.

(** X2.  How pv_component_update_pld checks a file against the size
    recorded at preparation.  A file that cannot be opened gives the
    error of file_open and leaves the digest context alone.  A file
    that holds fewer bytes than recorded gives the error "File has
    changed during the preparation" (G_FILE_ERROR, PV_ERROR_INTERNAL).
    But for a recorded size of k > 0 full pages a file that holds at
    least that many bytes is accepted even when it holds more: the
    first k pages are absorbed, k is returned, and the bytes behind
    them are neither measured nor noticed. *)
Theorem X2_update_pld_file_checks (fs : filesystem) (comp : PvComponent) (file : CompFile)
    (ctx : EVP_MD_CTX) :
  data comp = DATA_FILE file ->
  (fs_lookup fs (path file) = None ->
   exists e, pv_component_update_pld fs comp ctx = (ctx, Fail (Some e)) /\
             domain e = G_FILE_ERROR) /\
  (forall c, fs_lookup fs (path file) = Some c ->
     Z.of_nat (length c) < size file ->
     snd (pv_component_update_pld fs comp ctx)
     = Fail (Some (file_changed_error "File '%s' has changed during the preparation"))) /\
  (forall c k, fs_lookup fs (path file) = Some c ->
     0 < k -> size file = PAGE_SIZE * k ->
     size file <= Z.of_nat (length c) ->
     pv_component_update_pld fs comp ctx
     = (ctx ++ firstn (Z.to_nat (size file)) c, Ok k)).
Proof.
  intros D. unfold pv_component_update_pld, file_open_rb, pv_component_size.
  rewrite D. split; [|split].
  - intros ->. eexists. split; reflexivity.
  - intros c -> Sh.
    destruct (update_pld_file_loop_short (length c + 1) ctx c (size file) 0 0)
      as (nep' & ctx' & ->); [lia | lia |].
    destruct (Z.eqb_spec (0 + Z.of_nat (length c)) (size file)); [lia | reflexivity].
  - intros c k -> K Sz Ln.
    rewrite (update_pld_file_loop_long (Z.to_nat (k - 1))).
    + rewrite Z.eqb_refl. cbn [negb]. rewrite Z2Nat.id by lia.
      replace (k - 1 + 1) with k by lia. rewrite <- Sz.
      replace (0 + (k - 1) + 1) with k by lia. reflexivity.
    + unfold PAGE_SIZE in *. lia.
    + rewrite Z2Nat.id by lia. replace (k - 1 + 1) with k by lia. lia.
    + rewrite Z2Nat.id by lia. replace (k - 1 + 1) with k by lia. lia.
Qed.

Lemma X2_update_pld_file_checks_witness :
  snd (pv_component_update_pld changed_fs kernel_file_comp [])
  = Fail (Some (file_changed_error "File '%s' has changed during the preparation")) /\
  pv_component_update_pld grown_fs kernel_file_comp []
  = (repeat 0x5A (Z.to_nat 8192), Ok 2).
Proof.
  destruct (X2_update_pld_file_checks changed_fs kernel_file_comp
              {| path := "/tmp/genprotimg/kernel"; size := 8192 |} [] eq_refl)
    as (_ & Sh & _).
  destruct (X2_update_pld_file_checks grown_fs kernel_file_comp
              {| path := "/tmp/genprotimg/kernel"; size := 8192 |} [] eq_refl)
    as (_ & _ & Lg).
  split.
  - apply (Sh (repeat 0x5A (Z.to_nat 5000)) eq_refl). vm_compute. reflexivity.
  - rewrite (Lg (repeat 0x5A (Z.to_nat 8192) ++ repeat 0x77 100) 2 eq_refl);
      [| reflexivity | reflexivity | vm_compute; congruence].
    vm_compute. reflexivity.
Defined.

(* ------------------------------------------------------------------ *)
(** ** Padding a file to full pages *)

(** Clearing the [n] low bits with a mask of [w] bits. *)
Lemma land_high_mask_w (w a n : Z) :
  0 <= a < 2 ^ w -> 0 <= n -> 0 <= w ->
  Z.land a (Z.lnot (Z.ones n) mod 2 ^ w) = a - a mod 2 ^ n.
Proof.
  intros Ha Hn Hw.
  rewrite <- (Z.land_ones _ w) by lia.
  rewrite (Z.land_comm (Z.lnot _)), Z.land_assoc.
  rewrite (Z.land_ones a w) by lia.
  rewrite Z.mod_small by lia.
  rewrite <- Z.ldiff_land, Z.ldiff_ones_r by lia.
  rewrite Z.shiftr_div_pow2, Z.shiftl_mul_pow2 by lia.
  pose proof (Z.div_mod a (2 ^ n)) as D.
  assert (0 < 2 ^ n) by (apply Z.pow_pos_nonneg; lia).
  lia.
Qed.

(** ALIGN with the 32-bit padding of pad_file_right, on the size of a
    last read. *)
Lemma ALIGN_32_last_read (r : Z) :
  0 <= r < PAGE_SIZE -> ALIGN 32 r PAGE_SIZE = if r =? 0 then 0 else PAGE_SIZE.
Proof.
  intros R. unfold ALIGN.
  rewrite wrap64_small by (unfold PAGE_SIZE, UINT64_MAX in *; lia).
  change (PAGE_SIZE - 1) with (Z.ones 12).
  rewrite land_high_mask_w by (unfold PAGE_SIZE in *; lia).
  change (2 ^ 12) with PAGE_SIZE.
  destruct (Z.eqb_spec r 0) as [-> | N]; [reflexivity|].
  pose proof (Z.div_mod (r + PAGE_SIZE - 1) PAGE_SIZE ltac:(discriminate)) as D.
  pose proof (Z.mod_pos_bound (r + PAGE_SIZE - 1) PAGE_SIZE ltac:(reflexivity)) as B.
  assert ((r + PAGE_SIZE - 1) / PAGE_SIZE = 1).
  { symmetry. apply (Z.div_unique _ _ 1 (r - 1)); unfold PAGE_SIZE in *; lia. }
  unfold PAGE_SIZE in *. lia.
Qed.

(** The loop copies the input in blocks and fills the last block, which
    may hold no input at all, with zeros. *)
Lemma pad_file_right_loop_spec (fuel : nat) :
  forall (f_in f_out : list byte) (size_out : Z),
    (length f_in < fuel)%nat ->
    let len := Z.of_nat (length f_in) in
    pad_file_right_loop fuel f_in PAGE_SIZE f_out size_out
    = Ok (f_out ++ pad_to (Z.to_nat (PAGE_SIZE * (len / PAGE_SIZE + 1))) f_in,
          size_out + PAGE_SIZE * (len / PAGE_SIZE + 1),
          len mod PAGE_SIZE).
Proof.
  induction fuel as [|fuel IH]; intros f_in f_out size_out F; [lia|].
  cbv zeta. rewrite pad_file_right_loop_step. cbv zeta.
  rewrite length_firstn.
  destruct (Nat.le_gt_cases (Z.to_nat PAGE_SIZE) (length f_in)) as [Ge | Lt].
  - rewrite Nat.min_l by exact Ge.
    rewrite Z2Nat.id by (unfold PAGE_SIZE; lia). rewrite Z.eqb_refl.
    rewrite IH by (rewrite length_skipn; unfold PAGE_SIZE in *; lia).
    rewrite length_skipn.
    rewrite (pad_to_full (Z.to_nat PAGE_SIZE))
      by (rewrite length_firstn; lia).
    rewrite length_firstn, Nat.min_l by exact Ge.
    replace (Z.of_nat (length f_in - Z.to_nat PAGE_SIZE))
      with (Z.of_nat (length f_in) + (-1) * PAGE_SIZE) by (unfold PAGE_SIZE in *; lia).
    rewrite Z.div_add, Z_mod_plus_full by (unfold PAGE_SIZE; lia).
    rewrite <- app_assoc.
    rewrite (pad_to_block _ (Z.to_nat (PAGE_SIZE * (Z.of_nat (length f_in) / PAGE_SIZE + 1)))).
    + f_equal. f_equal. f_equal. rewrite Z2Nat.id by (unfold PAGE_SIZE; lia). lia.
    + exact Ge.
    + assert (1 <= Z.of_nat (length f_in) / PAGE_SIZE).
      { apply Z.div_le_lower_bound; unfold PAGE_SIZE in *; lia. }
      unfold PAGE_SIZE in *. lia.
  - rewrite Nat.min_r by lia.
    destruct (Z.eqb_spec (Z.of_nat (length f_in)) PAGE_SIZE) as [E | _];
      [unfold PAGE_SIZE in *; lia|].
    rewrite firstn_all2 by lia.
    rewrite Z.div_small, Z.mod_small by (unfold PAGE_SIZE in *; lia).
    change (PAGE_SIZE * (0 + 1)) with PAGE_SIZE.
    rewrite pad_to_length by lia.
    rewrite Z2Nat.id by (unfold PAGE_SIZE; lia). reflexivity.
Qed.

Lemma pad_file_right_spec (f_in : list byte) :
  let len := Z.of_nat (length f_in) in
  (len mod PAGE_SIZE <> 0 ->
   pad_file_right f_in PAGE_SIZE
   = Ok (f_in ++ zeros (Z.to_nat (spec_page_align len - len)), spec_page_align len) /\
   spec_page_align len - len < PAGE_SIZE) /\
  (len mod PAGE_SIZE = 0 ->
   pad_file_right f_in PAGE_SIZE = Abort /\
   exists last,
     pad_file_right_loop (length f_in + 1) f_in PAGE_SIZE [] 0
     = Ok (f_in ++ zeros (Z.to_nat PAGE_SIZE), len + PAGE_SIZE, last)).
Proof.
  cbv zeta. unfold pad_file_right.
  rewrite pad_file_right_loop_spec by lia. cbv zeta. cbn [bind app].
  set (len := Z.of_nat (length f_in)).
  assert (L0 : 0 <= len) by (subst len; lia).
  pose proof (Z.div_mod len PAGE_SIZE ltac:(discriminate)) as D.
  pose proof (Z.mod_pos_bound len PAGE_SIZE ltac:(reflexivity)) as B.
  assert (Q0 : 0 <= len / PAGE_SIZE) by (apply Z.div_pos; [exact L0 | reflexivity]).
  rewrite ALIGN_32_last_read by exact B.
  split; intros M.
  - destruct (Z.eqb_spec (len mod PAGE_SIZE) 0) as [E | _]; [contradiction|].
    rewrite Z.eqb_refl. cbn [g_assert bind].
    assert (A : spec_page_align len = PAGE_SIZE * (len / PAGE_SIZE + 1)).
    { unfold spec_page_align. f_equal. unfold PAGE_SIZE in *.
      replace (len + 4096 - 1)
        with ((len mod 4096 - 1) + (len / 4096 + 1) * 4096) by lia.
      rewrite Z.div_add by lia. rewrite Z.div_small by lia. lia. }
    rewrite A. split; [|unfold PAGE_SIZE in *; lia].
    unfold pad_to.
    replace (Z.to_nat (PAGE_SIZE * (len / PAGE_SIZE + 1)) - length f_in)%nat
      with (Z.to_nat (PAGE_SIZE * (len / PAGE_SIZE + 1) - len))
      by (subst len; unfold PAGE_SIZE in *; lia).
    reflexivity.
  - rewrite M. change (PAGE_SIZE =? (if 0 =? 0 then 0 else PAGE_SIZE)) with false.
    cbn [g_assert bind]. split; [reflexivity|]. eexists.
    unfold pad_to.
    replace (Z.to_nat (PAGE_SIZE * (len / PAGE_SIZE + 1)) - length f_in)%nat
      with (Z.to_nat PAGE_SIZE) by (subst len; unfold PAGE_SIZE in *; lia).
    replace (0 + PAGE_SIZE * (len / PAGE_SIZE + 1)) with (len + PAGE_SIZE)
      by (unfold PAGE_SIZE in *; lia).
    reflexivity.
Qed.


(** X3.  pad_file_right with a padding of one page, on an input whose
    length is not a page multiple, writes the input followed by zeros up
    to the next page multiple and reports that size.  On an input whose
    length is a page multiple, the empty input included, it writes the
    input and a further page of zeros and then stops on its final
    assertion, because ALIGN of the last read, 0, is not the 4096 bytes
    of the last write. *)
Theorem X3_pad_file_right (f_in : list byte) :
  let len := Z.of_nat (length f_in) in
  (len mod PAGE_SIZE <> 0 ->
   pad_file_right f_in PAGE_SIZE
   = Ok (f_in ++ zeros (Z.to_nat (spec_page_align len - len)), spec_page_align len) /\
   spec_page_align len - len < PAGE_SIZE) /\
  (len mod PAGE_SIZE = 0 ->
   pad_file_right f_in PAGE_SIZE = Abort /\
   exists last,
     pad_file_right_loop (length f_in + 1) f_in PAGE_SIZE [] 0
     = Ok (f_in ++ zeros (Z.to_nat PAGE_SIZE), len + PAGE_SIZE, last)).
Proof. exact (pad_file_right_spec f_in). Qed.

Lemma X3_pad_file_right_witness :
  pad_file_right [1; 2; 3] PAGE_SIZE = Ok ([1; 2; 3] ++ zeros 4093, 4096) /\
  pad_file_right [] PAGE_SIZE = Abort.
Proof.
  split.
  - apply (proj1 (X3_pad_file_right [1; 2; 3])). vm_compute. congruence.
  - apply (proj2 (X3_pad_file_right [])). reflexivity.
Defined.

(* ------------------------------------------------------------------ *)
(** ** The content of an aligned component *)


Lemma buffer_dup_aligned (buf : Buffer) :
  buf_size buf + PAGE_SIZE - 1 <= UINT64_MAX ->
  buffer_dup buf true
  = buf ++ zeros (Z.to_nat (spec_page_align (buf_size buf) - buf_size buf)).
Proof.
  intros B. unfold buffer_dup, pad_to.
  rewrite PAGE_ALIGN_spec by (unfold buf_size in *; lia).
  f_equal. f_equal. unfold buf_size. lia.
Qed.

(** X4.  pv_component_align on a component whose size is not a page
    multiple.  A buffer is replaced by a copy followed by fewer than
    4096 zeros, up to the next page multiple.  A file is copied, with
    the same padding, to the file named after the component in the
    temporary directory; the component then names that file and its
    size, and the file of the user is left as it was.  If the file by
    now holds a page multiple of bytes the call stops on the assertion
    of pad_file_right; if it cannot be opened the call fails with the
    error of file_open.  Type, address, original size and tweak are
    kept. *)
Theorem X4_align_content (comp : PvComponent) (tmp_path : string) (fs : filesystem) :
  pv_component_size comp mod PAGE_SIZE <> 0 ->
  let out := g_build_filename tmp_path (pv_component_name comp) in
  (forall buf, data comp = DATA_BUFFER buf ->
     buf_size buf + PAGE_SIZE - 1 <= UINT64_MAX ->
     pv_component_align comp tmp_path fs
     = Ok (set_data comp
             (DATA_BUFFER (buf ++ zeros (Z.to_nat (spec_page_align (buf_size buf)
                                                   - buf_size buf)))), fs) /\
     spec_page_align (buf_size buf) - buf_size buf < PAGE_SIZE) /\
  (forall file c, data comp = DATA_FILE file ->
     fs_lookup fs (path file) = Some c -> path file <> out ->
     let len := Z.of_nat (length c) in
     (len mod PAGE_SIZE <> 0 ->
      pv_component_align comp tmp_path fs
      = Ok (set_data comp (DATA_FILE {| path := out; size := spec_page_align len |}),
            fs_store fs out (c ++ zeros (Z.to_nat (spec_page_align len - len)))) /\
      fs_lookup (fs_store fs out (c ++ zeros (Z.to_nat (spec_page_align len - len))))
                (path file) = Some c) /\
     (len mod PAGE_SIZE = 0 -> pv_component_align comp tmp_path fs = Abort)) /\
  (forall file, data comp = DATA_FILE file -> fs_lookup fs (path file) = None ->
     exists e, pv_component_align comp tmp_path fs = Fail (Some e) /\
               domain e = G_FILE_ERROR).
Proof.
  intros U. cbv zeta. unfold pv_component_align.
  rewrite IS_PAGE_ALIGNED_spec.
  destruct (Z.eqb_spec (pv_component_size comp mod PAGE_SIZE) 0) as [E | _];
    [contradiction|].
  split; [|split].
  - intros buf D B. rewrite D. rewrite buffer_dup_aligned by exact B.
    split; [reflexivity|].
    pose proof (Z.div_mod (buf_size buf + PAGE_SIZE - 1) PAGE_SIZE ltac:(discriminate)).
    pose proof (Z.mod_pos_bound (buf_size buf + PAGE_SIZE - 1) PAGE_SIZE
                  ltac:(reflexivity)).
    unfold spec_page_align, PAGE_SIZE in *. lia.
  - intros file c D L Ne. rewrite D. unfold open_in_out, file_open_rb. rewrite L.
    cbn [bind]. apply String.eqb_neq in Ne. rewrite Ne.
    destruct (pad_file_right_spec c) as [P1 P2]. split.
    + intros M. destruct (P1 M) as [-> _]. cbn [bind]. split; [reflexivity|].
      unfold fs_store. cbn [fs_lookup]. rewrite Ne. exact L.
    + intros M. destruct (P2 M) as [-> _]. reflexivity.
  - intros file D L. rewrite D. unfold open_in_out, file_open_rb. rewrite L.
    cbn [bind]. eexists. split; reflexivity.
Qed.

Lemma X4_align_content_witness :
  pv_component_align user_kernel_comp "/tmp/genprotimg" user_fs
  = Ok (set_data user_kernel_comp
          (DATA_FILE {| path := "/tmp/genprotimg/kernel"; size := 8192 |}),
        fs_store user_fs "/tmp/genprotimg/kernel"
                 (repeat 0x5A (Z.to_nat 5000) ++ zeros (Z.to_nat 3192))).
Proof.
  assert (U : pv_component_size user_kernel_comp mod PAGE_SIZE <> 0)
    by (vm_compute; congruence).
  destruct (X4_align_content user_kernel_comp "/tmp/genprotimg" user_fs U)
    as (_ & F & _).
  destruct (F {| path := "/boot/vmlinuz"; size := 5000 |} (repeat 0x5A (Z.to_nat 5000))
              eq_refl eq_refl) as [P _].
  - vm_compute. congruence.
  - apply P. vm_compute. congruence.
Defined.

(* ------------------------------------------------------------------ *)
(** ** Page-wise encryption *)


Lemma BN_num_bytes_tweak (x : Z) : 0 < x < 2 ^ 128 -> 1 <= BN_num_bytes x <= 16.
Proof.
  intros [L U]. unfold BN_num_bytes.
  destruct (Z.leb_spec x 0); [lia|].
  assert (Z.log2 x < 128) by (apply Z.log2_lt_pow2; lia).
  pose proof (Z.log2_nonneg x).
  assert (0 <= Z.log2 x / 8) by (apply Z.div_pos; lia).
  assert (Z.log2 x / 8 < 16) by (apply Z.div_lt_upper_bound; lia).
  lia.
Qed.

Lemma BN_num_bytes_large (x : Z) : 2 ^ 128 <= x -> 16 < BN_num_bytes x.
Proof.
  intros L. unfold BN_num_bytes.
  destruct (Z.leb_spec x 0); [lia|].
  assert (128 <= Z.log2 x) by (apply Z.log2_le_pow2; lia).
  assert (16 <= Z.log2 x / 8) by (apply Z.div_le_lower_bound; lia).
  lia.
Qed.

Lemma tweak_asserts (x : Z) :
  0 < x < 2 ^ 128 ->
  g_assert (0 <? BN_num_bytes x) = Ok tt /\
  g_assert (BN_num_bytes x <=? AES_256_XTS_TWEAK_SIZE) = Ok tt.
Proof.
  intros B. pose proof (BN_num_bytes_tweak x B) as N. unfold g_assert, AES_256_XTS_TWEAK_SIZE.
  destruct (Z.ltb_spec 0 (BN_num_bytes x)); [|lia].
  destruct (Z.leb_spec (BN_num_bytes x) 16); [|lia]. split; reflexivity.
Qed.

Lemma xts_block_size `{OpenSSL} (key tw s : list byte) :
  Z.of_nat (length (aes_256_xts key tw
                      (pad_to (Z.to_nat PAGE_SIZE) (firstn (Z.to_nat PAGE_SIZE) s))))
  = PAGE_SIZE.
Proof. rewrite aes_256_xts_length. apply page_block_size. Qed.

(** The loop of __encrypt_decrypt_bio from any of its states. *)
Lemma encrypt_bio_loop_spec `{OpenSSL}
    (Iv : forall iv, EVP_CipherInit_ex None iv = true) (fuel : nat) :
  forall (key b_in b_out tw : list byte) (si so twn : Z),
    (length b_in < fuel)%nat -> 0 <= si -> 0 <= twn ->
    let len := Z.of_nat (length b_in) in
    let n := if (si =? 0) && (len =? 0) then 1 else (len + PAGE_SIZE - 1) / PAGE_SIZE in
    twn + PAGE_SIZE * n < 2 ^ 128 ->
    encrypt_bio_loop fuel key b_in b_out si so tw twn
    = Ok (b_out ++ xts_pages key tw twn (Z.to_nat n) b_in, si + len, so + PAGE_SIZE * n).
Proof.
  induction fuel as [|fuel IH]; intros key b_in b_out tw si so twn F S0 T0; [lia|].
  cbv zeta. intros T. rewrite encrypt_bio_loop_step. cbv zeta.
  rewrite xts_block_size, length_firstn.
  set (len := Z.of_nat (length b_in)) in *.
  assert (L0 : 0 <= len) by (subst len; lia).
  destruct (Z.eqb_spec len 0) as [E0 | N0].
  - (* nothing to read *)
    assert (b_in = []) as -> by (destruct b_in; [reflexivity | subst len; cbn in E0; lia]).
    cbn [length Nat.min]. rewrite Nat.min_0_r. change (Z.of_nat 0) with 0.
    rewrite Z.eqb_refl, Z.add_0_r. cbn [andb].
    destruct (Z.eqb_spec si 0) as [Z0 | Z0]; cbn [negb andb] in T |- *.
    + destruct (tweak_asserts (twn + PAGE_SIZE)) as [-> ->];
        [unfold PAGE_SIZE in *; lia|].
      cbn [bind]. rewrite Iv. cbn [negb]. change (0 =? PAGE_SIZE) with false.
      change (Z.to_nat 1) with 1%nat. cbn [xts_pages]. rewrite app_nil_r.
      subst len. rewrite Z.add_0_r. reflexivity.
    + change ((0 + PAGE_SIZE - 1) / PAGE_SIZE) with 0.
      change (Z.to_nat 0) with 0%nat. cbn [xts_pages]. rewrite app_nil_r.
      subst len. rewrite Z.mul_0_r, !Z.add_0_r. reflexivity.
  - rewrite andb_false_r in T |- *.
    set (n := (len + PAGE_SIZE - 1) / PAGE_SIZE) in *.
    assert (N1 : 1 <= n).
    { subst n. apply Z.div_le_lower_bound; unfold PAGE_SIZE in *; lia. }
    replace (Z.to_nat n) with (S (Z.to_nat (n - 1))) by lia. cbn [xts_pages].
    replace (Z.of_nat (Nat.min (Z.to_nat PAGE_SIZE) (length b_in)) =? 0) with false
      by (symmetry; apply Z.eqb_neq; subst len; unfold PAGE_SIZE in *; lia).
    cbn [andb].
    destruct (tweak_asserts (twn + PAGE_SIZE)) as [-> ->];
      [unfold PAGE_SIZE in *; lia|].
    cbn [bind]. rewrite Iv. cbn [negb].
    destruct (Nat.le_gt_cases (Z.to_nat PAGE_SIZE) (length b_in)) as [Ge | Lt].
    + rewrite Nat.min_l by exact Ge.
      rewrite Z2Nat.id by (unfold PAGE_SIZE; lia). rewrite Z.eqb_refl.
      assert (Nn : (Z.of_nat (length (skipn (Z.to_nat PAGE_SIZE) b_in)) + PAGE_SIZE - 1)
                   / PAGE_SIZE = n - 1).
      { rewrite length_skipn. subst n len.
        replace (Z.of_nat (length b_in - Z.to_nat PAGE_SIZE) + PAGE_SIZE - 1)
          with (Z.of_nat (length b_in) + PAGE_SIZE - 1 + (-1) * PAGE_SIZE)
          by (unfold PAGE_SIZE in *; lia).
        rewrite Z.div_add by (unfold PAGE_SIZE; lia). lia. }
      rewrite IH.
      * replace (si + PAGE_SIZE =? 0) with false
          by (symmetry; apply Z.eqb_neq; unfold PAGE_SIZE; lia).
        cbn [andb]. rewrite Nn, <- app_assoc.
        rewrite length_skipn.
        replace (si + PAGE_SIZE + Z.of_nat (length b_in - Z.to_nat PAGE_SIZE))
          with (si + len) by (subst len; unfold PAGE_SIZE in *; lia).
        replace (so + PAGE_SIZE + PAGE_SIZE * (n - 1)) with (so + PAGE_SIZE * n)
          by (unfold PAGE_SIZE; lia).
        reflexivity.
      * rewrite length_skipn. unfold PAGE_SIZE in *. lia.
      * unfold PAGE_SIZE. lia.
      * unfold PAGE_SIZE. lia.
      * replace (si + PAGE_SIZE =? 0) with false
          by (symmetry; apply Z.eqb_neq; unfold PAGE_SIZE; lia).
        cbn [andb]. rewrite Nn. unfold PAGE_SIZE in *. lia.
    + rewrite Nat.min_r by lia.
      replace (Z.of_nat (length b_in) =? PAGE_SIZE) with false
        by (symmetry; apply Z.eqb_neq; unfold PAGE_SIZE in *; lia).
      assert (n = 1) as ->.
      { subst n. symmetry. apply (Z.div_unique _ _ 1 (len - 1)).
        - left. subst len. unfold PAGE_SIZE in *. lia.
        - unfold PAGE_SIZE. lia. }
      change (Z.to_nat (1 - 1)) with 0%nat. cbn [xts_pages]. rewrite app_nil_r.
      rewrite Z.mul_1_r. reflexivity.
Qed.

Lemma spec_page_count_cases (len : Z) :
  0 <= len ->
  spec_page_count len
  = if (0 =? 0) && (len =? 0) then 1 else (len + PAGE_SIZE - 1) / PAGE_SIZE.
Proof.
  intros L. unfold spec_page_count. cbn [Z.eqb andb].
  destruct (Z.eqb_spec len 0) as [-> | N]; [reflexivity|].
  assert (1 <= (len + PAGE_SIZE - 1) / PAGE_SIZE)
    by (apply Z.div_le_lower_bound; unfold PAGE_SIZE in *; lia).
  lia.
Qed.

Lemma encrypt_bio_spec `{OpenSSL} (parms : cipher_parms) (b_in : list byte) :
  xts_accepts (parms_key parms) (parms_tweak parms) ->
  0 <= be_value (parms_tweak parms) ->
  be_value (parms_tweak parms) + PAGE_SIZE * spec_page_count (buf_size b_in) < 2 ^ 128 ->
  encrypt_bio parms b_in
  = Ok (xts_pages (parms_key parms) (parms_tweak parms) (be_value (parms_tweak parms))
                  (Z.to_nat (spec_page_count (buf_size b_in))) b_in,
        buf_size b_in, PAGE_SIZE * spec_page_count (buf_size b_in)).
Proof.
  intros [Ik Iv] T0 T.
  assert (L0 : 0 <= buf_size b_in) by (unfold buf_size; lia).
  pose proof (spec_page_count_cases _ L0) as C.
  unfold encrypt_bio. rewrite Ik. cbn [negb].
  rewrite (encrypt_bio_loop_spec Iv); [| lia | lia | exact T0 |].
  - cbv zeta. fold (buf_size b_in). rewrite <- C. reflexivity.
  - cbv zeta. fold (buf_size b_in). rewrite <- C. exact T.
Qed.

(** X5.  __encrypt_decrypt_bio, when the cipher takes the key,
    enciphers its input page by page: the input of n bytes is taken as
    max(ceil(n/4096), 1) pages, the last one filled with zeros (an empty
    input is one page of zeros); the first page is enciphered under the
    tweak of the parameters, every further page under the 16 big-endian
    bytes of the value of the previous tweak plus 4096.  It reports n as
    the input size and 4096 per page as the output size.  The run needs
    every incremented tweak to fit 16 bytes: if the value of the tweak
    plus 4096 does not, the call stops on its assertion after the first
    page.  A key that EVP_CipherInit_ex refuses (OpenSSL refuses an XTS
    key with equal halves) makes the call fail with "EVP_CipherInit_ex
    failed" before anything is read.  encrypt_buf returns the same bytes,
    or the same error, for a buffer of 1 to INT_MAX bytes, and aborts on
    an empty buffer. *)
Theorem X5_encrypt_pages `{OpenSSL} (parms : cipher_parms) (b_in : list byte) :
  let len := buf_size b_in in
  let twn := be_value (parms_tweak parms) in
  let out := xts_pages (parms_key parms) (parms_tweak parms) twn
                       (Z.to_nat (spec_page_count len)) b_in in
  0 <= twn ->
  (xts_accepts (parms_key parms) (parms_tweak parms) ->
   twn + PAGE_SIZE * spec_page_count len < 2 ^ 128 ->
   encrypt_bio parms b_in = Ok (out, len, PAGE_SIZE * spec_page_count len) /\
   buf_size out = PAGE_SIZE * spec_page_count len /\
   (0 < len <= 2 ^ 31 - 1 -> encrypt_buf parms b_in = Ok out)) /\
  (EVP_CipherInit_ex (Some (parms_key parms)) (parms_tweak parms) = true ->
   2 ^ 128 <= twn + PAGE_SIZE -> encrypt_bio parms b_in = Abort) /\
  (EVP_CipherInit_ex (Some (parms_key parms)) (parms_tweak parms) = false ->
   encrypt_bio parms b_in = Fail (Some cipher_init_error) /\
   (0 < len <= 2 ^ 31 - 1 -> encrypt_buf parms b_in = Fail (Some cipher_init_error))) /\
  (len = 0 -> encrypt_buf parms b_in = Abort).
Proof.
  cbv zeta. intros T0.
  assert (L0 : 0 <= buf_size b_in) by (unfold buf_size; lia).
  split; [|split; [|split]].
  - intros A T. pose proof (encrypt_bio_spec parms b_in A T0 T) as E.
    split; [exact E|].
    destruct (encrypt_bio_sizes _ _ _ _ _ E) as (_ & _ & Bo).
    split.
    + rewrite Bo. apply spec_page_count_advance. exact L0.
    + intros I. unfold encrypt_buf.
      destruct (Z.leb_spec (buf_size b_in) (2 ^ 31 - 1)); [|lia].
      destruct (Z.eqb_spec (buf_size b_in) 0); [lia|].
      cbn [g_assert bind]. rewrite E. reflexivity.
  - intros Ik T. unfold encrypt_bio. rewrite Ik. cbn [negb].
    replace (length b_in + 1)%nat with (S (length b_in)) by lia.
    rewrite encrypt_bio_loop_step. cbv zeta.
    pose proof (BN_num_bytes_large _ T) as Big.
    assert (A1 : g_assert (0 <? BN_num_bytes (be_value (parms_tweak parms) + PAGE_SIZE))
                 = Ok tt).
    { unfold g_assert.
      destruct (Z.ltb_spec 0 (BN_num_bytes (be_value (parms_tweak parms) + PAGE_SIZE)));
        [reflexivity | lia]. }
    assert (A2 : g_assert (BN_num_bytes (be_value (parms_tweak parms) + PAGE_SIZE)
                           <=? AES_256_XTS_TWEAK_SIZE) = Abort).
    { unfold g_assert, AES_256_XTS_TWEAK_SIZE.
      destruct (Z.leb_spec (BN_num_bytes (be_value (parms_tweak parms) + PAGE_SIZE)) 16);
        [lia | reflexivity]. }
    rewrite A1, A2. cbn [bind].
    destruct (Z.eqb_spec (Z.of_nat (length (firstn (Z.to_nat PAGE_SIZE) b_in))) 0)
      as [-> | _]; reflexivity.
  - intros Ik.
    assert (E : encrypt_bio parms b_in = Fail (Some cipher_init_error)).
    { unfold encrypt_bio. rewrite Ik. reflexivity. }
    split; [exact E|]. intros I. unfold encrypt_buf.
    destruct (Z.leb_spec (buf_size b_in) (2 ^ 31 - 1)); [|lia].
    destruct (Z.eqb_spec (buf_size b_in) 0); [lia|].
    cbn [g_assert bind]. rewrite E. reflexivity.
  - intros Z0. unfold encrypt_buf. rewrite Z0. reflexivity.
Qed.

Lemma X5_encrypt_pages_witness :
  encrypt_buf xts_parms [1; 2; 3]
  = Ok (aes_256_xts toy_xts_key (toy_tweak 2) ([1; 2; 3] ++ zeros 4093)) /\
  encrypt_buf toy_parms [1; 2; 3] = Fail (Some cipher_init_error) /\
  encrypt_buf xts_parms [] = Abort.
Proof.
  assert (T0 : 0 <= be_value (parms_tweak xts_parms)) by (vm_compute; congruence).
  split; [|split].
  - destruct (X5_encrypt_pages xts_parms [1; 2; 3] T0) as [P _].
    destruct P as (_ & _ & Q).
    + split; [reflexivity | intros iv; reflexivity].
    + vm_compute. reflexivity.
    + rewrite Q by (vm_compute; split; congruence). vm_compute. reflexivity.
  - destruct (X5_encrypt_pages toy_parms [1; 2; 3] T0) as (_ & _ & P & _).
    destruct (P eq_refl) as [_ Q]. apply Q. vm_compute. split; congruence.
  - destruct (X5_encrypt_pages xts_parms [] T0) as (_ & _ & _ & P).
    exact (P eq_refl).
Defined.

(* ------------------------------------------------------------------ *)
(** ** The content of an encrypted component *)

Lemma firstn_zeros (n k : nat) : firstn n (zeros k) = zeros (Nat.min n k).
Proof.
  unfold zeros. revert k. induction n as [|n IH]; intros [|k]; cbn; try reflexivity.
  now rewrite IH.
Qed.

Lemma skipn_zeros (n k : nat) : skipn n (zeros k) = zeros (k - n).
Proof.
  unfold zeros. revert k. induction n as [|n IH]; intros [|k]; cbn; try reflexivity.
  apply IH.
Qed.

Lemma page_block_padded (data : list byte) (k : nat) :
  pad_to (Z.to_nat PAGE_SIZE) (firstn (Z.to_nat PAGE_SIZE) (data ++ zeros k))
  = pad_to (Z.to_nat PAGE_SIZE) (firstn (Z.to_nat PAGE_SIZE) data).
Proof.
  unfold pad_to. rewrite firstn_app, firstn_zeros, !length_app, !length_firstn.
  unfold zeros. rewrite repeat_length, <- app_assoc, <- repeat_app.
  f_equal. f_equal. lia.
Qed.

Lemma skipn_padded (data : list byte) (k : nat) :
  skipn (Z.to_nat PAGE_SIZE) (data ++ zeros k)
  = skipn (Z.to_nat PAGE_SIZE) data
    ++ zeros (k - (Z.to_nat PAGE_SIZE - length data)).
Proof.
  rewrite skipn_app. f_equal. apply skipn_zeros.
Qed.

(** Zeros appended within the last page do not change the pages. *)
Lemma xts_pages_padded `{OpenSSL} (n : nat) :
  forall (key tw data : list byte) (twn : Z) (k : nat),
    xts_pages key tw twn n (data ++ zeros k) = xts_pages key tw twn n data.
Proof.
  induction n as [|n IH]; intros key tw data twn k; [reflexivity|].
  cbn [xts_pages]. rewrite page_block_padded, skipn_padded, IH. reflexivity.
Qed.

(** X6.  pv_component_align_and_encrypt, when the cipher takes the key,
    replaces the data of a component by its page-wise encryption under
    the key and the tweak of the parameters: a buffer that is not empty
    by the encrypted buffer, a file by a new file, named after the
    component in the temporary directory, whose size it records; the
    file of the user is left as it was.  A file that holds another
    number of bytes than the original size of the component is refused
    with the error "File has changed during the preparation"
    (G_FILE_ERROR, PV_ERROR_INTERNAL); a file that cannot be read is
    refused with an error of the crypto domain that carries the code
    PV_CRYPTO_ERROR_READ_CERTIFICATE.  On an empty buffer the call
    aborts.  A key that EVP_CipherInit_ex refuses makes the call fail
    with "EVP_CipherInit_ex failed", for a buffer and for a file. *)
Theorem X6_align_and_encrypt_content `{OpenSSL} (comp : PvComponent) (tmp_path : string)
    (parms : cipher_parms) (fs : filesystem) :
  let twn := be_value (parms_tweak parms) in
  let out := g_build_filename tmp_path (pv_component_name comp) in
  let enc := fun c : list byte =>
    xts_pages (parms_key parms) (parms_tweak parms) twn
              (Z.to_nat (spec_page_count (buf_size c))) c in
  0 <= twn ->
  (xts_accepts (parms_key parms) (parms_tweak parms) ->
   (forall buf, data comp = DATA_BUFFER buf ->
      0 < buf_size buf -> buf_size buf + PAGE_SIZE - 1 <= 2 ^ 31 - 1 ->
      twn + PAGE_SIZE * spec_page_count (buf_size buf) < 2 ^ 128 ->
      pv_component_align_and_encrypt comp tmp_path parms fs
      = Ok (set_data comp (DATA_BUFFER (enc buf)), fs)) /\
   (forall file c, data comp = DATA_FILE file ->
      fs_lookup fs (path file) = Some c -> path file <> out ->
      twn + PAGE_SIZE * spec_page_count (buf_size c) < 2 ^ 128 ->
      (orig_size comp = buf_size c ->
       pv_component_align_and_encrypt comp tmp_path parms fs
       = Ok (set_data comp
               (DATA_FILE {| path := out;
                             size := PAGE_SIZE * spec_page_count (buf_size c) |}),
             fs_store fs out (enc c)) /\
       fs_lookup (fs_store fs out (enc c)) (path file) = Some c) /\
      (orig_size comp <> buf_size c ->
       pv_component_align_and_encrypt comp tmp_path parms fs
       = Fail (Some (file_changed_error
                       "File has changed during the preparation '%s'"))))) /\
  (forall file, data comp = DATA_FILE file -> fs_lookup fs (path file) = None ->
     exists msg,
       pv_component_align_and_encrypt comp tmp_path parms fs
       = Fail (Some {| domain := PV_CRYPTO_ERROR;
                       code := PV_CRYPTO_ERROR_READ_CERTIFICATE; message := msg |})) /\
  (data comp = DATA_BUFFER [] ->
   pv_component_align_and_encrypt comp tmp_path parms fs = Abort) /\
  (EVP_CipherInit_ex (Some (parms_key parms)) (parms_tweak parms) = false ->
   (forall buf, data comp = DATA_BUFFER buf ->
      0 < buf_size buf -> buf_size buf + PAGE_SIZE - 1 <= 2 ^ 31 - 1 ->
      pv_component_align_and_encrypt comp tmp_path parms fs
      = Fail (Some cipher_init_error)) /\
   (forall file c, data comp = DATA_FILE file -> fs_lookup fs (path file) = Some c ->
      pv_component_align_and_encrypt comp tmp_path parms fs
      = Fail (Some cipher_init_error))).
Proof.
  cbv zeta. intros T0. split; [|split; [|split]].
  - intros A. unfold pv_component_align_and_encrypt. split.
    + intros buf D Pos B T. rewrite D. unfold pv_component_size. rewrite D.
      assert (L0 : 0 <= buf_size buf) by (unfold buf_size; lia).
      assert (Bd : buffer_dup buf true
                   = buf ++ zeros (Z.to_nat (spec_page_align (buf_size buf) - buf_size buf))).
      { apply buffer_dup_aligned. unfold UINT64_MAX. lia. }
      assert (Sa : buf_size (buffer_dup buf true) = spec_page_align (buf_size buf)).
      { apply buffer_dup_aligned_size. unfold UINT64_MAX. lia. }
      pose proof (spec_page_align_ge (buf_size buf)) as Ge.
      assert (Up : spec_page_align (buf_size buf) <= buf_size buf + PAGE_SIZE - 1).
      { unfold spec_page_align.
        pose proof (Z.div_mod (buf_size buf + PAGE_SIZE - 1) PAGE_SIZE ltac:(discriminate)).
        pose proof (Z.mod_pos_bound (buf_size buf + PAGE_SIZE - 1) PAGE_SIZE
                      ltac:(reflexivity)).
        unfold PAGE_SIZE in *. lia. }
      assert (Pc : spec_page_count (spec_page_align (buf_size buf))
                   = spec_page_count (buf_size buf)).
      { pose proof (spec_advance_page_align _ L0) as Ad.
        rewrite !spec_page_count_advance in Ad by lia.
        unfold PAGE_SIZE in Ad. lia. }
      rewrite IS_PAGE_ALIGNED_spec.
      destruct (Z.eqb_spec (buf_size buf mod PAGE_SIZE) 0) as [Al | Un]; cbn [negb].
      * unfold encrypt_buf.
        destruct (Z.leb_spec (buf_size buf) (2 ^ 31 - 1)); [|unfold PAGE_SIZE in *; lia].
        destruct (Z.eqb_spec (buf_size buf) 0); [lia|].
        cbn [g_assert bind]. rewrite encrypt_bio_spec by assumption. reflexivity.
      * unfold encrypt_buf. rewrite Sa.
        destruct (Z.leb_spec (spec_page_align (buf_size buf)) (2 ^ 31 - 1)); [|lia].
        destruct (Z.eqb_spec (spec_page_align (buf_size buf)) 0); [lia|].
        cbn [g_assert bind].
        rewrite encrypt_bio_spec; [| exact A | exact T0 | rewrite Sa, Pc; exact T].
        cbn [bind]. rewrite Sa, Pc, Bd, xts_pages_padded. reflexivity.
    + intros file c D L Ne T. rewrite D. unfold encrypt_file. rewrite L.
      apply String.eqb_neq in Ne. rewrite Ne.
      rewrite encrypt_bio_spec by assumption. cbn [bind]. split.
      * intros O. rewrite O, Z.eqb_refl. cbn [negb]. split; [reflexivity|].
        unfold fs_store. cbn [fs_lookup]. rewrite Ne. exact L.
      * intros O. destruct (Z.eqb_spec (orig_size comp) (buf_size c)); [contradiction|].
        reflexivity.
  - intros file D L. unfold pv_component_align_and_encrypt.
    rewrite D. unfold encrypt_file. rewrite L. cbn [bind].
    eexists. reflexivity.
  - intros D. unfold pv_component_align_and_encrypt, pv_component_size. rewrite D.
    reflexivity.
  - intros Ik.
    assert (E : forall b, encrypt_bio parms b = Fail (Some cipher_init_error)).
    { intros b. unfold encrypt_bio. rewrite Ik. reflexivity. }
    unfold pv_component_align_and_encrypt. split.
    + intros buf D Pos B. rewrite D. unfold pv_component_size. rewrite D.
      assert (Sa : buf_size (buffer_dup buf true) = spec_page_align (buf_size buf)).
      { apply buffer_dup_aligned_size. unfold UINT64_MAX. lia. }
      pose proof (spec_page_align_ge (buf_size buf)) as Ge.
      assert (Up : spec_page_align (buf_size buf) <= buf_size buf + PAGE_SIZE - 1).
      { unfold spec_page_align.
        pose proof (Z.div_mod (buf_size buf + PAGE_SIZE - 1) PAGE_SIZE ltac:(discriminate)).
        pose proof (Z.mod_pos_bound (buf_size buf + PAGE_SIZE - 1) PAGE_SIZE
                      ltac:(reflexivity)).
        unfold PAGE_SIZE in *. lia. }
      unfold encrypt_buf.
      destruct (negb (IS_PAGE_ALIGNED (buf_size buf))).
      * rewrite Sa.
        destruct (Z.leb_spec (spec_page_align (buf_size buf)) (2 ^ 31 - 1)); [|lia].
        destruct (Z.eqb_spec (spec_page_align (buf_size buf)) 0); [lia|].
        cbn [g_assert bind]. rewrite E. reflexivity.
      * destruct (Z.leb_spec (buf_size buf) (2 ^ 31 - 1)); [|unfold PAGE_SIZE in *; lia].
        destruct (Z.eqb_spec (buf_size buf) 0); [lia|].
        cbn [g_assert bind]. rewrite E. reflexivity.
    + intros file c D L. rewrite D. unfold encrypt_file. rewrite L, E. reflexivity.
Qed.

Lemma X6_align_and_encrypt_content_witness :
  pv_component_align_and_encrypt user_kernel_comp "/tmp/genprotimg" xts_parms user_fs
  = Ok (set_data user_kernel_comp
          (DATA_FILE {| path := "/tmp/genprotimg/kernel"; size := 8192 |}),
        fs_store user_fs "/tmp/genprotimg/kernel"
          (aes_256_xts toy_xts_key (toy_tweak 2) (repeat 0x5A (Z.to_nat 4096))
           ++ aes_256_xts toy_xts_key (be_bytes 16 (be_value (toy_tweak 2) + 4096))
                          (repeat 0x5A (Z.to_nat 904) ++ zeros (Z.to_nat 3192)))) /\
  (exists msg,
     pv_component_align_and_encrypt user_kernel_comp "/tmp/genprotimg" xts_parms changed_fs
     = Fail (Some {| domain := PV_CRYPTO_ERROR; code := PV_CRYPTO_ERROR_READ_CERTIFICATE;
                     message := msg |})) /\
  pv_component_align_and_encrypt user_kernel_comp "/tmp/genprotimg" toy_parms user_fs
  = Fail (Some cipher_init_error).
Proof.
  assert (T0 : 0 <= be_value (parms_tweak xts_parms)) by (vm_compute; congruence).
  split; [|split].
  - destruct (X6_align_and_encrypt_content user_kernel_comp "/tmp/genprotimg" xts_parms
                user_fs T0) as (A & _).
    destruct A as [_ F]; [split; [reflexivity | intros iv; reflexivity]|].
    destruct (F {| path := "/boot/vmlinuz"; size := 5000 |} (repeat 0x5A (Z.to_nat 5000))
                eq_refl eq_refl) as [P _].
    + vm_compute. congruence.
    + vm_compute. reflexivity.
    + destruct P as [-> _]; [vm_compute; reflexivity|]. vm_compute. reflexivity.
  - destruct (X6_align_and_encrypt_content user_kernel_comp "/tmp/genprotimg" xts_parms
                changed_fs T0) as (_ & N & _).
    exact (N {| path := "/boot/vmlinuz"; size := 5000 |} eq_refl eq_refl).
  - destruct (X6_align_and_encrypt_content user_kernel_comp "/tmp/genprotimg" toy_parms
                user_fs T0) as (_ & _ & _ & R).
    destruct (R eq_refl) as [_ F].
    exact (F {| path := "/boot/vmlinuz"; size := 5000 |} (repeat 0x5A (Z.to_nat 5000))
             eq_refl eq_refl).
Defined.

(* ------------------------------------------------------------------ *)
(** ** The layout of the written image *)


Lemma write_at_beyond (c bs : list byte) (p : Z) :
  (length c <= Z.to_nat p)%nat ->
  write_at c p bs = c ++ zeros (Z.to_nat p - length c) ++ bs.
Proof.
  intros L. unfold write_at.
  rewrite firstn_all2 by exact L. rewrite skipn_all2 by lia.
  now rewrite app_nil_r.
Qed.

Lemma bytes_at_app_l (c t : list byte) (p : Z) (len : nat) :
  (Z.to_nat p + len <= length c)%nat -> bytes_at (c ++ t) p len = bytes_at c p len.
Proof.
  intros L. unfold bytes_at. rewrite skipn_app, firstn_app, length_skipn.
  replace (len - (length c - Z.to_nat p))%nat with 0%nat by lia.
  rewrite firstn_O. apply app_nil_r.
Qed.

(** Writing a component behind the end of the file. *)
Lemma pv_component_write_beyond (fs : filesystem) (comp : PvComponent) (f : FILE)
    (bs : list byte) :
  comp_bytes fs comp = Some bs ->
  (forall buf, data comp = DATA_BUFFER buf -> buf <> []) ->
  Z.of_nat (length (content f)) <= src_addr comp <= LONG_MAX ->
  exists f',
    pv_component_write fs comp f = (f', Ok tt) /\
    content f' = (if match bs with [] => true | _ => false end
                     && match data comp with DATA_FILE _ => true | _ => false end
                  then content f
                  else content f ++ zeros (Z.to_nat (src_addr comp) - length (content f))
                       ++ bs).
Proof.
  intros B NE [Lo Hi]. unfold comp_bytes in B. unfold pv_component_write.
  unfold pv_component_get_src_addr.
  destruct (data comp) as [buf | file].
  - apply (f_equal (fun o => match o with Some x => x | None => [] end)) in B.
    cbn in B. subst buf. unfold seek_and_write_buffer, file_seek, buffer_write.
    destruct (Z.gtb_spec (src_addr comp) LONG_MAX); [lia|].
    destruct (Z.eqb_spec (buf_size bs) 0) as [E0 | _].
    { exfalso. apply (NE bs eq_refl). destruct bs; [reflexivity | discriminate]. }
    eexists. split; [reflexivity|]. cbn [file_write content pos].
    rewrite andb_false_r. apply write_at_beyond. lia.
  - destruct (fs_lookup fs (path file)) as [c|] eqn:L; [|discriminate].
    destruct (Z.eqb_spec (size file) (Z.of_nat (length c))) as [Sz | Sz]; [|discriminate].
    assert (c = bs) as -> by congruence.
    destruct (seek_and_write_file_spec fs f file (src_addr comp) bs) as (f' & E & C & N);
      [lia | exact L |].
    exists f'. rewrite E. apply Z.eqb_eq in Sz. rewrite Sz. split; [reflexivity|].
    rewrite andb_true_r. destruct bs as [|b bs'].
    + apply N. reflexivity.
    + rewrite C by discriminate. apply write_at_beyond. lia.
Qed.

Lemma write_comps_loop_placed (fs : filesystem) (l : list PvComponent) :
  forall (f : FILE) (lo : Z),
    placed fs lo l -> Z.of_nat (length (content f)) <= lo ->
    exists f' t,
      write_comps_loop fs f l = (f', Ok tt) /\
      content f' = content f ++ t /\
      Forall (written_at fs (content f')) l.
Proof.
  induction l as [|comp rest IH]; intros f lo P L.
  - exists f, []. cbn. rewrite app_nil_r. repeat split. constructor.
  - destruct P as (bs & B & Ne & [Lo Hi] & P').
    destruct (pv_component_write_beyond fs comp f bs B Ne) as (f1 & W & C1); [lia|].
    assert (L1 : Z.of_nat (length (content f1)) <= src_addr comp + Z.of_nat (length bs)).
    { rewrite C1.
      destruct (match bs with [] => true | _ => false end
                && match data comp with DATA_FILE _ => true | _ => false end).
      - lia.
      - rewrite !length_app. unfold zeros. rewrite repeat_length. lia. }
    assert (R1 : bytes_at (content f1) (src_addr comp) (length bs) = bs /\
                 (bs = [] \/
                  (Z.to_nat (src_addr comp) + length bs <= length (content f1))%nat)).
    { rewrite C1. destruct bs as [|b bs'].
      - split; [reflexivity | left; reflexivity].
      - cbn [andb]. rewrite <- write_at_beyond by lia. split.
        + apply bytes_at_write_at.
        + right. rewrite write_at_beyond by lia.
          rewrite !length_app. unfold zeros. rewrite repeat_length. lia. }
    destruct (IH f1 _ P' L1) as (f' & t & E & C & F).
    exists f'.
    exists ((if match bs with [] => true | _ => false end
                && match data comp with DATA_FILE _ => true | _ => false end
             then [] else zeros (Z.to_nat (src_addr comp) - length (content f)) ++ bs)
            ++ t).
    cbn [write_comps_loop]. rewrite W. cbn [and_then]. split; [exact E|]. split.
    + rewrite C, C1.
      destruct (match bs with [] => true | _ => false end
                && match data comp with DATA_FILE _ => true | _ => false end);
        now rewrite <- ?app_assoc.
    + constructor; [|exact F].
      intros bs' B'. assert (bs' = bs) as -> by congruence.
      destruct R1 as [R [-> | Len]]; [reflexivity|].
      rewrite C, bytes_at_app_l by exact Len. exact R.
Qed.

(** X7.  The image that pv_img_write writes.  When the load PSW has a
    short form, stage3a holds at least one byte and lies behind the
    eight bytes of the PSW, and every component has its bytes (a file
    holds the recorded number of bytes) and lies at or behind the end of
    what precedes it, at an address that fits a long, then pv_img_write
    succeeds, and the file holds the big-endian short PSW at offset 0,
    stage3a at STAGE3A_LOAD_ADDRESS and the bytes of every component at
    the source address of the component. *)
Theorem X7_written_image `{OpenSSL} `{BootLayout} (fs : filesystem) (img : PvImage)
    (short : Z) :
  convert_psw_to_short_psw (stage3a_psw img) = Ok short ->
  stage3a img <> [] ->
  8 <= STAGE3A_LOAD_ADDRESS <= LONG_MAX ->
  placed fs (STAGE3A_LOAD_ADDRESS + buf_size (stage3a img)) (comps (img_comps img)) ->
  exists f,
    pv_img_write fs img = (f, Ok tt) /\
    bytes_at (content f) 0 8 = be_bytes 8 short /\
    bytes_at (content f) STAGE3A_LOAD_ADDRESS (length (stage3a img)) = stage3a img /\
    Forall (written_at fs (content f)) (comps (img_comps img)).
Proof.
  intros Psw Ne [Lo Hi] P. unfold pv_img_write, write_short_psw.
  rewrite Psw. cbn [and_then]. unfold seek_and_write_buffer, file_seek, buffer_write.
  destruct (Z.gtb_spec STAGE3A_LOAD_ADDRESS LONG_MAX); [lia|].
  destruct (Z.eqb_spec (buf_size (stage3a img)) 0) as [E0 | _].
  { exfalso. apply Ne. destruct (stage3a img); [reflexivity | discriminate]. }
  cbn [and_then]. unfold pv_img_comps_get_comps.
  set (f1 := file_write file_open_wb (be_bytes 8 short)).
  assert (C1 : content f1 = be_bytes 8 short).
  { subst f1. cbn [file_write file_open_wb content pos].
    rewrite write_at_beyond by (cbn; lia). reflexivity. }
  assert (L1 : length (content f1) = 8%nat) by (rewrite C1; apply be_bytes_length).
  set (f2 := file_write {| pos := STAGE3A_LOAD_ADDRESS; content := content f1 |}
                        (stage3a img)).
  assert (W2 : content f2 = write_at (content f1) STAGE3A_LOAD_ADDRESS (stage3a img))
    by reflexivity.
  assert (L2 : length (content f2)
               = (Z.to_nat STAGE3A_LOAD_ADDRESS + length (stage3a img))%nat).
  { rewrite W2, write_at_beyond by lia.
    rewrite !length_app. unfold zeros. rewrite repeat_length. lia. }
  destruct (write_comps_loop_placed fs (comps (img_comps img)) f2 _ P)
    as (f' & t & E & C & F).
  { unfold buf_size. lia. }
  exists f'. split; [exact E|]. split; [|split; [|exact F]].
  - rewrite C, bytes_at_app_l by lia.
    rewrite W2, write_at_beyond by lia.
    rewrite bytes_at_app_l by (cbn; lia).
    unfold bytes_at. cbn [Z.to_nat skipn]. rewrite C1.
    apply firstn_all2. rewrite be_bytes_length. lia.
  - rewrite C, bytes_at_app_l by lia. rewrite W2. apply bytes_at_write_at.
Qed.

Lemma X7_written_image_witness :
  let f := fst (pv_img_write toy_fs written_img) in
  snd (pv_img_write toy_fs written_img) = Ok tt /\
  bytes_at (content f) 0 8 = [0; 0x08; 0; 0x01; 0x80; 0; 0x20; 0] /\
  bytes_at (content f) 0x2000 (Z.to_nat 4096) = repeat 0x07 (Z.to_nat 4096) /\
  bytes_at (content f) 0x3000 (Z.to_nat 8192) = repeat 0x5A (Z.to_nat 8192) /\
  bytes_at (content f) 0x5000 (Z.to_nat 4096) = repeat 0xAA (Z.to_nat 4096).
Proof.
  assert (P : placed toy_fs (STAGE3A_LOAD_ADDRESS + buf_size (stage3a written_img))
                     (comps (img_comps written_img))).
  { exists (repeat 0x5A (Z.to_nat 8192)). split; [reflexivity|].
    split; [discriminate|]. split; [vm_compute; split; congruence|].
    exists (repeat 0xAA (Z.to_nat 4096)). split; [reflexivity|].
    split; [intros buf E; injection E as <-; discriminate|].
    split; [vm_compute; split; congruence|]. exact I. }
  destruct (X7_written_image toy_fs written_img 0x0008000180002000 eq_refl
              ltac:(discriminate) ltac:(vm_compute; split; congruence) P)
    as (f & E & Psw & S3a & F).
  rewrite E. cbn [fst snd]. split; [reflexivity|]. split; [exact Psw|].
  split; [exact S3a|].
  inversion F as [|? ? Wk F']; subst. inversion F' as [|? ? Wb _]; subst.
  split.
  - exact (Wk (repeat 0x5A (Z.to_nat 8192)) eq_refl).
  - exact (Wb (repeat 0xAA (Z.to_nat 4096)) eq_refl).
Defined.

(* ------------------------------------------------------------------ *)
(** ** Addresses that do not fit a long *)


(** X8.  A component whose source address is above LONG_MAX cannot be
    written: pv_component_write returns the error "Offset is too large"
    (PV_ERROR, code 0) and leaves the output as it is, whether the
    component is a buffer or a file, the file not being opened at all;
    pv_img_write, having written what precedes the component, returns
    that error. *)
Theorem X8_offset_too_large `{OpenSSL} `{BootLayout} (fs : filesystem) (img : PvImage)
    (before after : list PvComponent) (comp : PvComponent) (f1 : FILE) :
  LONG_MAX < src_addr comp ->
  pv_component_write fs comp f1 = (f1, Fail (Some offset_too_large)) /\
  (comps (img_comps img) = before ++ comp :: after ->
   pv_img_write_comps fs img before = (f1, Ok tt) ->
   pv_img_write fs img = (f1, Fail (Some offset_too_large))).
Proof.
  intros Far.
  assert (W : pv_component_write fs comp f1 = (f1, Fail (Some offset_too_large))).
  { unfold pv_component_write, seek_and_write_buffer, seek_and_write_file, file_seek,
      buffer_write, pv_component_get_src_addr.
    destruct (Z.gtb_spec (src_addr comp) LONG_MAX); [|lia].
    destruct (data comp); reflexivity. }
  split; [exact W|].
  intros C B. exact (pv_img_write_fail fs img before after comp f1 f1 _ C B W).
Qed.

Lemma X8_offset_too_large_witness :
  snd (pv_img_write toy_fs far_img) = Fail (Some offset_too_large) /\
  bytes_at (content (fst (pv_img_write toy_fs far_img))) 0x3000 (Z.to_nat 8192)
  = repeat 0x5A (Z.to_nat 8192).
Proof.
  assert (K : is_ok (snd (pv_img_write_comps toy_fs far_img [placed_kernel_comp])) = true)
    by (vm_compute; reflexivity).
  destruct (pv_img_write_comps toy_fs far_img [placed_kernel_comp]) as [f1 rc] eqn:E.
  destruct rc as [[] | | |]; try discriminate K.
  destruct (X8_offset_too_large toy_fs far_img [placed_kernel_comp] []
              (set_src_addr stage3b_comp (2 ^ 63)) f1) as [_ P].
  { vm_compute. reflexivity. }
  rewrite (P eq_refl E). cbn [fst snd]. split; [reflexivity|].
  assert (F : f1 = fst (pv_img_write_comps toy_fs far_img [placed_kernel_comp]))
    by (rewrite E; reflexivity).
  rewrite F. vm_compute. reflexivity.
Defined.

(* ------------------------------------------------------------------ *)
(** ** The fields of the secure header *)

Lemma pv_hdr_alloc_record `{OpenSSL} `{PvOptItem} (img : PvImage) (hdr : PvHdr) :
  pv_hdr_alloc img = Ok hdr ->
  exists h sea,
    pv_img_get_pv_hdr_size img = Ok h /\ pv_img_get_enc_size img = Ok sea /\
    head_iv (head hdr) = zeros 12 /\ head_res1 (head hdr) = zeros 4 /\
    slots hdr = repeat pv_hdr_key_slot_zero (length (key_slots img)) /\
    enc_res2 (encrypted hdr) = zeros 4 /\
    hdr_optional_items hdr = zeros (Z.to_nat (sea - sizeof_pv_hdr_encrypted)) /\
    hdr_tag hdr = zeros 16.
Proof.
  unfold pv_hdr_alloc. intros E.
  destruct (pv_img_get_pv_hdr_size img) as [h | | |]; try discriminate.
  cbn [bind] in E.
  destruct (pv_img_get_enc_size img) as [sea | | |]; try discriminate.
  cbn [bind] in E.
  destruct (g_assert (Z.of_nat (length (key_slots img)) >? 0)); try discriminate.
  cbn [bind] in E.
  destruct (g_assert (sea mod AES_BLOCK_SIZE =? 0)); try discriminate.
  cbn [bind] in E.
  destruct (g_assert (sea >=? sizeof_pv_hdr_encrypted)); try discriminate.
  cbn [bind] in E. apply Ok_inj in E. subst hdr.
  exists h, sea. cbn. rewrite Nat2Z.id. repeat split; reflexivity.
Qed.

Lemma g_assert_ok (b : bool) (u : unit) : g_assert b = Ok u -> b = true.
Proof. destruct b; [reflexivity | discriminate]. Qed.

(** The header that pv_hdr_new returns, field by field. *)
Lemma pv_hdr_new_fields `{OpenSSL} `{PvOptItem} (fuel : nat) (fs : filesystem)
    (img img' : PvImage) (hdr : PvHdr) :
  pv_hdr_new fuel fs img = Ok (hdr, img') ->
  exists pk pld ald tld nep s3b,
    evp_pkey_to_ecdh_pub_key (cust_pub_priv_key img) = Ok pk /\
    pv_img_calc_pld_ald_tld_nep fuel fs img = (img', Ok (pld, ald, tld, nep)) /\
    pv_img_get_stage3b_comp img' = Ok s3b /\
    optional_items img = [] /\
    (buf_size (gcm_iv img) = 12 /\ buf_size pk = sizeof_ecdh_pub_key /\
     buf_size pld = 64 /\ buf_size ald = 64 /\ buf_size tld = 64 /\
     buf_size (cust_comm_key img) = 32 /\ buf_size (xts_key img) = 64) /\
    head hdr
    = {| head_magic := be_bytes 8 PV_MAGIC_VALUE;
         head_version := be_bytes 4 PV_VERSION_1;
         head_phs := be_bytes 4 (sizeof_pv_hdr_head
                                 + sizeof_pv_hdr_key_slot
                                   * Z.of_nat (length (key_slots img))
                                 + sizeof_pv_hdr_encrypted + sizeof_tag);
         head_iv := gcm_iv img;
         head_res1 := zeros 4;
         head_nks := be_bytes 8 (Z.of_nat (length (key_slots img)));
         head_sea := be_bytes 8 sizeof_pv_hdr_encrypted;
         head_nep := be_bytes 8 nep;
         head_pcf := be_bytes 8 (pcf img);
         head_cust_pub_key := pk;
         head_pld := pld; head_ald := ald; head_tld := tld |} /\
    slots hdr = key_slots img /\
    encrypted hdr
    = {| enc_cust_comm_key := cust_comm_key img;
         img_enc_key_1 := firstn 32 (xts_key img);
         img_enc_key_2 := skipn 32 (xts_key img);
         enc_psw_mask := be_bytes 8 DEFAULT_INITIAL_PSW_MASK;
         enc_psw_addr := be_bytes 8 (pv_component_get_src_addr s3b);
         enc_scf := be_bytes 8 (scf img);
         enc_noi := be_bytes 4 0;
         enc_res2 := zeros 4 |} /\
    hdr_optional_items hdr = [] /\ hdr_tag hdr = zeros 16 /\
    cust_root_key img' = cust_root_key img /\ gcm_iv img' = gcm_iv img.
Proof.
  unfold pv_hdr_new. intros E.
  destruct (pv_hdr_alloc img) as [hdr0 | | |] eqn:Ea; try discriminate.
  cbn [bind] in E.
  destruct (pv_hdr_alloc_ok _ _ Ea) as (P & N & S & _).
  destruct (pv_hdr_alloc_record _ _ Ea) as (h & sea & _ & Es & Iv & R1 & Sl & R2 & Oi & Tg).
  unfold pv_hdr_init, pv_hdr_aad_init, pv_hdr_enc_init in E.
  destruct (evp_pkey_to_ecdh_pub_key (cust_pub_priv_key img)) as [pk | e | |] eqn:Epk;
    try discriminate.
  cbn [bind] in E.
  destruct (g_assert (AES_256_GCM_IV_SIZE =? buf_size (gcm_iv img))) as [[] | | |] eqn:A1;
    try discriminate.
  cbn [bind] in E.
  destruct (pv_img_calc_pld_ald_tld_nep fuel fs img)
    as [img1 [[[[dp da] dt] dn] | e1 | |]] eqn:Ec; try discriminate.
  cbn [bind] in E.
  destruct (g_assert (SHA512_DIGEST_LENGTH =? buf_size dp)) as [[] | | |] eqn:A2;
    try discriminate.
  destruct (g_assert (SHA512_DIGEST_LENGTH =? buf_size da)) as [[] | | |] eqn:A3;
    try discriminate.
  destruct (g_assert (SHA512_DIGEST_LENGTH =? buf_size dt)) as [[] | | |] eqn:A4;
    try discriminate.
  cbn [bind] in E.
  destruct (g_assert (32 =? buf_size (cust_comm_key img1))) as [[] | | |] eqn:A5;
    try discriminate.
  destruct (g_assert (buf_size (xts_key img1) =? AES_256_XTS_KEY_SIZE)) as [[] | | |] eqn:A6;
    try discriminate.
  cbn [bind] in E.
  destruct (pv_img_get_stage3b_comp img1) as [s3b | | |] eqn:E3; try discriminate.
  cbn [bind] in E.
  destruct (optional_items img1) as [|item items] eqn:Eo; try discriminate.
  cbn [bind] in E. apply Ok_inj in E.
  assert (hdr_eq : fst (hdr, img') = hdr) by reflexivity.
  assert (img_eq : img1 = img') by congruence. subst img1.
  assert (Im : img' = set_img_comps img (img_comps img')).
  { unfold pv_img_calc_pld_ald_tld_nep in Ec.
    destruct (pv_img_comps_finalize fuel fs (img_comps img)) as [c' rc].
    injection Ec as <- _. reflexivity. }
  assert (Oimg : optional_items img = []) by (rewrite Im in Eo; exact Eo).
  assert (Cimg : cust_comm_key img' = cust_comm_key img) by (rewrite Im; reflexivity).
  assert (Ximg : xts_key img' = xts_key img) by (rewrite Im; reflexivity).
  assert (Simg : scf img' = scf img) by (rewrite Im; reflexivity).
  apply g_assert_ok, Z.eqb_eq in A1, A2, A3, A4, A5, A6.
  rewrite Cimg in A5. rewrite Ximg in A6.
  pose proof (@ecdh_pub_key_length _ _ _ _ Epk) as Lpk.
  destruct (pv_img_get_enc_size_ok _ _ Es) as [Esea _].
  rewrite Oimg in Esea, S. cbn [opt_items_total fold_right] in Esea, S.
  rewrite Z.add_0_r in Esea, S.
  exists pk, dp, da, dt, dn, s3b.
  split; [reflexivity|]. split; [reflexivity|]. split; [exact E3|]. split; [exact Oimg|].
  split.
  { unfold AES_256_GCM_IV_SIZE, SHA512_DIGEST_LENGTH, AES_256_XTS_KEY_SIZE in *.
    repeat split; congruence. }
  match type of E with (?x, _) = _ => assert (Hh : x = hdr) by congruence end.
  rewrite <- Hh. cbn [head slots encrypted hdr_optional_items hdr_tag].
  rewrite P, N, S, R1, Sl, R2, Oi, Tg, Esea, Oimg, Cimg, Ximg, Simg.
  rewrite !memcpy_all by (unfold AES_256_GCM_IV_SIZE, SHA512_DIGEST_LENGTH in *; congruence).
  rewrite skipn_all2 by (rewrite repeat_length; lia). rewrite app_nil_r.
  split; [reflexivity|]. split; [reflexivity|]. split.
  { unfold memcpy. change (Z.to_nat 32) with 32%nat.
    rewrite (firstn_all2 (skipn 32 (xts_key img)))
      by (rewrite length_skipn; unfold buf_size, AES_256_XTS_KEY_SIZE in A6; lia).
    reflexivity. }
  rewrite Z.sub_diag. split; [reflexivity|]. split; [reflexivity|].
  split; rewrite Im; reflexivity.
Qed.

(** X9.  What pv_hdr_new puts into the header besides the sizes, the
    magic, the version and the PSW: the GCM IV of the image, the page
    count and the three digests that pv_img_comps_finalize returns (the
    call finalizes the collection of the image), the plaintext control
    flags, the customer public key in the format of the header, the key
    slots of the image in their order, the customer communication key,
    the XTS key as its two halves in order, the secret control flags,
    zero optional items and zeroed reserved fields.  It succeeds only
    for an image without optional items. *)
Theorem X9_header_fields `{OpenSSL} `{PvOptItem} (fuel : nat) (fs : filesystem)
    (img img' : PvImage) (hdr : PvHdr) :
  pv_hdr_new fuel fs img = Ok (hdr, img') ->
  exists pk pld ald tld nep,
    evp_pkey_to_ecdh_pub_key (cust_pub_priv_key img) = Ok pk /\
    pv_img_comps_finalize fuel fs (img_comps img)
    = (img_comps img', Ok (pld, ald, tld, nep)) /\
    finalized (img_comps img') = true /\
    optional_items img = [] /\
    head_iv (head hdr) = gcm_iv img /\
    head_res1 (head hdr) = zeros 4 /\
    head_nep (head hdr) = be_bytes 8 nep /\
    head_pcf (head hdr) = be_bytes 8 (pcf img) /\
    head_cust_pub_key (head hdr) = pk /\
    head_pld (head hdr) = pld /\ head_ald (head hdr) = ald /\
    head_tld (head hdr) = tld /\
    slots hdr = key_slots img /\
    enc_cust_comm_key (encrypted hdr) = cust_comm_key img /\
    img_enc_key_1 (encrypted hdr) ++ img_enc_key_2 (encrypted hdr) = xts_key img /\
    buf_size (img_enc_key_1 (encrypted hdr)) = 32 /\
    enc_scf (encrypted hdr) = be_bytes 8 (scf img) /\
    enc_noi (encrypted hdr) = be_bytes 4 0 /\
    enc_res2 (encrypted hdr) = zeros 4.
Proof.
  intros E.
  destruct (pv_hdr_new_fields _ _ _ _ _ E)
    as (pk & pld & ald & tld & nep & s3b & Epk & Ec & _ & Oi & Sz & Hd & Sl & En & _).
  destruct Sz as (_ & _ & _ & _ & _ & _ & Lx).
  exists pk, pld, ald, tld, nep. rewrite Hd, En.
  cbn [head_iv head_res1 head_nep head_pcf head_cust_pub_key head_pld head_ald head_tld
       enc_cust_comm_key img_enc_key_1 img_enc_key_2 enc_scf enc_noi enc_res2].
  unfold pv_img_calc_pld_ald_tld_nep in Ec.
  pose proof (finalize_frame fuel fs (img_comps img)) as Fr. cbv zeta in Fr.
  destruct (pv_img_comps_finalize fuel fs (img_comps img)) as [c' rc].
  cbn [fst] in Fr. destruct Fr as [Fin _].
  assert (img' = set_img_comps img c' /\ rc = Ok (pld, ald, tld, nep)) as [-> ->]
    by (split; congruence).
  cbn [set_img_comps img_comps].
  repeat split; try assumption; try reflexivity.
  - apply firstn_skipn.
  - unfold buf_size in *. rewrite length_firstn. unfold AES_256_XTS_KEY_SIZE in *. lia.
Qed.

Lemma X9_header_fields_witness :
  match pv_hdr_new 4 [] three_slots_img with
  | Ok (hdr, img') =>
      slots hdr = key_slots three_slots_img /\
      head_iv (head hdr) = zeros 12 /\
      finalized (img_comps img') = true
  | _ => False
  end.
Proof.
  assert (K : is_ok (pv_hdr_new 4 [] three_slots_img) = true) by (vm_compute; reflexivity).
  destruct (pv_hdr_new 4 [] three_slots_img) as [[hdr img'] | | |] eqn:E;
    try discriminate K.
  destruct (X9_header_fields 4 [] three_slots_img img' hdr E)
    as (pk & pld & ald & tld & nep & _ & _ & Fin & _ & Iv & _ & _ & _ & _ & _ & _ & _
        & Sl & _).
  split; [exact Sl|]. split; [|exact Fin].
  rewrite Iv. vm_compute. reflexivity.
Defined.

(* ------------------------------------------------------------------ *)
(** ** The bytes of the serialized header *)


Lemma slots_bytes_length (l : list PvHdrKeySlot) :
  Forall slot_sized l ->
  buf_size (concat (map slot_bytes l)) = sizeof_pv_hdr_key_slot * Z.of_nat (length l).
Proof.
  unfold buf_size. induction 1 as [|s l (D & W & T) F IH]; [reflexivity|].
  cbn [map concat length]. rewrite length_app, Nat2Z.inj_add, IH.
  unfold slot_bytes, buf_size in *. rewrite !length_app.
  change sizeof_pv_hdr_key_slot with 80. lia.
Qed.

Lemma memcpy_at_zeros_tail (pre src : list byte) (n : nat) (off : Z) :
  Z.to_nat off = length pre ->
  memcpy_at (pre ++ zeros n) off src = pre ++ src ++ zeros (n - length src).
Proof.
  intros O. unfold memcpy_at. rewrite O.
  rewrite firstn_app, firstn_all, Nat.sub_diag, firstn_O, app_nil_r.
  rewrite skipn_app, skipn_all2 by lia.
  replace (length pre + length src - length pre)%nat with (length src) by lia.
  rewrite skipn_zeros. reflexivity.
Qed.

Lemma memcpy_at_mid (pre old post src : list byte) (off : Z) :
  Z.to_nat off = length pre -> length src = length old ->
  memcpy_at (pre ++ old ++ post) off src = pre ++ src ++ post.
Proof.
  intros O L. unfold memcpy_at. rewrite O.
  rewrite firstn_app, firstn_all, Nat.sub_diag, firstn_O, app_nil_r.
  rewrite skipn_app, skipn_all2 by lia.
  replace (length pre + length src - length pre)%nat with (length old) by lia.
  rewrite skipn_app, skipn_all, Nat.sub_diag. reflexivity.
Qed.

Lemma head_bytes_length `{PvCryptoDefs} (h : pv_hdr_head) (nep pcf phs nks sea : Z)
    (iv pk pld ald tld : list byte) :
  buf_size iv = 12 -> buf_size pk = sizeof_ecdh_pub_key ->
  buf_size pld = 64 -> buf_size ald = 64 -> buf_size tld = 64 ->
  h = {| head_magic := be_bytes 8 PV_MAGIC_VALUE; head_version := be_bytes 4 PV_VERSION_1;
         head_phs := be_bytes 4 phs; head_iv := iv; head_res1 := zeros 4;
         head_nks := be_bytes 8 nks; head_sea := be_bytes 8 sea;
         head_nep := be_bytes 8 nep; head_pcf := be_bytes 8 pcf;
         head_cust_pub_key := pk; head_pld := pld; head_ald := ald; head_tld := tld |} ->
  buf_size (head_bytes h) = sizeof_pv_hdr_head.
Proof.
  intros Li Lk Lp La Lt ->. unfold head_bytes, buf_size in *.
  cbn [head_magic head_version head_phs head_iv head_res1 head_nks head_sea head_nep
       head_pcf head_cust_pub_key head_pld head_ald head_tld].
  rewrite !length_app, !be_bytes_length. unfold zeros. rewrite repeat_length.
  unfold sizeof_pv_hdr_head, AES_256_GCM_IV_SIZE, SHA512_DIGEST_LENGTH. lia.
Qed.

Lemma encrypted_bytes_length (e : pv_hdr_encrypted) (ck xk : list byte) (m a s n : Z) :
  buf_size ck = 32 -> buf_size xk = 64 ->
  e = {| enc_cust_comm_key := ck; img_enc_key_1 := firstn 32 xk;
         img_enc_key_2 := skipn 32 xk; enc_psw_mask := be_bytes 8 m;
         enc_psw_addr := be_bytes 8 a; enc_scf := be_bytes 8 s;
         enc_noi := be_bytes 4 n; enc_res2 := zeros 4 |} ->
  buf_size (encrypted_bytes e) = sizeof_pv_hdr_encrypted.
Proof.
  intros Lc Lx ->. unfold encrypted_bytes, buf_size in *.
  cbn [enc_cust_comm_key img_enc_key_1 img_enc_key_2 enc_psw_mask enc_psw_addr enc_scf
       enc_noi enc_res2].
  rewrite !length_app, !be_bytes_length, length_firstn, length_skipn.
  unfold zeros. rewrite repeat_length. change sizeof_pv_hdr_encrypted with 128. lia.
Qed.

(** X10.  The bytes of the serialized header.  For a header that
    pv_hdr_new has built from key slots of the size of the struct, whose
    head and slots together fill a multiple of 16 bytes and at most
    INT_MAX bytes, pv_hdr_serialize returns: the head, then the key
    slots in order, both in clear; then, when sealing is asked for, the
    AES-256-GCM ciphertext of the 128 bytes of the encrypted part under
    the customer root key and the IV of the image with head and slots
    as additional authenticated data, and the 16-byte tag; without
    sealing, the encrypted part in clear and a tag of zeros.
    pv_img_create_pv_hdr returns the sealed form. *)
Theorem X10_serialized_header `{OpenSSL} `{PvOptItem} (fuel : nat) (fs : filesystem)
    (img img' : PvImage) (hdr : PvHdr) :
  pv_hdr_new fuel fs img = Ok (hdr, img') ->
  Forall slot_sized (key_slots img) ->
  let nks := Z.of_nat (length (key_slots img)) in
  let aad := head_bytes (head hdr) ++ concat (map slot_bytes (key_slots img)) in
  let plain := encrypted_bytes (encrypted hdr) in
  let sealed := aes_256_gcm (memcpy AES_256_GCM_KEY_SIZE (cust_root_key img))
                            (memcpy AES_256_GCM_IV_SIZE (gcm_iv img)) aad plain in
  (sizeof_pv_hdr_head + sizeof_pv_hdr_key_slot * nks) mod 16 = 0 ->
  sizeof_pv_hdr_head + sizeof_pv_hdr_key_slot * nks <= 2 ^ 31 - 1 ->
  buf_size aad = sizeof_pv_hdr_head + sizeof_pv_hdr_key_slot * nks /\
  buf_size plain = sizeof_pv_hdr_encrypted /\
  pv_hdr_serialize hdr img' false = Ok (aad ++ plain ++ zeros 16) /\
  pv_hdr_serialize hdr img' true = Ok (aad ++ fst sealed ++ snd sealed) /\
  pv_img_create_pv_hdr fuel fs img = Ok (aad ++ fst sealed ++ snd sealed, img') /\
  buf_size (aad ++ fst sealed ++ snd sealed) = pv_hdr_size hdr.
Proof.
  intros E Sl. cbv zeta. intros M16 Imax.
  destruct (pv_hdr_new_fields _ _ _ _ _ E)
    as (pk & pld & ald & tld & nep & s3b & Epk & Ec & E3 & Oi & Sz & Hd & Sls & En
        & Ho & Tg & Rk & Iv).
  destruct Sz as (Li & Lk & Lp & La & Lt & Lc & Lx).
  pose proof (head_bytes_length _ _ _ _ _ _ _ _ _ _ _ Li Lk Lp La Lt Hd) as LH.
  pose proof (encrypted_bytes_length _ _ _ _ _ _ _ Lc Lx En) as LE.
  pose proof (slots_bytes_length _ Sl) as LS.
  pose proof sizeof_pv_hdr_head_ge as Hge.
  set (n := Z.of_nat (length (key_slots img))) in *.
  set (Hb := head_bytes (head hdr)) in *.
  set (Sb := concat (map slot_bytes (key_slots img))) in *.
  set (Eb := encrypted_bytes (encrypted hdr)) in *.
  assert (Ks : sizeof_pv_hdr_key_slot = 80) by reflexivity.
  assert (Es : sizeof_pv_hdr_encrypted = 128) by reflexivity.
  assert (Ts : sizeof_tag = 16) by reflexivity.
  assert (N0 : 0 <= n) by (subst n; lia).
  assert (Laad : buf_size (Hb ++ Sb) = sizeof_pv_hdr_head + sizeof_pv_hdr_key_slot * n).
  { unfold buf_size in *. rewrite length_app. lia. }
  (* the sizes the header reports *)
  assert (Bphs : sizeof_pv_hdr_head + sizeof_pv_hdr_key_slot * n
                 + sizeof_pv_hdr_encrypted + sizeof_tag <= UINT32_MAX).
  { unfold UINT32_MAX. lia. }
  assert (Vp : pv_hdr_size hdr = sizeof_pv_hdr_head + sizeof_pv_hdr_key_slot * n
                                 + sizeof_pv_hdr_encrypted + sizeof_tag).
  { unfold pv_hdr_size. rewrite Hd. cbn [head_phs]. apply be_value_be_bytes_small.
    change (256 ^ Z.of_nat 4) with 4294967296. unfold UINT32_MAX in Bphs. lia. }
  assert (Vn : pv_hdr_get_nks hdr = n).
  { unfold pv_hdr_get_nks. rewrite Hd. cbn [head_nks]. apply be_value_be_bytes_small.
    change (256 ^ Z.of_nat 8) with 18446744073709551616. lia. }
  assert (Vs : pv_hdr_enc_size hdr = sizeof_pv_hdr_encrypted).
  { unfold pv_hdr_enc_size. rewrite Hd. cbn [head_sea]. reflexivity. }
  (* pv_hdr_write *)
  assert (W : pv_hdr_write hdr (zeros (Z.to_nat (pv_hdr_size hdr)))
              = Ok ((Hb ++ Sb) ++ Eb ++ zeros 16)).
  { unfold pv_hdr_write, pv_hdr_enc_size_casted. rewrite Vs, Vn, Sls.
    unfold buf_size at 1. unfold zeros at 1. rewrite repeat_length.
    rewrite Z2Nat.id by lia. rewrite Z.eqb_refl.
    change (sizeof_pv_hdr_encrypted >? UINT32_MAX) with false.
    cbn [g_assert bind].
    change (g_assert (sizeof_pv_hdr_encrypted >=? sizeof_pv_hdr_encrypted)) with (Ok tt).
    cbn [bind]. rewrite Z.sub_diag. change (0 >? 0) with false. cbv zeta.
    fold Hb Sb Eb.
    rewrite (memcpy_all sizeof_pv_hdr_head Hb) by exact LH.
    rewrite (memcpy_all _ Sb) by exact LS.
    rewrite (memcpy_all _ Eb) by exact LE.
    f_equal.
    pose proof (memcpy_at_zeros_tail [] Hb (Z.to_nat (pv_hdr_size hdr)) 0 eq_refl) as M0.
    cbn [app] in M0. rewrite M0.
    rewrite (memcpy_at_zeros_tail Hb Sb) by (unfold buf_size in *; lia).
    rewrite app_assoc.
    rewrite (memcpy_at_zeros_tail (Hb ++ Sb) Eb) by (unfold buf_size in *; lia).
    f_equal. f_equal. f_equal. rewrite Vp. unfold buf_size in *. lia. }
  split; [exact Laad|]. split; [exact LE|].
  assert (Ser0 : pv_hdr_serialize hdr img' false = Ok ((Hb ++ Sb) ++ Eb ++ zeros 16)).
  { unfold pv_hdr_serialize. rewrite W. cbn [bind]. unfold pv_hdr_tag_size.
    rewrite Tg. rewrite memcpy_all by reflexivity. f_equal.
    rewrite app_assoc.
    rewrite (memcpy_at_mid ((Hb ++ Sb) ++ Eb) (zeros 16) [] (zeros 16));
      [now rewrite !app_nil_r, <- !app_assoc | | reflexivity].
    rewrite Vp, length_app. unfold buf_size in *. lia. }
  split; [exact Ser0|].
  set (key := memcpy AES_256_GCM_KEY_SIZE (cust_root_key img)).
  set (iv := memcpy AES_256_GCM_IV_SIZE (gcm_iv img)).
  pose proof (aes_256_gcm_length key iv (Hb ++ Sb) Eb) as Lct.
  pose proof (aes_256_gcm_tag_length key iv (Hb ++ Sb) Eb) as Ltg.
  destruct (aes_256_gcm key iv (Hb ++ Sb) Eb) as [ct t] eqn:G. cbn [fst snd] in *.
  assert (Ser1 : pv_hdr_serialize hdr img' true = Ok ((Hb ++ Sb) ++ ct ++ t)).
  { unfold pv_hdr_serialize. rewrite W. cbn [bind].
    unfold pv_hdr_encrypt, pv_hdr_aad_size, pv_hdr_enc_size_casted, pv_hdr_tag_size.
    rewrite Vs, Vp. change (sizeof_pv_hdr_encrypted >? UINT32_MAX) with false.
    cbn [bind].
    replace (wrap32 (sizeof_pv_hdr_head + sizeof_pv_hdr_key_slot * n
                     + sizeof_pv_hdr_encrypted + sizeof_tag
                     - sizeof_pv_hdr_encrypted - sizeof_tag))
      with (buf_size (Hb ++ Sb))
      by (rewrite Laad; unfold wrap32; rewrite Z.mod_small; lia).
    assert (Bt : buf_size ((Hb ++ Sb) ++ Eb ++ zeros 16)
                 = buf_size (Hb ++ Sb) + sizeof_pv_hdr_encrypted + sizeof_tag).
    { unfold buf_size in *. rewrite !length_app. unfold zeros. rewrite repeat_length. lia. }
    rewrite Bt, Z.eqb_refl. cbn [g_assert bind].
    assert (Pa : bytes_at ((Hb ++ Sb) ++ Eb ++ zeros 16) 0 (Z.to_nat (buf_size (Hb ++ Sb)))
                 = Hb ++ Sb).
    { unfold bytes_at, buf_size. cbn [Z.to_nat skipn]. rewrite Nat2Z.id.
      rewrite firstn_app, firstn_all, Nat.sub_diag, firstn_O. apply app_nil_r. }
    assert (Pe : bytes_at ((Hb ++ Sb) ++ Eb ++ zeros 16) (buf_size (Hb ++ Sb))
                          (Z.to_nat sizeof_pv_hdr_encrypted) = Eb).
    { unfold bytes_at, buf_size at 1. rewrite Nat2Z.id.
      rewrite skipn_app, skipn_all, Nat.sub_diag. cbn [skipn app].
      replace (Z.to_nat sizeof_pv_hdr_encrypted) with (length Eb)
        by (unfold buf_size in LE; lia).
      rewrite firstn_app, firstn_all, Nat.sub_diag, firstn_O. apply app_nil_r. }
    rewrite Pa, Pe, Rk, Iv. fold key iv. unfold gcm_encrypt_decrypt.
    cbn [gcm_key gcm_parms_iv]. rewrite G.
    assert (A1 : g_assert (sizeof_tag <=? 2 ^ 31 - 1) = Ok tt) by reflexivity.
    assert (A2 : g_assert (buf_size Eb <=? 2 ^ 31 - 1) = Ok tt) by (rewrite LE; reflexivity).
    assert (A3 : g_assert (buf_size (Hb ++ Sb) <=? 2 ^ 31 - 1) = Ok tt).
    { unfold g_assert. destruct (Z.leb_spec (buf_size (Hb ++ Sb)) (2 ^ 31 - 1));
        [reflexivity | lia]. }
    assert (A4 : g_assert (buf_size Eb mod AES_BLOCK_SIZE =? 0) = Ok tt)
      by (rewrite LE; reflexivity).
    assert (A5 : g_assert (buf_size (Hb ++ Sb) mod AES_BLOCK_SIZE =? 0) = Ok tt).
    { rewrite Laad. unfold AES_BLOCK_SIZE. rewrite M16. reflexivity. }
    assert (A6 : g_assert (sizeof_pv_hdr_encrypted =? buf_size Eb) = Ok tt)
      by (rewrite LE; reflexivity).
    rewrite A1, A2, A3, A4, A5, A6. cbn [bind].
    assert (Lc8 : buf_size ct = sizeof_pv_hdr_encrypted)
      by (unfold buf_size in *; lia).
    rewrite Lc8, Z.eqb_refl. cbn [g_assert bind].
    rewrite memcpy_all by exact Ltg. f_equal.
    rewrite (memcpy_at_mid (Hb ++ Sb) Eb (zeros 16) ct)
      by (unfold buf_size in *; lia).
    rewrite app_assoc.
    rewrite (memcpy_at_mid ((Hb ++ Sb) ++ ct) (zeros 16) [] t).
    - now rewrite !app_nil_r, <- !app_assoc.
    - rewrite length_app. unfold buf_size in *. lia.
    - unfold buf_size, AES_256_GCM_TAG_SIZE in Ltg. unfold zeros.
      rewrite repeat_length. lia. }
  split; [exact Ser1|]. split.
  - unfold pv_img_create_pv_hdr. rewrite E. cbn [bind]. rewrite Ser1. reflexivity.
  - rewrite Vp. unfold buf_size in *. rewrite !length_app.
    unfold AES_256_GCM_TAG_SIZE in Ltg. lia.
Qed.

Lemma X10_serialized_header_witness :
  match pv_hdr_new 4 [] three_slots_img with
  | Ok (hdr, img') =>
      pv_hdr_serialize hdr img' false
      = Ok ((head_bytes (head hdr) ++ concat (map slot_bytes (key_slots three_slots_img)))
            ++ encrypted_bytes (encrypted hdr) ++ zeros 16) /\
      buf_size (head_bytes (head hdr)
                ++ concat (map slot_bytes (key_slots three_slots_img))) = 416 + 3 * 80
  | _ => False
  end.
Proof.
  assert (K : is_ok (pv_hdr_new 4 [] three_slots_img) = true) by (vm_compute; reflexivity).
  assert (F : Forall slot_sized (key_slots three_slots_img)).
  { vm_compute. repeat constructor. }
  destruct (pv_hdr_new 4 [] three_slots_img) as [[hdr img'] | | |] eqn:E;
    try discriminate K.
  destruct (X10_serialized_header 4 [] three_slots_img img' hdr E F)
    as (La & _ & S0 & _).
  - vm_compute. reflexivity.
  - vm_compute. congruence.
  - split; [exact S0|]. rewrite La. vm_compute. reflexivity.
Defined.

(* ------------------------------------------------------------------ *)
(** ** The control flag that switches encryption off *)


(** X11.  The header and the components agree on encryption.  For a
    header that pv_hdr_new has built for an image, pv_hdr_uses_encryption
    is true exactly when the plaintext control flags of the image do not
    hold PV_CONTROL_FLAG_NO_DECRYPTION; and pv_img_prepare_component on
    that image encrypts a component under the XTS key of the image and
    the tweak of the component exactly when it is true, and only aligns
    the component when it is false. *)
Theorem X11_uses_encryption `{OpenSSL} `{PvOptItem} (fuel : nat) (fs : filesystem)
    (img img' : PvImage) (hdr : PvHdr) :
  pv_hdr_new fuel fs img = Ok (hdr, img') ->
  0 <= pcf img <= UINT64_MAX ->
  pv_hdr_uses_encryption hdr
  = (Z.land (pcf img) PV_CONTROL_FLAG_NO_DECRYPTION =? 0) /\
  forall (comp : PvComponent) (fs1 : filesystem),
    pv_img_prepare_component img comp fs1
    = if pv_hdr_uses_encryption hdr
      then pv_component_align_and_encrypt comp (tmp_dir img)
             {| parms_key := xts_key img;
                parms_tweak := firstn 16 (tweak comp);
                parms_padding := PAGE_SIZE |} fs1
      else pv_component_align comp (tmp_dir img) fs1.
Proof.
  intros E P.
  destruct (pv_hdr_new_fields _ _ _ _ _ E)
    as (pk & pld & ald & tld & nep & s3b & _ & _ & _ & _ & Sz & Hd & _).
  destruct Sz as (_ & _ & _ & _ & _ & _ & Lx).
  assert (U : pv_hdr_uses_encryption hdr
              = (Z.land (pcf img) PV_CONTROL_FLAG_NO_DECRYPTION =? 0)).
  { unfold pv_hdr_uses_encryption. rewrite Hd. cbn [head_pcf].
    rewrite be_value_be_bytes_small
      by (change (256 ^ Z.of_nat 8) with 18446744073709551616;
          unfold UINT64_MAX in P; lia).
    apply negb_involutive. }
  split; [exact U|].
  intros comp fs1. rewrite U. unfold pv_img_prepare_component.
  destruct (Z.land (pcf img) PV_CONTROL_FLAG_NO_DECRYPTION =? 0); cbn [negb].
  - rewrite Lx. cbn [g_assert bind Z.eqb Pos.eqb AES_256_XTS_KEY_SIZE].
    change (AES_256_XTS_KEY_SIZE =? AES_256_XTS_KEY_SIZE) with true.
    cbn [g_assert bind]. rewrite (memcpy_all AES_256_XTS_KEY_SIZE) by exact Lx.
    reflexivity.
  - reflexivity.
Qed.

Lemma X11_uses_encryption_witness :
  match pv_hdr_new 4 [] three_slots_img with
  | Ok (hdr, _) => pv_hdr_uses_encryption hdr = true
  | _ => False
  end.
Proof.
  assert (K : is_ok (pv_hdr_new 4 [] three_slots_img) = true) by (vm_compute; reflexivity).
  destruct (pv_hdr_new 4 [] three_slots_img) as [[hdr img'] | | |] eqn:E;
    try discriminate K.
  destruct (X11_uses_encryption 4 [] three_slots_img img' hdr E) as [U _].
  - vm_compute. split; congruence.
  - rewrite U. vm_compute. reflexivity.
Defined.

(* ------------------------------------------------------------------ *)
(** ** Creating components *)


Lemma be_value_nonneg (bs : list byte) : bytes_ok bs -> 0 <= be_value bs.
Proof.
  unfold be_value.
  assert (G : forall acc, 0 <= acc -> bytes_ok bs ->
                          0 <= fold_left (fun a b => a * 256 + b) bs acc).
  { induction bs as [|b bs IH]; intros acc A B; cbn [fold_left]; [exact A|].
    inversion B as [|? ? Hb Hr]; subst. apply IH; [lia | exact Hr]. }
  intros B. apply G; [lia | exact B].
Qed.

Lemma be_value_bound (bs : list byte) :
  bytes_ok bs -> be_value bs < 256 ^ Z.of_nat (length bs).
Proof.
  induction bs as [|b bs IH] using rev_ind; intros B.
  - cbn. lia.
  - unfold bytes_ok in B. apply Forall_app in B. destruct B as [B1 B2].
    inversion B2 as [|? ? Hb _]; subst.
    rewrite be_value_app, length_app. cbn [length].
    rewrite Nat2Z.inj_add, Z.pow_add_r by lia.
    change (be_value [b]) with (0 * 256 + b). specialize (IH B1).
    change (256 ^ Z.of_nat 1) with 256. lia.
Qed.

Lemma bytes_ok_be_bytes (n : nat) (v : Z) : bytes_ok (be_bytes n v).
Proof.
  induction n as [|n IH]; cbn [be_bytes]; constructor; [|exact IH].
  apply Z.mod_pos_bound. lia.
Qed.

Lemma bytes_ok_zeros (n : nat) : bytes_ok (zeros n).
Proof. unfold bytes_ok, zeros. apply Forall_forall. intros x I.
  apply repeat_spec in I. subst. lia. Qed.

Lemma be_value_zeros (n : nat) : be_value (zeros n) = 0.
Proof.
  induction n as [|n IH]; [reflexivity|].
  change (zeros (S n)) with ([0] ++ zeros n). rewrite be_value_app, IH. reflexivity.
Qed.

(** The value of a new tweak: a multiple of 2^64 that leaves the page
    index free, and fits 15 bytes when the index fits one. *)
Lemma new_tweak_value (v : Z) (pool : list byte) :
  0 <= v < 256 -> (6 <= length pool)%nat -> bytes_ok (firstn 6 pool) ->
  length (new_tweak v pool) = 16%nat /\
  0 <= be_value (new_tweak v pool) /\
  be_value (new_tweak v pool) + 2 ^ 64 <= 2 ^ 120.
Proof.
  intros V L B. unfold new_tweak.
  assert (L6 : length (firstn 6 pool) = 6%nat) by (rewrite length_firstn; lia).
  split.
  - rewrite !length_app, be_bytes_length, L6. reflexivity.
  - rewrite app_assoc, be_value_app, be_value_zeros.
    unfold zeros. rewrite repeat_length. rewrite be_value_app, L6.
    rewrite be_value_be_bytes_small by (change (256 ^ Z.of_nat 2) with 65536; lia).
    pose proof (be_value_nonneg _ B) as R0. pose proof (be_value_bound _ B) as R1.
    rewrite L6 in R1.
    change (256 ^ Z.of_nat 6) with 281474976710656 in *.
    change (256 ^ Z.of_nat 8) with 18446744073709551616.
    change (2 ^ 64) with 18446744073709551616.
    change (2 ^ 120) with 1329227995784915872903807060280344576.
    lia.
Qed.

Lemma generate_tweak_ok (v : Z) (pool : list byte) :
  (6 <= length pool)%nat ->
  generate_tweak (zeros 16) v pool = (Ok (new_tweak v pool), skipn 6 pool).
Proof.
  intros L. unfold generate_tweak, RAND_bytes.
  destruct (Z.ltb_spec (Z.of_nat (length pool)) 6); [lia|].
  change (Z.to_nat 6) with 6%nat. f_equal. f_equal.
  unfold new_tweak, memcpy_at. rewrite be_bytes_length, length_firstn.
  replace (Nat.min 6 (length pool)) with 6%nat by lia.
  change (Z.to_nat 0) with 0%nat. change (Z.to_nat 2) with 2%nat.
  cbn [be_bytes]. cbv [zeros repeat]. cbn [firstn skipn app Nat.add length].
  reflexivity.
Qed.

Lemma pv_component_new_ok `{PvCompDefs} (type : PvComponentType) (size : Z)
    (data : CompData) (pool : list byte) :
  0 <= PvComponentType_value type < UINT16_MAX -> (6 <= length pool)%nat ->
  pv_component_new type size data pool
  = (Ok {| type := type; data := data; src_addr := 0; orig_size := size;
           tweak := new_tweak (PvComponentType_value type) pool |}, skipn 6 pool).
Proof.
  intros V L. unfold pv_component_new.
  destruct (Z.geb_spec (PvComponentType_value type) 0); [|lia].
  destruct (Z.ltb_spec (PvComponentType_value type) UINT16_MAX); [|lia].
  cbn [andb negb]. rewrite Z.mod_small by (unfold UINT16_MAX in V; lia).
  rewrite generate_tweak_ok by exact L. reflexivity.
Qed.

(** X12.  Creating a component.  pv_component_new_file takes the size
    of the file from the file system, pv_component_new_buf copies the
    buffer; either way the new component has that size as its size and
    as its original size, the address 0, and a tweak made of the number
    of its type (2 bytes, big endian), six bytes from the PRNG and a
    page index of 0.  A file that cannot be inspected is refused before
    any random byte is drawn; a PRNG that has fewer than six bytes to
    give makes the call fail with PV_CRYPTO_ERROR_RANDOMIZATION; a type
    whose number is not below UINT16_MAX stops the call on its
    assertion. *)
Theorem X12_new_component `{PvCompDefs} (type : PvComponentType) (path : string)
    (buf : Buffer) (fs : filesystem) (pool : list byte) :
  let v := PvComponentType_value type in
  (0 <= v < UINT16_MAX -> (6 <= length pool)%nat ->
   (forall c, fs_lookup fs path = Some c ->
      pv_component_new_file type path fs pool
      = (Ok {| type := type;
               data := DATA_FILE {| path := path; size := Z.of_nat (length c) |};
               src_addr := 0; orig_size := Z.of_nat (length c);
               tweak := new_tweak v pool |}, skipn 6 pool)) /\
   pv_component_new_buf type buf pool
   = (Ok {| type := type; data := DATA_BUFFER buf; src_addr := 0;
            orig_size := buf_size buf; tweak := new_tweak v pool |}, skipn 6 pool)) /\
  (fs_lookup fs path = None ->
   exists e, pv_component_new_file type path fs pool = (Fail (Some e), pool) /\
             domain e = G_FILE_ERROR) /\
  (0 <= v < UINT16_MAX -> (length pool < 6)%nat ->
   exists msg, pv_component_new_buf type buf pool
               = (Fail (Some (randomization_error msg)), pool)) /\
  (UINT16_MAX <= v -> pv_component_new_buf type buf pool = (Abort, pool)).
Proof.
  cbv zeta. split; [|split; [|split]].
  - intros V L. split.
    + intros c F. unfold pv_component_new_file, file_size. rewrite F.
      apply pv_component_new_ok; assumption.
    + unfold pv_component_new_buf. rewrite pv_component_new_ok by assumption.
      unfold buffer_dup, pad_to, buf_size. rewrite Nat2Z.id, Nat.sub_diag.
      cbn [zeros repeat]. rewrite app_nil_r. reflexivity.
  - intros F. unfold pv_component_new_file, file_size. rewrite F.
    eexists. split; reflexivity.
  - intros V L. unfold pv_component_new_buf, pv_component_new.
    destruct (Z.geb_spec (PvComponentType_value type) 0); [|lia].
    destruct (Z.ltb_spec (PvComponentType_value type) UINT16_MAX); [|lia].
    cbn [andb negb]. unfold generate_tweak, RAND_bytes.
    destruct (Z.ltb_spec (Z.of_nat (length pool)) 6); [|lia].
    eexists. reflexivity.
  - intros V. unfold pv_component_new_buf, pv_component_new.
    destruct (Z.ltb_spec (PvComponentType_value type) UINT16_MAX); [lia|].
    rewrite andb_false_r. reflexivity.
Qed.

Lemma X12_new_component_witness :
  pv_component_new_file PV_COMP_TYPE_CMDLINE "/boot/vmlinuz" user_fs toy_pool
  = (Ok {| type := PV_COMP_TYPE_CMDLINE;
           data := DATA_FILE {| path := "/boot/vmlinuz"; size := 5000 |};
           src_addr := 0; orig_size := 5000;
           tweak := [0; 2; 0x11; 0x22; 0x33; 0x44; 0x55; 0x66; 0; 0; 0; 0; 0; 0; 0; 0] |},
     [0x77; 0x88]).
Proof.
  destruct (X12_new_component PV_COMP_TYPE_CMDLINE "/boot/vmlinuz" [] user_fs toy_pool)
    as [P _].
  destruct P as [F _].
  - vm_compute. split; congruence.
  - vm_compute. lia.
  - rewrite (F (repeat 0x5A (Z.to_nat 5000)) eq_refl). vm_compute. reflexivity.
Defined.

Lemma add_component_forward (c : PvImgComps) (comp : PvComponent) (pages : Z) :
  finalized c = false -> 0 <= next_src c -> next_src c mod PAGE_SIZE = 0 ->
  1 <= pages -> pv_component_size comp = PAGE_SIZE * pages ->
  next_src c + PAGE_SIZE * pages <= UINT64_MAX ->
  pv_img_comps_add_component c comp
  = ({| finalized := false; next_src := next_src c + PAGE_SIZE * pages;
        nep := nep c; ald := ald c; pld := pld c; tld := tld c;
        comps := comps c ++ [set_src_addr comp (next_src c)] |},
     set_src_addr comp (next_src c), Ok tt).
Proof.
  intros F N0 NA P Sz B. unfold pv_img_comps_add_component.
  rewrite IS_PAGE_ALIGNED_spec, NA, F. cbn [Z.eqb negb]. rewrite Sz.
  destruct (Z.eqb_spec (PAGE_SIZE * pages) 0) as [E | _]; [unfold PAGE_SIZE in E; lia|].
  assert (M : (PAGE_SIZE * pages) mod PAGE_SIZE = 0).
  { rewrite Z.mul_comm. apply Z.mod_mul. discriminate. }
  rewrite PAGE_ALIGN_spec, spec_page_align_aligned;
    [| exact M | unfold PAGE_SIZE; lia | unfold UINT64_MAX, PAGE_SIZE in *; lia].
  rewrite wrap64_small by (unfold UINT64_MAX, PAGE_SIZE in *; lia).
  cbn [next_src]. rewrite IS_PAGE_ALIGNED_spec.
  replace ((next_src c + PAGE_SIZE * pages) mod PAGE_SIZE) with 0.
  - reflexivity.
  - rewrite Z.mul_comm, Z_mod_plus_full. symmetry. exact NA.
Qed.

(** The component that pv_component_new_file makes of an argument. *)
Lemma prepare_new_component `{OpenSSL} (img : PvImage) (type : PvComponentType)
    (p : string) (fs : filesystem) (c tw : list byte) :
  let comp := {| type := type; data := DATA_FILE {| path := p; size := buf_size c |};
                 src_addr := 0; orig_size := buf_size c; tweak := tw |} in
  let out := g_build_filename (tmp_dir img) (pv_component_name comp) in
  let pages := spec_page_count (buf_size c) in
  fs_lookup fs p = Some c -> p <> out ->
  xts_accepts (xts_key img) tw ->
  length tw = 16%nat -> 0 <= be_value tw ->
  be_value tw + PAGE_SIZE * pages < 2 ^ 128 ->
  Z.land (pcf img) PV_CONTROL_FLAG_NO_DECRYPTION = 0 ->
  buf_size (xts_key img) = AES_256_XTS_KEY_SIZE ->
  pv_img_prepare_component img comp fs
  = Ok ({| type := type; data := DATA_FILE {| path := out; size := PAGE_SIZE * pages |};
           src_addr := 0; orig_size := buf_size c; tweak := tw |},
        fs_store fs out (xts_pages (xts_key img) tw (be_value tw) (Z.to_nat pages) c)).
Proof.
  cbv zeta. intros L Ne A TL T0 T1 Flag K.
  unfold pv_img_prepare_component. rewrite Flag, K. cbn [Z.eqb negb].
  rewrite Z.eqb_refl. cbn [g_assert bind tweak].
  unfold memcpy. rewrite !firstn_all2;
    [| rewrite TL; reflexivity | unfold buf_size in K; rewrite <- K; lia].
  unfold pv_component_align_and_encrypt. cbn [data path orig_size].
  unfold encrypt_file. rewrite L.
  apply String.eqb_neq in Ne. rewrite Ne.
  rewrite encrypt_bio_spec; cbn [parms_tweak parms_key]; [| exact A | exact T0 | exact T1].
  cbn [bind]. rewrite Z.eqb_refl. reflexivity.
Qed.

(** The same on an image whose key the cipher refuses. *)
Lemma prepare_new_component_refused `{OpenSSL} (img : PvImage) (comp : PvComponent)
    (file : CompFile) (fs : filesystem) (c : list byte) :
  data comp = DATA_FILE file -> fs_lookup fs (path file) = Some c ->
  length (tweak comp) = 16%nat ->
  EVP_CipherInit_ex (Some (xts_key img)) (tweak comp) = false ->
  Z.land (pcf img) PV_CONTROL_FLAG_NO_DECRYPTION = 0 ->
  buf_size (xts_key img) = AES_256_XTS_KEY_SIZE ->
  pv_img_prepare_component img comp fs = Fail (Some cipher_init_error).
Proof.
  intros D L TL R Flag K.
  unfold pv_img_prepare_component. rewrite Flag, K. cbn [Z.eqb negb].
  rewrite Z.eqb_refl. cbn [g_assert bind].
  unfold memcpy. rewrite !firstn_all2;
    [| rewrite TL; reflexivity | unfold buf_size in K; rewrite <- K; lia].
  unfold pv_component_align_and_encrypt. rewrite D.
  unfold encrypt_file. rewrite L. unfold encrypt_bio. cbn [parms_key parms_tweak].
  unfold Buffer in R. rewrite R. reflexivity.
Qed.

(** pv_img_add_component on an image that encrypts and can still take
    components. *)
Lemma add_new_component_ok `{OpenSSL} `{PvCompDefs} (img : PvImage) (arg : PvArg)
    (fs : filesystem) (pool c : list byte) :
  let v := PvComponentType_value (arg_type arg) in
  let n := buf_size c in
  let tw := new_tweak v pool in
  let comp := {| type := arg_type arg;
                 data := DATA_FILE {| path := arg_path arg; size := n |};
                 src_addr := 0; orig_size := n; tweak := tw |} in
  let out := g_build_filename (tmp_dir img) (pv_component_name comp) in
  let pages := spec_page_count n in
  let enc := xts_pages (xts_key img) tw (be_value tw) (Z.to_nat pages) c in
  let cs := img_comps img in
  fs_lookup fs (arg_path arg) = Some c -> arg_path arg <> out ->
  0 <= v < 256 -> (6 <= length pool)%nat -> bytes_ok (firstn 6 pool) ->
  xts_accepts (xts_key img) tw ->
  Z.land (pcf img) PV_CONTROL_FLAG_NO_DECRYPTION = 0 ->
  buf_size (xts_key img) = AES_256_XTS_KEY_SIZE ->
  0 <= next_src cs -> next_src cs mod PAGE_SIZE = 0 ->
  next_src cs + PAGE_SIZE * pages <= UINT64_MAX ->
  finalized cs = false ->
  pv_img_add_component img arg fs pool
  = (set_img_comps img
       {| finalized := false; next_src := next_src cs + PAGE_SIZE * pages;
          nep := nep cs; ald := ald cs; pld := pld cs; tld := tld cs;
          comps := comps cs
                   ++ [{| type := arg_type arg;
                          data := DATA_FILE {| path := out; size := PAGE_SIZE * pages |};
                          src_addr := next_src cs; orig_size := n; tweak := tw |}] |},
     fs_store fs out enc, skipn 6 pool, Ok tt).
Proof.
  cbv zeta. intros L Ne V P6 B A Flag K N0 NA Room F.
  assert (L0 : 0 <= buf_size c) by (unfold buf_size; lia).
  destruct (spec_page_count_bounds _ L0) as (P1 & _ & _).
  destruct (new_tweak_value _ _ V P6 B) as (TL & T0 & T1).
  unfold pv_img_add_component, pv_component_new_file, file_size. rewrite L.
  fold (buf_size c).
  rewrite pv_component_new_ok by (unfold UINT16_MAX; lia).
  unfold pv_img_prepare_and_add_component.
  rewrite (prepare_new_component img (arg_type arg) (arg_path arg) fs c _ L Ne A TL T0);
    [| unfold UINT64_MAX, PAGE_SIZE in *; lia | exact Flag | exact K].
  erewrite add_component_forward; try eassumption; reflexivity.
Qed.

(** X13.  pv_img_add_component on an image that encrypts (the
    no-decryption flag of its control flags is clear, its XTS key has 64
    bytes and the cipher takes it): the file named by the argument is
    enciphered page by page, under the XTS key of the image and the
    fresh tweak, into a file named after the kind of the component in
    the temporary directory; the component is appended at the cursor of
    the collection with the size of the enciphered file, the size of the
    user's file as its original size, and the cursor moves on by that
    many pages; six bytes are taken from the PRNG.  When the collection
    is already finalized the call fails with the error of the
    collection, after the enciphered file has been written and the
    random bytes drawn.  When EVP_CipherInit_ex refuses the key (OpenSSL
    refuses an XTS key with equal halves) the call fails with
    "EVP_CipherInit_ex failed" and the image keeps its collection, the
    random bytes being drawn (the output file has been opened by then;
    nothing is said of the file system).  A file that does not exist is
    refused with nothing changed. *)
Theorem X13_add_component `{OpenSSL} `{PvCompDefs} (img : PvImage) (arg : PvArg)
    (fs : filesystem) (pool c : list byte) :
  let v := PvComponentType_value (arg_type arg) in
  let n := buf_size c in
  let tw := new_tweak v pool in
  let comp := {| type := arg_type arg;
                 data := DATA_FILE {| path := arg_path arg; size := n |};
                 src_addr := 0; orig_size := n; tweak := tw |} in
  let out := g_build_filename (tmp_dir img) (pv_component_name comp) in
  let pages := spec_page_count n in
  let enc := xts_pages (xts_key img) tw (be_value tw) (Z.to_nat pages) c in
  let cs := img_comps img in
  (fs_lookup fs (arg_path arg) = Some c ->
   0 <= v < 256 -> (6 <= length pool)%nat -> bytes_ok (firstn 6 pool) ->
   Z.land (pcf img) PV_CONTROL_FLAG_NO_DECRYPTION = 0 ->
   buf_size (xts_key img) = AES_256_XTS_KEY_SIZE ->
   (xts_accepts (xts_key img) tw -> arg_path arg <> out ->
    0 <= next_src cs -> next_src cs mod PAGE_SIZE = 0 ->
    next_src cs + PAGE_SIZE * pages <= UINT64_MAX ->
    (finalized cs = false ->
     pv_img_add_component img arg fs pool
     = (set_img_comps img
          {| finalized := false; next_src := next_src cs + PAGE_SIZE * pages;
             nep := nep cs; ald := ald cs; pld := pld cs; tld := tld cs;
             comps := comps cs
                      ++ [{| type := arg_type arg;
                             data := DATA_FILE {| path := out; size := PAGE_SIZE * pages |};
                             src_addr := next_src cs; orig_size := n; tweak := tw |}] |},
        fs_store fs out enc, skipn 6 pool, Ok tt)) /\
    (finalized cs = true ->
     pv_img_add_component img arg fs pool
     = (set_img_comps img cs, fs_store fs out enc, skipn 6 pool,
        Fail (Some finalized_error)))) /\
   (EVP_CipherInit_ex (Some (xts_key img)) tw = false ->
    exists fs',
      pv_img_add_component img arg fs pool
      = (img, fs', skipn 6 pool, Fail (Some cipher_init_error)))) /\
  (fs_lookup fs (arg_path arg) = None ->
   exists e, pv_img_add_component img arg fs pool = (img, fs, pool, Fail (Some e)) /\
             domain e = G_FILE_ERROR).
Proof.
  cbv zeta. split.
  - intros L V P6 B Flag K. split.
    + intros A Ne N0 NA Room. split.
      * intros F. apply add_new_component_ok; assumption.
      * intros F.
        assert (L0 : 0 <= buf_size c) by (unfold buf_size; lia).
        destruct (spec_page_count_bounds _ L0) as (P1 & _ & _).
        destruct (new_tweak_value _ _ V P6 B) as (TL & T0 & T1).
        unfold pv_img_add_component, pv_component_new_file, file_size. rewrite L.
        fold (buf_size c).
        rewrite pv_component_new_ok by (unfold UINT16_MAX; lia).
        unfold pv_img_prepare_and_add_component.
        rewrite (prepare_new_component img (arg_type arg) (arg_path arg) fs c _ L Ne A TL T0);
          [| unfold UINT64_MAX, PAGE_SIZE in *; lia | exact Flag | exact K].
        unfold pv_img_comps_add_component.
        rewrite IS_PAGE_ALIGNED_spec, NA, F. reflexivity.
    + intros R.
      destruct (new_tweak_value _ _ V P6 B) as (TL & _ & _).
      unfold pv_img_add_component, pv_component_new_file, file_size. rewrite L.
      fold (buf_size c).
      rewrite pv_component_new_ok by (unfold UINT16_MAX; lia).
      unfold pv_img_prepare_and_add_component.
      rewrite (prepare_new_component_refused img
                 {| type := arg_type arg;
                    data := DATA_FILE {| path := arg_path arg; size := buf_size c |};
                    src_addr := 0; orig_size := buf_size c;
                    tweak := new_tweak (PvComponentType_value (arg_type arg)) pool |}
                 {| path := arg_path arg; size := buf_size c |} fs c eq_refl L TL R Flag K).
      eexists. reflexivity.
  - intros L. unfold pv_img_add_component, pv_component_new_file, file_size. rewrite L.
    eexists. split; reflexivity.
Qed.

Lemma X13_add_component_witness :
  (let '(img', fs', pool', rc) :=
     pv_img_add_component (xts_img (toy_comps [] 0x3000))
       {| arg_type := PV_COMP_TYPE_KERNEL; arg_path := "/boot/vmlinuz" |} user_fs toy_pool in
   (rc, pool', next_src (img_comps img'),
    map (fun comp => (src_addr comp, pv_component_size comp, orig_size comp, tweak comp))
        (comps (img_comps img')),
    option_map buf_size (fs_lookup fs' "/tmp/genprotimg/kernel"),
    option_map buf_size (fs_lookup fs' "/boot/vmlinuz"))
   = (Ok tt, [0x77; 0x88], 0x5000,
      [(0x3000, 8192, 5000,
        [0; 0; 0x11; 0x22; 0x33; 0x44; 0x55; 0x66; 0; 0; 0; 0; 0; 0; 0; 0])],
      Some 8192, Some 5000)) /\
  snd (pv_img_add_component (toy_img [] (toy_comps [] 0x3000))
         {| arg_type := PV_COMP_TYPE_KERNEL; arg_path := "/boot/vmlinuz" |}
         user_fs toy_pool)
  = Fail (Some cipher_init_error).
Proof.
  split.
  - destruct (X13_add_component (xts_img (toy_comps [] 0x3000))
                {| arg_type := PV_COMP_TYPE_KERNEL; arg_path := "/boot/vmlinuz" |}
                user_fs toy_pool (repeat 0x5A (Z.to_nat 5000))) as [P _].
    destruct P as [Q _].
    + reflexivity.
    + vm_compute. split; congruence.
    + vm_compute. lia.
    + vm_compute. repeat constructor; congruence.
    + reflexivity.
    + reflexivity.
    + destruct Q as [Q _].
      * split; [reflexivity | intros iv; reflexivity].
      * vm_compute. congruence.
      * vm_compute. congruence.
      * reflexivity.
      * vm_compute. congruence.
      * rewrite Q by reflexivity. vm_compute. reflexivity.
  - destruct (X13_add_component (toy_img [] (toy_comps [] 0x3000))
                {| arg_type := PV_COMP_TYPE_KERNEL; arg_path := "/boot/vmlinuz" |}
                user_fs toy_pool (repeat 0x5A (Z.to_nat 5000))) as [P _].
    destruct P as [_ R].
    + reflexivity.
    + vm_compute. split; congruence.
    + vm_compute. lia.
    + vm_compute. repeat constructor; congruence.
    + reflexivity.
    + reflexivity.
    + destruct (R eq_refl) as [fs' ->]. reflexivity.
Defined.

(* ------------------------------------------------------------------ *)
(** ** The keys of the image *)

Lemma wrap64_diff_zero (a b : Z) :
  0 <= a <= UINT64_MAX -> 0 <= b <= UINT64_MAX ->
  (wrap64 (a - b) =? 0) = (a =? b).
Proof.
  intros A B. unfold wrap64.
  destruct (Z.eqb_spec a b) as [-> | N].
  - rewrite Z.sub_diag. reflexivity.
  - apply Z.eqb_neq. intros M. apply N.
    apply Z.mod_divide in M; [|discriminate]. destruct M as [k M].
    unfold UINT64_MAX in *.
    change (2 ^ 64) with 18446744073709551616 in *. lia.
Qed.

Lemma pv_img_read_key_spec (fs : filesystem) (path : string) (key_size : Z)
    (c : list byte) :
  fs_lookup fs path = Some c -> buf_size c <= UINT64_MAX -> 0 <= key_size <= UINT64_MAX ->
  pv_img_read_key fs path key_size
  = if buf_size c =? key_size then Ok c else Fail (Some invalid_key_size_error).
Proof.
  intros L B K.
  assert (L0 : 0 <= buf_size c) by (unfold buf_size; lia).
  unfold pv_img_read_key, file_size, file_open_rb, file_read. rewrite L. cbn [bind].
  fold (buf_size c). rewrite wrap64_diff_zero by lia.
  destruct (Z.eqb_spec (buf_size c) key_size) as [E | N]; cbn [negb]; [|reflexivity].
  assert (F : firstn (Z.to_nat (buf_size c)) c = c).
  { unfold buf_size. rewrite Nat2Z.id. apply firstn_all. }
  rewrite F. fold (buf_size c). rewrite wrap64_diff_zero by lia.
  rewrite E, Z.eqb_refl. cbn [negb].
  unfold pad_to. rewrite <- E. unfold buf_size. rewrite Nat2Z.id, Nat.sub_diag.
  cbn [zeros repeat]. rewrite app_nil_r. reflexivity.
Qed.

(** X14.  pv_img_get_key, for a cipher whose key has [key_len] bytes:
    with a key file named, the key is the content of that file when the
    file holds exactly [key_len] bytes, and the call fails with
    PV_CRYPTO_ERROR_INVALID_KEY_SIZE (in the domain PV_ERROR) for a file
    of any other size, longer or shorter, drawing nothing from the PRNG
    either way; with no file named, the key is the next [key_len] bytes
    of the PRNG, and the call fails with PV_CRYPTO_ERROR_RANDOMIZATION
    when the PRNG cannot give that many.  Whenever a key comes back it
    has [key_len] bytes. *)
Theorem X14_get_key (key_len : Z) (path : option string) (fs : filesystem)
    (pool : list byte) :
  0 < key_len <= INT_MAX ->
  (forall p c, path = Some p -> fs_lookup fs p = Some c -> buf_size c <= UINT64_MAX ->
     (buf_size c = key_len -> pv_img_get_key key_len path fs pool = (Ok c, pool)) /\
     (buf_size c <> key_len ->
      pv_img_get_key key_len path fs pool = (Fail (Some invalid_key_size_error), pool))) /\
  (forall p, path = Some p -> fs_lookup fs p = None ->
     exists e, pv_img_get_key key_len path fs pool = (Fail (Some e), pool) /\
               domain e = G_FILE_ERROR) /\
  (path = None ->
     (key_len <= buf_size pool ->
      pv_img_get_key key_len path fs pool
      = (Ok (firstn (Z.to_nat key_len) pool), skipn (Z.to_nat key_len) pool)) /\
     (buf_size pool < key_len ->
      exists msg, pv_img_get_key key_len path fs pool
                  = (Fail (Some (randomization_error msg)), pool))) /\
  (forall key pool', buf_size pool <= UINT64_MAX ->
     (forall p c, path = Some p -> fs_lookup fs p = Some c -> buf_size c <= UINT64_MAX) ->
     pv_img_get_key key_len path fs pool = (Ok key, pool') -> buf_size key = key_len).
Proof.
  intros K. unfold INT_MAX in K.
  assert (W : wrap32 key_len = key_len).
  { unfold wrap32. apply Z.mod_small. change (2 ^ 32) with 4294967296. lia. }
  assert (G : (key_len >? 0) = true) by lia.
  assert (I : (key_len <=? INT_MAX) = true) by (unfold INT_MAX; lia).
  unfold pv_img_get_key. rewrite G, W. cbn [negb].
  split; [|split; [|split]].
  - intros p c -> L B.
    rewrite (pv_img_read_key_spec fs p key_len c L B) by (unfold UINT64_MAX; lia).
    split; intros E.
    + rewrite E, Z.eqb_refl. reflexivity.
    + destruct (Z.eqb_spec (buf_size c) key_len); [contradiction | reflexivity].
  - intros p -> L. unfold pv_img_read_key, file_size. rewrite L. cbn [bind].
    eexists. split; reflexivity.
  - intros ->. unfold generate_aes_key, RAND_bytes. rewrite I. cbn [negb].
    fold (buf_size pool). split; intros B.
    + destruct (Z.ltb_spec (buf_size pool) key_len); [lia | reflexivity].
    + destruct (Z.ltb_spec (buf_size pool) key_len); [|lia]. eexists. reflexivity.
  - intros key pool' Bp Bc. destruct path as [p|].
    + destruct (fs_lookup fs p) as [c|] eqn:L.
      * rewrite (pv_img_read_key_spec fs p key_len c L (Bc p c eq_refl L)) by (unfold UINT64_MAX; lia).
        destruct (Z.eqb_spec (buf_size c) key_len) as [E | N]; [|discriminate].
        intros R. injection R as <- _. exact E.
      * unfold pv_img_read_key, file_size. rewrite L. discriminate.
    + unfold generate_aes_key, RAND_bytes. rewrite I. cbn [negb].
      fold (buf_size pool).
      destruct (Z.ltb_spec (buf_size pool) key_len); [discriminate|].
      intros R. injection R as <- _. unfold buf_size in *.
      rewrite length_firstn. lia.
Qed.

Lemma X14_get_key_witness :
  pv_img_get_key 8 None [] toy_pool = (Ok toy_pool, []) /\
  pv_img_get_key 5000 (Some "/boot/vmlinuz"%string) user_fs toy_pool
  = (Ok (repeat 0x5A (Z.to_nat 5000)), toy_pool) /\
  pv_img_get_key 64 (Some "/boot/vmlinuz"%string) user_fs toy_pool
  = (Fail (Some invalid_key_size_error), toy_pool).
Proof.
  split; [|split].
  - destruct (X14_get_key 8 None [] toy_pool) as (_ & _ & G & _).
    + vm_compute. split; congruence.
    + destruct (G eq_refl) as [-> _]; [vm_compute; congruence | reflexivity].
  - destruct (X14_get_key 5000 (Some "/boot/vmlinuz"%string) user_fs toy_pool) as (R & _).
    + vm_compute. split; congruence.
    + destruct (R "/boot/vmlinuz"%string (repeat 0x5A (Z.to_nat 5000)) eq_refl eq_refl)
        as [Q _]; [vm_compute; congruence|].
      rewrite Q; [reflexivity | vm_compute; reflexivity].
  - destruct (X14_get_key 64 (Some "/boot/vmlinuz"%string) user_fs toy_pool) as (R & _).
    + vm_compute. split; congruence.
    + destruct (R "/boot/vmlinuz"%string (repeat 0x5A (Z.to_nat 5000)) eq_refl eq_refl)
        as [_ Q]; [vm_compute; congruence|].
      rewrite Q; [reflexivity | vm_compute; congruence].
Defined.

(* ------------------------------------------------------------------ *)
(** ** pv_args.c: the options *)




Lemma find_custom_none `{PvCompDefs} (l : list PvArg) (t : Z) :
  g_slist_find_custom l t pv_arg_has_type = None
  <-> forall a, In a l -> PvComponentType_value (arg_type a) <> t.
Proof.
  induction l as [|x l IH]; cbn [g_slist_find_custom]; [split; [intros _ a []|reflexivity]|].
  unfold pv_arg_has_type at 1.
  destruct (Z.eqb_spec (PvComponentType_value (arg_type x)) t) as [E | N].
  - cbn. split; [discriminate|]. intros A. exfalso. apply (A x); [left; reflexivity | exact E].
  - replace ((if PvComponentType_value (arg_type x) <? t then -1 else 1) =? 0) with false
      by (destruct (PvComponentType_value (arg_type x) <? t); reflexivity).
    rewrite IH. split.
    + intros A a [<- | I]; [exact N | apply A; exact I].
    + intros A a I. apply A. right. exact I.
Qed.

Lemma find_custom_some `{PvCompDefs} (l : list PvArg) (t : Z) (a : PvArg) :
  In a l -> PvComponentType_value (arg_type a) = t ->
  exists b, g_slist_find_custom l t pv_arg_has_type = Some b.
Proof.
  intros I E. destruct (g_slist_find_custom l t pv_arg_has_type) as [b|] eqn:F.
  - exists b. reflexivity.
  - exfalso. apply (proj1 (find_custom_none l t) F a I E).
Qed.

Lemma insert_sorted_in `{PvCompDefs} (l : list PvArg) (c a : PvArg) :
  In a (g_slist_insert_sorted l c pv_arg_compare) <-> a = c \/ In a l.
Proof.
  induction l as [|x l IH]; cbn [g_slist_insert_sorted].
  - cbn. intuition congruence.
  - destruct (pv_arg_compare c x >? 0).
    + cbn [In]. rewrite IH. intuition.
    + cbn [In]. intuition congruence.
Qed.

Lemma insert_sorted_length `{PvCompDefs} (l : list PvArg) (c : PvArg) :
  length (g_slist_insert_sorted l c pv_arg_compare) = S (length l).
Proof.
  induction l as [|x l IH]; cbn [g_slist_insert_sorted]; [reflexivity|].
  destruct (pv_arg_compare c x >? 0); cbn [length]; [rewrite IH|]; reflexivity.
Qed.

Lemma insert_sorted_sorted `{PvCompDefs} (l : list PvArg) (c : PvArg) :
  args_sorted l = true ->
  (forall a, In a l -> PvComponentType_value (arg_type a) <> PvComponentType_value (arg_type c)) ->
  args_sorted (g_slist_insert_sorted l c pv_arg_compare) = true.
Proof.
  induction l as [|x l IH]; intros Srt Fresh; [reflexivity|].
  cbn [g_slist_insert_sorted]. unfold pv_arg_compare at 1. cbv zeta.
  assert (Nx : PvComponentType_value (arg_type x) <> PvComponentType_value (arg_type c))
    by (apply Fresh; left; reflexivity).
  destruct (Z.ltb_spec (PvComponentType_value (arg_type c))
                       (PvComponentType_value (arg_type x))) as [Lt | Ge].
  - cbn [Z.gtb Z.compare]. change (args_sorted (c :: x :: l))
      with ((PvComponentType_value (arg_type c) <? PvComponentType_value (arg_type x))
            && args_sorted (x :: l)).
    rewrite Srt. apply andb_true_iff. split; [lia | reflexivity].
  - destruct (Z.eqb_spec (PvComponentType_value (arg_type c))
                         (PvComponentType_value (arg_type x))) as [E | _]; [congruence|].
    cbn [Z.gtb Z.compare].
    assert (Srt' : args_sorted l = true).
    { destruct l as [|y l]; [reflexivity|].
      change (args_sorted (x :: y :: l))
        with ((PvComponentType_value (arg_type x) <? PvComponentType_value (arg_type y))
              && args_sorted (y :: l)) in Srt.
      apply andb_true_iff in Srt. apply Srt. }
    specialize (IH Srt' (fun a I => Fresh a (or_intror I))).
    destruct l as [|y l].
    + cbn [g_slist_insert_sorted args_sorted]. rewrite andb_true_r. lia.
    + change (args_sorted (x :: y :: l))
        with ((PvComponentType_value (arg_type x) <? PvComponentType_value (arg_type y))
              && args_sorted (y :: l)) in Srt.
      apply andb_true_iff in Srt. destruct Srt as [Sxy _].
      cbn [g_slist_insert_sorted] in IH |- *.
      destruct (pv_arg_compare c y >? 0).
      * change (args_sorted (x :: y :: ?r))
          with ((PvComponentType_value (arg_type x) <? PvComponentType_value (arg_type y))
                && args_sorted (y :: r)).
        rewrite Sxy, IH. reflexivity.
      * change (args_sorted (x :: c :: ?r))
          with ((PvComponentType_value (arg_type x) <? PvComponentType_value (arg_type c))
                && args_sorted (c :: r)).
        rewrite IH, andb_true_r. lia.
Qed.

(** X15.  add_component keeps the list of component arguments in
    ascending order of the numbers of their types, with no number twice:
    an option that names a type not yet in the list puts the new
    argument at its place in that order, whatever the order of the
    options on the command line, and changes nothing else; an option
    whose type is already in the list is refused with
    PV_ERROR_PARSE_SYNTAX ("Multiple values for option"), and so is an
    option that names no type ("Invalid option"); a refused call leaves
    the arguments as they were. *)
Theorem X15_add_component_sorted `{PvCompDefs} (opt value : string) (args : PvArgs) :
  args_sorted (args_comps args) = true ->
  (forall type, option_type opt = Some type -> 0 <= PvComponentType_value type ->
     ((forall a, In a (args_comps args) ->
         PvComponentType_value (arg_type a) <> PvComponentType_value type) ->
      exists l,
        add_component opt value args = (set_args_comps args l, Ok tt) /\
        args_sorted l = true /\
        length l = S (length (args_comps args)) /\
        (forall a, In a l <-> a = pv_arg_new type value \/ In a (args_comps args))) /\
     (forall a, In a (args_comps args) ->
        PvComponentType_value (arg_type a) = PvComponentType_value type ->
        add_component opt value args
        = (args, Fail (Some (parse_syntax_error "Multiple values for option '%s'"))))) /\
  (option_type opt = None ->
   add_component opt value args
   = (args, Fail (Some (parse_syntax_error "Invalid option '%s': ")))).
Proof.
  intros Srt. split.
  - intros type T V. unfold add_component. rewrite T.
    destruct (Z.ltb_spec (PvComponentType_value type) 0); [lia|]. split.
    + intros Fresh. rewrite (proj2 (find_custom_none _ _) Fresh).
      eexists. split; [reflexivity|]. split; [|split].
      * apply insert_sorted_sorted; assumption.
      * apply insert_sorted_length.
      * intros a. apply insert_sorted_in.
    + intros a I E. destruct (find_custom_some _ _ a I E) as [b ->]. reflexivity.
  - intros T. unfold add_component. rewrite T. reflexivity.
Qed.

Lemma X15_add_component_sorted_witness :
  args_comps parm_image_args
  = [pv_arg_new PV_COMP_TYPE_KERNEL "vmlinuz"; pv_arg_new PV_COMP_TYPE_CMDLINE "parm"] /\
  add_component "--parmfile" "other" parm_image_args
  = (parm_image_args, Fail (Some (parse_syntax_error "Multiple values for option '%s'"))).
Proof.
  assert (S1 : args_sorted (args_comps (fst (add_component "-p" "parm" pv_args_new))) = true)
    by reflexivity.
  assert (S2 : args_sorted (args_comps parm_image_args) = true) by reflexivity.
  split.
  - destruct (X15_add_component_sorted "-i" "vmlinuz" _ S1) as [P _].
    destruct (P PV_COMP_TYPE_KERNEL eq_refl) as [Q _]; [vm_compute; congruence|].
    destruct Q as (l & E & _).
    + intros a [<- | []]. vm_compute. congruence.
    + unfold parm_image_args. rewrite E. vm_compute in E. injection E as <-. reflexivity.
  - destruct (X15_add_component_sorted "--parmfile" "other" _ S2) as [P _].
    destruct (P PV_COMP_TYPE_CMDLINE eq_refl) as [_ Q]; [vm_compute; congruence|].
    apply (Q (pv_arg_new PV_COMP_TYPE_CMDLINE "parm")).
    + right. left. reflexivity.
    + reflexivity.
Defined.

Lemma args_option_get_set (o o' : args_option) (args : PvArgs) (v : option string) :
  args_option_get o' (args_option_set o args v)
  = if match o, o' with
       | opt_output_path, opt_output_path
       | opt_cust_root_key_path, opt_cust_root_key_path
       | opt_xts_key_path, opt_xts_key_path
       | opt_cust_comm_key_path, opt_cust_comm_key_path
       | opt_pcf, opt_pcf
       | opt_psw_addr, opt_psw_addr
       | opt_scf, opt_scf => true
       | _, _ => false
       end
    then v else args_option_get o' args.
Proof. destruct o, o'; reflexivity. Qed.

(** X16.  set_string_option stores the value of an option once: an
    option whose field is still unset gets the value, and no other field
    of the arguments changes; an option whose field is already set is
    refused with PV_ERROR_PARSE_SYNTAX ("Multiple values for option"),
    the first value staying; a name that is none of -o, --output,
    --header-key, --comp-key, --x-comm-key, --x-pcf, --x-psw, --x-scf is
    refused ("Invalid option").  No name reaches the path of the GCM IV,
    the host certificates, the components, the log level, the
    certificate switch or the temporary directory. *)
Theorem X16_set_string_option (opt value : string) (args : PvArgs) :
  (forall o, string_option_field opt = Some o ->
     (args_option_get o args = None ->
      set_string_option opt value args = (args_option_set o args (Some value), Ok tt) /\
      args_option_get o (args_option_set o args (Some value)) = Some value /\
      (forall o', o' <> o ->
         args_option_get o' (args_option_set o args (Some value)) = args_option_get o' args)) /\
     (forall first, args_option_get o args = Some first ->
        set_string_option opt value args
        = (args, Fail (Some (parse_syntax_error "Multiple values for option '%s'"))))) /\
  (string_option_field opt = None ->
   set_string_option opt value args
   = (args, Fail (Some (parse_syntax_error "Invalid option '%s': ")))) /\
  (let args' := fst (set_string_option opt value args) in
   gcm_iv_path args' = gcm_iv_path args /\ host_certs args' = host_certs args /\
   args_comps args' = args_comps args /\ log_level args' = log_level args /\
   no_cert_check args' = no_cert_check args /\ args_tmp_dir args' = args_tmp_dir args).
Proof.
  split; [|split].
  - intros o F. unfold set_string_option. rewrite F. split.
    + intros G. rewrite G. split; [reflexivity|]. split.
      * rewrite args_option_get_set. destruct o; reflexivity.
      * intros o' N. rewrite args_option_get_set.
        destruct o, o'; try reflexivity; contradiction N; reflexivity.
    + intros first G. rewrite G. reflexivity.
  - intros F. unfold set_string_option. rewrite F. reflexivity.
  - cbv zeta. unfold set_string_option.
    destruct (string_option_field opt) as [o|]; [|repeat split].
    destruct (args_option_get o args); repeat split.
Qed.

Lemma X16_set_string_option_witness :
  let args := fst (set_string_option "-o" "out.img" pv_args_new) in
  output_path args = Some "out.img"%string /\
  set_string_option "--output" "other.img" args
  = (args, Fail (Some (parse_syntax_error "Multiple values for option '%s'"))) /\
  set_string_option "--gcm-iv" "iv.bin" args
  = (args, Fail (Some (parse_syntax_error "Invalid option '%s': "))).
Proof.
  cbv zeta. split; [|split].
  - destruct (X16_set_string_option "-o" "out.img" pv_args_new) as (P & _).
    destruct (P opt_output_path eq_refl) as [Q _].
    destruct (Q eq_refl) as (E & _). rewrite E. reflexivity.
  - destruct (X16_set_string_option "--output" "other.img"
                (fst (set_string_option "-o" "out.img" pv_args_new))) as (P & _).
    destruct (P opt_output_path eq_refl) as [_ Q].
    exact (Q "out.img"%string eq_refl).
  - destruct (X16_set_string_option "--gcm-iv" "iv.bin"
                (fst (set_string_option "-o" "out.img" pv_args_new))) as (_ & P & _).
    exact (P eq_refl).
Defined.

Lemma in_dec_kernel_aux `{PvCompDefs} (l : list PvArg) (t : Z) :
  (exists a, In a l /\ PvComponentType_value (arg_type a) = t) \/
  (forall a, In a l -> PvComponentType_value (arg_type a) <> t).
Proof.
  induction l as [|x l [(a & I & E) | N]].
  - right. intros a [].
  - left. exists a. split; [right; exact I | exact E].
  - destruct (Z.eq_dec (PvComponentType_value (arg_type x)) t) as [E | D].
    + left. exists x. split; [left; reflexivity | exact E].
    + right. intros a [<- | I]; [exact D | apply N; exact I].
Qed.

(** X17.  pv_args_validate_options accepts the arguments exactly when
    an output path is set, the list of components has an argument of
    the kernel type, at least one host certificate is named and the
    switch --no-cert-check is on; in particular arguments without
    --no-cert-check are never accepted.  Every refusal is an error of
    the domain PV_ERROR with the code PR_ERROR_PARSE_MISSING_ARGUMENT,
    and the checks come in that order: a missing output path is reported
    whatever else is missing. *)
Theorem X17_validate_options `{PvCompDefs} (args : PvArgs) :
  (pv_args_validate_options args = Ok tt
   <-> output_path args <> None /\
       (exists a, In a (args_comps args) /\
                  PvComponentType_value (arg_type a)
                  = PvComponentType_value PV_COMP_TYPE_KERNEL) /\
       (exists cert certs, host_certs args = Some (cert :: certs)) /\
       no_cert_check args <> 0) /\
  (pv_args_validate_options args = Ok tt \/
   exists msg, pv_args_validate_options args = Fail (Some (missing_argument_error msg))) /\
  (output_path args = None ->
   pv_args_validate_options args
   = Fail (Some (missing_argument_error "'--output' option is missing"))).
Proof.
  unfold pv_args_validate_options. cbv zeta.
  destruct (output_path args) as [out|] eqn:O.
  2:{ split; [|split].
      - split; [discriminate|]. intros (N & _). contradiction N. reflexivity.
      - right. eexists. reflexivity.
      - reflexivity. }
  destruct (g_slist_find_custom (args_comps args)
              (PvComponentType_value PV_COMP_TYPE_KERNEL) pv_arg_has_type) as [k|] eqn:F.
  2:{ split; [|split].
      - split; [discriminate|]. intros (_ & (a & I & E) & _).
        exfalso. exact (proj1 (find_custom_none _ _) F a I E).
      - right. eexists. reflexivity.
      - discriminate. }
  assert (K : exists a, In a (args_comps args) /\
                        PvComponentType_value (arg_type a)
                        = PvComponentType_value PV_COMP_TYPE_KERNEL).
  { destruct (in_dec_kernel_aux (args_comps args)
                (PvComponentType_value PV_COMP_TYPE_KERNEL)) as [K | K]; [exact K|].
    rewrite (proj2 (find_custom_none _ _) K) in F. discriminate. }
  destruct (host_certs args) as [[|cert certs]|] eqn:Hc.
  - split; [|split].
    + split; [discriminate|]. intros (_ & _ & (c & cs & E) & _). discriminate.
    + right. eexists. reflexivity.
    + discriminate.
  - change (g_strv_length (cert :: certs) =? 0) with (Z.of_nat (S (length certs)) =? 0).
    destruct (Z.eqb_spec (Z.of_nat (S (length certs))) 0) as [E | _]; [lia|].
    destruct (Z.eqb_spec (no_cert_check args) 0) as [Z0 | NZ].
    + split; [|split].
      * split; [discriminate|]. intros (_ & _ & _ & N). contradiction.
      * right. eexists. reflexivity.
      * discriminate.
    + split; [|split].
      * split; [|reflexivity]. intros _. split; [discriminate|].
        split; [exact K|]. split; [|exact NZ]. exists cert, certs. reflexivity.
      * left. reflexivity.
      * discriminate.
  - split; [|split].
    + split; [discriminate|]. intros (_ & _ & (c & cs & E) & _). discriminate.
    + right. eexists. reflexivity.
    + discriminate.
Qed.

Lemma X17_validate_options_witness :
  pv_args_validate_options parm_image_args
  = Fail (Some (missing_argument_error "'--output' option is missing")).
Proof.
  destruct (X17_validate_options parm_image_args) as (_ & _ & P).
  exact (P eq_refl).
Defined.

(* ------------------------------------------------------------------ *)
(** ** From the argument to the measurement *)

Lemma xts_pages_length `{OpenSSL} (n : nat) :
  forall (key tw data : list byte) (twn : Z),
    buf_size (xts_pages key tw twn n data) = PAGE_SIZE * Z.of_nat n.
Proof.
  induction n as [|n IH]; intros key tw data twn; [reflexivity|].
  cbn [xts_pages]. unfold buf_size in *. rewrite length_app, Nat2Z.inj_add.
  rewrite xts_block_size, IH. lia.
Qed.

Lemma spec_page_count_pages (p : Z) : 1 <= p -> spec_page_count (PAGE_SIZE * p) = p.
Proof.
  intros P. rewrite spec_page_count_aligned.
  - rewrite Z.mul_comm, Z.div_mul by discriminate. lia.
  - unfold PAGE_SIZE. lia.
  - rewrite Z.mul_comm. apply Z.mod_mul. discriminate.
Qed.

(** The measurement of an image that holds one component. *)
Lemma measure_single `{OpenSSL} (fuel : nat) (fs : filesystem) (img : PvImage)
    (c0 : PvImgComps) (comp : PvComponent) :
  comps c0 = [comp] -> measurable fs comp -> (comp_pages comp < fuel)%nat ->
  nep c0 + spec_page_count (pv_component_size comp) <= UINT64_MAX ->
  snd (pv_img_calc_pld_ald_tld_nep fuel fs (set_img_comps img c0))
  = Ok (sha512 (pld c0 ++ measured_pages fs comp),
        sha512 (ald c0 ++ page_addrs (comp_pages comp) (src_addr comp)),
        sha512 (tld c0 ++ page_tweaks (comp_pages comp) (be_value (tweak comp))),
        nep c0 + spec_page_count (pv_component_size comp)).
Proof.
  intros E M F N. unfold pv_img_calc_pld_ald_tld_nep. cbn [img_comps set_img_comps].
  rewrite pv_img_comps_finalize_spec; rewrite ?E.
  - cbn [flat_map total_pages fold_right snd]. rewrite !app_nil_r, Z.add_0_r. reflexivity.
  - constructor; [exact M | constructor].
  - constructor; [exact F | constructor].
  - cbn [total_pages fold_right]. lia.
Qed.

(** X18.  From the argument to the measurement: when pv_img_add_component
    has added the first component to an image that encrypts (the cipher
    takes its XTS key), and the measurement is taken over the file system it left, the page digest
    is the SHA-512 over the enciphered pages that were written to the
    temporary directory (not over the file of the user), the address
    digest is over the page addresses from the cursor on, the tweak
    digest is over the tweak of the component plus 4096 per page, and
    the page counter grows by the number of pages. *)
Theorem X18_add_then_measure `{OpenSSL} `{PvCompDefs} (fuel : nat) (img : PvImage)
    (arg : PvArg) (fs : filesystem) (pool c : list byte) :
  let v := PvComponentType_value (arg_type arg) in
  let n := buf_size c in
  let tw := new_tweak v pool in
  let comp := {| type := arg_type arg;
                 data := DATA_FILE {| path := arg_path arg; size := n |};
                 src_addr := 0; orig_size := n; tweak := tw |} in
  let out := g_build_filename (tmp_dir img) (pv_component_name comp) in
  let pages := spec_page_count n in
  let enc := xts_pages (xts_key img) tw (be_value tw) (Z.to_nat pages) c in
  let cs := img_comps img in
  fs_lookup fs (arg_path arg) = Some c -> arg_path arg <> out ->
  0 <= v < 256 -> (6 <= length pool)%nat -> bytes_ok (firstn 6 pool) ->
  xts_accepts (xts_key img) tw ->
  Z.land (pcf img) PV_CONTROL_FLAG_NO_DECRYPTION = 0 ->
  buf_size (xts_key img) = AES_256_XTS_KEY_SIZE ->
  0 <= next_src cs -> next_src cs mod PAGE_SIZE = 0 ->
  next_src cs + PAGE_SIZE * pages <= UINT64_MAX ->
  finalized cs = false -> comps cs = [] ->
  (Z.to_nat pages < fuel)%nat -> nep cs + pages <= UINT64_MAX ->
  forall img' fs' pool' rc,
    pv_img_add_component img arg fs pool = (img', fs', pool', rc) ->
    rc = Ok tt /\
    snd (pv_img_calc_pld_ald_tld_nep fuel fs' img')
    = Ok (sha512 (pld cs ++ enc),
          sha512 (ald cs ++ page_addrs (Z.to_nat pages) (next_src cs)),
          sha512 (tld cs ++ page_tweaks (Z.to_nat pages) (be_value tw)),
          nep cs + pages).
Proof.
  cbv zeta. intros L Ne V P6 B A Flag K N0 NA Room F E Fu Np img' fs' pool' rc R.
  rewrite (add_new_component_ok img arg fs pool c) in R by assumption.
  injection R as <- <- <- <-. split; [reflexivity|].
  assert (L0 : 0 <= buf_size c) by (unfold buf_size; lia).
  destruct (spec_page_count_bounds _ L0) as (P1 & _ & _).
  destruct (new_tweak_value _ _ V P6 B) as (TL & T0 & T1).
  set (pages := spec_page_count (buf_size c)) in *.
  set (tw := new_tweak (PvComponentType_value (arg_type arg)) pool) in *.
  set (out := g_build_filename (tmp_dir img) _) in *.
  set (enc := xts_pages (xts_key img) tw (be_value tw) (Z.to_nat pages) c).
  set (comp' := {| type := arg_type arg;
                   data := DATA_FILE {| path := out; size := PAGE_SIZE * pages |};
                   src_addr := next_src (img_comps img); orig_size := buf_size c;
                   tweak := tw |}).
  assert (El : buf_size enc = PAGE_SIZE * pages).
  { unfold enc. rewrite xts_pages_length, Z2Nat.id by lia. reflexivity. }
  assert (Lk : fs_lookup (fs_store fs out enc) out = Some enc).
  { unfold fs_store. cbn [fs_lookup]. rewrite String.eqb_refl. reflexivity. }
  assert (Pc : spec_page_count (pv_component_size comp') = pages).
  { unfold pv_component_size. cbn [comp' data size]. apply spec_page_count_pages. exact P1. }
  assert (M : measurable (fs_store fs out enc) comp').
  { unfold measurable. cbv zeta. rewrite Pc. cbn [comp' src_addr tweak data path size].
    repeat split; try assumption.
    - unfold UINT64_MAX, PAGE_SIZE in *.
      change (2 ^ 120) with 1329227995784915872903807060280344576.
      change (2 ^ 64) with 18446744073709551616 in *. lia.
    - exists enc. split; [exact Lk | exact El]. }
  pose proof (measure_single fuel (fs_store fs out enc) img
                {| finalized := false;
                   next_src := next_src (img_comps img) + PAGE_SIZE * pages;
                   nep := nep (img_comps img); ald := ald (img_comps img);
                   pld := pld (img_comps img); tld := tld (img_comps img);
                   comps := comps (img_comps img) ++ [comp'] |} comp'
                (f_equal (fun l => l ++ [comp']) E) M) as Q.
  etransitivity;
    [apply Q; [unfold comp_pages; rewrite Pc; exact Fu | rewrite Pc; exact Np]|].
  clear Q.
  change (nep {| finalized := false;
                 next_src := next_src (img_comps img) + PAGE_SIZE * pages;
                 nep := nep (img_comps img); ald := ald (img_comps img);
                 pld := pld (img_comps img); tld := tld (img_comps img);
                 comps := comps (img_comps img) ++ [comp'] |})
    with (nep (img_comps img)).
  change (pld {| finalized := false;
                 next_src := next_src (img_comps img) + PAGE_SIZE * pages;
                 nep := nep (img_comps img); ald := ald (img_comps img);
                 pld := pld (img_comps img); tld := tld (img_comps img);
                 comps := comps (img_comps img) ++ [comp'] |})
    with (pld (img_comps img)).
  change (ald {| finalized := false;
                 next_src := next_src (img_comps img) + PAGE_SIZE * pages;
                 nep := nep (img_comps img); ald := ald (img_comps img);
                 pld := pld (img_comps img); tld := tld (img_comps img);
                 comps := comps (img_comps img) ++ [comp'] |})
    with (ald (img_comps img)).
  change (tld {| finalized := false;
                 next_src := next_src (img_comps img) + PAGE_SIZE * pages;
                 nep := nep (img_comps img); ald := ald (img_comps img);
                 pld := pld (img_comps img); tld := tld (img_comps img);
                 comps := comps (img_comps img) ++ [comp'] |})
    with (tld (img_comps img)).
  change (src_addr comp') with (next_src (img_comps img)).
  change (tweak comp') with tw.
  unfold measured_pages, comp_pages. rewrite Pc.
  change (data comp') with (DATA_FILE {| path := out; size := PAGE_SIZE * pages |}).
  cbv beta iota.
  change (path {| path := out; size := PAGE_SIZE * pages |}) with out.
  change (size {| path := out; size := PAGE_SIZE * pages |}) with (PAGE_SIZE * pages).
  rewrite Lk, pad_to_full; [reflexivity|].
  rewrite spec_page_count_advance, spec_page_count_pages by (unfold PAGE_SIZE; lia).
  rewrite <- El. unfold buf_size. symmetry. apply Nat2Z.id.
Qed.

Lemma X18_add_then_measure_witness :
  let '(img', fs', _, _) :=
    pv_img_add_component (xts_img (toy_comps [] 0x3000))
      {| arg_type := PV_COMP_TYPE_KERNEL; arg_path := "/boot/vmlinuz" |} user_fs toy_pool in
  option_map (fun d => match d with (_, a, t, n) => (a, t, n) end)
    (match snd (pv_img_calc_pld_ald_tld_nep 8 fs' img') with
     | Ok d => Some d
     | _ => None
     end)
  = Some (sha512 (be_bytes 8 0x3000 ++ be_bytes 8 0x4000),
          sha512 (be_bytes 16 (be_value (new_tweak 0 toy_pool))
                  ++ be_bytes 16 (be_value (new_tweak 0 toy_pool) + 4096)),
          2).
Proof.
  destruct (pv_img_add_component (xts_img (toy_comps [] 0x3000))
              {| arg_type := PV_COMP_TYPE_KERNEL; arg_path := "/boot/vmlinuz" |}
              user_fs toy_pool) as [[[img' fs'] pool'] rc] eqn:R.
  destruct (X18_add_then_measure 8 (xts_img (toy_comps [] 0x3000))
              {| arg_type := PV_COMP_TYPE_KERNEL; arg_path := "/boot/vmlinuz" |}
              user_fs toy_pool (repeat 0x5A (Z.to_nat 5000)))
    with (img' := img') (fs' := fs') (pool' := pool') (rc := rc) as [_ Q];
    try exact R; try reflexivity.
  - vm_compute. congruence.
  - vm_compute. split; congruence.
  - vm_compute. lia.
  - vm_compute. repeat constructor; congruence.
  - split; [reflexivity | intros iv; reflexivity].
  - vm_compute. congruence.
  - vm_compute. congruence.
  - vm_compute. lia.
  - vm_compute. congruence.
  - rewrite Q. vm_compute. reflexivity.
Defined.
